(* ===== verification/_CoqProject ===== *)
-Q . S2P
Prelude.v
GoLib.v
GoNet.v
GoUtf8.v
Sort.v
Kube.v
Api.v
Prog.v
Doc.v
Client.v
Trace.v
Life.v
Placement.v
SnapshotRef.v
Json.v
JsonText.v
JsonProps.v
JobBuild.v
AgentArgs.v
RestorePlan.v
Hooks.v
Serialize.v
ControllerLib.v
SecretCopy.v
BackupCtl.v
BackupPlace.v
BackupSafety.v
Cluster.v
BackupProps.v
BackupProgress.v
BackupOutcome.v
BackupLife.v
RestoreCtl.v
RestoreSafety.v
RestoreProps.v
RestoreProgress.v
RestoreLife.v
ScheduleCtl.v
ScheduleProps.v
ScheduleLife.v
PbsClient.v
PbsProps.v
RepoCtl.v
RepoProps.v
GoPath.v
AgentEnv.v
AgentBackup.v
AgentRestore.v
AgentMain.v
AgentTrace.v
AgentHost.v
AgentBackupProps.v
AgentRestoreProps.v
AgentApplyProps.v
AgentJobs.v
Handoff.v
Rbac.v
RbacProps.v
Schema.v
Typed.v
SchemaProps.v
Operator.v
OperatorProps.v
GoMem.v
DeepCopy.v
DeepCopyProps.v
JsonAny.v
PbsFake.v
PbsFakeProps.v
Scheme.v
EndToEnd.v
Yaml.v
Manifests.v
