(* ===== verification/Prelude.v ===== *)
(** * pbs-operator: a verification library

    pbs-operator is a Kubernetes operator that backs up namespaces to a Proxmox
    Backup Server (PBS) and restores them.  Four reconcilers (internal/controller)
    watch the custom resources PBSRepo, PBSBackup, PBSSchedule and PBSRestore
    (api/v1).  A PBSRepo names a server and its credentials; its reconciler
    probes the server over the pinned HTTP API (internal/pbs) and copies the
    credentials.  A PBSSchedule creates PBSBackups.  A PBSBackup becomes one Job
    per node that holds claims of the namespace, plus a ConfigMap with the
    serialized API objects; a PBSRestore becomes a pipeline of Jobs in the target
    namespace (fetch the API objects, apply what comes before the volumes, fill
    the volumes, apply the workloads).  The Jobs are built by internal/backup and
    run the agent (cmd/agent, internal/agent), which drives proxmox-backup-client
    and kubectl and reports through its termination message, which the backup
    reconciler reads.

    ** How the code is modelled

    A pure Go function is a Coq function of the same name.  A function that
    calls a service is a program of [Prog.prog]: a call with its arguments, and a
    continuation that takes whatever is answered.  There are two sets of calls:
    those of the reconcilers ([Client]: API server, clock, recorder, metrics,
    pods/exec, PBS) and those of the agent ([AgentEnv]: environment, files,
    commands, output).  [Prog.runs p tr x] says that [p] can perform the history
    [tr] (calls with answers) and return [x]; no theorem assumes anything about
    the answers unless it says so, so conflicts, stale caches and failures at
    every call are covered.  [Prog.wp] is the program logic the invariants are
    proved in.  A Go [(T, error)] is a sum [error + T]; a (problem, error) pair is
    a sum of sums; the status of an object is a record that is threaded and
    patched back.  A pointer that may be nil is an [option]; a slice whose nil and
    empty values the code compares (reflect.DeepEqual of a status) is an [option]
    of a list; int64 arithmetic wraps; a string is its bytes.  A deferred call is
    written after the body it guards.  [sort.Slice] is not stable, so it is an
    interface (a sorted permutation) with a merge sort as instance.  Third-party
    code is a class of operations ([KubeLib], [YamlLib], [GroupLib], [HttpLib],
    [CronLib]) that the components take as a parameter, with a concrete instance
    for the runs of the witnesses.  [JsonLib] is such an interface too, with laws
    ([JsonLaws]); [JsonText] implements it and [JsonProps] proves its laws.

    ** Files

    - [Prelude], [GoLib], [GoNet], [GoUtf8], [GoPath], [Sort], [Doc]: shared
      lemmas; the functions of the Go standard library the program calls
      (strings, strconv, hash/fnv, time; crypto/sha256, encoding/hex, net/url;
      unicode/utf8 and [%q]; path/filepath); sorting; decoded documents
      ([map[string]any]).
    - [Json], [JsonText], [JsonProps]: what is promised of encoding/json, the
      encoder and the decoder on the types of the program, and why they keep the
      promise.
    - [Kube], [Api]: the fields of the Kubernetes objects and of the custom
      resources (api/v1) that the program uses.
    - [Prog], [Client], [Trace], [Life]: effectful programs, the services,
      reasoning on histories, and on the stored status of an object over many
      reconciles.
    - [Placement] (internal/backup/placement.go), [SnapshotRef] (snapshotref.go),
      [JobBuild] (job.go), [RestorePlan] (restore_plan.go), [Serialize]
      (serialize.go), [Hooks] (internal/hooks/exec.go).
    - [ControllerLib], [SecretCopy]: what the reconcilers share.
    - [BackupCtl] (pbsbackup_controller.go) and its theorems in [BackupPlace],
      [BackupSafety], [BackupProps], [BackupProgress], [BackupOutcome], [BackupLife].
    - [RestoreCtl] (pbsrestore_controller.go) and its theorems in [RestoreSafety],
      [RestoreProps], [RestoreProgress], [RestoreLife].
    - [ScheduleCtl] (pbsschedule_controller.go) and [ScheduleProps], [ScheduleLife].
    - [PbsClient] (internal/pbs: client.go, namespace.go, snapshots.go, tasks.go)
      and [PbsProps]; [RepoCtl] (pbsrepo_controller.go) and [RepoProps].
    - [AgentArgs] (the flag parsing and the dispatch of cmd/agent/main.go),
      [AgentEnv] (the calls and the steps the runs share), [AgentBackup]
      (internal/agent/backup.go), [AgentRestore] (internal/agent/restore.go),
      [AgentMain] (the process); [AgentTrace] (reasoning on their histories);
      their theorems in [AgentBackupProps], [AgentRestoreProps],
      [AgentApplyProps].
    - [AgentJobs]: the Jobs and the processes in their containers together;
      [Handoff]: the agent's report and the reconciler that reads it; [EndToEnd]:
      from a backup Job's process to the extraction of what it stored.
    - [Operator] (cmd/main.go and the [SetupWithManager] of the reconcilers) and
      [OperatorProps].
    - [Rbac] (the rbac markers and config/rbac/role.yaml) and [RbacProps]; [Schema]
      (the schemas of config/crd/bases), [Typed] (which values the reconcilers
      write) and [SchemaProps].
    - [Scheme]: the registration of the types (groupversion_info.go, the [init]s of
      api/v1 and of cmd/main.go) and the kinds of the resource definitions.
    - [GoMem]: a memory of blocks, pointers and slices; [DeepCopy]
      (api/v1/zz_generated.deepcopy.go) and [DeepCopyProps].
    - [JsonAny]: encoding/json on any value, written and read back; [PbsFake]
      (internal/pbs/pbstest/pbstest.go) and, with the client, [PbsFakeProps].
    - [Yaml]: what is promised of the YAML codec, with JSON as an instance;
      [Manifests]: api.yaml from the serializer to the restore plan.
    - [Cluster], [AgentHost]: an executable API server and an executable host, on
      which the reconcilers and the agent are run ([Prog.exec]) to show that the
      hypotheses of the theorems can be met.

    ** What is proved

    - Reconcilers, for every history: one combined invariant per reconciler
      ([BackupSafety.wp_Reconcile] and the like) from which follow when a Job may
      be created (repo Ready, earlier stages done, hooks done, no record of a
      deleted Job), how the status may change (a backup's phase moves forward only; a
      restore's phase is the one that was read, or that of the stage it waits for
      with all earlier stages done, or terminal; times set once, records never lost,
      Completed only when everything is), what may be written and where (namespace,
      roles, owner references, and of secrets only the copy of the repo's), which
      events and metrics are emitted, and that a reconcile that ends without an error
      has finished the object, or asks to run again after it launched a Job, saw one
      that has not finished, or observed what holds the object.
    - Objects over their life ([Life]): from a new object on, over any number of
      reconciles, interrupted ones and failed patches included.  As long as the
      reconciles read the object as it is stored ([Life.life]), every stored status
      is consistent (a completion time exactly when terminal, a result only
      when completed), a backup's phase never goes back, a terminal status never
      changes, and a Job that a restore recorded is never created again.  The
      reconcilers read through the manager's cache, which may lag: then
      ([Life.cached_life]: a read answers any status that was ever stored) a
      terminal status still has a completion time and no start or completion time is
      ever erased, but the phase can go back, as [BackupLife.stale_read_goes_back]
      shows.
    - Schedules: a backup is created only for a due slot that no earlier one took,
      never while suspended; the slot is the
      latest that is due; its name is injective in the slot; the catch-up loop ends
      whenever the activations advance.  Over any number of reconciles and edits of
      the expression, the schedule read as it is stored, the last fire time never goes
      back and a recorded slot is never fired again; whatever was read, two creations
      for one slot ask for one name, so the second is answered that the backup exists;
      a reconcile that ends leaves no slot behind.
    - The PBS side: every request goes to a server whose certificate has the
      configured fingerprint, and the check accepts one digest only; a repo is
      Ready only after a probe that succeeded; a namespace is reported as there
      only if the server said so; a task as done only if it ended with OK.
    - The agent, for every history: which commands run, in which order and after
      what (the configuration is complete, the key file holds the key, the target
      is empty, the earlier commands succeeded); a restore of manifests carries
      out the plan of its phase step by step; whatever fails, the removal of every
      temp file is asked for (the code ignores what [os.Remove] answers) and the
      termination log is written once, with a result only when everything succeeded;
      and a backup or an apply in which nothing goes wrong ends with 0.
    - Steps of the reconcilers: the claims are partitioned by node, the states of
      the Jobs decide the phase, the credential copies hold the contract keys only,
      the record of Jobs is the merge of live and remembered ones.
    - Builders and plans: pods are well-formed and mount exactly the claims of
      their group; restore documents are classified once, in order, and stripped of
      exactly the cluster-bound fields; the serialized namespace holds every object of
      every kind that is to be backed up, is independent of the order of the listing,
      and a serialization fails only for a listed cause.
    - The manifests: of every object that a backup serialized and that the codec keeps,
      a restore parses exactly one document, which keeps what [Manifests.kept] says,
      and applies it once unless its kind is dropped; the claims it fills are those
      of the namespace ([Manifests.manifests_restored]).
    - Contracts between the binaries: the process of each Job is the run the Job
      was built for; the archive a backup stores for a claim is the one a restore
      extracts, each from and to the path where its pod mounts the claim; what the
      agent reports is what the reconciler reads; what a backup records is a
      reference a restore accepts; end to end, of a completed backup whose pods
      carried their reports, each Job's process ended well and stored its claims, and
      a restore of the recorded reference extracts exactly those archives
      ([EndToEnd.backup_restorable]).
    - The JSON text: a string that was encoded is decoded as itself, up to bytes
      that are not UTF-8, and so is any value ([JsonAny.json_parse_any]); the
      parser's fuel never matters.
    - The process: [main] refines a specification by its command line: which options
      the manager gets, that the four reconcilers are set up with the services they
      call before it starts, and that every failure exits with 1.
    - The scheme: the process does not panic while it registers its types, and knows
      the kind and the list kind of each resource definition by its own Go type; a
      builder copied before the [init]s would know none
      ([Scheme.copied_builder]).
    - Permissions: every call of every reconciler is allowed by the markers of its
      file, except one patch whose error is discarded; the generated role grants
      exactly what the markers ask for.
    - Schemas: every status a reconciler writes is accepted by the schema of its
      resource, as long as what the environment contributes to messages is short
      enough; the pattern of a cron expression is that of five fields.
    - Deep copies: a copy shares no block with its original and none of either is
      written by a later write to the other, which is what lets the reconcilers be
      modelled with immutable values.
    - The client against the fake server of the tests: it accepts its certificate,
      reads back the snapshots that were set, and the namespace calls are recorded
      with the token they carry.

    ** Bounds and fuel

    [GoLib.TrimSpace] uses the length of the string, which each step shortens.
    [JsonText.json_parse] uses twice the length of the text and two;
    [JsonProps.json_parse_fuel] shows that any larger amount gives the same value.
    [ScheduleCtl.due_slot] and [PbsClient.WaitTask] take the number of turns as an
    argument and answer [None] when it is used up: the first is shown to answer
    whenever the activations advance and to loop otherwise
    ([ScheduleProps.due_slot_spec], [ScheduleProps.due_slot_stuck]), the second
    polls until the server or the context ends it.

    ** What is not modelled

    The scheme of apimachinery is a parameter with laws ([Scheme.SchemeLaws]); in the
    reconcilers an object is known by its kind.  controller-runtime
    itself (the manager, its caches, the work queues), the session of an exec (its
    error and the bytes of its two streams) and the bytes on the wire are answers of the environment; a request that the
    HTTP client repeats after a redirect is one request.  The certificate of the
    fake server is a parameter.  The monotonic reading of a clock,
    which reflect.DeepEqual of a status sees, is left out.  [json.Unmarshal] into
    a struct whose key occurs twice with an array is taken to decode into the
    elements of the first one.  Case mapping is that of ASCII.  A write to the
    agent's own output streams is taken to succeed. *)

From stdpp Require Export base tactics list option strings gmap sorting pretty.
From stdpp Require Import options.

#[global] Unset Program Cases.

(** ** Sorting

    [sort.Strings] of the Go standard library: the ascending sort by bytewise
    comparison.  Equal strings are indistinguishable, so the unstable sort of
    the Go runtime and the merge sort used here return the same list (lemma
    [sort_Strings_unique]). *)
Definition sort_Strings (l : list string) : list string := merge_sort String.le l.

Lemma sort_Strings_Permutation l : sort_Strings l ≡ₚ l.
Proof. apply merge_sort_Permutation. Qed.

Lemma sort_Strings_Sorted l : Sorted String.le (sort_Strings l).
Proof. apply Sorted_merge_sort, _. Qed.

Lemma sort_Strings_unique l l' :
  l ≡ₚ l' → Sorted String.le l' → sort_Strings l = l'.
Proof.
  intros Hp Hs. apply (Sorted_unique String.le); [apply sort_Strings_Sorted|done|].
  by rewrite sort_Strings_Permutation.
Qed.

Lemma sort_Strings_proper l l' : l ≡ₚ l' → sort_Strings l = sort_Strings l'.
Proof.
  intros Hp. apply sort_Strings_unique; [|apply sort_Strings_Sorted].
  by rewrite sort_Strings_Permutation.
Qed.

Lemma elem_of_sort_Strings x l : x ∈ sort_Strings l ↔ x ∈ l.
Proof. by rewrite sort_Strings_Permutation. Qed.

Lemma NoDup_sort_Strings l : NoDup (sort_Strings l) ↔ NoDup l.
Proof. by rewrite sort_Strings_Permutation. Qed.

(** Go's [x < y] on strings *)
Definition string_lt (x y : string) : bool := negb (bool_decide (String.le y x)).

Lemma string_lt_false x y : string_lt y x = false ↔ String.le x y.
Proof. unfold string_lt. by rewrite negb_false_iff, bool_decide_eq_true. Qed.

#[export] Instance sort_Strings_Proper : Proper ((≡ₚ) ==> (=)) sort_Strings.
Proof. intros l l'. apply sort_Strings_proper. Qed.

(** ** Hint databases

    [golib]: rewriting rules on strings.  [traces]: facts about the calls a
    program makes.  [jobs]: projections of the Jobs the builders assemble. *)
Create Rewrite HintDb golib.
Create Rewrite HintDb traces.
Create Rewrite HintDb jobs.
Create HintDb traces discriminated.
