(* ===== verification/GoLib.v ===== *)
(** * The parts of the Go standard library the program relies on

    Executable models of the functions of [strings], [strconv], [hash/fnv],
    [fmt] and [time] that the source calls, with the lemmas the components
    share.  A Go string is a byte sequence: here [string] (a list of bytes), so
    [len] is [String.length] and [<] is bytewise comparison. *)

From S2P Require Import Prelude.
From Stdlib Require Import Ascii.
From stdpp Require Import options.

Local Open Scope Z_scope.

#[global] Arguments Ascii.eqb : simpl never.
#[global] Arguments String.append : simpl never.

(** ** Slicing and searching: package [strings] *)

(** [s[n:]] *)
Fixpoint sdrop (n : nat) (s : string) : string :=
  match n, s with
  | O, _ => s
  | S n', String _ t => sdrop n' t
  | S _, EmptyString => EmptyString
  end.

(** [s[:n]] *)
Fixpoint stake (n : nat) (s : string) : string :=
  match n, s with
  | O, _ => EmptyString
  | S n', String a t => String a (stake n' t)
  | S _, EmptyString => EmptyString
  end.

Fixpoint HasPrefix (s p : string) : bool :=
  match p, s with
  | EmptyString, _ => true
  | String a p', String b s' => Ascii.eqb a b && HasPrefix s' p'
  | String _ _, EmptyString => false
  end.

Definition TrimPrefix (s p : string) : string :=
  if HasPrefix s p then sdrop (String.length p) s else s.

(** [strings.Contains] *)
Fixpoint Contains (s sub : string) : bool :=
  HasPrefix s sub || match s with EmptyString => false | String _ t => Contains t sub end.

(** [strings.IndexByte]; [None] is [-1]. *)
Fixpoint IndexByte (s : string) (c : ascii) : option nat :=
  match s with
  | EmptyString => None
  | String a t => if Ascii.eqb a c then Some O else S <$> IndexByte t c
  end.

(** [strings.Split] for a one-byte separator. *)
Fixpoint SplitByte (s : string) (c : ascii) : list string :=
  match s with
  | EmptyString => [EmptyString]
  | String a t =>
      if Ascii.eqb a c then EmptyString :: SplitByte t c
      else match SplitByte t c with
           | [] => [String a EmptyString]
           | w :: ws => String a w :: ws
           end
  end.

(** [strings.Join] *)
Fixpoint Join (l : list string) (sep : string) : string :=
  match l with
  | [] => EmptyString
  | [s] => s
  | s :: l' => s +:+ sep +:+ Join l' sep
  end.

(** [strings.TrimRight] for a one-byte cutset. *)
Fixpoint TrimRightByte (s : string) (c : ascii) : string :=
  match s with
  | EmptyString => EmptyString
  | String a t =>
      match TrimRightByte t c with
      | EmptyString => if Ascii.eqb a c then EmptyString else String a EmptyString
      | t' => String a t'
      end
  end.

Fixpoint srev_onto (s acc : string) : string :=
  match s with
  | EmptyString => acc
  | String a t => srev_onto t (String a acc)
  end.
Definition srev (s : string) : string := srev_onto s EmptyString.

Definition newline : string := String "010" EmptyString.
Definition byte (n : N) : string := String (ascii_of_N n) EmptyString.

(** The UTF-8 encodings of the code points [unicode.IsSpace] accepts. *)
Definition space_encodings : list string :=
  (byte <$> [9; 10; 11; 12; 13; 32])%N ++
  [byte 0xC2 +:+ byte 0x85; byte 0xC2 +:+ byte 0xA0;
   byte 0xE1 +:+ byte 0x9A +:+ byte 0x80] ++
  ((λ b, byte 0xE2 +:+ byte 0x80 +:+ byte b) <$>
     [0x80; 0x81; 0x82; 0x83; 0x84; 0x85; 0x86; 0x87; 0x88; 0x89; 0x8A;
      0xA8; 0xA9; 0xAF])%N ++
  [byte 0xE2 +:+ byte 0x81 +:+ byte 0x9F; byte 0xE3 +:+ byte 0x80 +:+ byte 0x80].

(** Strip leading members of [encs]; [fuel] bounds the number stripped, and
    the length of the string is always enough. *)
Fixpoint trim_left_fuel (fuel : nat) (encs : list string) (s : string) : string :=
  match fuel with
  | O => s
  | S fuel' =>
      match list_find (λ e, HasPrefix s e) encs with
      | Some (_, e) => trim_left_fuel fuel' encs (sdrop (String.length e) s)
      | None => s
      end
  end.

(** [strings.TrimSpace] *)
Definition TrimSpace (s : string) : string :=
  let l := trim_left_fuel (String.length s) space_encodings s in
  srev (trim_left_fuel (String.length l) (srev <$> space_encodings) (srev l)).

(** ** Formatting *)

(** [%d] of an integer. *)
Definition fmt_d (z : Z) : string := pretty z.

Definition hex_digit (d : Z) : ascii :=
  ascii_of_N (Z.to_N (if d <? 10 then 48 + d else 87 + d)).

(** The [n] low hexadecimal digits of [z], most significant first: [%0nx] of a
    value below [16^n]. *)
Fixpoint fmt_hex (n : nat) (z : Z) : string :=
  match n with
  | O => EmptyString
  | S n' => fmt_hex n' (Z.shiftr z 4) +:+ String (hex_digit (Z.land z 15)) EmptyString
  end.

(** [%08x] of a [uint32]. *)
Definition fmt_08x (z : Z) : string := fmt_hex 8 z.

(** [hash/fnv]: 32-bit FNV-1a. *)
Definition fnv32_offset : Z := 2166136261.
Definition fnv32_prime : Z := 16777619.
Definition fnv32a_step (h : Z) (c : ascii) : Z :=
  (Z.lxor h (Z.of_N (N_of_ascii c)) * fnv32_prime) mod 2 ^ 32.
Fixpoint fnv32a_from (h : Z) (s : string) : Z :=
  match s with
  | EmptyString => h
  | String c t => fnv32a_from (fnv32a_step h c) t
  end.
Definition fnv32a (s : string) : Z := fnv32a_from fnv32_offset s.

(** Addition on [int64] *)
Definition add_int64 (x y : Z) : Z := (x + y + 2 ^ 63) mod 2 ^ 64 - 2 ^ 63.

(** The sum is exact as long as it fits. *)
Lemma add_int64_exact x y : 0 ≤ x → 0 ≤ y → x + y < 2 ^ 63 → add_int64 x y = x + y.
Proof. intros Hx Hy Hs. unfold add_int64. rewrite Z.mod_small by lia. lia. Qed.

Lemma add_int64_range x y : - 2 ^ 63 ≤ add_int64 x y < 2 ^ 63.
Proof.
  unfold add_int64. pose proof (Z.mod_pos_bound (x + y + 2 ^ 63) (2 ^ 64) ltac:(lia)). lia.
Qed.

(** ** Time: package [time]

    An instant is its number of nanoseconds since the Unix epoch. *)
Definition Second : Z := 1000000000.
Definition Minute : Z := 60 * Second.

(** [Time.Unix] *)
Definition Unix (t : Z) : Z := t / Second.

(** [Time.Sub], which saturates at the bounds of an [int64] duration *)
Definition Sub (t u : Z) : Z := Z.max (- 2 ^ 63) (Z.min (t - u) (2 ^ 63 - 1)).

(** Proleptic Gregorian date of a day number counted from 1970-01-01. *)
Definition civil_of_days (days : Z) : Z * Z * Z :=
  let z := days + 719468 in
  let era := z / 146097 in
  let doe := z mod 146097 in
  let yoe := (doe - doe / 1460 + doe / 36524 - doe / 146096) / 365 in
  let doy := doe - (365 * yoe + yoe / 4 - yoe / 100) in
  let mp := (5 * doy + 2) / 153 in
  let d := doy - (153 * mp + 2) / 5 + 1 in
  let m := if mp <? 10 then mp + 3 else mp - 9 in
  let y := yoe + era * 400 + (if m <=? 2 then 1 else 0) in
  (y, m, d).

(** Zero-padded decimal, at least [w] digits. *)
Definition zpad (w : nat) (z : Z) : string :=
  let s := pretty (Z.abs_N z) in
  (if z <? 0 then "-" else "") +:+
  String.string_of_list_ascii (repeat "0"%char (w - String.length s)) +:+ s.

(** [time.Unix(sec, 0).UTC().Format(time.RFC3339)] *)
Definition FormatRFC3339_UTC (sec : Z) : string :=
  let days := sec / 86400 in
  let sod := sec mod 86400 in
  let '(y, m, d) := civil_of_days days in
  zpad 4 y +:+ "-" +:+ zpad 2 m +:+ "-" +:+ zpad 2 d +:+ "T" +:+
  zpad 2 (sod / 3600) +:+ ":" +:+ zpad 2 (sod / 60 mod 60) +:+ ":" +:+
  zpad 2 (sod mod 60) +:+ "Z".

Example rfc3339_epoch : FormatRFC3339_UTC 0 = "1970-01-01T00:00:00Z".
Proof. reflexivity. Qed.
Example rfc3339_leap : FormatRFC3339_UTC 1709209805 = "2024-02-29T12:30:05Z".
Proof. reflexivity. Qed.
Example trim_example : TrimSpace (byte 32 +:+ "a b" +:+ byte 0xC2 +:+ byte 0xA0 +:+ byte 10) = "a b".
Proof. reflexivity. Qed.
Example fnv_example : fmt_08x (fnv32a "hello") = "4f9f2cab".
Proof. reflexivity. Qed.
Example split_example : SplitByte "a//b" "/" = ["a"; ""; "b"].
Proof. reflexivity. Qed.

(** ** Lemmas *)

Lemma append_cons a s t : String a s +:+ t = String a (s +:+ t).
Proof. done. Qed.

Lemma append_nil_l s : "" +:+ s = s.
Proof. done. Qed.

Lemma append_nil_r s : s +:+ "" = s.
Proof. induction s as [|a s IH]; [done|]. by rewrite append_cons, IH. Qed.
Lemma length_append s t : String.length (s +:+ t) = (String.length s + String.length t)%nat.
Proof. induction s as [|a s IH]; [done|]. rewrite append_cons. cbn. by rewrite IH. Qed.

Lemma append_assoc s t u : (s +:+ t) +:+ u = s +:+ (t +:+ u).
Proof. induction s as [|a s IH]; [done|]. by rewrite !append_cons, IH. Qed.

Lemma length_stake n s : String.length (stake n s) = (n `min` String.length s)%nat.
Proof. revert s. induction n as [|n IH]; intros [|a s]; cbn; auto. Qed.

Lemma length_TrimRightByte s c : (String.length (TrimRightByte s c) ≤ String.length s)%nat.
Proof.
  induction s as [|a s IH]; cbn; [done|].
  destruct (TrimRightByte s c); [destruct (Ascii.eqb a c)|]; cbn in *; lia.
Qed.

Lemma length_fmt_hex n z : String.length (fmt_hex n z) = n.
Proof.
  revert z. induction n as [|n IH]; intros z; [done|].
  cbn. rewrite length_append, IH. cbn. lia.
Qed.

Lemma HasPrefix_spec s p : HasPrefix s p = true ↔ ∃ t, s = p +:+ t.
Proof.
  revert s. induction p as [|a p IH]; intros s; simpl.
  - split; [by exists s|by destruct s].
  - destruct s as [|b s].
    + split; [done|]. intros [t Ht]. discriminate Ht.
    + simpl. rewrite andb_true_iff, IH, Ascii.eqb_eq. split.
      * intros [-> [t ->]]. by exists t.
      * intros [t Ht]. rewrite append_cons in Ht. injection Ht as -> ->. eauto.
Qed.

Lemma HasPrefix_app p t : HasPrefix (p +:+ t) p = true.
Proof. apply HasPrefix_spec. eauto. Qed.

Lemma sdrop_app p t : sdrop (String.length p) (p +:+ t) = t.
Proof. induction p; [done|]. done. Qed.

Lemma TrimPrefix_app p t : TrimPrefix (p +:+ t) p = t.
Proof. unfold TrimPrefix. by rewrite HasPrefix_app, sdrop_app. Qed.

Lemma append_inj_l s t u : s +:+ t = s +:+ u → t = u.
Proof. induction s as [|a s IH]; [done|]. rewrite !append_cons. intros [= H]. auto. Qed.

Lemma fnv32a_step_range h c : 0 ≤ fnv32a_step h c < 2 ^ 32.
Proof. apply Z.mod_pos_bound. done. Qed.

Lemma fnv32a_range s : 0 ≤ fnv32a s < 2 ^ 32.
Proof.
  unfold fnv32a. assert (H : 0 ≤ fnv32_offset < 2 ^ 32) by done.
  revert H. generalize fnv32_offset.
  induction s as [|a s IH]; intros h H; cbn; [done|].
  apply IH, fnv32a_step_range.
Qed.

(** *** Rendering in hexadecimal loses nothing *)

Lemma append_inj_same_length s t u v :
  String.length u = String.length v → s +:+ u = t +:+ v → s = t ∧ u = v.
Proof.
  intros Hl Heq. assert (Hlen : String.length s = String.length t).
  { apply (f_equal String.length) in Heq. rewrite !length_append in Heq. lia. }
  revert t Hlen Heq. induction s as [|a s IH]; intros [|b t] Hlen Heq; try done.
  rewrite !append_cons in Heq. injection Heq as -> Heq.
  destruct (IH t) as [-> ->]; [cbn in Hlen; lia|done|done].
Qed.

Lemma hex_digit_inj : ∀ d e, 0 ≤ d < 16 → 0 ≤ e < 16 → hex_digit d = hex_digit e → d = e.
Proof.
  assert (H : Forall (λ d, Forall (λ e, hex_digit d = hex_digit e → d = e) (seqZ 0 16)) (seqZ 0 16)).
  { apply (bool_decide_unpack _). by vm_compute. }
  intros d e Hd He. rewrite Forall_forall in H.
  specialize (H d ltac:(apply elem_of_seqZ; lia)). rewrite Forall_forall in H.
  apply H, elem_of_seqZ. lia.
Qed.

Lemma fmt_hex_inj n x y :
  0 ≤ x < 16 ^ Z.of_nat n → 0 ≤ y < 16 ^ Z.of_nat n → fmt_hex n x = fmt_hex n y → x = y.
Proof.
  revert x y. induction n as [|n IH]; intros x y Hx Hy Heq; [cbn in Hx, Hy; lia|].
  cbn [fmt_hex] in Heq. rewrite !Z.shiftr_div_pow2 in Heq by done.
  change 15 with (Z.ones 4) in Heq. rewrite !Z.land_ones in Heq by done.
  change (2 ^ 4) with 16 in Heq.
  apply append_inj_same_length in Heq as [Hq [= Hr]]; [|done].
  apply hex_digit_inj in Hr; [|apply Z.mod_pos_bound; lia..].
  rewrite Nat2Z.inj_succ, Z.pow_succ_r in Hx, Hy by lia.
  apply IH in Hq; [|split; [apply Z.div_pos; lia|apply Z.div_lt_upper_bound; lia]..].
  rewrite (Z.div_mod x 16), (Z.div_mod y 16) by done. congruence.
Qed.

(** Bytes of a byte list, for membership reasoning on strings. *)
Fixpoint byte_in (c : ascii) (s : string) : bool :=
  match s with
  | EmptyString => false
  | String a t => Ascii.eqb a c || byte_in c t
  end.

Lemma byte_in_append c s t : byte_in c (s +:+ t) = byte_in c s || byte_in c t.
Proof. induction s as [|a s IH]; [done|]. rewrite append_cons. cbn. by rewrite IH, orb_assoc. Qed.

#[export] Hint Rewrite length_append length_stake length_fmt_hex byte_in_append : golib.

(** [Split] at separators that occur. *)
Lemma SplitByte_no_sep s c : byte_in c s = false → SplitByte s c = [s].
Proof.
  induction s as [|a s IH]; [done|]. cbn. intros [-> Hs]%orb_false_iff. by rewrite (IH Hs).
Qed.

Lemma SplitByte_app s t c :
  byte_in c s = false → SplitByte (s +:+ String c t) c = s :: SplitByte t c.
Proof.
  induction s as [|a s IH]; intros Hs.
  - rewrite append_nil_l. cbn. by rewrite Ascii.eqb_refl.
  - cbn in Hs. apply orb_false_iff in Hs as [Ha Hs]. rewrite append_cons. cbn.
    by rewrite Ha, (IH Hs).
Qed.

(** Decimal numerals hold digits (and a sign) only. *)
Lemma byte_in_pretty_N c (n : N) :
  (∀ x, pretty_N_char x ≠ c) → byte_in c (pretty n) = false.
Proof.
  intros Hc. unfold pretty, pretty_N. case_decide.
  { cbn. rewrite orb_false_r. apply Ascii.eqb_neq. apply (Hc 0%N). }
  assert (∀ s, byte_in c s = false → byte_in c (pretty_N_go n s) = false) as H'; [|by apply H'].
  clear H. induction (N.lt_wf_0 n) as [x _ IH]. intros s Hs.
  destruct (decide (0 < x)%N) as [Hx|Hx].
  - rewrite pretty_N_go_step by done. apply IH.
    + apply N.div_lt; lia.
    + cbn. rewrite Hs, orb_false_r. apply Ascii.eqb_neq, Hc.
  - replace x with 0%N by lia. by rewrite pretty_N_go_0.
Qed.

Lemma pretty_N_char_not c :
  (N_of_ascii c < 48 ∨ 57 < N_of_ascii c)%N → ∀ x, pretty_N_char x ≠ c.
Proof.
  intros H x <-. unfold pretty_N_char in H.
  repeat match type of H with context [match ?y with _ => _ end] => destruct y end;
    cbn in H; lia.
Qed.

Lemma byte_in_pretty_Z c (z : Z) :
  c ≠ "-"%char → (∀ x, pretty_N_char x ≠ c) → byte_in c (pretty z) = false.
Proof.
  intros Hd Hc. destruct z as [|p|p]; cbn -[pretty_N].
  - by apply (byte_in_pretty_N c 0).
  - by apply (byte_in_pretty_N c (N.pos p)).
  - change (byte_in c ("-" +:+ pretty (N.pos p)) = false).
    rewrite byte_in_append, byte_in_pretty_N by done. cbn.
    rewrite orb_false_r. apply orb_false_iff. split; [|done]. apply Ascii.eqb_neq. congruence.
Qed.

Lemma byte_in_pretty_nonneg c (z : Z) :
  0 ≤ z → (∀ x, pretty_N_char x ≠ c) → byte_in c (pretty z) = false.
Proof.
  intros Hz Hc. destruct z as [|p|p]; cbn -[pretty_N]; [|by apply (byte_in_pretty_N c (N.pos p))|lia].
  by apply (byte_in_pretty_N c 0).
Qed.

Lemma byte_in_repeat c a n : a ≠ c → byte_in c (String.string_of_list_ascii (repeat a n)) = false.
Proof. intros H. induction n as [|n IH]; cbn; [done|]. rewrite IH, orb_false_r. by apply Ascii.eqb_neq. Qed.

Lemma byte_in_zpad c w z :
  c ≠ "-"%char → c ≠ "0"%char → (∀ x, pretty_N_char x ≠ c) → byte_in c (zpad w z) = false.
Proof.
  intros Hd H0 Hc. unfold zpad. rewrite !byte_in_append, byte_in_pretty_N by done.
  rewrite byte_in_repeat by congruence. simpl. rewrite orb_false_r.
  destruct (z <? 0); cbn; [|done]. rewrite orb_false_r. apply Ascii.eqb_neq. congruence.
Qed.

Lemma FormatRFC3339_no_slash sec : byte_in "/" (FormatRFC3339_UTC sec) = false.
Proof.
  unfold FormatRFC3339_UTC. destruct (civil_of_days _) as [[y m] d].
  assert (∀ x, pretty_N_char x ≠ "/"%char) as Hs.
  { apply pretty_N_char_not. left. done. }
  rewrite !byte_in_append, !byte_in_zpad by done. done.
Qed.

(** *** Trimming *)

Lemma srev_onto_app s t acc : srev_onto (s +:+ t) acc = srev_onto t (srev_onto s acc).
Proof. revert acc. induction s as [|a s IH]; intros acc; [done|]. rewrite append_cons. apply IH. Qed.

Lemma srev_onto_srev s acc : srev_onto s acc = srev s +:+ acc.
Proof.
  revert acc. induction s as [|a s IH]; intros acc; [done|]. unfold srev. cbn.
  rewrite IH, (IH (String a "")), append_assoc. done.
Qed.

Lemma srev_app s t : srev (s +:+ t) = srev t +:+ srev s.
Proof. unfold srev at 1. by rewrite srev_onto_app, srev_onto_srev. Qed.

Lemma srev_srev s : srev (srev s) = s.
Proof.
  induction s as [|a s IH]; [done|].
  change (String a s) with (String a "" +:+ s) at 1. rewrite srev_app, srev_app, IH. done.
Qed.

Lemma trim_left_none n encs s : Forall (λ e, HasPrefix s e = false) encs → trim_left_fuel n encs s = s.
Proof.
  intros Hall. destruct n as [|n]; [done|]. cbn [trim_left_fuel].
  destruct (list_find _ encs) as [[i e]|] eqn:Hf; [|done].
  apply list_find_Some in Hf as (Hi & Hp & _). rewrite Forall_forall in Hall.
  rewrite (Hall e) in Hp by by eapply list_elem_of_lookup_2. done.
Qed.

(** A string with no space at either end is kept. *)
Lemma TrimSpace_id s :
  Forall (λ e, HasPrefix s e = false) space_encodings →
  Forall (λ e, HasPrefix (srev s) e = false) (srev <$> space_encodings) → TrimSpace s = s.
Proof.
  intros H1 H2. unfold TrimSpace. rewrite (trim_left_none _ _ s H1).
  rewrite trim_left_none by done. apply srev_srev.
Qed.
