(* ===== verification/GoNet.v ===== *)
(** * Standard library functions behind the PBS client

    [crypto/sha256], [encoding/hex], [strings.ToUpper], [strings.ToLower],
    [strings.Replacer] for single bytes, [url.PathEscape] and [url.QueryEscape],
    as executable definitions.  Case mapping is that of ASCII: what the program
    does with the result (comparing hexadecimal digits, searching an ASCII phrase)
    does not depend on other letters. *)

From S2P Require Import Prelude GoLib.
From Stdlib Require Import Ascii.
From stdpp Require Import options.

Local Open Scope Z_scope.

Definition byte_val (c : ascii) : Z := Z.of_N (N_of_ascii c).
Definition val_byte (z : Z) : ascii := ascii_of_N (Z.to_N z).
Fixpoint bytes_of (s : string) : list Z :=
  match s with EmptyString => [] | String c t => byte_val c :: bytes_of t end.
Fixpoint string_of (l : list Z) : string :=
  match l with [] => EmptyString | b :: l' => String (val_byte b) (string_of l') end.

Fixpoint smap (f : ascii → string) (s : string) : string :=
  match s with EmptyString => EmptyString | String c t => f c +:+ smap f t end.
Definition char (c : ascii) : string := String c EmptyString.

(** ** strings *)

Definition upper (c : ascii) : ascii :=
  let b := byte_val c in if (97 <=? b) && (b <=? 122) then val_byte (b - 32) else c.
Definition lower (c : ascii) : ascii :=
  let b := byte_val c in if (65 <=? b) && (b <=? 90) then val_byte (b + 32) else c.
Definition ToUpper (s : string) : string := smap (λ c, char (upper c)) s.
Definition ToLower (s : string) : string := smap (λ c, char (lower c)) s.

(** [strings.NewReplacer] with single-byte keys that are replaced by nothing *)
Definition remove_bytes (cs : list ascii) (s : string) : string :=
  smap (λ c, if bool_decide (c ∈ cs) then "" else char c) s.

(** ** encoding/hex, crypto/sha256 *)

Definition hex_byte (b : Z) : string :=
  char (hex_digit (Z.shiftr b 4)) +:+ char (hex_digit (Z.land b 15)).
Definition hex_EncodeToString (bs : list Z) : string := foldr (λ b s, hex_byte b +:+ s) "" bs.

Definition add32 (x y : Z) : Z := (x + y) mod 2 ^ 32.
Definition rotr (n x : Z) : Z := Z.lor (Z.shiftr x n) (Z.shiftl x (32 - n) mod 2 ^ 32).
Definition not32 (x : Z) : Z := Z.lxor x (2 ^ 32 - 1).

(** The constants of FIPS 180-4 by their definition: the first 32 bits of the
    fractional parts of the roots of the first primes. *)
Definition is_prime (n : nat) : bool :=
  forallb (λ d, negb (n mod d =? 0)%nat) (seq 2 (n - 2)).
Definition sha_primes : list Z := Z.of_nat <$> filter (λ n, is_prime n = true) (seq 2 310).

(** The floor of the cube root of [n], by bisection of [lo, lo + 2 ^ bits). *)
Fixpoint cube_root (bits : nat) (lo n : Z) : Z :=
  match bits with
  | O => lo
  | S b => let mid := lo + 2 ^ Z.of_nat b in cube_root b (if mid ^ 3 <=? n then mid else lo) n
  end.

Definition sha_k : list Z :=
  Eval vm_compute in (λ p, cube_root 36 0 (p * 2 ^ 96) mod 2 ^ 32) <$> sha_primes.
Definition sha_h0 : list Z :=
  Eval vm_compute in (λ p, Z.sqrt (p * 2 ^ 64) mod 2 ^ 32) <$> take 8 sha_primes.

(** Sixty-four more words, each from the sixteen before it; [ws] is reversed. *)
Fixpoint sha_schedule (n : nat) (ws : list Z) : list Z :=
  match n with
  | O => reverse ws
  | S n' =>
      let w := λ i, nth (i - 1) ws 0 in
      let s0 := Z.lxor (Z.lxor (rotr 7 (w 15%nat)) (rotr 18 (w 15%nat))) (Z.shiftr (w 15%nat) 3) in
      let s1 := Z.lxor (Z.lxor (rotr 17 (w 2%nat)) (rotr 19 (w 2%nat))) (Z.shiftr (w 2%nat) 10) in
      sha_schedule n' (add32 (add32 (w 16%nat) s0) (add32 (w 7%nat) s1) :: ws)
  end.

Definition sha_round (st : list Z) (kw : Z * Z) : list Z :=
  match st with
  | [a; b; c; d; e; f; g; h] =>
      let s1 := Z.lxor (Z.lxor (rotr 6 e) (rotr 11 e)) (rotr 25 e) in
      let ch := Z.lxor (Z.land e f) (Z.land (not32 e) g) in
      let t1 := add32 (add32 h s1) (add32 ch (add32 kw.1 kw.2)) in
      let s0 := Z.lxor (Z.lxor (rotr 2 a) (rotr 13 a)) (rotr 22 a) in
      let maj := Z.lxor (Z.lxor (Z.land a b) (Z.land a c)) (Z.land b c) in
      [add32 t1 (add32 s0 maj); a; b; c; add32 d t1; e; f; g]
  | _ => st
  end.

Definition sha_block (st : list Z) (words : list Z) : list Z :=
  zip_with add32 st
    (foldl sha_round st (zip sha_k (sha_schedule 48 (reverse words)))).

Fixpoint be_bytes (n : nat) (z : Z) : list Z :=
  match n with O => [] | S n' => be_bytes n' (Z.shiftr z 8) ++ [z mod 256] end.
Definition be_val (bs : list Z) : Z := foldl (λ acc b, acc * 256 + b) 0 bs.

Definition sha_pad (msg : list Z) : list Z :=
  let l := length msg in
  msg ++ [128] ++ replicate ((55 + 64 - l mod 64) mod 64) 0 ++ be_bytes 8 (8 * Z.of_nat l).

(** The chunks of [n] elements; [fuel] is at least their number. *)
Fixpoint chunks (fuel n : nat) (l : list Z) : list (list Z) :=
  match fuel, l with
  | S fuel', _ :: _ => take n l :: chunks fuel' n (drop n l)
  | _, _ => []
  end.

(** [sha256.Sum256] *)
Definition Sum256 (msg : list Z) : list Z :=
  let padded := sha_pad msg in
  foldl (λ st b, sha_block st (be_val <$> chunks 16 4 b)) sha_h0
    (chunks (length padded) 64 padded)
  ≫= be_bytes 4.

Example Sum256_abc :
  hex_EncodeToString (Sum256 (bytes_of "abc")) =
  "ba7816bf8f01cfea414140de5dae2223b00361a396177a9cb410ff61f20015ad".
Proof. by vm_compute. Qed.
Example Sum256_empty :
  hex_EncodeToString (Sum256 []) =
  "e3b0c44298fc1c149afbf4c8996fb92427ae41e4649b934ca495991b7852b855".
Proof. by vm_compute. Qed.
Example Sum256_two_blocks :
  hex_EncodeToString (Sum256 (bytes_of "abcdbcdecdefdefgefghfghighijhijkijkljklmklmnlmnomnopnopq")) =
  "248d6a61d20638b8e5c026930c3e6039a33ce45964ff2167f6ecedd419db06c1".
Proof. by vm_compute. Qed.

(** ** net/url *)

Definition upper_hex (d : Z) : ascii := val_byte (if d <? 10 then 48 + d else 55 + d).
Definition percent (b : Z) : string :=
  String "%" (String (upper_hex (Z.shiftr b 4)) (char (upper_hex (Z.land b 15)))).

(** letters, digits and [-_.~] *)
Definition unreserved (c : ascii) : bool :=
  let b := byte_val c in
  ((97 <=? b) && (b <=? 122)) || ((65 <=? b) && (b <=? 90)) || ((48 <=? b) && (b <=? 57)) ||
  bool_decide (c ∈ ["-"; "_"; "."; "~"]%char).

(** [url.PathEscape] *)
Definition path_safe (c : ascii) : bool :=
  unreserved c || bool_decide (c ∈ ["$"; "&"; "+"; ":"; "="; "@"]%char).
Definition PathEscape (s : string) : string :=
  smap (λ c, if path_safe c then char c else percent (byte_val c)) s.

(** [url.QueryEscape], which [url.Values.Encode] applies to keys and values *)
Definition QueryEscape (s : string) : string :=
  smap (λ c, if unreserved c then char c
             else if bool_decide (c = " "%char) then "+" else percent (byte_val c)) s.

Example PathEscape_slash : PathEscape "a/b c%" = "a%2Fb%20c%25".
Proof. by vm_compute. Qed.
Example QueryEscape_amp : QueryEscape "a&b c=/" = "a%26b+c%3D%2F".
Proof. by vm_compute. Qed.

(** [url.PathUnescape] on the escapes above, for stating that nothing is lost *)
Definition hex_val (c : ascii) : Z :=
  let b := byte_val c in if b <? 58 then b - 48 else b - 55.
Fixpoint PathUnescape (s : string) : string :=
  match s with
  | EmptyString => EmptyString
  | String c t =>
      if bool_decide (c = "%"%char) then
        match t with
        | String x (String y t') => String (val_byte (16 * hex_val x + hex_val y)) (PathUnescape t')
        | _ => EmptyString
        end
      else String c (PathUnescape t)
  end.

Lemma all_bytes (P : ascii → bool) :
  forallb P (val_byte <$> seqZ 0 256) = true → ∀ c, P c = true.
Proof.
  rewrite forallb_forall. intros HP c. apply HP, list_elem_of_In, list_elem_of_fmap.
  exists (byte_val c). unfold val_byte, byte_val. rewrite N2Z.id, ascii_N_embedding.
  split; [done|]. apply elem_of_seqZ. pose proof (N_ascii_bounded c). lia.
Qed.

Lemma PathUnescape_PathEscape_app s t : PathUnescape (PathEscape s +:+ t) = s +:+ PathUnescape t.
Proof.
  assert (Hb : ∀ c t, PathUnescape ((if path_safe c then char c else percent (byte_val c)) +:+ t) =
                      String c (PathUnescape t)).
  { intros c u. pose proof (all_bytes (λ c,
      if path_safe c then negb (bool_decide (c = "%"%char))
      else bool_decide (val_byte (16 * hex_val (upper_hex (Z.shiftr (byte_val c) 4)) +
             hex_val (upper_hex (Z.land (byte_val c) 15))) = c)) eq_refl c) as Hc.
    cbv beta in Hc. destruct (path_safe c).
    - change (PathUnescape (String c u) = String c (PathUnescape u)). cbn [PathUnescape].
      apply negb_true_iff, bool_decide_eq_false in Hc. by rewrite bool_decide_eq_false_2.
    - apply bool_decide_eq_true in Hc. unfold percent.
      change (String (val_byte (16 * hex_val (upper_hex (Z.shiftr (byte_val c) 4)) +
        hex_val (upper_hex (Z.land (byte_val c) 15)))) (PathUnescape u) = String c (PathUnescape u)).
      by rewrite Hc. }
  induction s as [|c s IH]; [done|]. cbn [PathEscape smap]. fold (PathEscape s).
  rewrite append_assoc, Hb. by rewrite IH.
Qed.
Lemma PathUnescape_PathEscape s : PathUnescape (PathEscape s) = s.
Proof.
  rewrite <- (append_nil_r (PathEscape s)), PathUnescape_PathEscape_app. apply append_nil_r.
Qed.

(** The result is one path segment: no slash, no query, no fragment. *)
Lemma PathEscape_segment c s :
  c ∈ ["/"; "?"; "#"; ";"]%char → byte_in c (PathEscape s) = false.
Proof.
  intros Hin. induction s as [|a s IH]; [done|]. cbn [PathEscape smap]. fold (PathEscape s).
  rewrite byte_in_append, IH, orb_false_r.
  pose proof (all_bytes (λ a, forallb
    (λ c, negb (byte_in c (if path_safe a then char a else percent (byte_val a))))
    ["/"; "?"; "#"; ";"]%char) eq_refl a) as Ha.
  cbv beta in Ha. rewrite forallb_forall in Ha. apply negb_true_iff, Ha. by apply list_elem_of_In.
Qed.

(** ** strconv *)

Fixpoint digits_val (acc : Z) (s : string) : option Z :=
  match s with
  | EmptyString => Some acc
  | String c t =>
      let b := byte_val c in
      if (48 <=? b) && (b <=? 57) then digits_val (acc * 10 + (b - 48)) t else None
  end.

(** [strconv.Atoi] on a 64-bit platform; [None] is its error. *)
Definition Atoi (s : string) : option Z :=
  let '(neg, ds) := match s with
                    | String c t => if bool_decide (c = "-"%char) then (true, t)
                                    else if bool_decide (c = "+"%char) then (false, t) else (false, s)
                    | EmptyString => (false, s)
                    end in
  match ds with
  | EmptyString => None
  | _ => match digits_val 0 ds with
         | None => None
         | Some n => let z := if neg : bool then - n else n in
                     if (- 2 ^ 63 <=? z) && (z <? 2 ^ 63) then Some z else None
         end
  end.

Example Atoi_port : Atoi "8007" = Some 8007 ∧ Atoi "80a" = None ∧ Atoi "" = None ∧ Atoi "-" = None.
Proof. by vm_compute. Qed.

(** *** ASCII text *)
Fixpoint is_ascii (s : string) : bool :=
  match s with EmptyString => true | String c t => (byte_val c <? 128) && is_ascii t end.
Lemma is_ascii_app s t : is_ascii (s +:+ t) = is_ascii s && is_ascii t.
Proof. induction s as [|c s IH]; [done|]. rewrite append_cons. cbn. by rewrite IH, andb_assoc. Qed.

(** *** What [%d] prints *)

Definition is_digit (c : ascii) : bool := (48 <=? byte_val c) && (byte_val c <=? 57).
Fixpoint all_digits (s : string) : bool :=
  match s with EmptyString => true | String c t => is_digit c && all_digits t end.

(** [p] are the decimal digits of [n], without a leading zero. *)
Definition decimal_of (p : string) (n : Z) : Prop :=
  (∃ c t, p = String c t ∧ 49 ≤ byte_val c ≤ 57) ∧ all_digits p = true ∧
  ∀ acc t, digits_val acc (p +:+ t) = digits_val (acc * 10 ^ Z.of_nat (String.length p) + n) t.

Lemma byte_val_digit d : (d < 10)%N → byte_val (pretty_N_char d) = 48 + Z.of_N d.
Proof.
  intros Hd. assert (d = 0 ∨ d = 1 ∨ d = 2 ∨ d = 3 ∨ d = 4 ∨ d = 5 ∨ d = 6 ∨ d = 7 ∨ d = 8 ∨ d = 9)%N
    as [->|[->|[->|[->|[->|[->|[->|[->|[->| ->]]]]]]]]] by lia; done.
Qed.

Lemma digits_val_digit acc d t :
  (d < 10)%N → digits_val acc (String (pretty_N_char d) t) = digits_val (acc * 10 + Z.of_N d) t.
Proof.
  intros Hd. cbn [digits_val]. rewrite byte_val_digit by done.
  rewrite (proj2 (Z.leb_le 48 _)), (proj2 (Z.leb_le _ 57)) by lia. f_equal. lia.
Qed.

Lemma all_digits_app s t : all_digits (s +:+ t) = all_digits s && all_digits t.
Proof. induction s as [|c s IH]; [done|]. rewrite append_cons. cbn. by rewrite IH, andb_assoc. Qed.

Lemma pretty_N_go_decimal x s :
  (0 < x)%N → ∃ p, pretty_N_go x s = p +:+ s ∧ decimal_of p (Z.of_N x).
Proof.
  revert s. induction (N.lt_wf_0 x) as [x _ IH]. intros s Hx. rewrite pretty_N_go_step by done.
  assert (Hm : (x mod 10 < 10)%N) by by apply N.mod_lt.
  assert (Hd : is_digit (pretty_N_char (x mod 10)) = true).
  { unfold is_digit. rewrite byte_val_digit by done. apply andb_true_iff. rewrite !Z.leb_le.
    clear -Hm. revert Hm. generalize (x mod 10)%N. lia. }
  destruct (decide (x < 10)%N) as [Hlt|Hge].
  - rewrite (N.div_small x 10), (N.mod_small x 10), pretty_N_go_0 by done.
    rewrite N.mod_small in Hd by done. exists (char (pretty_N_char x)). split; [done|]. split_and!.
    + exists (pretty_N_char x), "". split; [done|]. rewrite byte_val_digit by done. lia.
    + cbn. by rewrite Hd.
    + intros acc t. change (char (pretty_N_char x) +:+ t) with (String (pretty_N_char x) t).
      rewrite digits_val_digit by done. f_equal.
  - destruct (IH (x / 10)%N) with (s := String (pretty_N_char (x mod 10)) s)
      as (p & Hp & (c & t & -> & Hc) & Hall & Hv); [by apply N.div_lt|apply N.div_str_pos; lia|].
    exists (String c t +:+ char (pretty_N_char (x mod 10))). split; [by rewrite Hp, append_assoc|].
    split_and!.
    + exists c, (t +:+ char (pretty_N_char (x mod 10))). done.
    + rewrite all_digits_app, Hall. cbn. by rewrite Hd.
    + intros acc u. rewrite append_assoc, Hv.
      change (char (pretty_N_char (x mod 10)) +:+ u) with (String (pretty_N_char (x mod 10)) u).
      rewrite digits_val_digit by done. f_equal. rewrite length_append.
      change (String.length (char (pretty_N_char (x mod 10)))) with 1%nat.
      rewrite Nat2Z.inj_add, Z.pow_add_r by lia. change (10 ^ Z.of_nat 1) with 10.
      rewrite N2Z.inj_mod, N2Z.inj_div. pose proof (Z.div_mod (Z.of_N x) 10). lia.
Qed.

Lemma decimal_fmt_d n : 0 < n → decimal_of (fmt_d n) n.
Proof.
  intros Hn. destruct n as [|p|p]; [lia| |lia]. unfold fmt_d.
  change (pretty (Z.pos p)) with (pretty (N.pos p)). unfold pretty, pretty_N.
  rewrite decide_False by done. destruct (pretty_N_go_decimal (N.pos p) "") as (q & Hq & Hd); [lia|].
  by rewrite Hq, append_nil_r.
Qed.

(** [strconv.Atoi] reads back what [%d] prints. *)
Lemma Atoi_fmt_d n : - 2 ^ 63 ≤ n < 2 ^ 63 → Atoi (fmt_d n) = Some n.
Proof.
  intros Hn.
  assert (Hpos : ∀ m, 0 < m → ∃ c t, fmt_d m = String c t ∧ 49 ≤ byte_val c ≤ 57 ∧
                                     digits_val 0 (fmt_d m) = Some m).
  { intros m Hm. destruct (decimal_fmt_d m Hm) as ((c & t & Heq & Hc) & _ & Hv).
    exists c, t. split; [done|]. split; [done|]. specialize (Hv 0 ""). rewrite append_nil_r in Hv. by rewrite Hv. }
  unfold Atoi. destruct n as [|p|p]; [done| |].
  - destruct (Hpos (Z.pos p)) as (c & t & Heq & Hc & Hv); [lia|]. rewrite Heq in *.
    rewrite !bool_decide_eq_false_2 by (intros ->; by destruct Hc as [[] _]). rewrite Hv.
    rewrite (proj2 (Z.leb_le _ _)), (proj2 (Z.ltb_lt _ _)) by lia. done.
  - change (fmt_d (Z.neg p)) with (String "-" (fmt_d (Z.pos p))). cbn iota.
    rewrite bool_decide_eq_true_2 by done. destruct (Hpos (Z.pos p)) as (c & t & Heq & _ & Hv); [lia|].
    rewrite Heq in *. rewrite Hv. change (- Z.pos p) with (Z.neg p).
    rewrite (proj2 (Z.leb_le _ _)), (proj2 (Z.ltb_lt _ _)) by lia. done.
Qed.
