(* ===== verification/GoUtf8.v ===== *)
(** * UTF-8 and quoting

    [unicode/utf8] on strings of bytes, and [strconv.Quote], whose table of the
    printable non-ASCII characters is a parameter. *)

From S2P Require Import Prelude GoLib GoNet.
From Stdlib Require Import Ascii.
From stdpp Require Import options.

Local Open Scope Z_scope.

Definition RuneError : Z := 0xFFFD.

Definition between (lo hi b : Z) : bool := (lo <=? b) && (b <=? hi).

(** The bytes of the second byte's range for a first byte, and the number of bytes
    that follow the first; [None] for a byte that starts no encoding. *)
Definition utf8_lead (b : Z) : option (Z * Z * nat) :=
  if b <? 128 then Some (0, 0, 0%nat)
  else if between 0xC2 0xDF b then Some (0x80, 0xBF, 1%nat)
  else if b =? 0xE0 then Some (0xA0, 0xBF, 2%nat)
  else if b =? 0xED then Some (0x80, 0x9F, 2%nat)
  else if between 0xE1 0xEF b then Some (0x80, 0xBF, 2%nat)
  else if b =? 0xF0 then Some (0x90, 0xBF, 3%nat)
  else if b =? 0xF4 then Some (0x80, 0x8F, 3%nat)
  else if between 0xF1 0xF3 b then Some (0x80, 0xBF, 3%nat)
  else None.

(** [n] continuation bytes, added to [acc]. *)
Fixpoint utf8_cont (n : nat) (lo hi acc : Z) (s : string) : option Z :=
  match n with
  | O => Some acc
  | S n' =>
      match s with
      | EmptyString => None
      | String c t =>
          if between lo hi (byte_val c)
          then utf8_cont n' 0x80 0xBF (acc * 64 + byte_val c mod 64) t else None
      end
  end.

(** [utf8.DecodeRuneInString] of a string that is not empty; an invalid encoding is
    one byte wide, and [None]. *)
Definition decode_rune (c : ascii) (t : string) : option Z * nat :=
  match utf8_lead (byte_val c) with
  | None => (None, 1%nat)
  | Some (lo, hi, n) =>
      let bits := match n with O => byte_val c | S _ => byte_val c mod 2 ^ (6 - Z.of_nat n) end in
      match utf8_cont n lo hi bits t with
      | Some r => (Some r, S n)
      | None => (None, 1%nat)
      end
  end.

Definition valid_rune (r : Z) : bool := between 0 0xD7FF r || between 0xE000 0x10FFFF r.

(** [utf8.AppendRune] *)
Definition encode_rune (r : Z) : string :=
  let r := if valid_rune r then r else RuneError in
  if r <? 0x80 then char (val_byte r)
  else if r <? 0x800 then
    char (val_byte (0xC0 + r / 64)) +:+ char (val_byte (0x80 + r mod 64))
  else if r <? 0x10000 then
    char (val_byte (0xE0 + r / 4096)) +:+ char (val_byte (0x80 + r / 64 mod 64)) +:+
    char (val_byte (0x80 + r mod 64))
  else
    char (val_byte (0xF0 + r / 262144)) +:+ char (val_byte (0x80 + r / 4096 mod 64)) +:+
    char (val_byte (0x80 + r / 64 mod 64)) +:+ char (val_byte (0x80 + r mod 64)).

Example decode_euro : decode_rune (val_byte 0xE2) (string_of [0x82; 0xAC; 0x21]) = (Some 0x20AC, 3%nat).
Proof. by vm_compute. Qed.
Example encode_euro : bytes_of (encode_rune 0x20AC) = [0xE2; 0x82; 0xAC].
Proof. by vm_compute. Qed.
Example decode_surrogate : decode_rune (val_byte 0xED) (string_of [0xA0; 0x80]) = (None, 1%nat).
Proof. by vm_compute. Qed.
Example decode_clef : decode_rune (val_byte 0xF0) (string_of [0x9D; 0x84; 0x9E]) = (Some 0x1D11E, 4%nat).
Proof. by vm_compute. Qed.

(** A string rune by rune: [f] of each character, and of each byte that starts no
    valid encoding.  [fuel] is at least the number of bytes. *)
Fixpoint map_runes_fuel (fuel : nat) (f : option Z → ascii → string → string) (s : string) : string :=
  match fuel, s with
  | S fuel', String c t =>
      let '(r, w) := decode_rune c t in
      f r c (stake w s) +:+ map_runes_fuel fuel' f (sdrop w s)
  | _, _ => EmptyString
  end.
Definition map_runes (f : option Z → ascii → string → string) (s : string) : string :=
  map_runes_fuel (String.length s) f s.

(** ** strconv.Quote *)

Definition backslash (s : string) : string := String "\" s.
Definition dquote : ascii := "034".

Section quote.
(** [strconv.IsPrint] of a character that is not ASCII *)
Context (print_rune : Z → bool).

Definition IsPrint (r : Z) : bool := if r <? 128 then between 32 126 r else print_rune r.

Definition quote_rune (r : option Z) (c : ascii) (enc : string) : string :=
  match r with
  | None => backslash ("x" +:+ fmt_hex 2 (byte_val c))
  | Some r =>
      if (r =? 34) || (r =? 92) then backslash enc
      else if IsPrint r then enc
      else if r =? 7 then backslash "a" else if r =? 8 then backslash "b"
      else if r =? 12 then backslash "f" else if r =? 10 then backslash "n"
      else if r =? 13 then backslash "r" else if r =? 9 then backslash "t"
      else if r =? 11 then backslash "v"
      else if (r <? 32) || (r =? 127) then backslash ("x" +:+ fmt_hex 2 r)
      else if r <? 0x10000 then backslash ("u" +:+ fmt_hex 4 r)
      else backslash ("U" +:+ fmt_hex 8 r)
  end.

Definition strconv_Quote (s : string) : string :=
  String dquote (map_runes quote_rune s) +:+ char dquote.
End quote.

Example Quote_ex :
  strconv_Quote (λ _, true) (String "007" (String dquote (string_of [0xE2; 0x82; 0xAC; 0xFF; 0x7F]))) =
  String dquote ("\a\" +:+ String dquote (string_of [0xE2; 0x82; 0xAC]) +:+ "\xff\x7f" +:+ char dquote).
Proof. by vm_compute. Qed.
