(* ===== verification/Sort.v ===== *)
(** * sort.Slice

    [sort.Slice] of the Go standard library is not stable: for elements that
    compare equal it promises no order.  It is therefore an interface, a sorted
    permutation and nothing more, with the merge sort as an instance. *)

From S2P Require Import Prelude.
From stdpp Require Import options.

Class SortSlice := {
  sort_Slice : ∀ {A : Type}, (A → A → bool) → list A → list A;
}.

(** [!less(y, x)]: [x] may come before [y]. *)
Definition not_less {A} (less : A → A → bool) (x y : A) : Prop := less y x = false.
#[export] Instance not_less_dec {A} (less : A → A → bool) : RelDecision (not_less less) :=
  λ x y, decide (less y x = false).

Class SortSliceLaws `{SortSlice} := {
  sort_Slice_Permutation {A} (less : A → A → bool) l : sort_Slice less l ≡ₚ l;
  sort_Slice_sorted {A} (less : A → A → bool) l :
    Total (not_less less) → Transitive (not_less less) →
    StronglySorted (not_less less) (sort_Slice less l);
}.

#[export] Instance merge_SortSlice : SortSlice := {
  sort_Slice _ less l := merge_sort (not_less less) l }.
#[export] Instance merge_SortSliceLaws : SortSliceLaws.
Proof.
  split; intros A less l; [apply merge_sort_Permutation|].
  intros ??. apply (StronglySorted_merge_sort (not_less less)).
Qed.

(** The order of the input does not matter when no two of its elements compare
    equal. *)
Lemma sort_Slice_unique `{SortSliceLaws} {A} (less : A → A → bool) l l' :
  Total (not_less less) → Transitive (not_less less) → l ≡ₚ l' →
  (∀ x y, x ∈ l → y ∈ l → not_less less x y → not_less less y x → x = y) →
  sort_Slice less l = sort_Slice less l'.
Proof.
  intros Htot Htr Hp Heq. apply (StronglySorted_unique_strong (not_less less)).
  - intros x y Hx Hy. apply Heq.
    + by rewrite sort_Slice_Permutation in Hx.
    + by rewrite sort_Slice_Permutation, <- Hp in Hy.
  - by apply sort_Slice_sorted.
  - by apply sort_Slice_sorted.
  - by rewrite !sort_Slice_Permutation.
Qed.

Lemma elem_of_sort_Slice `{SortSliceLaws} {A} (less : A → A → bool) l x :
  x ∈ sort_Slice less l ↔ x ∈ l.
Proof. by rewrite sort_Slice_Permutation. Qed.

Lemma StronglySorted_weaken {A} (R S : relation A) l :
  (∀ x y, R x y → S x y) → StronglySorted R l → StronglySorted S l.
Proof.
  intros HRS Hl. induction Hl as [|x l Hl IH Hx]; constructor; [done|].
  eapply Forall_impl; [exact Hx|]. apply HRS.
Qed.
