(* ===== verification/Kube.v ===== *)
(** * Kubernetes objects

    Records with the fields of the API objects ([k8s.io/api],
    [k8s.io/apimachinery]) that the program reads or writes.  A Go map whose
    nil and empty values the program does not tell apart is a [gmap]; a pointer
    that may be nil is an [option]; [metav1.Time] is an instant (see
    [GoLib.Unix]). *)

From S2P Require Import Prelude.
From stdpp Require Import options.

Local Open Scope Z_scope.

(** ** Object metadata *)

Record NamespacedName := mkNN { nn_Namespace : string; nn_Name : string }.

Record OwnerReference := mkOwnerReference {
  or_Kind : string;
  or_Name : string;
  or_UID : string;
  or_Controller : bool;
}.

Record ObjectMeta := mkMeta {
  om_Name : string;
  om_Namespace : string;
  om_UID : string;
  om_Generation : Z;
  om_CreationTimestamp : Z;
  om_DeletionTimestamp : option Z;
  om_Labels : gmap string string;
  om_Annotations : gmap string string;
  om_OwnerReferences : list OwnerReference;
}.

(** [metav1.ObjectMeta{Name, Namespace, Labels}] with every other field zero. *)
Definition newMeta (name ns : string) (labels : gmap string string) : ObjectMeta :=
  {| om_Name := name; om_Namespace := ns; om_UID := ""; om_Generation := 0;
     om_CreationTimestamp := 0; om_DeletionTimestamp := None;
     om_Labels := labels; om_Annotations := ∅; om_OwnerReferences := [] |}.

Definition set_Name (m : ObjectMeta) (name : string) : ObjectMeta :=
  {| om_Name := name; om_Namespace := om_Namespace m; om_UID := om_UID m;
     om_Generation := om_Generation m; om_CreationTimestamp := om_CreationTimestamp m;
     om_DeletionTimestamp := om_DeletionTimestamp m; om_Labels := om_Labels m;
     om_Annotations := om_Annotations m; om_OwnerReferences := om_OwnerReferences m |}.

Definition set_Labels (m : ObjectMeta) (l : gmap string string) : ObjectMeta :=
  {| om_Name := om_Name m; om_Namespace := om_Namespace m; om_UID := om_UID m;
     om_Generation := om_Generation m; om_CreationTimestamp := om_CreationTimestamp m;
     om_DeletionTimestamp := om_DeletionTimestamp m; om_Labels := l;
     om_Annotations := om_Annotations m; om_OwnerReferences := om_OwnerReferences m |}.

Definition set_OwnerReferences (m : ObjectMeta) (rs : list OwnerReference) : ObjectMeta :=
  {| om_Name := om_Name m; om_Namespace := om_Namespace m; om_UID := om_UID m;
     om_Generation := om_Generation m; om_CreationTimestamp := om_CreationTimestamp m;
     om_DeletionTimestamp := om_DeletionTimestamp m; om_Labels := om_Labels m;
     om_Annotations := om_Annotations m; om_OwnerReferences := rs |}.

(** ** Status conditions *)

Inductive ConditionStatus := ConditionTrue | ConditionFalse | ConditionUnknown.

Record Condition := mkCondition {
  c_Type : string;
  c_Status : ConditionStatus;
  c_ObservedGeneration : Z;
  c_LastTransitionTime : Z;
  c_Reason : string;
  c_Message : string;
}.

(** [metav1.Condition{Type, Status, Reason, Message}]; the generation is set
    by the caller, the transition time by [meta.SetStatusCondition]. *)
Definition newCondition (t : string) (s : ConditionStatus) (reason message : string)
    (gen : Z) : Condition :=
  {| c_Type := t; c_Status := s; c_ObservedGeneration := gen;
     c_LastTransitionTime := 0; c_Reason := reason; c_Message := message |}.

(** ** Label selectors *)

Record LabelSelectorRequirement := mkLSR {
  lsr_Key : string; lsr_Operator : string; lsr_Values : list string }.
Record LabelSelector := mkLS {
  ls_MatchLabels : gmap string string;
  ls_MatchExpressions : list LabelSelectorRequirement }.

(** ** Core and batch objects *)

Record Secret := mkSecret { sec_Meta : ObjectMeta; sec_Data : gmap string string }.
Record ConfigMap := mkConfigMap { cm_Meta : ObjectMeta; cm_Data : gmap string string }.

Record PersistentVolumeClaim := mkPVC { pvc_Meta : ObjectMeta; pvc_VolumeName : string }.

Inductive NodeSelectorOperator :=
  | NodeSelectorOpIn | NodeSelectorOpNotIn | NodeSelectorOpExists
  | NodeSelectorOpDoesNotExist | NodeSelectorOpGt | NodeSelectorOpLt.
Record NodeSelectorRequirement := mkNSR {
  nsr_Key : string; nsr_Operator : NodeSelectorOperator; nsr_Values : list string }.
Record NodeSelectorTerm := mkNST {
  nst_MatchExpressions : list NodeSelectorRequirement;
  nst_MatchFields : list NodeSelectorRequirement }.
Record NodeSelector := mkNS { ns_NodeSelectorTerms : list NodeSelectorTerm }.
Record VolumeNodeAffinity := mkVNA { vna_Required : option NodeSelector }.

Record PersistentVolume := mkPV {
  pv_Meta : ObjectMeta; pv_NodeAffinity : option VolumeNodeAffinity }.

Record PVCVolumeSource := mkPVCSource { pvs_ClaimName : string; pvs_ReadOnly : bool }.
Record EmptyDirSource := mkEmptyDir { ed_Medium : string }.
Record Volume := mkVolume {
  vol_Name : string;
  vol_PersistentVolumeClaim : option PVCVolumeSource;
  vol_ConfigMap : option string;        (* LocalObjectReference.Name *)
  vol_EmptyDir : option EmptyDirSource;
}.
Definition pvcVolume (name claim : string) (ro : bool) : Volume :=
  mkVolume name (Some (mkPVCSource claim ro)) None None.
Definition configMapVolume (name cm : string) : Volume := mkVolume name None (Some cm) None.
Definition emptyDirVolume (name medium : string) : Volume :=
  mkVolume name None None (Some (mkEmptyDir medium)).

Record VolumeMount := mkMount { vm_Name : string; vm_MountPath : string; vm_ReadOnly : bool }.
Record SecretKeySelector := mkSKS { sks_Name : string; sks_Key : string }.
Record EnvVar := mkEnv {
  ev_Name : string; ev_Value : string; ev_SecretKeyRef : option SecretKeySelector }.
Record Container := mkContainer {
  ct_Name : string;
  ct_Image : string;
  ct_Command : list string;
  ct_Env : list EnvVar;
  ct_VolumeMounts : list VolumeMount;
  ct_ImagePullPolicy : string;
}.
Record PodSpec := mkPodSpec {
  ps_Hostname : string;
  ps_RestartPolicy : string;
  ps_ServiceAccountName : string;
  ps_NodeAffinity : option NodeSelector;  (* Affinity.NodeAffinity.Required... *)
  ps_Containers : list Container;
  ps_Volumes : list Volume;
  ps_NodeName : string;
}.
(** [ContainerStatus]: the messages of [State.Terminated] and of
    [LastTerminationState.Terminated] when those are set. *)
Record ContainerStatus := mkCS {
  cs_Terminated : option string; cs_LastTerminated : option string }.
Record Pod := mkPod {
  pod_Meta : ObjectMeta; pod_Spec : PodSpec; pod_ContainerStatuses : list ContainerStatus }.

Record PodTemplate := mkPodTemplate { pt_Labels : gmap string string; pt_Spec : PodSpec }.
Inductive JobConditionType := JobSuspended | JobComplete | JobFailed | JobOtherCondition.
Record JobCondition := mkJobCondition { jc_Type : JobConditionType; jc_Status : ConditionStatus }.
Record Job := mkJob {
  job_Meta : ObjectMeta;
  job_BackoffLimit : option Z;
  job_TTLSecondsAfterFinished : option Z;
  job_Template : PodTemplate;
  job_Conditions : list JobCondition;
}.
Definition set_job_Meta (j : Job) (m : ObjectMeta) : Job :=
  {| job_Meta := m; job_BackoffLimit := job_BackoffLimit j;
     job_TTLSecondsAfterFinished := job_TTLSecondsAfterFinished j;
     job_Template := job_Template j; job_Conditions := job_Conditions j |}.

Record Node := mkNode { node_Meta : ObjectMeta }.
Record Namespace := mkNamespace { namespace_Meta : ObjectMeta }.
Record ServiceAccount := mkSA { sa_Meta : ObjectMeta }.
Record Subject := mkSubject { sub_Kind : string; sub_Name : string; sub_Namespace : string }.
Record RoleRef := mkRoleRef { rr_APIGroup : string; rr_Kind : string; rr_Name : string }.
Record RoleBinding := mkRB { rb_Meta : ObjectMeta; rb_Subjects : list Subject; rb_RoleRef : RoleRef }.
Record ClusterRoleBinding := mkCRB {
  crb_Meta : ObjectMeta; crb_Subjects : list Subject; crb_RoleRef : RoleRef }.

(** ** Errors of the API server: [k8s.io/apimachinery/pkg/api/errors] *)

Inductive StatusReason :=
  | ReasonNotFound | ReasonAlreadyExists | ReasonForbidden
  | ReasonMethodNotAllowed | ReasonServiceUnavailable | ReasonOther.
Record apierror := mkAPIError { ae_Reason : StatusReason; ae_Message : string }.

#[export] Instance StatusReason_eq_dec : EqDecision StatusReason.
Proof. solve_decision. Defined.
Definition IsNotFound (e : apierror) : bool := bool_decide (ae_Reason e = ReasonNotFound).
Definition IsAlreadyExists (e : apierror) : bool := bool_decide (ae_Reason e = ReasonAlreadyExists).
Definition IsForbidden (e : apierror) : bool := bool_decide (ae_Reason e = ReasonForbidden).
Definition IsMethodNotSupported (e : apierror) : bool :=
  bool_decide (ae_Reason e = ReasonMethodNotAllowed).
Definition IsServiceUnavailable (e : apierror) : bool :=
  bool_decide (ae_Reason e = ReasonServiceUnavailable).

(** A Go [error] value of the program: an API error, possibly wrapped by
    [fmt.Errorf("prefix%w")], or a plain message. *)
Inductive error :=
  | ErrAPI (e : apierror)
  | ErrWrap (prefix : string) (e : error)
  | ErrMsg (msg : string).

(** The method [Error()] *)
Fixpoint Error (e : error) : string :=
  match e with
  | ErrAPI a => ae_Message a
  | ErrWrap p e' => p +:+ Error e'
  | ErrMsg m => m
  end.

(** ** Decidable equality, for [reflect.DeepEqual] on statuses *)

#[export] Instance ConditionStatus_eq_dec : EqDecision ConditionStatus.
Proof. solve_decision. Defined.
#[export] Instance Condition_eq_dec : EqDecision Condition.
Proof. solve_decision. Defined.
#[export] Instance JobConditionType_eq_dec : EqDecision JobConditionType.
Proof. solve_decision. Defined.
#[export] Instance NodeSelectorOperator_eq_dec : EqDecision NodeSelectorOperator.
Proof. solve_decision. Defined.
#[export] Instance NamespacedName_eq_dec : EqDecision NamespacedName.
Proof. solve_decision. Defined.
