(* ===== verification/Api.v ===== *)
(** * The custom resources: api/v1

    Records for the Go types of [api/v1/pbsbackup_types.go],
    [pbsrestore_types.go], [pbsschedule_types.go] and [pbsrepo_types.go].  A
    phase is the enumeration the CRD validates, plus the empty string of an
    object whose status was never defaulted.  A status slice that
    [reflect.DeepEqual] may see both as nil and as empty is an [option (list _)]
    ([None] is the nil slice). *)

From S2P Require Import Prelude Kube.
From stdpp Require Import options.

Local Open Scope Z_scope.

(** The elements of a slice, nil or not. *)
Definition slice {A} (s : option (list A)) : list A := default [] s.

(** ** PBSRepo *)

Record NamespacedSecretRef := mkSecretRef { ref_Name : string; ref_Namespace : string }.

Record PBSRepoSpec := mkRepoSpec {
  rsp_Host : string;
  rsp_Port : Z;             (* int32 *)
  rsp_Datastore : string;
  rsp_Namespace : string;
  rsp_Fingerprint : string;
  rsp_SecretRef : NamespacedSecretRef;
  rsp_BootstrapTokenRef : NamespacedSecretRef;
}.
Record PBSRepoStatus := mkRepoStatus {
  rst_Conditions : list Condition;
  rst_LastProbeTime : option Z;
}.
Record PBSRepo := mkRepo {
  repo_Meta : ObjectMeta; repo_Spec : PBSRepoSpec; repo_Status : PBSRepoStatus }.

(** ** PBSBackup *)

Inductive BackupPhase :=
  | BackupPhaseUnset | BackupPhaseNew | BackupPhaseScheduled | BackupPhaseRunning
  | BackupPhaseCompleted | BackupPhaseFailed.
#[export] Instance BackupPhase_eq_dec : EqDecision BackupPhase.
Proof. solve_decision. Defined.

Record PBSBackupSpec := mkBackupSpec {
  bs_RepoRef : string;
  bs_PVCs : list string;
  bs_Selector : option LabelSelector;
  bs_Notes : string;
}.
Record BackupJobStatus := mkBJS { bjs_Node : string; bjs_Job : string; bjs_State : string }.
#[export] Instance BackupJobStatus_eq_dec : EqDecision BackupJobStatus.
Proof. solve_decision. Defined.

Record PBSBackupStatus := mkBackupStatus {
  bst_Phase : BackupPhase;
  bst_SnapshotRef : string;
  bst_Jobs : option (list BackupJobStatus);
  bst_StartedAt : option Z;
  bst_CompletedAt : option Z;
  bst_Bytes : Z;            (* int64 *)
  bst_Conditions : list Condition;
}.
#[export] Instance PBSBackupStatus_eq_dec : EqDecision PBSBackupStatus.
Proof. solve_decision. Defined.

Record PBSBackup := mkBackup {
  bk_Meta : ObjectMeta; bk_Spec : PBSBackupSpec; bk_Status : PBSBackupStatus }.
Definition set_bk_Status (b : PBSBackup) (s : PBSBackupStatus) : PBSBackup :=
  {| bk_Meta := bk_Meta b; bk_Spec := bk_Spec b; bk_Status := s |}.

(** ** PBSRestore *)

Inductive RestorePhase :=
  | RestorePhaseUnset | RestorePhaseNew | RestorePhaseStagingAPI
  | RestorePhaseRestoringVolumes | RestorePhaseApplyingWorkloads
  | RestorePhaseCompleted | RestorePhaseFailed.
#[export] Instance RestorePhase_eq_dec : EqDecision RestorePhase.
Proof. solve_decision. Defined.

(** [string(phase)] *)
Definition RestorePhase_string (p : RestorePhase) : string :=
  match p with
  | RestorePhaseUnset => ""
  | RestorePhaseNew => "New"
  | RestorePhaseStagingAPI => "StagingAPI"
  | RestorePhaseRestoringVolumes => "RestoringVolumes"
  | RestorePhaseApplyingWorkloads => "ApplyingWorkloads"
  | RestorePhaseCompleted => "Completed"
  | RestorePhaseFailed => "Failed"
  end.

Record PBSRestoreSpec := mkRestoreSpec {
  rs_RepoRef : string;
  rs_SnapshotRef : string;
  rs_TargetNamespace : string;
  rs_DropKinds : list string;
  rs_KeepKinds : list string;
}.
Record RestoreJobStatus := mkRJS { rjs_Phase : string; rjs_Job : string; rjs_State : string }.
#[export] Instance RestoreJobStatus_eq_dec : EqDecision RestoreJobStatus.
Proof. solve_decision. Defined.

Record PBSRestoreStatus := mkRestoreStatus {
  rest_Phase : RestorePhase;
  rest_Conditions : list Condition;
  rest_StartedAt : option Z;
  rest_CompletedAt : option Z;
  rest_Jobs : option (list RestoreJobStatus);
}.
#[export] Instance PBSRestoreStatus_eq_dec : EqDecision PBSRestoreStatus.
Proof. solve_decision. Defined.

Record PBSRestore := mkRestore {
  rt_Meta : ObjectMeta; rt_Spec : PBSRestoreSpec; rt_Status : PBSRestoreStatus }.
Definition set_rt_Status (r : PBSRestore) (s : PBSRestoreStatus) : PBSRestore :=
  {| rt_Meta := rt_Meta r; rt_Spec := rt_Spec r; rt_Status := s |}.

(** ** PBSSchedule *)

Record PBSBackupTemplate := mkTemplate {
  tpl_PVCs : list string; tpl_Selector : option LabelSelector; tpl_Notes : string }.
Record PBSScheduleSpec := mkScheduleSpec {
  ss_RepoRef : string; ss_Schedule : string; ss_Template : PBSBackupTemplate;
  ss_Suspend : bool }.
Record PBSScheduleStatus := mkScheduleStatus {
  sst_LastScheduleTime : option Z;
  sst_NextScheduleTime : option Z;
  sst_Active : option (list string);
  sst_Conditions : list Condition;
}.
#[export] Instance PBSScheduleStatus_eq_dec : EqDecision PBSScheduleStatus.
Proof. solve_decision. Defined.
Record PBSSchedule := mkSchedule {
  sc_Meta : ObjectMeta; sc_Spec : PBSScheduleSpec; sc_Status : PBSScheduleStatus }.
Definition set_sc_Status (s : PBSSchedule) (st : PBSScheduleStatus) : PBSSchedule :=
  {| sc_Meta := sc_Meta s; sc_Spec := sc_Spec s; sc_Status := st |}.
