(* ===== verification/Prog.v ===== *)
(** * Effectful programs

    The reconcilers are functions that talk to the API server, the clock, the
    event recorder and other services.  Here such a function is a value of
    [prog]: either a result, or a call with a continuation that takes the
    answer.  Nothing is assumed about the answers: a property of a program is
    proved for every environment, unless it names an assumption on the events.

    - [runs p tr r]: an environment can drive [p] through the calls and
      answers of [tr] to the result [r];
    - [calls_in P p]: whatever the answers, every call of [p] satisfies [P];
    - [exec h p s]: the run of [p] against the handler [h], for witnesses. *)

From S2P Require Import Prelude.
From stdpp Require Import options.

Section prog.
Context {call : Type} {resp : call → Type}.

Inductive prog (R : Type) : Type :=
  | Ret (r : R)
  | Vis (c : call) (k : resp c → prog R).
#[global] Arguments Ret {_} _.
#[global] Arguments Vis {_} _ _.

(** A call with its answer. *)
Definition event : Type := sigT resp.
Definition ev (c : call) (a : resp c) : event := existT c a.

#[global] Instance prog_ret : MRet prog := λ _ r, Ret r.
#[global] Instance prog_bind : MBind prog := λ A B f,
  fix bind (p : prog A) : prog B :=
    match p with
    | Ret r => f r
    | Vis c k => Vis c (λ a, bind (k a))
    end.

Definition do_call (c : call) : prog (resp c) := Vis c Ret.

Fixpoint runs {R} (p : prog R) (tr : list event) (r : R) : Prop :=
  match p with
  | Ret r' => tr = [] ∧ r = r'
  | Vis c k => ∃ a tr', tr = ev c a :: tr' ∧ runs (k a) tr' r
  end.

Fixpoint calls_in {R} (P : call → Prop) (p : prog R) : Prop :=
  match p with
  | Ret _ => True
  | Vis c k => P c ∧ ∀ a, calls_in P (k a)
  end.

Fixpoint exec {S R} (h : ∀ c, S → resp c * S) (p : prog R) (s : S) : list event * R * S :=
  match p with
  | Ret r => ([], r, s)
  | Vis c k =>
      let '(a, s') := h c s in
      let '(tr, r, s'') := exec h (k a) s' in
      (ev c a :: tr, r, s'')
  end.

Lemma runs_ret {R} (r r' : R) tr : runs (mret r') tr r ↔ tr = [] ∧ r = r'.
Proof. done. Qed.

Lemma runs_do_call c tr (a : resp c) : runs (do_call c) tr a ↔ tr = [ev c a].
Proof.
  unfold do_call. simpl. split.
  - intros (a' & tr' & -> & -> & ->). done.
  - intros ->. eauto.
Qed.

Lemma runs_bind {A B} (f : A → prog B) (p : prog A) tr r :
  runs (p ≫= f) tr r ↔ ∃ t1 x t2, tr = t1 ++ t2 ∧ runs p t1 x ∧ runs (f x) t2 r.
Proof.
  revert tr. induction p as [x|c k IH]; intros tr.
  - split.
    + intros H. by exists [], x, tr.
    + intros (t1 & x' & t2 & -> & [-> ->] & H). done.
  - split.
    + intros (a & tr' & -> & H). apply IH in H as (t1 & x & t2 & -> & H1 & H2).
      exists (ev c a :: t1), x, t2. split; [done|]. split; [|done]. by exists a, t1.
    + intros (t1 & x & t2 & -> & (a & t1' & -> & H1) & H2).
      exists a, (t1' ++ t2). split; [done|]. apply IH. eauto 10.
Qed.

Lemma calls_in_bind {A B} P (f : A → prog B) (p : prog A) :
  calls_in P p → (∀ x, calls_in P (f x)) → calls_in P (p ≫= f).
Proof.
  intros Hp Hf. induction p as [x|c k IH]; [apply Hf|].
  destruct Hp as [Hc Hk]. split; [done|]. intros a. apply IH, Hk.
Qed.

Lemma calls_in_mono {R} (P Q : call → Prop) (p : prog R) :
  (∀ c, P c → Q c) → calls_in P p → calls_in Q p.
Proof. intros HPQ. induction p as [x|c k IH]; [done|]. intros [Hc Hk]. split; auto. Qed.

Lemma calls_in_runs {R} P (p : prog R) tr r :
  calls_in P p → runs p tr r → Forall (λ e, P (projT1 e)) tr.
Proof.
  revert tr. induction p as [x|c k IH]; intros tr.
  - intros _ [-> _]. constructor.
  - intros [Hc Hk] (a & tr' & -> & H). constructor; [done|]. eapply IH; eauto.
Qed.

Lemma exec_runs {S R} (h : ∀ c, S → resp c * S) (p : prog R) s :
  runs p (exec h p s).1.1 (exec h p s).1.2.
Proof.
  revert s. induction p as [x|c k IH]; intros s; simpl; [done|].
  destruct (h c s) as [a s']. specialize (IH a s').
  destruct (exec h (k a) s') as [[tr r] s'']. simpl in *. eauto.
Qed.
(** *** Calls that depend on the history

    [wp P p Q h]: started after the events [h], whatever the answers, every call
    of [p] satisfies [P] of the events so far, and a run that ends does so in
    [Q] of all events and the result. *)
Fixpoint wp {R} (P : list event → call → Prop) (p : prog R) (Q : list event → R → Prop)
    (h : list event) : Prop :=
  match p with
  | Ret r => Q h r
  | Vis c k => P h c ∧ ∀ a, wp P (k a) Q (h ++ [ev c a])
  end.

Lemma wp_ret {R} P (r : R) Q h : Q h r → wp P (mret r) Q h.
Proof. done. Qed.

Lemma wp_call P c (Q : list event → resp c → Prop) h :
  P h c → (∀ a, Q (h ++ [ev c a]) a) → wp P (do_call c) Q h.
Proof. done. Qed.

Lemma wp_bind {A B} P (f : A → prog B) (p : prog A) Q h :
  wp P p (λ h' x, wp P (f x) Q h') h → wp P (p ≫= f) Q h.
Proof.
  revert h. induction p as [x|c k IH]; intros h; [done|].
  intros [Hc Hk]. split; [done|]. intros a. apply IH, Hk.
Qed.

Lemma wp_mono {R} (P P' : list event → call → Prop) (p : prog R) Q Q' h :
  wp P p Q h → (∀ h' c, h `prefix_of` h' → P h' c → P' h' c) →
  (∀ h' r, h `prefix_of` h' → Q h' r → Q' h' r) → wp P' p Q' h.
Proof.
  revert h. induction p as [x|c k IH]; intros h Hp HP HQ; [by apply HQ|].
  destruct Hp as [Hc Hk]. split; [by apply HP|]. intros a.
  apply IH; [apply Hk| |]; intros ?? Hpre; (apply HP || apply HQ);
    (etrans; [|exact Hpre]); by apply prefix_app_r.
Qed.

(** The postcondition alone may be weakened, knowing that the history grew. *)
Lemma wp_post {R} P (p : prog R) Q Q' h :
  wp P p Q h → (∀ h' r, h `prefix_of` h' → Q h' r → Q' h' r) → wp P p Q' h.
Proof. intros Hp HQ. by eapply wp_mono. Qed.

(** A stretch of calls that keeps an invariant of the history. *)
Lemma wp_calls_in {R} (A : call → Prop) (I : list event → Prop) P (p : prog R) h :
  calls_in A p → I h →
  (∀ h' c, A c → I h' → P h' c ∧ ∀ a, I (h' ++ [ev c a])) →
  wp P p (λ h' _, I h') h.
Proof.
  intros Hp HI HA. revert h HI. induction p as [x|c k IH]; intros h HI; [done|].
  destruct Hp as [Hc Hk]. destruct (HA h c Hc HI) as [HP Hn]. split; [done|].
  intros a. apply IH; [apply Hk|apply Hn].
Qed.

Lemma calls_in_ret {R} P (x : R) : calls_in P (mret x).
Proof. done. Qed.

Lemma calls_in_call P c : P c → calls_in P (do_call c).
Proof. by split. Qed.

Lemma calls_in_bind_runs {A B} P (f : A → prog B) (p : prog A) :
  calls_in P p → (∀ tr x, runs p tr x → calls_in P (f x)) → calls_in P (p ≫= f).
Proof.
  induction p as [x|c k IH]; intros Hp Hf; [by apply (Hf [])|].
  destruct Hp as [Hc Hk]. split; [done|]. intros a. apply IH; [apply Hk|].
  intros tr x Hr. apply (Hf (ev c a :: tr)). by exists a, tr.
Qed.

Lemma wp_runs_at {R} P (p : prog R) Q h tr r :
  wp P p Q h → runs p tr r →
  (∀ t1 e t2, tr = t1 ++ e :: t2 → P (h ++ t1) (projT1 e)) ∧ Q (h ++ tr) r.
Proof.
  revert h tr. induction p as [x|c k IH]; intros h tr.
  - intros HQ [-> ->]. rewrite app_nil_r. split; [|done]. by intros [].
  - intros [Hc Hk] (a & tr' & -> & H). destruct (IH a _ _ (Hk a) H) as [H1 H2].
    rewrite <- app_assoc in H2. split; [|done].
    intros [|e' t1] e t2 Heq; simplify_eq/=; [by rewrite app_nil_r|].
    specialize (H1 t1 e t2 eq_refl). by rewrite <- app_assoc in H1.
Qed.

Lemma wp_runs {R} P (p : prog R) Q tr r :
  wp P p Q [] → runs p tr r →
  (∀ t1 e t2, tr = t1 ++ e :: t2 → P t1 (projT1 e)) ∧ Q tr r.
Proof. apply wp_runs_at. Qed.

(** The call at an index of a run satisfies what [wp] promises of it. *)
Lemma wp_lookup P {R} (p : prog R) Q tr res i c (a : resp c) :
  wp P p Q [] → runs p tr res → tr !! i = Some (ev c a) → P (take i tr) c.
Proof.
  intros Hwp Hr Hi. destruct (wp_runs _ _ _ _ _ Hwp Hr) as [Hc _].
  apply (Hc _ (ev c a) (drop (S i) tr)). by rewrite take_drop_middle.
Qed.
End prog.
#[global] Arguments prog {_} _ _.
#[global] Arguments event {_} _.

#[export] Hint Resolve calls_in_bind calls_in_ret calls_in_call : traces.

(** Go's [if err != nil { return ..., err }] after a call that answers
    [error + value]: the error leaves the enclosing function through [inl]. *)
Notation "x <-? p ; q" :=
  (mbind (λ r : _ + _, match r with inl e => mret (inl e) | inr x => q end) p)
  (at level 20, p at level 100, q at level 200, only parsing) : stdpp_scope.

(** Take a run apart along the structure of its program. *)
Ltac runs_step :=
  match goal with
  | H : runs (mbind _ _) _ _ |- _ =>
      apply runs_bind in H; destruct H as (?t & ?x & ?t & ? & ? & ?); subst
  | H : runs (do_call _) _ _ |- _ => destruct H as (?a & ?t & ? & ? & ?); subst
  | H : runs (mret _) _ _ |- _ => apply runs_ret in H; destruct H; simplify_eq
  | H : runs (Ret _) _ _ |- _ => destruct H; simplify_eq
  | H : runs (match ?x with _ => _ end) _ _ |- _ => destruct x eqn:?; simplify_eq/=
  end.
Ltac runs_inv := repeat runs_step.

(** Follow the structure of a program in a [calls_in] goal. *)
Ltac calls_step :=
  match goal with
  | |- calls_in _ (mbind _ _) => apply calls_in_bind; [|intros ?]
  | |- calls_in _ (mret _) => apply calls_in_ret
  | |- calls_in _ (do_call _) => apply calls_in_call
  | |- calls_in _ (match ?x with _ => _ end) => destruct x eqn:?
  | |- calls_in _ _ => solve [eauto with traces]
  end.
Ltac calls_auto := repeat calls_step; try done.
