(* ===== verification/Doc.v ===== *)
(** * Decoded documents

    The values [any] that [Unmarshal] produces from JSON and YAML, with the
    type assertions of the source: [v, _ := x.(T)] yields the zero value when
    the assertion fails, reading a nil map yields nil and deleting from it does
    nothing.  Documents come out of a decoder, so no two paths share a map and
    updating in place is updating along the path. *)

From S2P Require Import Prelude.
From stdpp Require Import options.

#[local] Unset Elimination Schemes.
Inductive val :=
  | VNull
  | VBool (b : bool)
  | VNum (z : Z)
  | VStr (s : string)
  | VList (l : list val)
  | VMap (m : gmap string val).

(** [m[k].(string)], "" when absent or of another type *)
Definition get_string (m : gmap string val) (k : string) : string :=
  match m !! k with Some (VStr s) => s | _ => "" end.

(** [m[k].(map[string]any)]: [None] is the nil map *)
Definition get_map (m : gmap string val) (k : string) : option (gmap string val) :=
  match m !! k with Some (VMap m') => Some m' | _ => None end.

(** Reading through a map that may be nil. *)
Definition map_or_nil (o : option (gmap string val)) : gmap string val := default ∅ o.

(** [m[k].([]any)], nil when absent or of another type *)
Definition get_list (m : gmap string val) (k : string) : list val :=
  match m !! k with Some (VList l) => l | _ => [] end.

(** [v.(map[string]any)] *)
Definition as_map (v : val) : option (gmap string val) :=
  match v with VMap m => Some m | _ => None end.

(** Update in place of the map at [k], when there is one. *)
Definition update_map (f : gmap string val → gmap string val) (k : string)
    (m : gmap string val) : gmap string val :=
  alter (λ v, match v with VMap m' => VMap (f m') | _ => v end) k m.

(** Update in place of the maps among the elements of the list at [k]. *)
Definition update_list_maps (f : gmap string val → gmap string val) (k : string)
    (m : gmap string val) : gmap string val :=
  alter (λ v, match v with
              | VList l => VList ((λ x, match x with VMap m' => VMap (f m') | _ => x end) <$> l)
              | _ => v
              end) k m.

(** [for _, k := range ks { delete(m, k) }] *)
Definition delete_keys (ks : list string) (m : gmap string val) : gmap string val :=
  foldl (λ m k, delete k m) m ks.

Section lemmas.
Implicit Types m : gmap string val.

Lemma lookup_delete_keys ks m k :
  delete_keys ks m !! k = if decide (k ∈ ks) then None else m !! k.
Proof.
  unfold delete_keys. revert m. induction ks as [|k' ks IH]; intros m; cbn [foldl].
  - case_decide; [set_solver|done].
  - rewrite IH, lookup_delete. repeat case_decide; set_solver.
Qed.

Lemma get_map_update_map f k m :
  get_map (update_map f k m) k = f <$> get_map m k.
Proof.
  unfold get_map, update_map. rewrite lookup_alter, decide_True by done.
  by destruct (m !! k) as [[]|].
Qed.

Lemma lookup_update_map_ne f k k' m : k ≠ k' → update_map f k m !! k' = m !! k'.
Proof. intros. unfold update_map. rewrite lookup_alter. by rewrite decide_False. Qed.

Lemma get_map_update_map_ne f k k' m : k ≠ k' → get_map (update_map f k m) k' = get_map m k'.
Proof. intros. unfold get_map. by rewrite lookup_update_map_ne. Qed.

Lemma get_string_update_map f k k' m : get_string (update_map f k m) k' = get_string m k'.
Proof.
  unfold get_string, update_map. rewrite lookup_alter. case_decide; [subst|done].
  by destruct (m !! k') as [[]|].
Qed.

Lemma get_string_insert m k v k' :
  get_string (<[k := v]> m) k' =
  if decide (k = k') then match v with VStr s => s | _ => "" end else get_string m k'.
Proof. unfold get_string. rewrite lookup_insert. by case_decide. Qed.

Lemma get_string_delete m k k' :
  get_string (delete k m) k' = if decide (k = k') then "" else get_string m k'.
Proof. unfold get_string. rewrite lookup_delete. by case_decide. Qed.

Lemma get_string_delete_keys ks m k :
  get_string (delete_keys ks m) k = if decide (k ∈ ks) then "" else get_string m k.
Proof. unfold get_string. rewrite lookup_delete_keys. by case_decide. Qed.
End lemmas.

Section update_lemmas.
Implicit Types m : gmap string val.

Lemma update_map_compose f g k m :
  update_map f k (update_map g k m) = update_map (λ x, f (g x)) k m.
Proof.
  apply map_eq. intros j. unfold update_map. rewrite !lookup_alter.
  destruct (decide (k = j)) as [->|]; [|done]. rewrite ?decide_True by done. by destruct (m !! j) as [[]|].
Qed.

Lemma update_map_delete f k m : update_map f k (delete k m) = delete k m.
Proof.
  apply map_eq. intros j. unfold update_map. rewrite lookup_alter, !lookup_delete.
  by repeat case_decide.
Qed.

Lemma update_map_comm f g k k' m :
  k ≠ k' → update_map f k (update_map g k' m) = update_map g k' (update_map f k m).
Proof.
  intros Hk. apply map_eq. intros j. unfold update_map. rewrite !lookup_alter.
  repeat case_decide; congruence.
Qed.

Lemma update_map_ext f g k m : (∀ x, f x = g x) → update_map f k m = update_map g k m.
Proof.
  intros H. apply map_eq. intros j. unfold update_map. rewrite !lookup_alter.
  destruct (decide (k = j)) as [->|]; [|done]. rewrite ?decide_True by done. destruct (m !! j) as [[]|]; cbn; try done. by rewrite H.
Qed.

Lemma update_list_maps_compose f g k m :
  update_list_maps f k (update_list_maps g k m) = update_list_maps (λ x, f (g x)) k m.
Proof.
  apply map_eq. intros j. unfold update_list_maps. rewrite !lookup_alter.
  destruct (decide (k = j)) as [->|]; [|done]. rewrite ?decide_True by done. destruct (m !! j) as [[]|]; cbn; try done. do 2 f_equal.
  rewrite <- list_fmap_compose. apply list_fmap_ext. intros _ x _. by destruct x.
Qed.

Lemma update_list_maps_ext f g k m :
  (∀ x, f x = g x) → update_list_maps f k m = update_list_maps g k m.
Proof.
  intros H. apply map_eq. intros j. unfold update_list_maps. rewrite !lookup_alter.
  destruct (decide (k = j)) as [->|]; [|done]. rewrite ?decide_True by done. destruct (m !! j) as [[]|]; cbn; try done. do 2 f_equal.
  apply list_fmap_ext. intros _ x _. destruct x; try done. by rewrite H.
Qed.

Lemma get_list_update_list_maps f k m :
  get_list (update_list_maps f k m) k =
  (λ x, match x with VMap m' => VMap (f m') | _ => x end) <$> get_list m k.
Proof.
  unfold get_list, update_list_maps. rewrite lookup_alter, decide_True by done.
  by destruct (m !! k) as [[]|].
Qed.

Lemma lookup_update_list_maps_ne f k k' m :
  k ≠ k' → update_list_maps f k m !! k' = m !! k'.
Proof. intros. unfold update_list_maps. rewrite lookup_alter. by rewrite decide_False. Qed.

Lemma delete_keys_twice ks m : delete_keys ks (delete_keys ks m) = delete_keys ks m.
Proof. apply map_eq. intros k. rewrite !lookup_delete_keys. by case_decide. Qed.

Lemma map_or_nil_update f k m :
  f ∅ = ∅ → map_or_nil (get_map (update_map f k m) k) = f (map_or_nil (get_map m k)).
Proof. intros Hf. rewrite get_map_update_map. by destruct (get_map m k). Qed.

Lemma delete_keys_empty ks : delete_keys ks ∅ = ∅.
Proof. apply map_eq. intros k. rewrite lookup_delete_keys, lookup_empty. by case_decide. Qed.
End update_lemmas.
