(* ===== verification/Client.v ===== *)
(** * What the controllers call

    The services a reconciler talks to, as the calls of a [Prog.prog]: the
    API server through the controller-runtime client, the event recorder, the
    clock, the metric vecs, the pods/exec subresource, the discovery and
    dynamic clients, the environment.  Third-party functions without effects
    are the fields of the class [KubeLib]. *)

From S2P Require Import Prelude Kube Api Doc.
From S2P Require Export Prog.
From Stdlib Require Import QArith_base.
From stdpp Require Import options.

Local Open Scope Z_scope.

Inductive kind :=
  | KPBSBackup | KPBSRepo | KPBSRestore | KPBSSchedule
  | KSecret | KConfigMap | KPVC | KPV | KPod | KNode | KJob | KNamespace
  | KServiceAccount | KRoleBinding | KClusterRoleBinding.
#[export] Instance kind_eq_dec : EqDecision kind.
Proof. solve_decision. Defined.

Definition obj (k : kind) : Type :=
  match k with
  | KPBSBackup => PBSBackup | KPBSRepo => PBSRepo
  | KPBSRestore => PBSRestore | KPBSSchedule => PBSSchedule
  | KSecret => Secret | KConfigMap => ConfigMap
  | KPVC => PersistentVolumeClaim | KPV => PersistentVolume
  | KPod => Pod | KNode => Node | KJob => Job | KNamespace => Namespace
  | KServiceAccount => ServiceAccount | KRoleBinding => RoleBinding
  | KClusterRoleBinding => ClusterRoleBinding
  end.

(** The metadata of an object *)
Definition obj_meta (k : kind) : obj k → ObjectMeta :=
  match k with
  | KPBSBackup => bk_Meta | KPBSRepo => repo_Meta
  | KPBSRestore => rt_Meta | KPBSSchedule => sc_Meta
  | KSecret => sec_Meta | KConfigMap => cm_Meta
  | KPVC => pvc_Meta | KPV => pv_Meta
  | KPod => pod_Meta | KNode => node_Meta | KJob => job_Meta
  | KNamespace => namespace_Meta | KServiceAccount => sa_Meta
  | KRoleBinding => rb_Meta | KClusterRoleBinding => crb_Meta
  end.
Definition obj_key (k : kind) (o : obj k) : NamespacedName :=
  mkNN (om_Namespace (obj_meta k o)) (om_Name (obj_meta k o)).

(** The options of a List: a namespace and a selection by labels. *)
Inductive list_selector :=
  | SelAll
  | SelMatchingLabels (labels : gmap string string)
  | SelLabelSelector (s : LabelSelector).

Inductive event_type := EventTypeNormal | EventTypeWarning.

Inductive metric := LastSuccess | Duration | Errors.

(** A resource as discovery reports it. *)
Record APIResource := mkAPIResource {
  ar_Name : string; ar_Kind : string; ar_Namespaced : bool; ar_Verbs : list string }.
Record APIResourceList := mkAPIResourceList {
  arl_GroupVersion : string; arl_APIResources : list APIResource }.
(** The error of discovery: [ErrGroupDiscoveryFailed] or any other. *)
Inductive discovery_error := GroupDiscoveryFailed | DiscoveryOther (e : error).

(** An object of the dynamic client. *)
Record Unstructured := mkUnstructured {
  u_Name : string; u_Labels : gmap string string; u_Object : gmap string val }.

Record http_request := mkRequest {
  rq_Method : string; rq_URL : string; rq_Header : list (string * string); rq_Body : option string }.

Inductive call :=
  (* client.Client *)
  | CGet (k : kind) (key : NamespacedName)
  | CList (k : kind) (ns : option string) (sel : list_selector)
  | CCreate (k : kind) (o : obj k)
  | CUpdate (k : kind) (o : obj k)
  | CPatch (k : kind) (before after : obj k)
  | CStatusPatch (k : kind) (before after : obj k)
  (* meta.SetStatusCondition: reads the clock for the transition time *)
  | CSetStatusCondition (conds : list Condition) (c : Condition)
  (* recorder.EventRecorder.Eventf *)
  | CEvent (regarding : NamespacedName) (t : event_type) (reason message : string)
  (* time.Now / metav1.Now *)
  | CNow
  (* os.Getenv *)
  | CGetenv (name : string)
  (* hooks.Executor.Exec *)
  | CExec (ns pod container : string) (command : list string)
  (* Prometheus vecs: Set on a gauge (the float64, as the rational it rounds),
     Inc on a counter *)
  | CMetricSet (m : metric) (ns : string) (v : Q)
  | CMetricInc (m : metric) (ns : string)
  (* discovery and dynamic clients *)
  | CServerResources
  | CListDynamic (gvr : string * string) (ns : string)
  (* a TLS connection to a PBS server, new or kept: the certificates it presented *)
  | CDial (timeout : Z) (base : string)
  (* an HTTP exchange on it: the status code and the outcome of reading the body *)
  | CHttp (timeout : Z) (r : http_request)
  (* the select between ctx.Done and time.After: the context's error, if done *)
  | CSelect (after : Z).

Definition resp (c : call) : Type :=
  match c with
  | CGet k _ => (apierror + obj k)
  | CList k _ _ => (apierror + list (obj k))
  | CCreate k _ | CUpdate k _ | CPatch k _ _ | CStatusPatch k _ _ => (apierror + obj k)
  | CSetStatusCondition _ _ => (list Condition * bool)
  | CEvent _ _ _ _ => unit
  | CNow => Z
  | CGetenv _ => string
  | CExec _ _ _ _ => option error
  | CMetricSet _ _ _ | CMetricInc _ _ => unit
  | CServerResources => (list APIResourceList * option discovery_error)
  | CListDynamic _ _ => (apierror + list Unstructured)
  | CDial _ _ => (error + list string)
  | CHttp _ _ => (error + (Z * (error + string)))
  | CSelect _ => option error
  end.

Abbreviation kprog := (@prog call resp).
Abbreviation kevent := (@event call resp).

(** ** Calls by their Go names *)

Definition Get (k : kind) (key : NamespacedName) : kprog (apierror + obj k) := do_call (CGet k key).
Definition List_ (k : kind) (ns : option string) (sel : list_selector)
  : kprog (apierror + list (obj k)) := do_call (CList k ns sel).
Definition Create (k : kind) (o : obj k) : kprog (apierror + obj k) := do_call (CCreate k o).
Definition Update (k : kind) (o : obj k) : kprog (apierror + obj k) := do_call (CUpdate k o).
Definition Patch (k : kind) (before after : obj k) : kprog (apierror + obj k) :=
  do_call (CPatch k before after).
Definition StatusPatch (k : kind) (before after : obj k) : kprog (apierror + obj k) :=
  do_call (CStatusPatch k before after).
Definition SetStatusCondition (conds : list Condition) (c : Condition)
  : kprog (list Condition * bool) := do_call (CSetStatusCondition conds c).
Definition Eventf (o : ObjectMeta) (t : event_type) (reason message : string) : kprog unit :=
  do_call (CEvent (mkNN (om_Namespace o) (om_Name o)) t reason message).
Definition Now : kprog Z := do_call CNow.
Definition Getenv (name : string) : kprog string := do_call (CGetenv name).
Definition Exec (ns pod container : string) (command : list string) : kprog (option error) :=
  do_call (CExec ns pod container command).

(** A call whose [apierror] is the error the caller returns. *)
Definition api {A} (p : kprog (apierror + A)) : kprog (error + A) :=
  r ← p; mret (match r with inl e => inl (ErrAPI e) | inr x => inr x end).

(** ** Third-party functions without effects *)

Class KubeLib := {
  (** [meta.IsStatusConditionTrue] *)
  IsStatusConditionTrue : list Condition → string → bool;
  (** [metav1.LabelSelectorAsSelector]: the error, if any *)
  LabelSelectorAsSelector : LabelSelector → option error;
  (** [ctrl.SetControllerReference(owner, controlled, scheme)]: the owner
      references of the controlled object *)
  SetControllerReference : kind → ObjectMeta → ObjectMeta → error + list OwnerReference;
}.

(** [ctrl.Result] and the pair a Reconcile returns. *)
Record Result := mkResult { RequeueAfter : Z }.
Abbreviation reconcile_result := (error + Result)%type.
Definition no_requeue : reconcile_result := inr (mkResult 0).
Definition requeue_after (d : Z) : reconcile_result := inr (mkResult d).

(** ** Views on calls, for stating properties *)

Definition created_job (c : call) : option Job :=
  match c with
  | CCreate k o => match k return obj k → option Job with KJob => Some | _ => λ _, None end o
  | _ => None
  end.

(** A call that changes an object of the cluster. *)
Definition is_write (c : call) : bool :=
  match c with
  | CCreate _ _ | CUpdate _ _ | CPatch _ _ _ | CStatusPatch _ _ _ => true
  | _ => false
  end.

(** The calls of a trace, in order. *)
Definition calls (tr : list kevent) : list call := projT1 <$> tr.

(** The Jobs a trace creates (successfully or not), in order. *)
Definition jobs_created (tr : list kevent) : list Job := omap created_job (calls tr).

Lemma calls_app t1 t2 : calls (t1 ++ t2) = calls t1 ++ calls t2.
Proof. apply fmap_app. Qed.
Lemma jobs_created_app t1 t2 : jobs_created (t1 ++ t2) = jobs_created t1 ++ jobs_created t2.
Proof. unfold jobs_created. by rewrite calls_app, omap_app. Qed.
#[export] Hint Rewrite calls_app jobs_created_app : traces.

(** A call that changes nothing outside the reconciler: reads, the clock, the
    environment, and the computation of conditions. *)
Definition is_read (c : call) : bool :=
  match c with
  | CGet _ _ | CList _ _ _ | CSetStatusCondition _ _ | CNow | CGetenv _
  | CServerResources | CListDynamic _ _ => true
  | _ => false
  end.

Lemma calls_in_api {A} P (p : kprog (apierror + A)) : calls_in P p → calls_in P (api p).
Proof. intros Hp. apply calls_in_bind; [done|]. intros x. apply calls_in_ret. Qed.
#[export] Hint Resolve calls_in_api : traces.
