(* ===== verification/Trace.v ===== *)
(** * Reasoning on the history of a reconcile

    Facts about the events of a run that both reconcilers' safety proofs use:
    what a read leaves unchanged, which patches were accepted, when a condition
    changed. *)

From S2P Require Import Prelude Kube Api Client.
From stdpp Require Import options.

Local Open Scope Z_scope.

(** A status patch was not refused by the server. *)
Definition patch_accepted (e : kevent) : Prop :=
  match e with
  | existT c a =>
      match c return resp c → Prop with
      | CStatusPatch _ _ _ => λ a, match a with inr _ => True | inl _ => False end
      | _ => λ _, True
      end a
  end.
Definition no_patch (e : kevent) : Prop :=
  match projT1 e with CStatusPatch _ _ _ => False | _ => True end.

(** A condition was set for this reason and its content changed. *)
Definition transitioned (h : list kevent) (reason : string) : Prop :=
  ∃ conds c cs, ev (CSetStatusCondition conds c) (cs, true) ∈ h ∧ c_Reason c = reason.

Lemma read_no_patch c a : is_read c = true → no_patch (ev c a).
Proof. by destruct c. Qed.
Lemma no_patch_accepted e : no_patch e → patch_accepted e.
Proof. by destruct e as [[] a]. Qed.
Lemma no_patches_accepted h : Forall no_patch h → Forall patch_accepted h.
Proof. intros Hn. eapply Forall_impl; [exact Hn|apply no_patch_accepted]. Qed.

Lemma elem_of_snoc {A} (l : list A) x : x ∈ l ++ [x].
Proof. apply elem_of_app. right. by apply list_elem_of_singleton. Qed.
Lemma elem_of_grow {A} (l l' : list A) x : x ∈ l → x ∈ l ++ l'.
Proof. intros Hx. apply elem_of_app. by left. Qed.
Lemma Forall_snoc {A} (P : A → Prop) l x : Forall P l → P x → Forall P (l ++ [x]).
Proof. intros Hl Hx. apply Forall_app; split; [done|by apply Forall_singleton]. Qed.

Lemma transitioned_app h t reason : transitioned h reason → transitioned (h ++ t) reason.
Proof. intros (conds & c & cs & Hin & Hr). exists conds, c, cs. split; [by apply elem_of_grow|done]. Qed.

Lemma jobs_created_snoc h e :
  created_job (projT1 e) = None → jobs_created (h ++ [e]) = jobs_created h.
Proof.
  intros He. rewrite jobs_created_app. unfold jobs_created at 2, calls. cbn. rewrite He.
  apply app_nil_r.
Qed.

(** An invariant of the history that a read keeps. *)
Definition read_stable (I : list kevent → Prop) : Prop :=
  ∀ h c a, is_read c = true → I h → I (h ++ [ev c a]).

(** A stretch of reads keeps such an invariant. *)
Lemma wp_reads P {R} (I : list kevent → Prop) (p : kprog R) (Q : R → Prop) h :
  (∀ h c, is_read c = true → P h c) →
  read_stable I → calls_in is_read p → (∀ tr x, runs p tr x → Q x) → I h →
  wp P p (λ h' x, I h' ∧ Q x) h.
Proof.
  intros HP HI. revert h. induction p as [x|c k IH]; intros h Hp HQ Hh.
  - split; [done|]. by apply (HQ []).
  - destruct Hp as [Hc Hk]. split; [by apply HP, Is_true_true|].
    intros a. apply IH; [apply Hk| |].
    + intros tr x Hr. apply (HQ (ev c a :: tr)). by exists a, tr.
    + by apply HI; [apply Is_true_true|].
Qed.

(** An answer that was seen *)
Definition saw (h : list kevent) (c : call) (a : resp c) : Prop := ev c a ∈ h.

Lemma saw_app h t c a : saw h c a → saw (h ++ t) c a.
Proof. apply elem_of_grow. Qed.
Lemma saw_last h c (a : resp c) : saw (h ++ [ev c a]) c a.
Proof. apply elem_of_snoc. Qed.
#[export] Hint Resolve saw_app saw_last : traces.

(** Whatever a program does, its history grows. *)
Definition anything : list kevent → call → Prop := λ _ _, True.
Lemma wp_anything {R} (p : kprog R) (Q : list kevent → R → Prop) h :
  (∀ t r, Q (h ++ t) r) → wp anything p Q h.
Proof.
  revert h. induction p as [x|c k IH]; intros h HQ; [specialize (HQ [] x); by rewrite app_nil_r in HQ|].
  split; [done|]. intros a. apply IH. intros t r. rewrite <- app_assoc. apply HQ.
Qed.

(** The second Job a trace creates is created after the first. *)
Lemma split_second_job (tr : list kevent) j1 j2 js :
  jobs_created tr = j1 :: j2 :: js →
  ∃ i a, tr !! i = Some (ev (CCreate KJob j2) a) ∧ jobs_created (take i tr) ≠ [].
Proof.
  assert (Hfirst : ∀ (tr : list kevent) j js, jobs_created tr = j :: js →
    ∃ i a, tr !! i = Some (ev (CCreate KJob j) a) ∧ jobs_created (drop (S i) tr) = js).
  { clear. induction tr as [|[c a] tr IH]; intros j js Hjs; [done|].
    unfold jobs_created, calls in Hjs. cbn in Hjs.
    destruct (created_job c) as [j'|] eqn:Hc.
    - injection Hjs as -> Hjs. destruct c as [| |[] o| | | | | | | | | | | | | | |]; try done.
      injection Hc as ->. exists 0%nat, a. done.
    - destruct (IH j js Hjs) as (i & a' & Hi & Hd). by exists (S i), a'. }
  intros Hjs. destruct (Hfirst _ _ _ Hjs) as (i & a & Hi & Hd).
  destruct (Hfirst _ _ _ Hd) as (i' & a' & Hi' & _). exists (S i + i')%nat, a'.
  rewrite lookup_drop in Hi'. split; [done|].
  rewrite <- (take_drop_middle tr i _ Hi). rewrite take_app_ge by (rewrite length_take; lia).
  rewrite jobs_created_app. intros [_ Hn]%app_eq_nil.
  revert Hn. rewrite length_take_le.
  - replace (S i + i' - i)%nat with (S i') by lia. done.
  - apply lookup_lt_Some in Hi. lia.
Qed.

(** The event at an index of a concrete trace, evaluated. *)
Ltac at_index tr i tac :=
  let e := eval vm_compute in (tr !! i) in
  lazymatch e with Some (existT ?c ?a) => tac c a end.
