(* ===== verification/Life.v ===== *)
(** * Many reconciles of one object

    A server that stores the status of an object, and the reconciles that read
    and patch it: what the calls of one reconcile on the object are answered, and
    two step relations.  In [life] every read of the object is fresh: it answers what
    is stored.  In [cached_life] a read is served from a cache that may lag: it
    answers what is or was stored, however long ago.  A status patch is a JSON merge patch of what the reconciler
    read and what it wants.  A reconcile may stop after any of its calls (a
    restart, a lost lease), and a patch that answers with an error may have been
    applied; the metadata and the spec may change at any time. *)

From S2P Require Import Prelude GoLib Kube Api Client Trace.
From stdpp Require Import options.

Local Open Scope Z_scope.

(** ** What a patch does to one field *)

(** A field that the patch does not mention keeps its value; a list is replaced. *)
Definition patch_field {A} `{EqDecision A} (before after stored : A) : A :=
  if decide (before = after) then stored else after.

Lemma patch_field_fresh {A} `{EqDecision A} (x y : A) : patch_field x y x = y.
Proof. unfold patch_field. by destruct (decide (x = y)). Qed.

(** A field that a patch keeps once it was read is not erased, and one that it
    writes is there, whatever is stored. *)
Lemma patch_field_keeps {A} `{EqDecision A} (before after stored : option A) :
  (∀ t, before = Some t → after = Some t) → is_Some stored → is_Some (patch_field before after stored).
Proof.
  intros Hk Hs. unfold patch_field. destruct (decide (before = after)) as [|Hn]; [done|].
  destruct after; [done|]. destruct before as [t|]; [|done]. by specialize (Hk t eq_refl).
Qed.
Lemma patch_field_sets {A} `{EqDecision A} (before after stored : option A) :
  is_Some after → (is_Some before → is_Some stored) → is_Some (patch_field before after stored).
Proof. intros Ha Hs. unfold patch_field. destruct (decide (before = after)) as [<-|]; auto. Qed.

(** ** What is left of a value after encoding and decoding *)

(** A time, in seconds *)
Definition wire_time (t : Z) : Z := t / Second * Second.
(** A list with [omitempty] *)
Definition wire_list {A} (l : option (list A)) : option (list A) :=
  match l with Some [] => None | _ => l end.
Definition wire_condition (c : Condition) : Condition :=
  mkCondition (c_Type c) (c_Status c) (c_ObservedGeneration c) (wire_time (c_LastTransitionTime c))
    (c_Reason c) (c_Message c).

Lemma wire_time_twice t : wire_time (wire_time t) = wire_time t.
Proof. unfold wire_time. by rewrite Z.div_mul by done. Qed.
Lemma wire_times_twice (t : option Z) : wire_time <$> (wire_time <$> t) = wire_time <$> t.
Proof. destruct t; cbn; by rewrite ?wire_time_twice. Qed.
Lemma wire_list_twice {A} (l : option (list A)) : wire_list (wire_list l) = wire_list l.
Proof. by destruct l as [[|]|]. Qed.
Lemma wire_conditions_twice (cs : list Condition) :
  wire_condition <$> (wire_condition <$> cs) = wire_condition <$> cs.
Proof.
  rewrite <- list_fmap_compose. apply list_fmap_ext. intros i c _.
  unfold wire_condition. cbn. by rewrite wire_time_twice.
Qed.

(** ** One reconcile *)

(** An event as the object's status sees it: a read of the object, or a status
    patch, with the status of the answer. *)
Inductive view (St : Type) :=
  | VGet (answer : option St)
  | VPatch (before after : St) (answer : option St)
  | VOther.
Arguments VGet {_} _.
Arguments VPatch {_} _ _ _.
Arguments VOther {_}.

Section life.
Context {St R : Type} (look : kevent → view St) (merge : St → St → St → St).

(** The calls on the object: a read of it answers a status that [reads] allows when
    [st] is stored, a patch is applied to what is stored. *)
Fixpoint served_from (reads : St → St → Prop) (st : St) (tr : list kevent) (st' : St) : Prop :=
  match tr with
  | [] => st' = st
  | e :: tr' =>
      match look e with
      | VGet answer =>
          match answer with Some s => reads st s | None => True end ∧ served_from reads st tr' st'
      | VPatch before after answer =>
          let new := merge before after st in
          match answer with
          | Some s => s = new ∧ served_from reads new tr' st'
          | None => served_from reads st tr' st' ∨ served_from reads new tr' st'
          end
      | VOther => served_from reads st tr' st'
      end
  end.

(** Fresh reads: the object is read as it is stored. *)
Definition served : St → list kevent → St → Prop := served_from (λ st s, s = st).

(** One reconcile, up to any of its calls, that reads the object fresh *)
Inductive life (p : kprog R) : St → St → Prop :=
  | life_reconcile st tr rest res st' :
      runs p (tr ++ rest) res → served st tr st' → life p st st'.

(** One reconcile that may read the object as it was at any earlier time; the statuses
    that were ever stored, the last one first *)
Inductive cached_life (p : kprog R) : list St → list St → Prop :=
  | cached_reconcile st old tr rest res st' :
      runs p (tr ++ rest) res → served_from (λ _ s, s ∈ st :: old) st tr st' →
      cached_life p (st :: old) (st' :: st :: old).

Definition is_patch (v : view St) : bool := match v with VPatch _ _ _ => true | _ => false end.

Lemma served_from_no_patch reads st tr st' :
  Forall (λ e, is_patch (look e) = false) tr → served_from reads st tr st' → st' = st.
Proof.
  induction 1 as [|e tr He _ IH]; [done|]. cbn [served_from]. destruct (look e); [|done|exact IH].
  intros [_ Hs]. by apply IH.
Qed.
Lemma served_no_patch st tr st' :
  Forall (λ e, is_patch (look e) = false) tr → served st tr st' → st' = st.
Proof. apply served_from_no_patch. Qed.

(** A history with one patch at most stores it or nothing. *)
Lemma served_cases reads st tr st' :
  (∀ i e, tr !! i = Some e → is_patch (look e) = true →
     Forall (λ e, is_patch (look e) = false) (take i tr)) →
  served_from reads st tr st' →
  st' = st ∨ ∃ i e before after answer,
    tr !! i = Some e ∧ look e = VPatch before after answer ∧ st' = merge before after st.
Proof.
  induction tr as [|e tr IH]; intros Hone Hs; [by left|].
  destruct (is_patch (look e)) eqn:He.
  - assert (Hn : Forall (λ e, is_patch (look e) = false) tr).
    { apply Forall_lookup. intros j e' Hj. destruct (is_patch (look e')) eqn:Hp; [|done].
      specialize (Hone (S j) e' Hj Hp). cbn [take] in Hone. apply Forall_cons in Hone as [Hf _]. congruence. }
    assert (Hnew : ∀ s, served_from reads s tr st' → st' = s) by (intros s; by apply served_from_no_patch).
    cbn [served_from] in Hs. destruct (look e) as [|before after [s|]|] eqn:Hl; try done.
    + destruct Hs as [_ Hs%Hnew]. right. by exists 0%nat, e, before, after, (Some s).
    + destruct Hs as [Hs|Hs]; apply Hnew in Hs; [by left|right]. by exists 0%nat, e, before, after, None.
  - assert (Hs' : served_from reads st tr st') by (cbn [served_from] in Hs; destruct (look e); naive_solver).
    destruct IH as [->|(i & e' & before & after & answer & Hi & Hl & ->)]; [|done|by left|].
    + intros i e' Hi Hp. specialize (Hone (S i) e' Hi Hp). cbn [take] in Hone.
      by apply Forall_cons in Hone as [_ ?].
    + right. by exists (S i), e', before, after, answer.
Qed.

(** The first event of a history that begins with a read *)
Lemma served_from_head reads st tr st' i e s :
  served_from reads st tr st' → head (take i tr) = Some e → look e = VGet (Some s) → reads st s.
Proof.
  destruct tr as [|e0 tr]; [by destruct i|]. destruct i as [|i]; [done|]. cbn [take head served_from].
  intros Hs [= ->] He. rewrite He in Hs. apply Hs.
Qed.
Lemma served_head st tr st' i e s :
  served st tr st' → head (take i tr) = Some e → look e = VGet (Some s) → s = st.
Proof. apply (served_from_head (λ st s, s = st)). Qed.

(** A reconciler whose every patch is its first and follows the read of what it
    patches *)
Definition patches_read (p : kprog R) (legal : St → St → Prop) : Prop :=
  ∀ tr res i e before after answer,
    runs p tr res → tr !! i = Some e → look e = VPatch before after answer →
    Forall (λ e, is_patch (look e) = false) (take i tr) ∧
    (∃ e0, head (take i tr) = Some e0 ∧ look e0 = VGet (Some before)) ∧
    legal before after.

Lemma served_patch p legal reads st tr rest res st' :
  patches_read p legal → runs p (tr ++ rest) res → served_from reads st tr st' →
  st' = st ∨ ∃ before after, reads st before ∧ legal before after ∧ st' = merge before after st.
Proof.
  intros Hp Hr Hs.
  assert (Hone : ∀ i e before after answer, tr !! i = Some e → look e = VPatch before after answer →
    Forall (λ e, is_patch (look e) = false) (take i tr) ∧
    (∃ e0, head (take i tr) = Some e0 ∧ look e0 = VGet (Some before)) ∧ legal before after).
  { intros i e before after answer Hi He. pose proof (lookup_lt_Some _ _ _ Hi) as Hlt.
    rewrite <- (take_app_le tr rest i) by lia. eapply Hp; [exact Hr| |exact He].
    by rewrite lookup_app_l. }
  destruct (served_cases reads st tr st') as [->|(i & e & before & after & answer & Hi & He & ->)];
    [|exact Hs|by left|right].
  - intros i e Hi He. destruct (look e) eqn:Hv; [done| |done]. by eapply Hone.
  - destruct (Hone _ _ _ _ _ Hi He) as (_ & (e0 & Hh & H0) & Hl). exists before, after.
    split; [|done]. by eapply served_from_head.
Qed.

Lemma life_cases p legal st st' :
  patches_read p legal → life p st st' →
  st' = st ∨ ∃ after, legal st after ∧ st' = merge st after st.
Proof.
  intros Hp Hl. destruct Hl as [st tr rest res st' Hr Hs].
  destruct (served_patch _ _ _ _ _ _ _ _ Hp Hr Hs) as [->|(before & after & -> & Hl)]; [by left|].
  right. by exists after.
Qed.

Lemma cached_life_cases p legal seen seen' :
  patches_read p legal → cached_life p seen seen' →
  ∃ st old st', seen = st :: old ∧ seen' = st' :: seen ∧
    (st' = st ∨ ∃ before after, before ∈ seen ∧ legal before after ∧ st' = merge before after st).
Proof.
  intros Hp Hl. destruct Hl as [st old tr rest res st' Hr Hs]. exists st, old, st'.
  split; [done|]. split; [done|]. by apply (served_patch _ _ _ _ _ _ _ _ Hp Hr Hs).
Qed.

(** A patch that is the only one of a history and was accepted is stored. *)
Lemma served_accepted st tr st' i e before after s :
  tr !! i = Some e → look e = VPatch before after (Some s) →
  Forall (λ e, is_patch (look e) = false) (take i tr) →
  Forall (λ e, is_patch (look e) = false) (drop (S i) tr) →
  served st tr st' → st' = merge before after st.
Proof.
  revert st i. induction tr as [|e0 tr IH]; intros st [|i] Hi Hv Hb Hd Hs; try done.
  - injection Hi as ->. unfold served in Hs. cbn [served_from] in Hs. rewrite Hv in Hs. destruct Hs as [_ Hs].
    by apply served_no_patch in Hs.
  - cbn [take] in Hb. apply Forall_cons in Hb as [H0 Hb]. apply (IH st i Hi Hv Hb Hd).
    unfold served in *. cbn [served_from] in Hs. destruct (look e0); naive_solver.
Qed.
End life.

(** An invariant of the status and a relation of earlier and later statuses *)
Lemma rtc_life {St} (step : St → St → Prop) (ok : St → Prop) (R : St → St → Prop) st st' :
  (∀ s, R s s) → (∀ s1 s2 s3, R s1 s2 → R s2 s3 → R s1 s3) →
  (∀ s s', ok s → step s s' → ok s' ∧ R s s') →
  rtc step st st' → ok st → ok st' ∧ R st st'.
Proof.
  intros Hrefl Htrans Hstep. induction 1 as [st|st st1 st' Hs _ IH]; intros Hok; [done|].
  destruct (Hstep _ _ Hok Hs) as [Hok1 HR]. destruct (IH Hok1) as [Hok' HR'].
  split; [done|by eapply Htrans].
Qed.

(** All the statuses that were ever stored, the last one first: each satisfies [ok]
    and every later one is related to every earlier one. *)
Record history {St} (ok : St → Prop) (later : St → St → Prop) (seen : list St) : Prop := {
  hist_ok : Forall ok seen;
  hist_later : StronglySorted later seen;
}.

Lemma rtc_cached {St} (step : list St → list St → Prop) (ok : St → Prop) (later : St → St → Prop) seen seen' :
  (∀ s s', history ok later s → step s s' → history ok later s') →
  rtc step seen seen' → history ok later seen → history ok later seen'.
Proof. intros Hstep. induction 1; eauto. Qed.

(** A next status that is fine and related to the last one *)
Lemma history_cons {St} (ok : St → Prop) (later : St → St → Prop) st old st' :
  (∀ s1 s2 s3, later s1 s2 → later s2 s3 → later s1 s3) →
  history ok later (st :: old) → ok st' → later st' st → history ok later (st' :: st :: old).
Proof.
  intros Htrans [Hok Hl] Hst Hlst. split; [by constructor|]. constructor; [done|].
  constructor; [done|]. apply StronglySorted_inv in Hl as [_ Hl].
  eapply Forall_impl; [exact Hl|]. intros s Hs. by eapply Htrans.
Qed.

(** What holds of the last status with respect to any that a cache may answer *)
Lemma history_seen {St} (ok : St → Prop) (later : St → St → Prop) st old s :
  (∀ s, later s s) → history ok later (st :: old) → s ∈ st :: old → ok s ∧ later st s.
Proof.
  intros Hrefl [Hok Hl] Hs. split; [by apply (proj1 (Forall_forall _ _) Hok)|].
  apply StronglySorted_inv in Hl as [_ Hl]. apply elem_of_cons in Hs as [->|Hs]; [done|].
  by apply (proj1 (Forall_forall _ _) Hl).
Qed.
