(* ===== verification/Placement.v ===== *)
(** * Placement of a volume: internal/backup/placement.go *)

From S2P Require Import Prelude GoLib Kube.
From stdpp Require Import options.

Definition hostnameKey : string := "kubernetes.io/hostname".

(** One requirement of the scan: a hostname In requirement with a value. *)
Definition hostname_value (req : NodeSelectorRequirement) : option string :=
  if bool_decide (nsr_Key req = hostnameKey) &&
     bool_decide (nsr_Operator req = NodeSelectorOpIn)
  then head (nsr_Values req) else None.

(** The loop over the requirements of one list: the first value found. *)
Fixpoint scan_reqs (reqs : list NodeSelectorRequirement) : option string :=
  match reqs with
  | [] => None
  | req :: reqs' =>
      match hostname_value req with
      | Some v => Some v
      | None => scan_reqs reqs'
      end
  end.

(** The loop over the terms: match expressions, then match fields, of each. *)
Fixpoint scan_terms (terms : list NodeSelectorTerm) : option string :=
  match terms with
  | [] => None
  | term :: terms' =>
      match scan_reqs (nst_MatchExpressions term) with
      | Some v => Some v
      | None =>
          match scan_reqs (nst_MatchFields term) with
          | Some v => Some v
          | None => scan_terms terms'
          end
      end
  end.

(** [(node, true)] is [Some node]. *)
Definition nodeFromAffinity (pv : option PersistentVolume) : option string :=
  match pv with
  | None => None
  | Some p =>
      match pv_NodeAffinity p with
      | None => None
      | Some a =>
          match vna_Required a with
          | None => None
          | Some sel => scan_terms (ns_NodeSelectorTerms sel)
          end
      end
  end.

Definition mounts_claim (claim : string) (vol : Volume) : bool :=
  match vol_PersistentVolumeClaim vol with
  | Some src => bool_decide (pvs_ClaimName src = claim)
  | None => false
  end.

(** The loop over the volumes of one pod. *)
Fixpoint scan_volumes (claim node : string) (vols : list Volume) : option string :=
  match vols with
  | [] => None
  | vol :: vols' =>
      if mounts_claim claim vol && negb (bool_decide (node = "")) then Some node
      else scan_volumes claim node vols'
  end.

Fixpoint scan_pods (claim : string) (pods : list Pod) : option string :=
  match pods with
  | [] => None
  | pod :: pods' =>
      match scan_volumes claim (ps_NodeName (pod_Spec pod)) (ps_Volumes (pod_Spec pod)) with
      | Some node => Some node
      | None => scan_pods claim pods'
      end
  end.

Definition ResolveNode (pvc : PersistentVolumeClaim) (pv : option PersistentVolume)
    (pods : list Pod) : string + string :=
  match nodeFromAffinity pv with
  | Some node => inr node
  | None =>
      match scan_pods (om_Name (pvc_Meta pvc)) pods with
      | Some node => inr node
      | None =>
          inl ("backup: cannot resolve node for PVC " +:+ om_Namespace (pvc_Meta pvc) +:+
               "/" +:+ om_Name (pvc_Meta pvc) +:+
               ": PV has no kubernetes.io/hostname node affinity and no scheduled pod mounts it")
      end
  end.

(** ** Specification *)

(** The requirements of an affinity, in the order the code visits them. *)
Definition requirements (sel : NodeSelector) : list NodeSelectorRequirement :=
  mbind (λ t, nst_MatchExpressions t ++ nst_MatchFields t) (ns_NodeSelectorTerms sel).

Definition affinity_requirements (pv : option PersistentVolume) : list NodeSelectorRequirement :=
  match p ← pv; a ← pv_NodeAffinity p; vna_Required a with
  | Some sel => requirements sel
  | None => []
  end.

(** A scheduled pod that mounts the claim. *)
Definition mounts (claim : string) (pod : Pod) : bool :=
  existsb (mounts_claim claim) (ps_Volumes (pod_Spec pod)) &&
  negb (bool_decide (ps_NodeName (pod_Spec pod) = "")).

Lemma scan_reqs_omap reqs : scan_reqs reqs = head (omap hostname_value reqs).
Proof. induction reqs as [|r rs IH]; simpl; [done|]. by destruct (hostname_value r). Qed.

Lemma head_app {A} (l1 l2 : list A) :
  head (l1 ++ l2) = match head l1 with Some x => Some x | None => head l2 end.
Proof. by destruct l1. Qed.

Lemma scan_terms_omap sel :
  scan_terms (ns_NodeSelectorTerms sel) = head (omap hostname_value (requirements sel)).
Proof.
  unfold requirements. induction (ns_NodeSelectorTerms sel) as [|t ts IH]; [done|].
  cbn [scan_terms mbind list_bind]. rewrite IH, !omap_app, !head_app, !scan_reqs_omap.
  by repeat case_match; simplify_eq.
Qed.

Lemma nodeFromAffinity_omap pv :
  nodeFromAffinity pv = head (omap hostname_value (affinity_requirements pv)).
Proof.
  unfold nodeFromAffinity, affinity_requirements. destruct pv as [p|]; [|done]. simpl.
  destruct (pv_NodeAffinity p) as [a|]; [|done]. simpl.
  destruct (vna_Required a); [|done]. apply scan_terms_omap.
Qed.

Lemma scan_volumes_spec claim node vols :
  scan_volumes claim node vols =
  if existsb (mounts_claim claim) vols && negb (bool_decide (node = "")) then Some node else None.
Proof.
  induction vols as [|v vs IH]; simpl; [done|]. rewrite IH.
  by destruct (mounts_claim claim v), (existsb (mounts_claim claim) vs),
    (negb (bool_decide (node = ""))).
Qed.

Lemma scan_pods_spec claim pods :
  scan_pods claim pods =
  (λ ip, ps_NodeName (pod_Spec ip.2)) <$> list_find (λ p, mounts claim p) pods.
Proof.
  induction pods as [|p ps IH]; simpl; [done|].
  rewrite scan_volumes_spec. fold (mounts claim p).
  destruct (mounts claim p); simpl; [done|].
  rewrite IH. by destruct (list_find _ _) as [[]|].
Qed.

(** [ResolveNode] prefers the first hostname value of the volume's node
    affinity in source order; without one it takes the node of the first
    scheduled pod that mounts the claim; without either it fails with a message
    that names the claim.  No other outcome is possible. *)
Theorem ResolveNode_spec pvc pv pods :
  match head (omap hostname_value (affinity_requirements pv)),
        list_find (λ p, mounts (om_Name (pvc_Meta pvc)) p) pods with
  | Some node, _ => ResolveNode pvc pv pods = inr node
  | None, Some (i, pod) =>
      ResolveNode pvc pv pods = inr (ps_NodeName (pod_Spec pod)) ∧
      ps_NodeName (pod_Spec pod) ≠ ""
  | None, None =>
      ∃ pre post, ResolveNode pvc pv pods =
        inl (pre +:+ om_Namespace (pvc_Meta pvc) +:+ "/" +:+ om_Name (pvc_Meta pvc) +:+ post)
  end.
Proof.
  unfold ResolveNode. rewrite nodeFromAffinity_omap, scan_pods_spec.
  destruct (head _) as [node|]; [done|].
  destruct (list_find _ _) as [[i pod]|] eqn:Hf; simpl.
  - split; [done|]. apply list_find_Some in Hf as (_ & Hm & _).
    unfold mounts in Hm. apply andb_prop_elim in Hm as [_ Hm].
    intros Hn. by rewrite Hn in Hm.
  - by eexists _, _.
Qed.
