(* ===== verification/SnapshotRef.v ===== *)
(** * Snapshot references: internal/backup/snapshotref.go

    A [float64] that JSON decoding produced is finite, hence a rational: the
    comparison and the truncation of the code are exact on it. *)

From S2P Require Import Prelude GoLib.
From Stdlib Require Import QArith Ascii.
From stdpp Require Import options.

Local Open Scope Z_scope.
#[local] Arguments Qle_bool : simpl never.

(** [pbs.Snapshot], internal/pbs/snapshots.go *)
Record Snapshot := mkSnapshot {
  sn_BackupType : string;
  sn_BackupID : string;
  sn_BackupTime : Q;
  sn_Size : Z;
}.

(** [int64(f)]: truncation toward zero *)
Definition int64_of_float (f : Q) : Z := Z.quot (Qnum f) (Zpos (Qden f)).

Definition ComposeSnapshotRef (backupType backupID : string) (backupTime : Q) : string :=
  backupType +:+ "/" +:+ backupID +:+ "/" +:+ FormatRFC3339_UTC (int64_of_float backupTime).

(** [a > b] on floats *)
Definition Qgtb (a b : Q) : bool := negb (Qle_bool a b).

(** The loop of [LatestSnapshot]; [best] is [None] while [found] is false. *)
Fixpoint latest_loop (snaps : list Snapshot) (backupType backupID : string)
    (best : option Snapshot) : option Snapshot :=
  match snaps with
  | [] => best
  | s :: snaps' =>
      if negb (bool_decide (sn_BackupType s = backupType)) ||
         negb (bool_decide (sn_BackupID s = backupID))
      then latest_loop snaps' backupType backupID best
      else
        match best with
        | None => latest_loop snaps' backupType backupID (Some s)
        | Some b =>
            if Qgtb (sn_BackupTime s) (sn_BackupTime b)
            then latest_loop snaps' backupType backupID (Some s)
            else latest_loop snaps' backupType backupID (Some b)
        end
  end.

Definition LatestSnapshot (snaps : list Snapshot) (backupType backupID : string)
    : string + Snapshot :=
  match latest_loop snaps backupType backupID None with
  | None => inl ("backup: no snapshots in group " +:+ backupType +:+ "/" +:+ backupID)
  | Some s => inr s
  end.

(** ** The newest snapshot of a group *)

Definition in_group (t i : string) (s : Snapshot) : Prop :=
  sn_BackupType s = t ∧ sn_BackupID s = i.
#[export] Instance in_group_dec t i s : Decision (in_group t i s).
Proof. unfold in_group. apply _. Defined.

(** [s] is the first element of [l] whose time no element of [l] exceeds. *)
Definition first_newest (l : list Snapshot) (s : Snapshot) : Prop :=
  ∃ l1 l2, l = l1 ++ s :: l2 ∧
    Forall (λ x, sn_BackupTime x < sn_BackupTime s)%Q l1 ∧
    Forall (λ x, sn_BackupTime x <= sn_BackupTime s)%Q l2.

Lemma Qgtb_true a b : Qgtb a b = true ↔ (b < a)%Q.
Proof.
  unfold Qgtb. rewrite negb_true_iff. split.
  - intros H. apply Qnot_le_lt. intros Hle. apply Qle_bool_iff in Hle. congruence.
  - intros H. apply not_true_is_false. intros Hle. apply Qle_bool_iff in Hle.
    by apply Qlt_not_le in H.
Qed.

Lemma Qgtb_false a b : Qgtb a b = false ↔ (a <= b)%Q.
Proof. unfold Qgtb. by rewrite negb_false_iff, Qle_bool_iff. Qed.

Lemma latest_loop_filter snaps t i best :
  latest_loop snaps t i best = latest_loop (filter (in_group t i) snaps) t i best.
Proof.
  revert best. induction snaps as [|s l IH]; intros best; [done|].
  rewrite filter_cons. destruct (decide (in_group t i s)) as [[<- <-]|Hn]; simpl.
  - rewrite !bool_decide_eq_true_2 by done. simpl. repeat case_match; apply IH.
  - assert (negb (bool_decide (sn_BackupType s = t)) ||
            negb (bool_decide (sn_BackupID s = i)) = true) as ->; [|apply IH].
    rewrite orb_true_iff, !negb_true_iff, !bool_decide_eq_false. unfold in_group in Hn.
    destruct (decide (sn_BackupType s = t)); tauto.
Qed.

Lemma first_newest_snoc_old l x s :
  first_newest l s → (sn_BackupTime x <= sn_BackupTime s)%Q → first_newest (l ++ [x]) s.
Proof.
  intros (l1 & l2 & -> & H1 & H2) Hx. exists l1, (l2 ++ [x]).
  rewrite <- app_assoc. repeat split; [done|]. by apply Forall_app; repeat constructor.
Qed.

Lemma first_newest_snoc_new l x s :
  first_newest l s → (sn_BackupTime s < sn_BackupTime x)%Q → first_newest (l ++ [x]) x.
Proof.
  intros (l1 & l2 & -> & H1 & H2) Hx. exists (l1 ++ s :: l2), []. repeat split; [|constructor].
  apply Forall_app; split; [|constructor; [done|]];
    (eapply Forall_impl; [eassumption|]; intros y Hy; simpl in Hy).
  - by eapply Qlt_trans.
  - by eapply Qle_lt_trans.
Qed.

Lemma latest_loop_group done_ l t i s :
  Forall (in_group t i) l → first_newest done_ s →
  ∃ s', latest_loop l t i (Some s) = Some s' ∧ first_newest (done_ ++ l) s'.
Proof.
  revert done_ s. induction l as [|x l IH]; intros d s Hl Hs.
  - exists s. by rewrite app_nil_r.
  - apply Forall_cons in Hl as [[<- <-] Hl]. simpl.
    rewrite !bool_decide_eq_true_2 by done. simpl.
    change (x :: l) with ([x] ++ l). rewrite app_assoc.
    destruct (Qgtb (sn_BackupTime x) (sn_BackupTime s)) eqn:E.
    + apply Qgtb_true in E. apply IH; [done|]. by eapply first_newest_snoc_new.
    + apply Qgtb_false in E. apply IH; [done|]. by apply first_newest_snoc_old.
Qed.

(** [LatestSnapshot] returns the newest snapshot of the requested group (the
    first in list order among equally new ones) and fails exactly when the list
    holds no snapshot of the group. *)
Theorem LatestSnapshot_spec snaps t i :
  match LatestSnapshot snaps t i with
  | inr s => first_newest (filter (in_group t i) snaps) s ∧ in_group t i s ∧ s ∈ snaps
  | inl _ => Forall (λ s, ¬ in_group t i s) snaps
  end.
Proof.
  unfold LatestSnapshot. rewrite latest_loop_filter.
  destruct (filter (in_group t i) snaps) as [|s l] eqn:E.
  - simpl. apply Forall_forall. intros s Hs Hg.
    assert (s ∈ filter (in_group t i) snaps) as Hf by (by apply list_elem_of_filter).
    rewrite E in Hf. by apply not_elem_of_nil in Hf.
  - assert (Hall : Forall (in_group t i) (s :: l)).
    { rewrite <- E. apply Forall_forall. intros x Hx. by apply list_elem_of_filter in Hx as []. }
    apply Forall_cons in Hall as [[<- <-] Hl]. simpl.
    rewrite !bool_decide_eq_true_2 by done. simpl.
    destruct (latest_loop_group [s] l (sn_BackupType s) (sn_BackupID s) s) as (s' & -> & Hs');
      [done| |].
    { exists [], []. repeat constructor. }
    split; [done|]. assert (Hin : s' ∈ s :: l).
    { destruct Hs' as (l1 & l2 & Heq & _). simpl in Heq. rewrite Heq. set_solver. }
    rewrite <- E in Hin. by apply list_elem_of_filter in Hin.
Qed.

(** A composed reference splits back into type, id and time. *)
Lemma ComposeSnapshotRef_split t i f :
  byte_in "/" t = false → byte_in "/" i = false →
  SplitByte (ComposeSnapshotRef t i f) "/" = [t; i; FormatRFC3339_UTC (int64_of_float f)].
Proof.
  intros Ht Hi. unfold ComposeSnapshotRef.
  change ("/" +:+ ?x) with (String "/" x).
  rewrite SplitByte_app by done.
  change ("/" +:+ ?x) with (String "/" x).
  by rewrite SplitByte_app, SplitByte_no_sep by (done || apply FormatRFC3339_no_slash).
Qed.
