(* ===== verification/Json.v ===== *)
(** * encoding/json and strconv, as the program uses them

    The interface the components rely on, with its laws.  Each field is the
    decoding or the encoding of one type of the source, so the components are
    stated against the interface alone; [JsonText] implements it. *)

From S2P Require Import Prelude GoLib GoNet Kube SnapshotRef.
From stdpp Require Import options.

Local Open Scope Z_scope.

Class JsonLib := {
  (** [json.Unmarshal] into a [[]string]; [null] is the empty slice *)
  json_strings : string → error + list string;
  (** [json.Unmarshal] into [struct{SnapshotRef string; Bytes int64}] *)
  json_result : string → error + (string * Z);
  (** [json.Unmarshal] of the response envelope: the raw [data] *)
  json_envelope : string → error + string;
  (** [json.Unmarshal] into [[]Snapshot] *)
  json_snapshots : string → error + list Snapshot;
  (** [json.Unmarshal] into [taskStatus]: its status and exit status *)
  json_task : string → error + (string * string);
  (** [json.Marshal] of [map[string]string{key: value}] *)
  json_object : string → string → string;
  (** [json.Unmarshal] into [struct{Data []Snapshot}] *)
  json_snapshot_data : string → error + list Snapshot;
  (** [json.Marshal] of the result and of the error of a Job *)
  json_result_text : string → Z → string;
  json_error_text : string → string;
  (** [strconv.Quote] *)
  Quote : string → string;
}.

(** What the components rely on: the report of a Job reads back, an error report is
    not a result, and the sizes are of type [int64]. *)
Class JsonLaws `{JsonLib} : Prop := {
  json_result_back ref bytes :
    is_ascii ref = true → - 2 ^ 63 ≤ bytes < 2 ^ 63 →
    json_result (json_result_text ref bytes +:+ newline) = inr (ref, bytes);
  json_error_no_result msg : json_result (json_error_text msg +:+ newline) = inr ("", 0);
  json_snapshots_size s l :
    json_snapshots s = inr l → Forall (λ x, - 2 ^ 63 ≤ sn_Size x < 2 ^ 63) l;
  json_snapshot_data_size s l :
    json_snapshot_data s = inr l → Forall (λ x, - 2 ^ 63 ≤ sn_Size x < 2 ^ 63) l;
}.
