(* ===== verification/JsonText.v ===== *)
(** * encoding/json, as the program uses it

    A model of the encoder on the values the program marshals, and of the decoder:
    the scanner that checks the whole text, and the assignment of the values to the
    struct fields of each target.  It implements the interface [Json.JsonLib];
    what a decoding error says is a parameter. *)

From S2P Require Import Prelude GoLib GoNet GoUtf8 Kube SnapshotRef Json.
From Stdlib Require Import Ascii QArith_base Qreduction.
From stdpp Require Import options.

Local Open Scope Z_scope.

(** ** Encoding *)

(** One character of a string, with HTML escaping. *)
Definition json_rune (r : option Z) (c : ascii) (enc : string) : string :=
  match r with
  | None => backslash "ufffd"
  | Some r =>
      if r <? 128 then
        if (r =? 34) || (r =? 92) then backslash enc
        else if r =? 8 then backslash "b" else if r =? 12 then backslash "f"
        else if r =? 10 then backslash "n" else if r =? 13 then backslash "r"
        else if r =? 9 then backslash "t"
        else if (r <? 32) || (r =? 38) || (r =? 60) || (r =? 62)
        then backslash ("u00" +:+ fmt_hex 2 r)
        else enc
      else if (r =? 0x2028) || (r =? 0x2029) then backslash ("u202" +:+ fmt_hex 1 r)
      else enc
  end.

Definition json_string (s : string) : string :=
  String dquote (map_runes json_rune s) +:+ char dquote.

Definition json_members (l : list (string * string)) : string :=
  "{" +:+ Join ((λ kv, json_string kv.1 +:+ ":" +:+ kv.2) <$> l) "," +:+ "}".

(** ** Scanning *)

(** A member keeps the text of its value. *)
Inductive jval :=
  | JNull | JBool (b : bool) | JNum (lit : string) | JStr (s : string)
  | JArr (l : list jval) | JObj (l : list (string * jval * string)).

Definition is_ws (c : ascii) : bool := bool_decide (c ∈ [" "; "009"; "010"; "013"]%char).
Fixpoint skip_ws (s : string) : string :=
  match s with
  | String c t => if is_ws c then skip_ws t else s
  | EmptyString => s
  end.

Definition hex_digit_val (c : ascii) : option Z :=
  let b := byte_val c in
  if between 48 57 b then Some (b - 48) else if between 97 102 b then Some (b - 87)
  else if between 65 70 b then Some (b - 55) else None.

(** The four digits after [\u], and what follows them *)
Definition hex4 (s : string) : option (Z * string) :=
  match s with
  | String a (String b (String c (String d t))) =>
      match hex_digit_val a, hex_digit_val b, hex_digit_val c, hex_digit_val d with
      | Some a, Some b, Some c, Some d => Some (((a * 16 + b) * 16 + c) * 16 + d, t)
      | _, _, _, _ => None
      end
  | _ => None
  end.

(** After the opening quote: the text up to the closing one, and the rest. *)
Fixpoint scan_string (s : string) : option (string * string) :=
  match s with
  | EmptyString => None
  | String c t =>
      if Ascii.eqb c dquote then Some (EmptyString, t)
      else if Ascii.eqb c "\" then
        match t with
        | EmptyString => None
        | String e t' =>
            if Ascii.eqb e "u" then
              match t' with
              | String a (String b (String x (String d t''))) =>
                  match hex4 (String a (String b (String x (String d EmptyString)))),
                        scan_string t'' with
                  | Some _, Some (raw, rest) =>
                      Some (backslash (String e (String a (String b (String x (String d raw))))), rest)
                  | _, _ => None
                  end
              | _ => None
              end
            else if bool_decide (e ∈ [dquote; "\"; "/"; "b"; "f"; "n"; "r"; "t"]%char) then
              match scan_string t' with
              | Some (raw, rest) => Some (backslash (String e raw), rest)
              | None => None
              end
            else None
        end
      else if byte_val c <? 32 then None
      else
        match scan_string t with
        | Some (raw, rest) => Some (String c raw, rest)
        | None => None
        end
  end.

Fixpoint take_digits (s : string) : string * string :=
  match s with
  | String c t => if is_digit c then let '(d, r) := take_digits t in (String c d, r) else ("", s)
  | EmptyString => ("", s)
  end.

(** One digit at least *)
Definition some_digits (s : string) : option (string * string) :=
  match take_digits s with (EmptyString, _) => None | r => Some r end.

(** What follows a given first byte *)
Definition after (c : ascii) (s : string) : option string :=
  match s with
  | String c' t => if Ascii.eqb c' c then Some t else None
  | EmptyString => None
  end.

Definition scan_frac (s : string) : option (string * string) :=
  match after "." s with
  | Some t => match some_digits t with Some (d, r) => Some (String "." d, r) | None => None end
  | None => Some ("", s)
  end.

(** An optional byte, with what follows *)
Definition scan_sign (signs : list ascii) (s : string) : string * string :=
  match s with
  | String c t => if bool_decide (c ∈ signs) then (char c, t) else ("", s)
  | EmptyString => ("", s)
  end.

Definition scan_exp (s : string) : option (string * string) :=
  let '(e, t) := scan_sign ["e"; "E"]%char s in
  if bool_decide (e = "") then Some ("", s)
  else
    let '(sign, t) := scan_sign ["+"; "-"]%char t in
    match some_digits t with Some (d, r) => Some (e +:+ sign +:+ d, r) | None => None end.

Definition scan_int (s : string) : option (string * string) :=
  match after "0" s with Some t => Some ("0", t) | None => some_digits s end.

Definition scan_number (s : string) : option (string * string) :=
  let '(sign, t) := scan_sign ["-"%char] s in
  match scan_int t with
  | None => None
  | Some (i, t) =>
      match scan_frac t with
      | None => None
      | Some (f, t) =>
          match scan_exp t with
          | None => None
          | Some (e, t) => Some (sign +:+ i +:+ f +:+ e, t)
          end
      end
  end.

(** ** Strings *)

Definition is_high (r : Z) : bool := between 0xD800 0xDBFF r.
Definition is_low (r : Z) : bool := between 0xDC00 0xDFFF r.

(** A [\u] escape after its four digits: the character, and what is left when a
    second escape completes a surrogate pair. *)
Definition unicode_escape (r : Z) (t : string) : Z * string :=
  if is_high r || is_low r then
    match t with
    | String "\" (String "u" t') =>
        match hex4 t' with
        | Some (r2, t'') =>
            if is_high r && is_low r2
            then ((r - 0xD800) * 1024 + (r2 - 0xDC00) + 0x10000, t'') else (RuneError, t)
        | None => (RuneError, t)
        end
    | _ => (RuneError, t)
    end
  else (r, t).

Definition simple_escape (e : ascii) : ascii :=
  if Ascii.eqb e "b" then "008" else if Ascii.eqb e "f" then "012"
  else if Ascii.eqb e "n" then "010" else if Ascii.eqb e "r" then "013"
  else if Ascii.eqb e "t" then "009" else e.

(** The value of the first character or escape, and what follows it. *)
Definition unquote_step (s : string) : option (string * string) :=
  match s with
  | EmptyString => None
  | String c t =>
      if Ascii.eqb c "\" then
        match t with
        | EmptyString => None
        | String e t' =>
            if Ascii.eqb e "u" then
              match hex4 t' with
              | Some (r, t'') => let '(r, t'') := unicode_escape r t'' in Some (encode_rune r, t'')
              | None => None
              end
            else Some (char (simple_escape e), t')
        end
      else
        let '(r, w) := decode_rune c t in
        Some (match r with Some _ => stake w s | None => encode_rune RuneError end, sdrop w s)
  end.

(** The value of the text between quotes; [fuel] is at least its length. *)
Fixpoint unquote_fuel (fuel : nat) (s : string) : string :=
  match fuel with
  | O => EmptyString
  | S fuel' =>
      match unquote_step s with
      | None => EmptyString
      | Some (v, t) => v +:+ unquote_fuel fuel' t
      end
  end.
Definition unquote (s : string) : string := unquote_fuel (String.length s) s.

(** ** Values *)

Definition maxNestingDepth : Z := 10000.

(** The key of a member, and the text from its value on *)
Definition pkey (s : string) : option (string * string) :=
  match after dquote s with
  | None => None
  | Some t =>
      match scan_string t with
      | None => None
      | Some (raw, r) =>
          match after ":" (skip_ws r) with
          | None => None
          | Some r => Some (unquote raw, skip_ws r)
          end
      end
  end.

Definition literal (s : string) : option (jval * string) :=
  if HasPrefix s "null" then Some (JNull, sdrop 4 s)
  else if HasPrefix s "true" then Some (JBool true, sdrop 4 s)
  else if HasPrefix s "false" then Some (JBool false, sdrop 5 s)
  else match scan_number s with Some (lit, t) => Some (JNum lit, t) | None => None end.

(** [d] is how much deeper arrays and objects may nest; a value, the elements of an
    array and the members of an object, up to and with the closing bracket. *)
Fixpoint pvalue (fuel : nat) (d : Z) (s : string) : option (jval * string) :=
  match fuel, s with
  | S fuel', String c t =>
      if Ascii.eqb c "{" then
        if d <=? 0 then None
        else match after "}" (skip_ws t) with
             | Some r => Some (JObj [], r)
             | None =>
                 match pmembers fuel' (d - 1) (skip_ws t) with
                 | Some (l, r) => Some (JObj l, r)
                 | None => None
                 end
             end
      else if Ascii.eqb c "[" then
        if d <=? 0 then None
        else match after "]" (skip_ws t) with
             | Some r => Some (JArr [], r)
             | None =>
                 match pelems fuel' (d - 1) (skip_ws t) with
                 | Some (l, r) => Some (JArr l, r)
                 | None => None
                 end
             end
      else if Ascii.eqb c dquote then
        match scan_string t with Some (raw, r) => Some (JStr (unquote raw), r) | None => None end
      else literal s
  | _, _ => None
  end
with pelems (fuel : nat) (d : Z) (s : string) : option (list jval * string) :=
  match fuel with
  | O => None
  | S fuel' =>
      match pvalue fuel' d s with
      | None => None
      | Some (v, r) =>
          match after "]" (skip_ws r), after "," (skip_ws r) with
          | Some r, _ => Some ([v], r)
          | None, Some r =>
              match pelems fuel' d (skip_ws r) with
              | Some (l, r) => Some (v :: l, r)
              | None => None
              end
          | None, None => None
          end
      end
  end
with pmembers (fuel : nat) (d : Z) (s : string) : option (list (string * jval * string) * string) :=
  match fuel with
  | O => None
  | S fuel' =>
      match pkey s with
      | None => None
      | Some (key, text) =>
          match pvalue fuel' d text with
          | None => None
          | Some (v, r) =>
              let m := (key, v, stake (String.length text - String.length r) text) in
              match after "}" (skip_ws r), after "," (skip_ws r) with
              | Some r, _ => Some ([m], r)
              | None, Some r =>
                  match pmembers fuel' d (skip_ws r) with
                  | Some (l, r) => Some (m :: l, r)
                  | None => None
                  end
              | None, None => None
              end
          end
      end
  end.

(** The one value of a text, if the text is valid JSON. *)
Definition json_parse (s : string) : option jval :=
  match pvalue (2 * String.length s + 2) maxNestingDepth (skip_ws s) with
  | Some (v, r) => match skip_ws r with EmptyString => Some v | _ => None end
  | None => None
  end.

(** ** Numbers *)

(** The sign, the mantissa and the decimal exponent of a literal the scanner
    accepted. *)
Definition decimal (lit : string) : bool * Z * Z :=
  let '(sign, t) := scan_sign ["-"%char] lit in
  let '(i, t) := take_digits t in
  let '(f, t) := match after "." t with Some t => take_digits t | None => ("", t) end in
  let '(_, t) := scan_sign ["e"; "E"]%char t in
  let '(esign, t) := scan_sign ["+"; "-"]%char t in
  let e := default 0 (digits_val 0 t) in
  (bool_decide (sign = "-"), default 0 (digits_val 0 (i +:+ f)),
   (if bool_decide (esign = "-") then - e else e) - Z.of_nat (String.length f)).

(** [num / den], for [den > 0], to the nearest integer, ties to even *)
Definition round_even (num den : Z) : Z :=
  let q := num / den in
  match Z.compare (2 * (num mod den)) den with
  | Lt => q
  | Gt => q + 1
  | Eq => if Z.even q then q else q + 1
  end.

(** The [float64] nearest to [num / den], both positive, as [m * 2 ^ e]; [None]
    when it overflows. *)
Definition round64 (num den : Z) : option (Z * Z) :=
  let e0 := Z.log2 num - Z.log2 den in
  let e0 := if num * 2 ^ Z.max 0 (- e0) <? den * 2 ^ Z.max 0 e0 then e0 - 1 else e0 in
  let e := Z.max (e0 - 52) (-1074) in
  let m := round_even (num * 2 ^ Z.max 0 (- e)) (den * 2 ^ Z.max 0 e) in
  if m * 2 ^ Z.max 0 e <? 2 ^ 1024 then Some (m, e) else None.

(** [strconv.ParseFloat] of a literal; a float is its value. *)
Definition ParseFloat (lit : string) : option Q :=
  let '(neg, m, e) := decimal lit in
  if m =? 0 then Some 0%Q
  else
    match round64 (m * 10 ^ Z.max 0 e) (10 ^ Z.max 0 (- e)) with
    | None => None
    | Some (m, e) =>
        let m := if neg : bool then - m else m in
        Some (Qred (Qmake (m * 2 ^ Z.max 0 e) (Z.to_pos (2 ^ Z.max 0 (- e)))))
    end.

Example ParseFloat_integer : ParseFloat "1747401600.0" = Some 1747401600%Q.
Proof. by vm_compute. Qed.
Example ParseFloat_tenth :
  ParseFloat "0.1" = Some (Qmake 3602879701896397 (2 ^ 55)) ∧ ParseFloat "-25e-1" = Some (Qmake (-5) 2).
Proof. by vm_compute. Qed.
Example ParseFloat_big : ParseFloat "1.7976931348623159e308" = None ∧
  ParseFloat "9007199254740993" = Some (Qmake 9007199254740992 1).
Proof. by vm_compute. Qed.

(** ** Decoding

    [None] is an error: a text that is not JSON, or a value of another type than its
    target, which [json.Unmarshal] reports after decoding the rest. *)

(** [null] leaves the target as it is. *)
Definition as_string (v : jval) (old : string) : option string :=
  match v with JNull => Some old | JStr s => Some s | _ => None end.
Definition as_int64 (v : jval) (old : Z) : option Z :=
  match v with JNull => Some old | JNum lit => Atoi lit | _ => None end.
Definition as_float (v : jval) (old : Q) : option Q :=
  match v with JNull => Some old | JNum lit => ParseFloat lit | _ => None end.

(** The letters of a field name, folded: those of ASCII, and the two others whose
    folding is an ASCII letter. *)
Definition fold_rune (r : option Z) (c : ascii) (enc : string) : string :=
  match r with
  | Some r => if r <? 128 then char (upper c) else if r =? 0x17F then "S"
              else if r =? 0x212A then "K" else enc
  | None => enc
  end.
Definition fold_name (s : string) : string := map_runes fold_rune s.

(** The field a key names: the one of that name, or the first of that folded name. *)
Definition find_field (names : list string) (k : string) : option string :=
  if bool_decide (k ∈ names) then Some k
  else List.find (λ n, bool_decide (fold_name n = fold_name k)) names.

(** A struct: [set] assigns a value, with its text, to the field of a name. *)
Fixpoint set_members {A} (names : list string) (set : string → jval → string → A → option A)
    (l : list (string * jval * string)) (x : A) : option A :=
  match l with
  | [] => Some x
  | (k, v, raw) :: l' =>
      match find_field names k with
      | None => set_members names set l' x
      | Some n => match set n v raw x with
                  | Some x' => set_members names set l' x'
                  | None => None
                  end
      end
  end.
Definition as_struct {A} (names : list string) (set : string → jval → string → A → option A)
    (v : jval) (old : A) : option A :=
  match v with JNull => Some old | JObj l => set_members names set l old | _ => None end.

(** The elements of a slice; one that was there before is decoded over. *)
Fixpoint as_elems {A} (dec : jval → A → option A) (zero : A) (l : list jval) (old : list A)
    : option (list A) :=
  match l with
  | [] => Some []
  | v :: l' =>
      match dec v (default zero (head old)), as_elems dec zero l' (tail old) with
      | Some x, Some xs => Some (x :: xs)
      | _, _ => None
      end
  end.
Definition as_slice {A} (dec : jval → A → option A) (zero : A) (v : jval) (old : list A)
    : option (list A) :=
  match v with JNull => Some [] | JArr l => as_elems dec zero l old | _ => None end.

(** ** The targets of the program *)

Definition zero_snapshot : Snapshot := mkSnapshot "" "" 0%Q 0.
Definition snapshot_fields : list string := ["backup-type"; "backup-id"; "backup-time"; "size"].
Definition set_snapshot (n : string) (v : jval) (raw : string) (s : Snapshot) : option Snapshot :=
  if bool_decide (n = "backup-type") then
    t ← as_string v (sn_BackupType s);
    Some (mkSnapshot t (sn_BackupID s) (sn_BackupTime s) (sn_Size s))
  else if bool_decide (n = "backup-id") then
    i ← as_string v (sn_BackupID s);
    Some (mkSnapshot (sn_BackupType s) i (sn_BackupTime s) (sn_Size s))
  else if bool_decide (n = "backup-time") then
    t ← as_float v (sn_BackupTime s);
    Some (mkSnapshot (sn_BackupType s) (sn_BackupID s) t (sn_Size s))
  else
    z ← as_int64 v (sn_Size s);
    Some (mkSnapshot (sn_BackupType s) (sn_BackupID s) (sn_BackupTime s) z).
Definition as_snapshots (v : jval) (old : list Snapshot) : option (list Snapshot) :=
  as_slice (as_struct snapshot_fields set_snapshot) zero_snapshot v old.

(** [struct{SnapshotRef string; Bytes int64}] *)
Definition set_result (n : string) (v : jval) (raw : string) (r : string * Z) : option (string * Z) :=
  if bool_decide (n = "snapshotRef") then s ← as_string v r.1; Some (s, r.2)
  else z ← as_int64 v r.2; Some (r.1, z).

(** [taskStatus] *)
Definition set_task (n : string) (v : jval) (raw : string) (t : string * string)
    : option (string * string) :=
  if bool_decide (n = "status") then s ← as_string v t.1; Some (s, t.2)
  else s ← as_string v t.2; Some (t.1, s).

Definition Unmarshal {A} (dec : jval → A → option A) (zero : A) (s : string) : option A :=
  v ← json_parse s; dec v zero.

Section instance.
(** What [json.Unmarshal] says when it fails on a text, by target; the printable
    characters beyond ASCII *)
Context (decode_error : string → string → error) (print_rune : Z → bool).

Definition or_error {A} (target s : string) (r : option A) : error + A :=
  match r with Some x => inr x | None => inl (decode_error target s) end.

Definition go_JsonLib : JsonLib := {|
  json_strings s := or_error "[]string" s (Unmarshal (as_slice as_string "") [] s);
  json_result s :=
    or_error "result" s (Unmarshal (as_struct ["snapshotRef"; "bytes"] set_result) ("", 0) s);
  json_envelope s :=
    or_error "envelope" s (Unmarshal (as_struct ["data"] (λ _ _ raw _, Some raw)) "" s);
  json_snapshots s := or_error "[]Snapshot" s (Unmarshal as_snapshots [] s);
  json_task s :=
    or_error "taskStatus" s (Unmarshal (as_struct ["status"; "exitstatus"] set_task) ("", "") s);
  json_object k v := json_members [(k, json_string v)];
  json_snapshot_data s :=
    or_error "data" s (Unmarshal (as_struct ["data"] (λ _ v _ old, as_snapshots v old)) [] s);
  json_result_text ref bytes :=
    json_members [("snapshotRef", json_string ref); ("bytes", fmt_d bytes)];
  json_error_text msg := json_members [("error", json_string msg)];
  Quote := strconv_Quote print_rune;
|}.
End instance.
