(* ===== verification/JsonProps.v ===== *)
(** * Round trips of the JSON text

    What the encoder writes for a string is read back as that string, with each
    byte that is not UTF-8 replaced; the parser does not depend on its fuel; the
    laws of the interface. *)

From S2P Require Import Prelude GoLib GoNet GoUtf8 Kube SnapshotRef Json JsonText.
From Stdlib Require Import Ascii.
From stdpp Require Import options.

Local Open Scope Z_scope.

(** ** Bytes *)

Lemma byte_val_bounds c : 0 ≤ byte_val c < 256.
Proof. unfold byte_val. pose proof (N_ascii_bounded c). lia. Qed.
Lemma val_byte_val c : val_byte (byte_val c) = c.
Proof. unfold val_byte, byte_val. by rewrite N2Z.id, ascii_N_embedding. Qed.
Lemma byte_val_byte z : 0 ≤ z < 256 → byte_val (val_byte z) = z.
Proof. intros Hz. unfold val_byte, byte_val. rewrite N_ascii_embedding; lia. Qed.
Lemma val_byte_eq z c : z = byte_val c → val_byte z = c.
Proof. intros ->. apply val_byte_val. Qed.

Lemma between_true lo hi b : between lo hi b = true ↔ lo ≤ b ≤ hi.
Proof. unfold between. rewrite andb_true_iff, !Z.leb_le. done. Qed.

(** ** Decoding a character *)

Lemma utf8_cont_app n lo hi acc s x r :
  utf8_cont n lo hi acc s = Some r → utf8_cont n lo hi acc (stake n s +:+ x) = Some r.
Proof.
  revert lo hi acc s. induction n as [|n IH]; intros lo hi acc s Hr; [done|].
  destruct s as [|c t]; [done|]. cbn [stake]. rewrite append_cons. cbn [utf8_cont] in *.
  destruct (between lo hi (byte_val c)); [|done]. by apply IH.
Qed.

Lemma decode_rune_app c t x r w :
  decode_rune c t = (Some r, S w) → decode_rune c (stake w t +:+ x) = (Some r, S w).
Proof.
  unfold decode_rune. destruct (utf8_lead (byte_val c)) as [[[lo hi] n]|]; [|done].
  destruct (utf8_cont n _ _ _ t) eqn:Hc; [|done]. intros [= <- <-].
  by rewrite (utf8_cont_app _ _ _ _ _ _ _ Hc).
Qed.

Lemma decode_rune_length c t r n :
  decode_rune c t = (Some r, S n) → String.length (stake n t) = n.
Proof.
  unfold decode_rune. destruct (utf8_lead (byte_val c)) as [[[lo hi] k]|]; [|done].
  destruct (utf8_cont k _ _ _ t) as [z|] eqn:Hc; [|done]. intros [= _ <-].
  revert lo hi t z Hc. generalize (match k with O => byte_val c | S _ => byte_val c mod 2 ^ (6 - Z.of_nat k) end).
  induction k as [|k IH]; intros acc lo hi t z Hc; [done|].
  destruct t as [|a t]; [done|]. cbn in *. destruct (between lo hi (byte_val a)); [|done].
  f_equal. by eapply IH.
Qed.

Lemma stake_app p x : stake (String.length p) (p +:+ x) = p.
Proof. induction p as [|a p IH]; [by destruct x|]. rewrite append_cons. cbn. by rewrite IH. Qed.

Lemma decode_rune_width c t r w : decode_rune c t = (r, w) → ∃ n, w = S n.
Proof.
  unfold decode_rune. destruct (utf8_lead (byte_val c)) as [[[lo hi] n]|].
  - destruct (utf8_cont n _ _ _ t); intros [= <- <-]; by eexists.
  - intros [= <- <-]. by eexists.
Qed.

(** The bytes that follow the first one of an encoding *)
Lemma utf8_cont_bytes n lo hi acc s r :
  128 ≤ lo → utf8_cont n lo hi acc s = Some r →
  ∃ l, stake n s = string_of l ∧ length l = n ∧ Forall (λ b, 128 ≤ b < 256) l.
Proof.
  revert lo hi acc s. induction n as [|n IH]; intros lo hi acc s Hlo Hr; [by exists []|].
  destruct s as [|c t]; [done|]. cbn in Hr. destruct (between lo hi (byte_val c)) eqn:Hb; [|done].
  apply between_true in Hb. apply IH in Hr as (l & Hs & Hl & Hf); [|done].
  exists (byte_val c :: l). cbn. rewrite Hs, val_byte_val, Hl. pose proof (byte_val_bounds c).
  split_and!; [done..|]. constructor; [lia|done].
Qed.

#[local] Ltac Zify.zify_post_hook ::= Z.to_euclidean_division_equations.

Lemma encode_rune_1 r b0 :
  r = b0 → 0 ≤ b0 < 128 → encode_rune r = char (val_byte b0).
Proof.
  intros -> Hb. unfold encode_rune, valid_rune.
  rewrite (proj2 (between_true 0 0xD7FF b0)) by lia. cbn [orb].
  by rewrite (proj2 (Z.ltb_lt b0 0x80)) by lia.
Qed.

Lemma encode_rune_2 b0 b1 :
  0xC2 ≤ b0 ≤ 0xDF → 0x80 ≤ b1 ≤ 0xBF →
  encode_rune (b0 mod 32 * 64 + b1 mod 64) = char (val_byte b0) +:+ char (val_byte b1).
Proof.
  intros H0 H1. set (r := _ + _). assert (Hr : 0x80 ≤ r < 0x800) by (unfold r; lia).
  unfold encode_rune, valid_rune. rewrite (proj2 (between_true 0 0xD7FF r)) by lia. cbn [orb].
  rewrite (proj2 (Z.ltb_ge r 0x80)), (proj2 (Z.ltb_lt r 0x800)) by lia.
  replace (0xC0 + r / 64) with b0 by (unfold r; lia).
  by replace (0x80 + r mod 64) with b1 by (unfold r; lia).
Qed.

Lemma encode_rune_3 b0 b1 b2 :
  0xE0 ≤ b0 ≤ 0xEF → 0x80 ≤ b1 ≤ 0xBF → 0x80 ≤ b2 ≤ 0xBF →
  (b0 = 0xE0 → 0xA0 ≤ b1) → (b0 = 0xED → b1 ≤ 0x9F) →
  encode_rune ((b0 mod 16 * 64 + b1 mod 64) * 64 + b2 mod 64) =
  char (val_byte b0) +:+ char (val_byte b1) +:+ char (val_byte b2).
Proof.
  intros H0 H1 H2 He Hd. set (r := _ + _). assert (Hr : 0x800 ≤ r < 0x10000) by (unfold r; lia).
  assert (Hv : valid_rune r = true).
  { unfold valid_rune. apply orb_true_iff. rewrite !between_true. unfold r. lia. }
  unfold encode_rune. rewrite Hv.
  rewrite (proj2 (Z.ltb_ge r 0x80)), (proj2 (Z.ltb_ge r 0x800)), (proj2 (Z.ltb_lt r 0x10000)) by lia.
  replace (0xE0 + r / 4096) with b0 by (unfold r; lia).
  replace (0x80 + r / 64 mod 64) with b1 by (unfold r; lia).
  by replace (0x80 + r mod 64) with b2 by (unfold r; lia).
Qed.

Lemma encode_rune_4 b0 b1 b2 b3 :
  0xF0 ≤ b0 ≤ 0xF4 → 0x80 ≤ b1 ≤ 0xBF → 0x80 ≤ b2 ≤ 0xBF → 0x80 ≤ b3 ≤ 0xBF →
  (b0 = 0xF0 → 0x90 ≤ b1) → (b0 = 0xF4 → b1 ≤ 0x8F) →
  encode_rune (((b0 mod 8 * 64 + b1 mod 64) * 64 + b2 mod 64) * 64 + b3 mod 64) =
  char (val_byte b0) +:+ char (val_byte b1) +:+ char (val_byte b2) +:+ char (val_byte b3).
Proof.
  intros H0 H1 H2 H3 He Hd. set (r := _ + _). assert (Hr : 0x10000 ≤ r ≤ 0x10FFFF) by (unfold r; lia).
  assert (Hv : valid_rune r = true).
  { unfold valid_rune. apply orb_true_iff. rewrite !between_true. lia. }
  unfold encode_rune. rewrite Hv.
  rewrite (proj2 (Z.ltb_ge r 0x80)), (proj2 (Z.ltb_ge r 0x800)), (proj2 (Z.ltb_ge r 0x10000)) by lia.
  replace (0xF0 + r / 262144) with b0 by (unfold r; lia).
  replace (0x80 + r / 4096 mod 64) with b1 by (unfold r; lia).
  replace (0x80 + r / 64 mod 64) with b2 by (unfold r; lia).
  by replace (0x80 + r mod 64) with b3 by (unfold r; lia).
Qed.

(** One continuation byte taken off. *)
Lemma utf8_cont_S n lo hi acc s r :
  utf8_cont (S n) lo hi acc s = Some r →
  ∃ c t, s = String c t ∧ lo ≤ byte_val c ≤ hi ∧
         utf8_cont n 0x80 0xBF (acc * 64 + byte_val c mod 64) t = Some r.
Proof.
  destruct s as [|c t]; [done|]. cbn. destruct (between lo hi (byte_val c)) eqn:Hb; [|done].
  intros Hr. exists c, t. by apply between_true in Hb.
Qed.

Lemma utf8_lead_spec b lo hi n :
  0 ≤ b → utf8_lead b = Some (lo, hi, n) →
  (n = 0%nat ∧ b < 128) ∨
  (n = 1%nat ∧ 0xC2 ≤ b ≤ 0xDF ∧ lo = 0x80 ∧ hi = 0xBF) ∨
  (n = 2%nat ∧ 0xE0 ≤ b ≤ 0xEF ∧ 0x80 ≤ lo ∧ hi ≤ 0xBF ∧ (b = 0xE0 → 0xA0 ≤ lo) ∧ (b = 0xED → hi ≤ 0x9F)) ∨
  (n = 3%nat ∧ 0xF0 ≤ b ≤ 0xF4 ∧ 0x80 ≤ lo ∧ hi ≤ 0xBF ∧ (b = 0xF0 → 0x90 ≤ lo) ∧ (b = 0xF4 → hi ≤ 0x8F)).
Proof.
  intros Hb. unfold utf8_lead, between.
  repeat match goal with |- context [if ?x then _ else _] => destruct x eqn:? end;
    intros [= <- <- <-]; lia.
Qed.

(** A valid encoding is what its character encodes to. *)
Lemma decode_encode c t r w :
  decode_rune c t = (Some r, w) → encode_rune r = stake w (String c t).
Proof.
  unfold decode_rune. destruct (utf8_lead (byte_val c)) as [[[lo hi] n]|] eqn:Hl; [|done].
  destruct (utf8_cont n lo hi _ t) as [r'|] eqn:Hc; [|done]. intros [= -> <-].
  pose proof (byte_val_bounds c) as Hb. apply utf8_lead_spec in Hl; [|lia].
  destruct Hl as [[-> H0]|[(-> & H0 & -> & ->)|[(-> & H0 & Hlo & Hhi & He & Hd)|(-> & H0 & Hlo & Hhi & He & Hd)]]].
  - injection Hc as <-. rewrite (encode_rune_1 _ (byte_val c)) by lia. by rewrite val_byte_val.
  - apply utf8_cont_S in Hc as (c1 & t1 & -> & H1 & [= <-]).
    change (2 ^ (6 - Z.of_nat 1)) with 32. rewrite encode_rune_2 by done. by rewrite !val_byte_val.
  - apply utf8_cont_S in Hc as (c1 & t1 & -> & H1 & Hc).
    apply utf8_cont_S in Hc as (c2 & t2 & -> & H2 & [= <-]).
    change (2 ^ (6 - Z.of_nat 2)) with 16. rewrite encode_rune_3 by lia. by rewrite !val_byte_val.
  - apply utf8_cont_S in Hc as (c1 & t1 & -> & H1 & Hc).
    apply utf8_cont_S in Hc as (c2 & t2 & -> & H2 & Hc).
    apply utf8_cont_S in Hc as (c3 & t3 & -> & H3 & [= <-]).
    change (2 ^ (6 - Z.of_nat 3)) with 8. rewrite encode_rune_4 by lia. by rewrite !val_byte_val.
Qed.

(** The bytes of a character that is not ASCII are not ASCII. *)
Lemma decode_high_bytes c t r w :
  decode_rune c t = (Some r, w) → 128 ≤ byte_val c →
  128 ≤ r ∧ ∃ l, stake w (String c t) = string_of l ∧ l ≠ [] ∧ Forall (λ b, 128 ≤ b < 256) l.
Proof.
  unfold decode_rune. destruct (utf8_lead (byte_val c)) as [[[lo hi] n]|] eqn:Hl; [|done].
  destruct (utf8_cont n lo hi _ t) as [r'|] eqn:Hc; [|done]. intros [= -> <-] H128.
  pose proof (byte_val_bounds c) as Hb. apply utf8_lead_spec in Hl; [|lia].
  assert (Hlo : 128 ≤ lo) by lia. pose proof (utf8_cont_bytes _ _ _ _ _ _ Hlo Hc) as (l & Hs & _ & Hf).
  split.
  2:{ exists (byte_val c :: l). cbn. rewrite Hs, val_byte_val. split_and!; [done..|].
      constructor; [lia|done]. }
  destruct Hl as [[-> H0]|[(-> & H0 & -> & ->)|[(-> & H0 & _ & Hhi & He & Hd)|(-> & H0 & _ & Hhi & He & Hd)]]].
  - lia.
  - apply utf8_cont_S in Hc as (c1 & t1 & -> & H1 & [= <-]).
    change (2 ^ (6 - Z.of_nat 1)) with 32. lia.
  - apply utf8_cont_S in Hc as (c1 & t1 & -> & H1 & Hc).
    apply utf8_cont_S in Hc as (c2 & t2 & -> & H2 & [= <-]).
    change (2 ^ (6 - Z.of_nat 2)) with 16. lia.
  - apply utf8_cont_S in Hc as (c1 & t1 & -> & H1 & Hc).
    apply utf8_cont_S in Hc as (c2 & t2 & -> & H2 & Hc).
    apply utf8_cont_S in Hc as (c3 & t3 & -> & H3 & [= <-]).
    change (2 ^ (6 - Z.of_nat 3)) with 8. lia.
Qed.

Lemma decode_ascii c t : byte_val c < 128 → decode_rune c t = (Some (byte_val c), 1%nat).
Proof.
  intros Hc. unfold decode_rune, utf8_lead. by rewrite (proj2 (Z.ltb_lt _ _) Hc).
Qed.

(** ** Strings without fuel *)

Lemma sdrop_length n s : String.length (sdrop n s) = (String.length s - n)%nat.
Proof. revert s. induction n as [|n IH]; intros [|c s]; cbn; [done..|apply IH]. Qed.

Lemma hex4_shorter s r t : hex4 s = Some (r, t) → (String.length t < String.length s)%nat.
Proof.
  destruct s as [|a [|b [|c [|d s]]]]; try done. cbn.
  repeat (destruct (hex_digit_val _); [|done]). intros [= <- <-]. lia.
Qed.

Lemma unicode_escape_shorter r t r' t' :
  unicode_escape r t = (r', t') → (String.length t' ≤ String.length t)%nat.
Proof.
  unfold unicode_escape. destruct (is_high r || is_low r); [|by intros [= <- <-]].
  repeat (match goal with |- context [match ?x with _ => _ end] => destruct x eqn:? end; simplify_eq);
    intros [= <- <-]; try done.
  match goal with H : hex4 _ = _ |- _ => apply hex4_shorter in H; cbn; lia end.
Qed.

Lemma unquote_step_shorter s v t :
  unquote_step s = Some (v, t) → (String.length t < String.length s)%nat.
Proof.
  destruct s as [|c s]; [done|]. cbn [unquote_step]. destruct (Ascii.eqb c "\").
  - destruct s as [|e s]; [done|]. destruct (Ascii.eqb e "u"); [|intros [= <- <-]; cbn; lia].
    destruct (hex4 s) as [[r s']|] eqn:Hh; [|done]. destruct (unicode_escape r s') as [r' s''] eqn:Hu.
    intros [= <- <-]. apply hex4_shorter in Hh. apply unicode_escape_shorter in Hu. cbn. lia.
  - destruct (decode_rune c s) as [r w] eqn:Hd. apply decode_rune_width in Hd as [n ->].
    intros [= <- <-]. cbn [sdrop]. rewrite sdrop_length. cbn. lia.
Qed.

Lemma unquote_fuel_enough n m s :
  (String.length s ≤ n)%nat → (String.length s ≤ m)%nat → unquote_fuel n s = unquote_fuel m s.
Proof.
  revert m s. induction n as [|n IH]; intros m s Hn Hm.
  { destruct s; [|cbn in Hn; lia]. by destruct m. }
  destruct m as [|m].
  { destruct s; [done|cbn in Hm; lia]. }
  cbn [unquote_fuel]. destruct (unquote_step s) as [[v t]|] eqn:Hs; [|done].
  apply unquote_step_shorter in Hs. f_equal. apply IH; lia.
Qed.

Lemma unquote_unfold s v t : unquote_step s = Some (v, t) → unquote s = v +:+ unquote t.
Proof.
  intros Hs. unfold unquote. pose proof (unquote_step_shorter _ _ _ Hs) as Hl.
  destruct (String.length s) as [|n] eqn:Hn; [lia|]. cbn [unquote_fuel]. rewrite Hs.
  f_equal. apply unquote_fuel_enough; lia.
Qed.

Lemma map_runes_fuel_enough f n m s :
  (String.length s ≤ n)%nat → (String.length s ≤ m)%nat →
  map_runes_fuel n f s = map_runes_fuel m f s.
Proof.
  revert m s. induction n as [|n IH]; intros m s Hn Hm.
  { destruct s; [|cbn in Hn; lia]. by destruct m. }
  destruct m as [|m].
  { destruct s; [done|cbn in Hm; lia]. }
  destruct s as [|c t]; [done|]. cbn [map_runes_fuel].
  destruct (decode_rune c t) as [r w] eqn:Hd. apply decode_rune_width in Hd as [k ->].
  f_equal. cbn [sdrop]. cbn in Hn, Hm. apply IH; rewrite sdrop_length; lia.
Qed.

Lemma map_runes_cons f c t r w :
  decode_rune c t = (r, w) →
  map_runes f (String c t) = f r c (stake w (String c t)) +:+ map_runes f (sdrop w (String c t)).
Proof.
  intros Hd. unfold map_runes at 1. cbn [String.length map_runes_fuel]. rewrite Hd. f_equal.
  apply map_runes_fuel_enough; [|done]. apply decode_rune_width in Hd as [k ->].
  cbn [sdrop]. rewrite sdrop_length. lia.
Qed.

(** ** The pieces of an encoded string *)

(** A piece that the scanner passes and that stands for [out], whatever follows. *)
Definition piece (p out : string) : Prop :=
  ∀ x, scan_string (p +:+ x) =
         match scan_string x with Some (raw, rest) => Some (p +:+ raw, rest) | None => None end ∧
       unquote (p +:+ x) = out +:+ unquote x.

Lemma piece_app p q o o' : piece p o → piece q o' → piece (p +:+ q) (o +:+ o').
Proof.
  intros Hp Hq x. destruct (Hp (q +:+ x)) as [Hs1 Hu1], (Hq x) as [Hs2 Hu2].
  rewrite !append_assoc, Hs1, Hs2, Hu1, Hu2.
  split; [|done]. destruct (scan_string x) as [[raw rest]|]; [by rewrite append_assoc|done].
Qed.

Definition plain_byte (c : ascii) : bool :=
  negb (Ascii.eqb c dquote) && negb (Ascii.eqb c "\") && (32 <=? byte_val c).

Lemma scan_plain c x : plain_byte c = true →
  scan_string (String c x) =
  match scan_string x with Some (raw, rest) => Some (String c raw, rest) | None => None end.
Proof.
  unfold plain_byte. rewrite !andb_true_iff, !negb_true_iff. intros [[H1 H2] H3].
  cbn [scan_string]. rewrite H1, H2. by rewrite (proj2 (Z.ltb_ge _ _)) by (apply Z.leb_le in H3; lia).
Qed.

(** One character that is copied *)
Lemma piece_plain c : plain_byte c = true → byte_val c < 128 → piece (char c) (char c).
Proof.
  intros Hp Hc x. split; [by apply scan_plain|].
  apply (unquote_unfold (String c x)). cbn [unquote_step]. unfold plain_byte in Hp.
  rewrite !andb_true_iff, !negb_true_iff in Hp. destruct Hp as [[_ ->] _]. by rewrite decode_ascii.
Qed.

(** A backslash and one character *)
Definition escapable : list ascii := [dquote; "\"; "/"; "b"; "f"; "n"; "r"; "t"]%char.
Lemma piece_escape e : e ∈ escapable → piece (backslash (char e)) (char (simple_escape e)).
Proof.
  intros He x. change (backslash (char e) +:+ x) with (String "\" (String e x)). split.
  - unfold escapable in He. repeat (apply elem_of_cons in He as [->|He]); [..|by apply not_elem_of_nil in He];
      cbn; by destruct (scan_string x) as [[raw rest]|].
  - apply (unquote_unfold (String "\" (String e x))). cbn [unquote_step].
    assert (Hu : Ascii.eqb e "u" = false).
    { apply Ascii.eqb_neq. intros ->. revert He. apply (bool_decide_unpack _). by vm_compute. }
    by rewrite Hu.
Qed.

(** A unicode escape that is no surrogate *)
Lemma piece_unicode a b c d r :
  hex4 (String a (String b (String c (char d)))) = Some (r, "") → is_high r || is_low r = false →
  piece (String "\" (String "u" (String a (String b (String c (char d)))))) (encode_rune r).
Proof.
  intros Hh Hr x.
  change (String "\" (String "u" (String a (String b (String c (char d))))) +:+ x)
    with (String "\" (String "u" (String a (String b (String c (String d x)))))).
  unfold char in *. split.
  - cbn [scan_string]. change (Ascii.eqb "\" dquote) with false.
    change (Ascii.eqb "\" "\") with true. cbv iota. rewrite Hh.
    by destruct (scan_string x) as [[raw rest]|].
  - apply (unquote_unfold _ (encode_rune r) x). cbn [unquote_step].
    change (Ascii.eqb "\" "\") with true. change (Ascii.eqb "u" "u") with true. cbv iota.
    assert (Hx : hex4 (String a (String b (String c (String d x)))) = Some (r, x)).
    { revert Hh. cbn. repeat (destruct (hex_digit_val _); [|done]). by intros [= ->]. }
    rewrite Hx. unfold unicode_escape. by rewrite Hr.
Qed.

(** The bytes of a character that is not ASCII *)
Lemma scan_high l x : Forall (λ b, 128 ≤ b < 256) l →
  scan_string (string_of l +:+ x) =
  match scan_string x with Some (raw, rest) => Some (string_of l +:+ raw, rest) | None => None end.
Proof.
  induction 1 as [|b l Hb _ IH].
  { cbn [string_of]. change ("" +:+ x) with x. by destruct (scan_string x) as [[raw rest]|]. }
  cbn [string_of]. rewrite append_cons. rewrite scan_plain, IH.
  - by destruct (scan_string x) as [[raw rest]|].
  - unfold plain_byte. rewrite byte_val_byte by lia.
    rewrite (proj2 (Z.leb_le 32 b)) by lia. rewrite andb_true_r, andb_true_iff, !negb_true_iff.
    split; apply Ascii.eqb_neq; intros Heq; apply (f_equal byte_val) in Heq;
      rewrite byte_val_byte in Heq by lia; vm_compute in Heq; lia.
Qed.

Lemma piece_high c t r w :
  decode_rune c t = (Some r, w) → 128 ≤ byte_val c →
  piece (stake w (String c t)) (stake w (String c t)).
Proof.
  intros Hd Hc x. destruct (decode_high_bytes _ _ _ _ Hd Hc) as (_ & l & Hl & _ & Hf).
  split; [rewrite Hl; by apply scan_high|].
  destruct (decode_rune_width _ _ _ _ Hd) as [n ->]. cbn [stake]. rewrite append_cons.
  apply unquote_unfold. cbn [unquote_step]. destruct (Ascii.eqb c "\") eqn:He.
  { apply Ascii.eqb_eq in He as ->. vm_compute in Hc. lia. }
  rewrite (decode_rune_app _ _ x _ _ Hd). cbn [stake sdrop].
  pose proof (decode_rune_length _ _ _ _ Hd) as Hn. revert Hn. generalize (stake n t).
  intros p <-. by rewrite stake_app, sdrop_app.
Qed.

(** ** The encoded string *)

(** What the decoder makes of a character: itself, or U+FFFD for a byte that is not
    UTF-8. *)
Definition valid_char (r : option Z) (c : ascii) (enc : string) : string :=
  match r with Some _ => enc | None => encode_rune RuneError end.
Definition to_valid (s : string) : string := map_runes valid_char s.

(** The pieces of the ASCII characters, checked one by one. *)
Definition ascii_piece (c : ascii) : bool :=
  let p := json_rune (Some (byte_val c)) c (char c) in
  (bool_decide (p = char c) && plain_byte c) ||
  existsb (λ e, bool_decide (p = backslash (char e)) && bool_decide (simple_escape e = c)) escapable ||
  match p with
  | String b (String u (String h1 (String h2 (String h3 (String h4 EmptyString))))) =>
      Ascii.eqb b "\" && Ascii.eqb u "u" &&
      bool_decide (hex4 (String h1 (String h2 (String h3 (char h4)))) = Some (byte_val c, "")) &&
      bool_decide (encode_rune (byte_val c) = char c)
  | _ => false
  end.

Lemma piece_ascii c : byte_val c < 128 → piece (json_rune (Some (byte_val c)) c (char c)) (char c).
Proof.
  intros Hc. pose proof (all_bytes (λ c, (128 <=? byte_val c) || ascii_piece c) eq_refl c) as Hp.
  cbv beta in Hp. rewrite (proj2 (Z.leb_gt 128 _) Hc) in Hp. cbn [orb] in Hp. unfold ascii_piece in Hp.
  set (p := json_rune _ _ _) in *. rewrite !orb_true_iff in Hp. destruct Hp as [[Hp|Hp]|Hp].
  - apply andb_true_iff in Hp as [->%bool_decide_eq_true Hp]. by apply piece_plain.
  - apply existsb_exists in Hp as (e & He & Hp). apply andb_true_iff in Hp as [Hp Hs].
    apply bool_decide_eq_true in Hp as ->. apply bool_decide_eq_true in Hs as <-.
    by apply piece_escape, list_elem_of_In.
  - destruct p as [|b [|u [|h1 [|h2 [|h3 [|h4 [|]]]]]]]; try done.
    rewrite !andb_true_iff, !Ascii.eqb_eq, !bool_decide_eq_true in Hp.
    destruct Hp as [[[-> ->] Hh] He]. rewrite <- He. apply piece_unicode; [done|].
    unfold is_high, is_low, between. rewrite orb_false_iff, !andb_false_iff, !Z.leb_gt. lia.
Qed.

Lemma piece_rune c t r w :
  decode_rune c t = (r, w) →
  piece (json_rune r c (stake w (String c t))) (valid_char r c (stake w (String c t))).
Proof.
  intros Hd. destruct (Z.lt_ge_cases (byte_val c) 128) as [Hc|Hc].
  { rewrite decode_ascii in Hd by done. injection Hd as <- <-. by apply piece_ascii. }
  destruct r as [r|]; [|by apply (piece_unicode "f" "f" "f" "d" RuneError)].
  pose proof (decode_high_bytes _ _ _ _ Hd Hc) as [Hr _]. cbn [valid_char]. unfold json_rune.
  rewrite (proj2 (Z.ltb_ge r 128)) by done.
  destruct ((r =? 0x2028) || (r =? 0x2029)) eqn:Hs; [|by eapply piece_high].
  rewrite <- (decode_encode _ _ _ _ Hd). apply orb_true_iff in Hs as [->%Z.eqb_eq| ->%Z.eqb_eq];
    by apply (piece_unicode "2" "0" "2").
Qed.

Lemma piece_string s : piece (map_runes json_rune s) (to_valid s).
Proof.
  remember (String.length s) as n eqn:Hn. revert s Hn.
  induction n as [n IH] using lt_wf_ind. intros [|c t] ->.
  { intros x. change (map_runes json_rune "" +:+ x) with x. split; [|done].
    by destruct (scan_string x) as [[raw rest]|]. }
  unfold to_valid. destruct (decode_rune c t) as [r w] eqn:Hd.
  rewrite !(map_runes_cons _ _ _ _ _ Hd). apply piece_app; [by apply piece_rune|].
  destruct (decode_rune_width _ _ _ _ Hd) as [k ->]. cbn [sdrop].
  apply (IH (String.length (sdrop k t))); [rewrite sdrop_length; cbn; lia|done].
Qed.

(** The scanner reads an encoded string up to its closing quote, and its value is
    the string. *)
Lemma scan_json_string s x :
  scan_string (map_runes json_rune s +:+ String dquote x) = Some (map_runes json_rune s, x).
Proof.
  destruct (piece_string s (String dquote x)) as [-> _]. cbn [scan_string].
  change (Ascii.eqb dquote dquote) with true. cbv iota. by rewrite append_nil_r.
Qed.

Lemma unquote_json_string s : unquote (map_runes json_rune s) = to_valid s.
Proof.
  destruct (piece_string s "") as [_ Hu]. by rewrite !append_nil_r in Hu.
Qed.

(** ASCII text is valid. *)
Lemma to_valid_ascii s : is_ascii s = true → to_valid s = s.
Proof.
  induction s as [|c t IH]; [done|]. cbn [is_ascii]. intros [Hc%Z.ltb_lt Ht]%andb_true_iff.
  unfold to_valid. rewrite (map_runes_cons _ _ _ _ _ (decode_ascii c t Hc)).
  cbn [stake sdrop valid_char]. unfold to_valid in IH. rewrite append_cons, IH by done.
  by destruct t.
Qed.

(** ** The fuel of the parser

    Every value takes at least one byte, so twice the length of the text, and two
    more, are enough: more fuel changes nothing. *)

#[local] Abbreviation len := String.length.

Lemma skip_ws_le s : (len (skip_ws s) ≤ len s)%nat.
Proof. induction s as [|c t IH]; [done|]. cbn. destruct (is_ws c); cbn; lia. Qed.

Lemma after_lt c s t : after c s = Some t → (len t < len s)%nat.
Proof. destruct s as [|a u]; [done|]. cbn. destruct (Ascii.eqb a c); [|done]. intros [= <-]. lia. Qed.

Lemma scan_string_lt s raw r : scan_string s = Some (raw, r) → (len r < len s)%nat.
Proof.
  revert raw r. remember (len s) as n eqn:Hn. revert s Hn. induction n as [n IH] using lt_wf_ind.
  intros [|c t] -> raw r; [done|]. cbn [scan_string len]. destruct (Ascii.eqb c dquote).
  { intros [= <- <-]. lia. }
  assert (Hrec : ∀ t' raw' r', (len t' ≤ len t)%nat → scan_string t' = Some (raw', r') →
                               (len r' < S (len t))%nat).
  { intros t' raw' r' Hl Hs. specialize (IH (len t') ltac:(cbn; lia) t' eq_refl _ _ Hs). lia. }
  destruct (Ascii.eqb c "\").
  - destruct t as [|e t]; [done|]. destruct (Ascii.eqb e "u").
    + destruct t as [|a [|b [|x [|d t]]]]; try done. destruct (hex4 _); [|done].
      destruct (scan_string t) as [[raw' r']|] eqn:Hs; [|done]. intros [= _ <-].
      eapply Hrec; [|exact Hs]. cbn. lia.
    + destruct (bool_decide _); [|done].
      destruct (scan_string t) as [[raw' r']|] eqn:Hs; [|done]. intros [= _ <-].
      eapply Hrec; [|exact Hs]. cbn. lia.
  - destruct (byte_val c <? 32); [done|].
    destruct (scan_string t) as [[raw' r']|] eqn:Hs; [|done]. intros [= _ <-].
    eapply Hrec; [|exact Hs]. lia.
Qed.

Lemma take_digits_le s d r : take_digits s = (d, r) → (len r + len d = len s)%nat.
Proof.
  revert d r. induction s as [|c t IH]; cbn [take_digits]; intros d r; [by intros [= <- <-]|].
  destruct (is_digit c); [|by intros [= <- <-]]. destruct (take_digits t) as [d' r'] eqn:Ht.
  intros [= <- <-]. specialize (IH _ _ eq_refl). cbn. lia.
Qed.
Lemma some_digits_lt s d r : some_digits s = Some (d, r) → (len r < len s)%nat.
Proof.
  unfold some_digits. destruct (take_digits s) as [[|c d'] r'] eqn:Ht; [done|]. intros [= <- <-].
  apply take_digits_le in Ht. cbn in Ht. lia.
Qed.
Lemma scan_sign_le signs s sg t : scan_sign signs s = (sg, t) → (len t ≤ len s)%nat.
Proof. destruct s as [|c u]; cbn; [by intros [= _ <-]|]. case_bool_decide; intros [= _ <-]; cbn; lia. Qed.
Lemma scan_int_lt s i t : scan_int s = Some (i, t) → (len t < len s)%nat.
Proof.
  unfold scan_int. destruct (after "0" s) as [u|] eqn:Ha; [|apply some_digits_lt].
  intros [= _ <-]. by eapply after_lt.
Qed.
Lemma scan_frac_le s f t : scan_frac s = Some (f, t) → (len t ≤ len s)%nat.
Proof.
  unfold scan_frac. destruct (after "." s) as [u|] eqn:Ha; [|by intros [= _ <-]].
  apply after_lt in Ha. destruct (some_digits u) as [[d r]|] eqn:Hd; [|done].
  apply some_digits_lt in Hd. intros [= _ <-]. lia.
Qed.
Lemma scan_exp_le s e t : scan_exp s = Some (e, t) → (len t ≤ len s)%nat.
Proof.
  unfold scan_exp. destruct (scan_sign _ s) as [e0 t0] eqn:H0. apply scan_sign_le in H0.
  case_bool_decide; [by intros [= _ <-]|]. destruct (scan_sign _ t0) as [sg t1] eqn:H1.
  apply scan_sign_le in H1. destruct (some_digits t1) as [[d r]|] eqn:Hd; [|done].
  apply some_digits_lt in Hd. intros [= _ <-]. lia.
Qed.
Lemma scan_number_lt s l t : scan_number s = Some (l, t) → (len t < len s)%nat.
Proof.
  unfold scan_number. destruct (scan_sign _ s) as [sg t0] eqn:H0. apply scan_sign_le in H0.
  destruct (scan_int t0) as [[i t1]|] eqn:H1; [|done]. apply scan_int_lt in H1.
  destruct (scan_frac t1) as [[f t2]|] eqn:H2; [|done]. apply scan_frac_le in H2.
  destruct (scan_exp t2) as [[e t3]|] eqn:H3; [|done]. apply scan_exp_le in H3.
  intros [= _ <-]. lia.
Qed.

Lemma literal_lt c s v r : literal (String c s) = Some (v, r) → (len r < len (String c s))%nat.
Proof.
  assert (Hd : ∀ n, (len (sdrop (S n) (String c s)) < len (String c s))%nat).
  { intros n. rewrite sdrop_length. cbn [String.length]. lia. }
  unfold literal. destruct (HasPrefix _ "null"); [intros [= _ <-]; exact (Hd 3%nat)|].
  destruct (HasPrefix _ "true"); [intros [= _ <-]; exact (Hd 3%nat)|].
  destruct (HasPrefix _ "false"); [intros [= _ <-]; exact (Hd 4%nat)|].
  destruct (scan_number _) as [[l t]|] eqn:Hs; [|done]. intros [= _ <-]. by eapply scan_number_lt.
Qed.

Lemma pkey_lt s k t : pkey s = Some (k, t) → (len t < len s)%nat.
Proof.
  unfold pkey. destruct (after dquote s) as [t0|] eqn:H0; [|done]. apply after_lt in H0.
  destruct (scan_string t0) as [[raw t1]|] eqn:H1; [|done]. apply scan_string_lt in H1.
  destruct (after ":" (skip_ws t1)) as [t2|] eqn:H2; [|done]. apply after_lt in H2.
  intros [= _ <-]. pose proof (skip_ws_le t1). pose proof (skip_ws_le t2). lia.
Qed.

(** A value, elements or members take a part of the text. *)
Lemma parse_lt f :
  (∀ d s v r, pvalue f d s = Some (v, r) → (len r < len s)%nat) ∧
  (∀ d s v r, pelems f d s = Some (v, r) → (len r < len s)%nat) ∧
  (∀ d s v r, pmembers f d s = Some (v, r) → (len r < len s)%nat).
Proof.
  induction f as [|f (IHv & IHe & IHm)]; [done|]. split_and!; intros d s v r.
  - destruct s as [|c t]; [done|]. cbn [pvalue]. pose proof (skip_ws_le t) as Hw.
    destruct (Ascii.eqb c "{"); [|destruct (Ascii.eqb c "["); [|destruct (Ascii.eqb c dquote)]].
    + destruct (d <=? 0); [done|]. destruct (after "}" _) as [r'|] eqn:Ha.
      { apply after_lt in Ha. intros [= _ <-]. cbn. lia. }
      destruct (pmembers f _ _) as [[l r']|] eqn:Hm; [|done]. apply IHm in Hm. intros [= _ <-]. cbn. lia.
    + destruct (d <=? 0); [done|]. destruct (after "]" _) as [r'|] eqn:Ha.
      { apply after_lt in Ha. intros [= _ <-]. cbn. lia. }
      destruct (pelems f _ _) as [[l r']|] eqn:Hm; [|done]. apply IHe in Hm. intros [= _ <-]. cbn. lia.
    + destruct (scan_string t) as [[raw r']|] eqn:Hs; [|done]. apply scan_string_lt in Hs.
      intros [= _ <-]. cbn. lia.
    + apply literal_lt.
  - cbn [pelems]. destruct (pvalue f d s) as [[v' r']|] eqn:Hv; [|done]. apply IHv in Hv.
    pose proof (skip_ws_le r') as Hw. destruct (after "]" _) as [r2|] eqn:Ha.
    { apply after_lt in Ha. intros [= _ <-]. lia. }
    destruct (after "," _) as [r2|] eqn:Hc; [|done]. apply after_lt in Hc. pose proof (skip_ws_le r2) as Hw2.
    destruct (pelems f d _) as [[l r3]|] eqn:He; [|done]. apply IHe in He. intros [= _ <-]. lia.
  - cbn [pmembers]. destruct (pkey s) as [[k text]|] eqn:Hk; [|done]. apply pkey_lt in Hk.
    destruct (pvalue f d text) as [[v' r']|] eqn:Hv; [|done]. apply IHv in Hv.
    pose proof (skip_ws_le r') as Hw. destruct (after "}" _) as [r2|] eqn:Ha.
    { apply after_lt in Ha. intros [= _ <-]. lia. }
    destruct (after "," _) as [r2|] eqn:Hc; [|done]. apply after_lt in Hc. pose proof (skip_ws_le r2) as Hw2.
    destruct (pmembers f d _) as [[l r3]|] eqn:He; [|done]. apply IHm in He. intros [= _ <-]. lia.
Qed.

Lemma parse_enough n :
  (∀ f g d s, (len s ≤ n)%nat → (2 * n + 1 ≤ f)%nat → (2 * n + 1 ≤ g)%nat → pvalue f d s = pvalue g d s) ∧
  (∀ f g d s, (len s ≤ n)%nat → (2 * n + 2 ≤ f)%nat → (2 * n + 2 ≤ g)%nat → pelems f d s = pelems g d s) ∧
  (∀ f g d s, (len s ≤ n)%nat → (2 * n + 2 ≤ f)%nat → (2 * n + 2 ≤ g)%nat → pmembers f d s = pmembers g d s).
Proof.
  induction n as [n IH] using lt_wf_ind.
  assert (Hv : ∀ f g d s, (len s ≤ n)%nat → (2 * n + 1 ≤ f)%nat → (2 * n + 1 ≤ g)%nat →
                          pvalue f d s = pvalue g d s).
  { intros f g d s Hl Hf Hg. destruct f as [|f], g as [|g]; try lia. destruct s as [|c t]; [done|].
    cbn [String.length] in Hl. cbn [pvalue]. pose proof (skip_ws_le t) as Hw.
    destruct (IH (n - 1)%nat ltac:(lia)) as (_ & IHe & IHm).
    by rewrite (IHm f g), (IHe f g) by lia. }
  split_and!; [done|..]; intros f g d s Hl Hf Hg; destruct f as [|f], g as [|g]; try lia.
  - cbn [pelems]. rewrite (Hv f g) by lia. destruct (pvalue g d s) as [[v r]|] eqn:Hs; [|done].
    apply parse_lt in Hs. pose proof (skip_ws_le r) as Hw. destruct (after "]" _); [done|].
    destruct (after "," _) as [r2|] eqn:Hc; [|done]. apply after_lt in Hc. pose proof (skip_ws_le r2) as Hw2.
    destruct (IH (n - 1)%nat ltac:(lia)) as (_ & IHe & _). by rewrite (IHe f g) by lia.
  - cbn [pmembers]. destruct (pkey s) as [[k text]|] eqn:Hk; [|done]. apply pkey_lt in Hk.
    rewrite (Hv f g) by lia. destruct (pvalue g d text) as [[v r]|] eqn:Hs; [|done].
    apply parse_lt in Hs. pose proof (skip_ws_le r) as Hw. destruct (after "}" _); [done|].
    destruct (after "," _) as [r2|] eqn:Hc; [|done]. apply after_lt in Hc. pose proof (skip_ws_le r2) as Hw2.
    destruct (IH (n - 1)%nat ltac:(lia)) as (_ & _ & IHm). by rewrite (IHm f g) by lia.
Qed.

(** The parser does not depend on the fuel: any larger amount gives the same. *)
Lemma json_parse_fuel s f :
  (2 * len s + 2 ≤ f)%nat →
  json_parse s = match pvalue f maxNestingDepth (skip_ws s) with
                 | Some (v, r) => match skip_ws r with EmptyString => Some v | _ => None end
                 | None => None
                 end.
Proof.
  intros Hf. unfold json_parse. pose proof (skip_ws_le s) as Hw.
  destruct (parse_enough (len s)) as (Hv & _ & _). by rewrite (Hv _ f) by lia.
Qed.

(** ** Objects of strings and integers *)

Lemma take_digits_app p x :
  all_digits p = true → (∀ c t, x = String c t → is_digit c = false) → take_digits (p +:+ x) = (p, x).
Proof.
  intros Hp Hx. induction p as [|c p IH].
  - change ("" +:+ x) with x. destruct x as [|c t]; [done|]. cbn. by rewrite (Hx c t).
  - cbn in Hp. apply andb_true_iff in Hp as [Hc Hp]. rewrite append_cons. cbn. by rewrite Hc, IH.
Qed.

(** What may follow a number: nothing, or a byte that ends the value *)
Definition stops (rest : string) : Prop :=
  match rest with
  | EmptyString => True
  | String c _ => c ∈ [","; "]"; "}"; "010"]%char
  end.

Lemma stops_cases (P : string → Prop) :
  P "" → (∀ x, P (String "," x)) → (∀ x, P (String "]" x)) → (∀ x, P (String "}" x)) →
  (∀ x, P (String "010" x)) → ∀ rest, stops rest → P rest.
Proof.
  intros ? ? ? ? ? [|c x]; [done|]. cbn. rewrite !elem_of_cons, elem_of_nil. intros Hc.
  by destruct_or! Hc; subst.
Qed.

Lemma stops_scan rest :
  stops rest → scan_frac rest = Some ("", rest) ∧ scan_exp rest = Some ("", rest).
Proof. revert rest. by apply stops_cases. Qed.

Lemma scan_number_end s sign t i rest :
  scan_sign ["-"%char] s = (sign, t) → scan_int t = Some (i, rest) → stops rest →
  scan_number s = Some (sign +:+ i, rest).
Proof.
  intros Hs Hi [Hf He]%stops_scan. unfold scan_number. by rewrite Hs, Hi, Hf, He, append_nil_r.
Qed.

(** An integer in front of what ends a value *)
Lemma literal_fmt_d z rest : stops rest → literal (fmt_d z +:+ rest) = Some (JNum (fmt_d z), rest).
Proof.
  intros Hr.
  assert (Hpos : ∀ n, 0 < n → ∃ c t, fmt_d n = String c t ∧ 49 ≤ byte_val c ≤ 57 ∧
    some_digits (fmt_d n +:+ rest) = Some (fmt_d n, rest)).
  { intros n Hn. destruct (decimal_fmt_d n Hn) as ((c & t & Heq & Hc) & Hall & _). exists c, t.
    split; [done|]. split; [done|]. unfold some_digits. rewrite take_digits_app; [by rewrite Heq|done|].
    intros c' t' ->. revert Hr. cbn. rewrite !elem_of_cons, elem_of_nil. intros Hc'.
    by destruct_or! Hc'; subst. }
  assert (Hnum : scan_number (fmt_d z +:+ rest) = Some (fmt_d z, rest)).
  { assert (Hint : ∀ p, scan_int (fmt_d (Z.pos p) +:+ rest) = Some (fmt_d (Z.pos p), rest)).
    { intros p. destruct (Hpos (Z.pos p)) as (c & t & Heq & Hc & Hd); [lia|]. unfold scan_int.
      assert (Ha : after "0" (fmt_d (Z.pos p) +:+ rest) = None); [|by rewrite Ha].
      rewrite Heq, append_cons. cbn. destruct (Ascii.eqb c "0") eqn:He; [|done].
      apply Ascii.eqb_eq in He as ->. by destruct Hc as [[] _]. }
    destruct z as [|p|p].
    - by apply (scan_number_end _ "" ("0" +:+ rest)).
    - apply (scan_number_end _ "" (fmt_d (Z.pos p) +:+ rest)); [|apply Hint|done].
      destruct (Hpos (Z.pos p)) as (c & t & Heq & Hc & _); [lia|].
      rewrite Heq, append_cons. cbn. rewrite bool_decide_eq_false_2; [done|].
      intros ->%list_elem_of_singleton. by destruct Hc as [[] _].
    - change (fmt_d (Z.neg p)) with ("-" +:+ fmt_d (Z.pos p)). rewrite append_assoc.
      by apply (scan_number_end _ "-" (fmt_d (Z.pos p) +:+ rest)). }
  assert (Hpre : ∀ c0 w, byte_val c0 > 57 → HasPrefix (fmt_d z +:+ rest) (String c0 w) = false).
  { intros c0 w Hc0. assert (Hfirst : ∃ c t, fmt_d z = String c t ∧ byte_val c ≤ 57).
    { destruct z as [|p|p]; [by exists "0"%char, ""| |by exists "-"%char, (fmt_d (Z.pos p))].
      destruct (Hpos (Z.pos p)) as (c & t & Heq & Hc & _); [lia|]. exists c, t. split; [done|lia]. }
    destruct Hfirst as (c & t & -> & Hc). rewrite append_cons. cbn. destruct (Ascii.eqb c0 c) eqn:He; [|done].
    apply Ascii.eqb_eq in He as ->. lia. }
  unfold literal. rewrite !Hpre by done. by rewrite Hnum.
Qed.

Lemma json_string_app s t :
  json_string s +:+ t = String dquote (map_runes json_rune s +:+ String dquote t).
Proof.
  unfold json_string. rewrite append_assoc. change (char dquote +:+ t) with (String dquote t).
  by rewrite append_cons.
Qed.

Lemma pkey_member k t : pkey (json_string k +:+ String ":" t) = Some (to_valid k, skip_ws t).
Proof.
  rewrite json_string_app. unfold pkey. cbn [after]. change (Ascii.eqb dquote dquote) with true.
  cbv iota. rewrite scan_json_string. cbn. by rewrite unquote_json_string.
Qed.

Lemma pvalue_string f d s t :
  pvalue (S f) d (json_string s +:+ t) = Some (JStr (to_valid s), t).
Proof.
  rewrite json_string_app. cbn [pvalue].
  change (Ascii.eqb dquote "{") with false. change (Ascii.eqb dquote "[") with false.
  change (Ascii.eqb dquote dquote) with true. cbv iota. by rewrite scan_json_string, unquote_json_string.
Qed.

Lemma pvalue_fmt_d f d z rest :
  stops rest → pvalue (S f) d (fmt_d z +:+ rest) = Some (JNum (fmt_d z), rest).
Proof.
  intros Hr. pose proof (literal_fmt_d z rest Hr) as Hl. assert (Hb : ∀ c t, fmt_d z = String c t → byte_val c ≤ 57).
  { intros c t Hz. destruct z as [|p|p]; [by injection Hz as <- _| |by injection Hz as <- _].
    destruct (decimal_fmt_d (Z.pos p)) as ((c' & t' & Heq & Hc) & _); [lia|]. rewrite Heq in Hz.
    injection Hz as <- _. lia. }
  destruct (fmt_d z) as [|c t] eqn:Hz; [by destruct z as [|p|p]; [| |]; revert Hz; [done|destruct (decimal_fmt_d (Z.pos p)) as ((? & ? & -> & _) & _); [lia|]|]|]. specialize (Hb _ _ eq_refl). rewrite append_cons in *.
  cbn [pvalue]. destruct (Ascii.eqb_spec c "{") as [->|_]; [by destruct Hb|].
  destruct (Ascii.eqb_spec c "[") as [->|_]; [by destruct Hb|].
  destruct (Ascii.eqb_spec c dquote) as [->|_]; [|done].
  done.
Qed.

Lemma skip_ws_json_string s t : skip_ws (json_string s +:+ t) = json_string s +:+ t.
Proof. by rewrite json_string_app. Qed.

(** The member that ends an object, and one before it *)
Definition raw_text (text rest : string) : string := stake (len text - len rest) text.

Lemma pmembers_last f d k v j x :
  pvalue f d (skip_ws (v +:+ String "}" x)) = Some (j, String "}" x) →
  pmembers (S f) d (json_string k +:+ String ":" (v +:+ String "}" x)) =
  Some ([(to_valid k, j, raw_text (skip_ws (v +:+ String "}" x)) (String "}" x))], x).
Proof. intros Hv. cbn [pmembers]. by rewrite pkey_member, Hv. Qed.

Lemma pmembers_more f d k v j x l r :
  pvalue f d (skip_ws (v +:+ String "," x)) = Some (j, String "," x) → skip_ws x = x →
  pmembers f d x = Some (l, r) →
  pmembers (S f) d (json_string k +:+ String ":" (v +:+ String "," x)) =
  Some ((to_valid k, j, raw_text (skip_ws (v +:+ String "," x)) (String "," x)) :: l, r).
Proof.
  intros Hv Hx Hl. cbn [pmembers]. rewrite pkey_member, Hv.
  change (after "}" (skip_ws (String "," x))) with (@None string).
  change (after "," (skip_ws (String "," x))) with (Some x). cbv iota beta.
  by rewrite Hx, Hl.
Qed.

(** The whole text of an object, and the line break after it *)
Lemma json_parse_object s l :
  skip_ws s = s → after "}" s = None →
  (∀ f, (3 ≤ f)%nat → pmembers f (maxNestingDepth - 1) s = Some (l, newline)) →
  json_parse (String "{" s) = Some (JObj l).
Proof.
  intros Hw Ha Hm. rewrite (json_parse_fuel _ (S (2 * len (String "{" s) + 3))) by lia.
  change (skip_ws (String "{" s)) with (String "{" s). cbn [pvalue].
  change (Ascii.eqb "{" "{") with true. change (maxNestingDepth <=? 0) with false. cbv iota.
  by rewrite Hw, Ha, Hm by lia.
Qed.

(** ** The reports of a Job *)

Lemma json_string_nonspace s t : skip_ws (json_string s +:+ t) = json_string s +:+ t ∧
  after "}" (json_string s +:+ t) = None.
Proof. by rewrite json_string_app. Qed.

Lemma skip_ws_fmt_d z x : skip_ws (fmt_d z +:+ x) = fmt_d z +:+ x.
Proof.
  destruct z as [|p|p]; [done| |done].
  destruct (decimal_fmt_d (Z.pos p)) as ((c & t & Heq & Hc) & _); [lia|]. rewrite Heq, append_cons.
  cbn. unfold is_ws. rewrite bool_decide_eq_false_2; [done|]. intros Hin.
  by repeat (apply elem_of_cons in Hin as [->|Hin]; [by destruct Hc as [[] _]|]); apply not_elem_of_nil in Hin.
Qed.

Section reports.
Context (decode_error : string → string → error) (print_rune : Z → bool).
#[local] Instance go_json : JsonLib := go_JsonLib decode_error print_rune.

Lemma json_parse_result ref bytes : ∃ raw1 raw2,
  json_parse (json_result_text ref bytes +:+ newline) =
  Some (JObj [("snapshotRef", JStr (to_valid ref), raw1); ("bytes", JNum (fmt_d bytes), raw2)]).
Proof.
  assert (Htext : json_result_text ref bytes +:+ newline =
    String "{" (json_string "snapshotRef" +:+ String ":" (json_string ref +:+ String ","
      (json_string "bytes" +:+ String ":" (fmt_d bytes +:+ String "}" newline))))).
  { cbn [json_result_text go_json go_JsonLib]. unfold json_members. cbn [fmap list_fmap Join fst snd].
    by rewrite !append_assoc. }
  rewrite Htext. eexists _, _. apply json_parse_object; [apply json_string_nonspace..|].
  intros [|[|[|f]]] Hf; [lia..|].
  apply (pmembers_more (S (S f)) _ "snapshotRef"); [|apply json_string_nonspace|].
  - rewrite (proj1 (json_string_nonspace _ _)). apply pvalue_string.
  - apply (pmembers_last (S f) _ "bytes"). rewrite skip_ws_fmt_d. apply pvalue_fmt_d. cbn. set_solver.
Qed.

Lemma json_parse_error msg : ∃ raw,
  json_parse (json_error_text msg +:+ newline) = Some (JObj [("error", JStr (to_valid msg), raw)]).
Proof.
  assert (Htext : json_error_text msg +:+ newline =
    String "{" (json_string "error" +:+ String ":" (json_string msg +:+ String "}" newline))).
  { cbn [json_error_text go_json go_JsonLib]. unfold json_members. cbn [fmap list_fmap Join fst snd].
    by rewrite !append_assoc. }
  rewrite Htext. eexists. apply json_parse_object; [apply json_string_nonspace..|].
  intros [|[|f]] Hf; [lia..|]. apply (pmembers_last (S f) _ "error").
  rewrite (proj1 (json_string_nonspace _ _)). apply pvalue_string.
Qed.

End reports.

(** ** The promises of the interface *)

Lemma Atoi_range s z : Atoi s = Some z → - 2 ^ 63 ≤ z < 2 ^ 63.
Proof.
  unfold Atoi. destruct (match s with EmptyString => _ | _ => _ end) as [neg ds].
  destruct ds as [|c t]; [done|]. destruct (digits_val 0 _) as [n|]; [|done]. cbv zeta.
  destruct (_ && _) eqn:Hb; [|done]. intros [= <-]. apply andb_true_iff in Hb. lia.
Qed.

Definition size_ok (s : Snapshot) : Prop := - 2 ^ 63 ≤ sn_Size s < 2 ^ 63.

Lemma set_snapshot_size n v raw s s' : set_snapshot n v raw s = Some s' → size_ok s → size_ok s'.
Proof.
  unfold set_snapshot. intros Hs Hok.
  repeat case_bool_decide; apply bind_Some in Hs as (x & Hx & [= <-]); try done.
  destruct v; cbn in Hx; [by injection Hx as <-|done| |done..]. by apply Atoi_range in Hx.
Qed.

Lemma as_struct_snapshot_size v old s :
  as_struct snapshot_fields set_snapshot v old = Some s → size_ok old → size_ok s.
Proof.
  destruct v as [| | | | |l]; cbn [as_struct]; try done; [by intros [= <-]|].
  revert old. induction l as [|[[k v] raw] l IH]; cbn [set_members]; intros old; [by intros [= <-]|].
  destruct (find_field _ k) as [n|]; [|apply IH].
  destruct (set_snapshot n v raw old) as [old'|] eqn:Hs; [|done]. intros Hl Hok.
  by eapply IH, set_snapshot_size.
Qed.

Lemma as_snapshots_size v old l :
  as_snapshots v old = Some l → Forall size_ok old → Forall size_ok l.
Proof.
  unfold as_snapshots, as_slice. destruct v as [| | | |l0|]; try done; [by intros [= <-]|].
  revert old l. induction l0 as [|v l0 IH]; cbn [as_elems]; intros old l; [by intros [= <-]|].
  destruct (as_struct _ _ v _) as [s|] eqn:Hs; [|done].
  destruct (as_elems _ _ l0 _) as [l1|] eqn:Hl; [|done]. intros [= <-] Hold.
  apply as_struct_snapshot_size in Hs.
  - constructor; [done|]. eapply IH; [exact Hl|]. by destruct Hold.
  - by destruct Hold.
Qed.

Lemma data_size l old r :
  set_members ["data"] (λ _ v _ old, as_snapshots v old) l old = Some r →
  Forall size_ok old → Forall size_ok r.
Proof.
  revert old. induction l as [|[[k v] raw] l IH]; cbn [set_members]; intros old; [by intros [= <-]|].
  destruct (find_field _ k); [|apply IH].
  destruct (as_snapshots v old) as [old'|] eqn:Hs; [|done]. intros Hl Hok.
  by eapply IH, as_snapshots_size.
Qed.

(** The members of a result, assigned *)
Lemma set_result_members ref bytes raw1 raw2 :
  - 2 ^ 63 ≤ bytes < 2 ^ 63 →
  set_members ["snapshotRef"; "bytes"] set_result
    [("snapshotRef", JStr ref, raw1); ("bytes", JNum (fmt_d bytes), raw2)] ("", 0) = Some (ref, bytes).
Proof.
  intros Hb. pose proof (Atoi_fmt_d bytes Hb) as Ha. set (lit := fmt_d bytes) in *. clearbody lit.
  cbn [set_members].
  change (find_field ["snapshotRef"; "bytes"] "snapshotRef") with (Some "snapshotRef").
  change (find_field ["snapshotRef"; "bytes"] "bytes") with (Some "bytes").
  unfold set_result. rewrite bool_decide_eq_true_2, bool_decide_eq_false_2 by done. cbn. by rewrite Ha.
Qed.

#[export] Instance go_JsonLaws decode_error print_rune :
  @JsonLaws (go_JsonLib decode_error print_rune).
Proof.
  split.
  - intros ref bytes Ha Hb. destruct (json_parse_result decode_error print_rune ref bytes) as (raw1 & raw2 & Hp).
    unfold go_json in Hp. set (s := _ +:+ newline) in *. clearbody s.
    cbn [json_result go_JsonLib]. unfold Unmarshal. rewrite Hp.
    cbn [mbind option_bind as_struct]. by rewrite set_result_members, to_valid_ascii.
  - intros msg. destruct (json_parse_error decode_error print_rune msg) as (raw & Hp).
    unfold go_json in Hp. set (s := _ +:+ newline) in *. clearbody s.
    cbn [json_result go_JsonLib]. unfold Unmarshal. by rewrite Hp.
  - intros s l. cbn [json_snapshots go_JsonLib]. unfold Unmarshal.
    destruct (json_parse s) as [v|]; [|done]. cbn. destruct (as_snapshots v []) as [l'|] eqn:Hv; [|done].
    intros [= <-]. by eapply as_snapshots_size.
  - intros s l. cbn [json_snapshot_data go_JsonLib]. unfold Unmarshal.
    destruct (json_parse s) as [v|]; [|done]. cbn. destruct v as [| | | | |m]; try done; [by intros [= <-]|].
    cbn. destruct (set_members _ _ m []) as [l'|] eqn:Hv; [|done].
    intros [= <-]. by eapply data_size.
Qed.
