(* ===== verification/JobBuild.v ===== *)
(** * The Jobs of the operator: internal/backup/job.go

    Builders of the backup Job and of the three shapes of restore Job.  The
    labels map is shared between a Job and its pod template in the code and
    never written afterwards, so a value stands for it. *)

From S2P Require Import Prelude GoLib Kube Placement.
From stdpp Require Import options.

Local Open Scope Z_scope.

(** internal/backup/serialize.go *)
Definition ManagedLabel : string := "pbs.sharifmind.ir/managed".

Record BackupJobSpec := mkBackupJobSpec {
  bjsp_Name : string;
  bjsp_Namespace : string;
  bjsp_Node : string;
  bjsp_RepoSecret : string;
  bjsp_PVCs : list string;
  bjsp_StagingConfigMap : string;
  bjsp_Notes : string;
  bjsp_Image : string;
  bjsp_ServiceAccount : string;
}.

Definition envContract : list (string * string) :=
  [("PBS_HOST", "host"); ("PBS_PORT", "port"); ("PBS_DATASTORE", "datastore");
   ("PBS_NS", "namespace"); ("PBS_TOKEN_ID", "tokenID");
   ("PBS_TOKEN_SECRET", "tokenSecret"); ("PBS_FINGERPRINT", "fingerprint");
   ("PBS_KEYFILE", "keyfile")].

Definition contractEnv (secret : string) : list EnvVar :=
  (λ c, mkEnv c.1 "" (Some (mkSKS secret c.2))) <$> envContract.

Definition RestartPolicyNever : string := "Never".
Definition PullIfNotPresent : string := "IfNotPresent".

Definition pinned (node : string) : NodeSelector :=
  mkNS [mkNST [mkNSR hostnameKey NodeSelectorOpIn [node]] []].

Definition pvc_volume_name (i : nat) : string := "pvc-" +:+ fmt_d (Z.of_nat i).

(** The loop over the PVCs of [BuildBackupJob], from index [i]. *)
Fixpoint backup_pvc_parts (i : nat) (pvcs : list string)
    : list Volume * list VolumeMount * list string :=
  match pvcs with
  | [] => ([], [], [])
  | pvc :: pvcs' =>
      let '(vs, ms, cmd) := backup_pvc_parts (S i) pvcs' in
      (pvcVolume (pvc_volume_name i) pvc true :: vs,
       mkMount (pvc_volume_name i) ("/backup/" +:+ pvc) true :: ms,
       "--pvc" :: pvc :: cmd)
  end.

Definition BuildBackupJob (spec : BackupJobSpec) : Job :=
  let '(volumes, mounts, pvc_args) := backup_pvc_parts 0 (bjsp_PVCs spec) in
  let staged := negb (bool_decide (bjsp_StagingConfigMap spec = "")) in
  let volumes := volumes ++
    if staged then [configMapVolume "api-staging" (bjsp_StagingConfigMap spec)] else [] in
  let mounts := mounts ++
    if staged then [mkMount "api-staging" "/staging/api" true] else [] in
  let command :=
    ["pbs-agent"; "backup"] ++ pvc_args ++
    (if staged then ["--api"; "/staging/api"] else []) ++
    (if bool_decide (bjsp_Notes spec = "") then [] else ["--notes"; bjsp_Notes spec]) in
  let labels : gmap string string :=
    <["app.kubernetes.io/managed-by" := "pbs-operator"]>
      (<["pbsbackup" := bjsp_Name spec]> {[ManagedLabel := "true"]}) in
  {| job_Meta := newMeta (bjsp_Name spec) (bjsp_Namespace spec) labels;
     job_BackoffLimit := Some 0;
     job_TTLSecondsAfterFinished := Some 3600;
     job_Template := {|
       pt_Labels := labels;
       pt_Spec := {|
         ps_Hostname := bjsp_Name spec;
         ps_RestartPolicy := RestartPolicyNever;
         ps_ServiceAccountName := bjsp_ServiceAccount spec;
         ps_NodeAffinity := Some (pinned (bjsp_Node spec));
         ps_Containers := [{|
           ct_Name := "backup"; ct_Image := bjsp_Image spec; ct_Command := command;
           ct_Env := contractEnv (bjsp_RepoSecret spec); ct_VolumeMounts := mounts;
           ct_ImagePullPolicy := PullIfNotPresent |}];
         ps_Volumes := volumes;
         ps_NodeName := "" |} |};
     job_Conditions := [] |}.

(** ** Restore Jobs *)

Record RestoreJobSpec := mkRestoreJobSpec {
  rjsp_Name : string;
  rjsp_Restore : string;
  rjsp_Namespace : string;
  rjsp_RepoSecret : string;
  rjsp_Ref : string;
  rjsp_Image : string;
  rjsp_ServiceAccount : string;
}.

Definition restoreJobBase (spec : RestoreJobSpec) (command : list string) : Job :=
  let labels : gmap string string :=
    <["app.kubernetes.io/managed-by" := "pbs-operator"]>
      (<["pbsrestore" := rjsp_Restore spec]> {[ManagedLabel := "true"]}) in
  {| job_Meta := newMeta (rjsp_Name spec) (rjsp_Namespace spec) labels;
     job_BackoffLimit := Some 0;
     job_TTLSecondsAfterFinished := Some 3600;
     job_Template := {|
       pt_Labels := labels;
       pt_Spec := {|
         ps_Hostname := "";
         ps_RestartPolicy := RestartPolicyNever;
         ps_ServiceAccountName := rjsp_ServiceAccount spec;
         ps_NodeAffinity := None;
         ps_Containers := [{|
           ct_Name := "restore"; ct_Image := rjsp_Image spec; ct_Command := command;
           ct_Env := contractEnv (rjsp_RepoSecret spec); ct_VolumeMounts := [];
           ct_ImagePullPolicy := PullIfNotPresent |}];
         ps_Volumes := [];
         ps_NodeName := "" |} |};
     job_Conditions := [] |}.

(** *** Updates through [pod := &job.Spec.Template.Spec] *)

Definition update_pod (f : PodSpec → PodSpec) (j : Job) : Job :=
  {| job_Meta := job_Meta j; job_BackoffLimit := job_BackoffLimit j;
     job_TTLSecondsAfterFinished := job_TTLSecondsAfterFinished j;
     job_Template := {| pt_Labels := pt_Labels (job_Template j);
                        pt_Spec := f (pt_Spec (job_Template j)) |};
     job_Conditions := job_Conditions j |}.

(** An update of [pod.Containers[0]]. *)
Definition update_container0 (f : Container → Container) (p : PodSpec) : PodSpec :=
  {| ps_Hostname := ps_Hostname p; ps_RestartPolicy := ps_RestartPolicy p;
     ps_ServiceAccountName := ps_ServiceAccountName p; ps_NodeAffinity := ps_NodeAffinity p;
     ps_Containers := match ps_Containers p with c :: cs => f c :: cs | [] => [] end;
     ps_Volumes := ps_Volumes p; ps_NodeName := ps_NodeName p |}.

Definition set_Volumes (vs : list Volume) (p : PodSpec) : PodSpec :=
  {| ps_Hostname := ps_Hostname p; ps_RestartPolicy := ps_RestartPolicy p;
     ps_ServiceAccountName := ps_ServiceAccountName p; ps_NodeAffinity := ps_NodeAffinity p;
     ps_Containers := ps_Containers p; ps_Volumes := vs; ps_NodeName := ps_NodeName p |}.

Definition set_Affinity (a : NodeSelector) (p : PodSpec) : PodSpec :=
  {| ps_Hostname := ps_Hostname p; ps_RestartPolicy := ps_RestartPolicy p;
     ps_ServiceAccountName := ps_ServiceAccountName p; ps_NodeAffinity := Some a;
     ps_Containers := ps_Containers p; ps_Volumes := ps_Volumes p; ps_NodeName := ps_NodeName p |}.

Definition set_VolumeMounts (ms : list VolumeMount) : PodSpec → PodSpec :=
  update_container0 (λ c,
    {| ct_Name := ct_Name c; ct_Image := ct_Image c; ct_Command := ct_Command c;
       ct_Env := ct_Env c; ct_VolumeMounts := ms; ct_ImagePullPolicy := ct_ImagePullPolicy c |}).

Definition cacheVolume : Volume := emptyDirVolume "client-cache" "Memory".
Definition cacheMount : VolumeMount := mkMount "client-cache" "/cache" false.

Definition addCacheEnv : PodSpec → PodSpec :=
  update_container0 (λ c,
    {| ct_Name := ct_Name c; ct_Image := ct_Image c; ct_Command := ct_Command c;
       ct_Env := ct_Env c ++ [mkEnv "XDG_CACHE_HOME" "/cache" None;
                              mkEnv "TMPDIR" "/cache" None];
       ct_VolumeMounts := ct_VolumeMounts c; ct_ImagePullPolicy := ct_ImagePullPolicy c |}).

Definition BuildAPIFetchJob (spec : RestoreJobSpec) (configMap : string) : Job :=
  let command :=
    ["pbs-agent"; "restore-volume";
     "--ref"; rjsp_Ref spec;
     "--archive"; "api.pxar.didx";
     "--target"; "/staging/api";
     "--configmap"; configMap] in
  let job := restoreJobBase spec command in
  let job := update_pod (set_Volumes [emptyDirVolume "api-staging" ""; cacheVolume]) job in
  let job := update_pod (set_VolumeMounts
               [mkMount "api-staging" "/staging/api" false; cacheMount]) job in
  update_pod addCacheEnv job.

Definition BuildApplyJob (spec : RestoreJobSpec) (phase configMap : string)
    (drop keep : list string) : Job :=
  let command :=
    ["pbs-agent"; "apply-manifests"; "--phase"; phase; "--file"; "/staging/api/api.yaml"] in
  let command := command ++ (match drop with [] => [] | _ => ["--drop"; Join drop ","] end) in
  let command := command ++ (match keep with [] => [] | _ => ["--keep"; Join keep ","] end) in
  let job := restoreJobBase spec command in
  let job := update_pod (set_Volumes [configMapVolume "api-staging" configMap]) job in
  update_pod (set_VolumeMounts [mkMount "api-staging" "/staging/api" true]) job.

Fixpoint restore_pvc_parts (i : nat) (pvcs : list string)
    : list Volume * list VolumeMount * list string :=
  match pvcs with
  | [] => ([], [], [])
  | pvc :: pvcs' =>
      let '(vs, ms, cmd) := restore_pvc_parts (S i) pvcs' in
      (pvcVolume (pvc_volume_name i) pvc false :: vs,
       mkMount (pvc_volume_name i) ("/backup/" +:+ pvc) false :: ms,
       "--archive" :: ("pvc-" +:+ pvc +:+ ".pxar.didx") ::
       "--target" :: ("/backup/" +:+ pvc) :: cmd)
  end.

Definition BuildRestoreVolumeJob (spec : RestoreJobSpec) (node : string) (pvcs : list string)
    : Job :=
  let '(volumes, mounts, args) := restore_pvc_parts 0 pvcs in
  let command := ["pbs-agent"; "restore-volume"; "--ref"; rjsp_Ref spec] ++ args in
  let job := restoreJobBase spec command in
  let job := update_pod (set_Volumes (volumes ++ [cacheVolume])) job in
  let job := update_pod (set_VolumeMounts (mounts ++ [cacheMount])) job in
  let job := update_pod addCacheEnv job in
  update_pod (set_Affinity (pinned node)) job.

(** The command of a Job with one container. *)
Definition job_command (j : Job) : list string :=
  mbind ct_Command (ps_Containers (pt_Spec (job_Template j))).

Lemma job_command_set_Volumes vs j : job_command (update_pod (set_Volumes vs) j) = job_command j.
Proof. done. Qed.
Lemma job_command_set_Affinity a j : job_command (update_pod (set_Affinity a) j) = job_command j.
Proof. done. Qed.
Lemma job_command_set_VolumeMounts ms j :
  job_command (update_pod (set_VolumeMounts ms) j) = job_command j.
Proof. unfold job_command. cbn. by destruct (ps_Containers _). Qed.
Lemma job_command_addCacheEnv j : job_command (update_pod addCacheEnv j) = job_command j.
Proof. unfold job_command. cbn. by destruct (ps_Containers _). Qed.
Lemma job_command_base spec cmd : job_command (restoreJobBase spec cmd) = cmd.
Proof. unfold job_command. cbn. by rewrite app_nil_r. Qed.
#[export] Hint Rewrite job_command_set_Volumes job_command_set_Affinity
  job_command_set_VolumeMounts job_command_addCacheEnv job_command_base : jobs.

(** ** What a pod of these Jobs looks like *)

(** Volume names are distinct, each container mounts exactly the pod's volumes,
    each at a path of its own. *)
Definition pod_wf (p : PodSpec) : Prop :=
  NoDup (vol_Name <$> ps_Volumes p) ∧
  Forall (λ c, vm_Name <$> ct_VolumeMounts c = vol_Name <$> ps_Volumes p ∧
               NoDup (vm_MountPath <$> ct_VolumeMounts c)) (ps_Containers p).

(** The claims a pod mounts, with the read-only flags of source and mount. *)
Definition pod_claims (p : PodSpec) : list (string * bool) :=
  omap (λ v, (λ s, (pvs_ClaimName s, pvs_ReadOnly s)) <$> vol_PersistentVolumeClaim v)
       (ps_Volumes p).

Definition job_pod (j : Job) : PodSpec := pt_Spec (job_Template j).

Lemma pvc_volume_name_inj i j : pvc_volume_name i = pvc_volume_name j → i = j.
Proof.
  unfold pvc_volume_name, fmt_d. intros H%append_inj_l. apply (inj pretty) in H. lia.
Qed.

Lemma NoDup_pvc_volume_names i n : NoDup (pvc_volume_name <$> seq i n).
Proof.
  apply NoDup_fmap; [|apply NoDup_seq]. intros ??. apply pvc_volume_name_inj.
Qed.

Lemma backup_pvc_parts_eq i pvcs :
  backup_pvc_parts i pvcs =
  (zip_with (λ n pvc, pvcVolume n pvc true) (pvc_volume_name <$> seq i (length pvcs)) pvcs,
   zip_with (λ n pvc, mkMount n ("/backup/" +:+ pvc) true)
     (pvc_volume_name <$> seq i (length pvcs)) pvcs,
   pvcs ≫= λ pvc, ["--pvc"; pvc]).
Proof. revert i. induction pvcs as [|p ps IH]; intros i; [done|]. simpl. by rewrite IH. Qed.

Lemma restore_pvc_parts_eq i pvcs :
  restore_pvc_parts i pvcs =
  (zip_with (λ n pvc, pvcVolume n pvc false) (pvc_volume_name <$> seq i (length pvcs)) pvcs,
   zip_with (λ n pvc, mkMount n ("/backup/" +:+ pvc) false)
     (pvc_volume_name <$> seq i (length pvcs)) pvcs,
   pvcs ≫= λ pvc, ["--archive"; "pvc-" +:+ pvc +:+ ".pxar.didx"; "--target"; "/backup/" +:+ pvc]).
Proof. revert i. induction pvcs as [|p ps IH]; intros i; [done|]. simpl. by rewrite IH. Qed.

(** Projections of the zipped parts. *)
Lemma fmap_zip_with_fst {A B C D} (f : A → B → C) (g : C → D) (h : A → D) l k :
  (∀ a b, g (f a b) = h a) → length l = length k → g <$> zip_with f l k = h <$> l.
Proof.
  intros Hf. revert k. induction l as [|a l IH]; intros [|b k] Hl; simplify_eq/=; [done|].
  by rewrite Hf, IH.
Qed.
Lemma fmap_zip_with_snd {A B C D} (f : A → B → C) (g : C → D) (h : B → D) l k :
  (∀ a b, g (f a b) = h b) → length l = length k → g <$> zip_with f l k = h <$> k.
Proof.
  intros Hf. revert k. induction l as [|a l IH]; intros [|b k] Hl; simplify_eq/=; [done|].
  by rewrite Hf, IH.
Qed.
Lemma omap_zip_with_snd {A B C D} (f : A → B → C) (g : C → option D) (h : B → D) l k :
  (∀ a b, g (f a b) = Some (h b)) → length l = length k → omap g (zip_with f l k) = h <$> k.
Proof.
  intros Hf. revert k. induction l as [|a l IH]; intros [|b k] Hl; simplify_eq/=; [done|].
  by rewrite Hf, IH.
Qed.

Lemma Forall_zip_with_all {A B C} (P : C → Prop) (f : A → B → C) l k :
  (∀ a b, P (f a b)) → Forall P (zip_with f l k).
Proof. intros HP. revert k. induction l; intros [|b k]; simpl; constructor; auto. Qed.

Section volumes.
Context (pvcs : list string) (ro : bool).
Local Abbreviation names := (pvc_volume_name <$> seq 0 (length pvcs)).
Local Abbreviation vols := (zip_with (λ n pvc, pvcVolume n pvc ro) names pvcs).
Local Abbreviation mnts := (zip_with (λ n pvc, mkMount n ("/backup/" +:+ pvc) ro) names pvcs).

Lemma len_names : length names = length pvcs.
Proof. by rewrite length_fmap, length_seq. Qed.

Lemma vols_names : vol_Name <$> vols = names.
Proof.
  rewrite (fmap_zip_with_fst _ _ id) by (done || apply len_names). apply list_fmap_id.
Qed.

Lemma mnts_names : vm_Name <$> mnts = names.
Proof.
  rewrite (fmap_zip_with_fst _ _ id) by (done || apply len_names). apply list_fmap_id.
Qed.

Lemma mnts_paths : vm_MountPath <$> mnts = String.append "/backup/" <$> pvcs.
Proof. apply fmap_zip_with_snd; [done|apply len_names]. Qed.

Lemma vols_claims :
  omap (λ v, (λ s, (pvs_ClaimName s, pvs_ReadOnly s)) <$> vol_PersistentVolumeClaim v) vols =
  (λ p, (p, ro)) <$> pvcs.
Proof. apply omap_zip_with_snd; [done|apply len_names]. Qed.

(** Adding one more volume, mounted outside [/backup/]. *)
Lemma pod_wf_extra (extra path : string) :
  NoDup pvcs → HasPrefix extra "pvc-" = false → HasPrefix path "/backup/" = false →
  NoDup (names ++ [extra]) ∧ NoDup ((String.append "/backup/" <$> pvcs) ++ [path]).
Proof.
  intros Hnd He Hp. split; apply NoDup_app; (split; [|split; [|apply NoDup_singleton]]).
  - apply NoDup_pvc_volume_names.
  - intros x Hx Hx'. apply list_elem_of_singleton in Hx' as ->.
    apply list_elem_of_fmap in Hx as (n & -> & _).
    unfold pvc_volume_name in He. by rewrite HasPrefix_app in He.
  - apply NoDup_fmap; [|done]. intros ??. apply append_inj_l.
  - intros x Hx Hx'. apply list_elem_of_singleton in Hx' as ->.
    apply list_elem_of_fmap in Hx as (n & -> & _). by rewrite HasPrefix_app in Hp.
Qed.

Lemma pod_wf_plain :
  NoDup pvcs → NoDup names ∧ NoDup (String.append "/backup/" <$> pvcs).
Proof.
  intros Hnd. split; [apply NoDup_pvc_volume_names|].
  apply NoDup_fmap; [|done]. intros ??. apply append_inj_l.
Qed.
End volumes.

(** The pod of a backup Job mounts every claim of the group exactly once and
    read-only, with consistent volume names and distinct mount paths, is pinned
    to the node of the group, never restarts, and takes its environment from the
    contract keys of the repo secret alone. *)
Theorem BuildBackupJob_pod spec :
  NoDup (bjsp_PVCs spec) →
  let p := job_pod (BuildBackupJob spec) in
  pod_wf p ∧
  pod_claims p = (λ c, (c, true)) <$> bjsp_PVCs spec ∧
  Forall (λ c, Forall (λ m, vm_ReadOnly m = true) (ct_VolumeMounts c) ∧
               ct_Env c = contractEnv (bjsp_RepoSecret spec)) (ps_Containers p) ∧
  ps_NodeAffinity p = Some (pinned (bjsp_Node spec)) ∧
  ps_Hostname p = om_Name (job_Meta (BuildBackupJob spec)) ∧
  ps_RestartPolicy p = RestartPolicyNever ∧
  job_BackoffLimit (BuildBackupJob spec) = Some 0.
Proof.
  intros Hnd p. subst p. unfold BuildBackupJob, job_pod. rewrite backup_pvc_parts_eq.
  cbn [job_Template pt_Spec ps_NodeAffinity ps_Hostname ps_RestartPolicy job_BackoffLimit job_Meta
       newMeta om_Name ps_Containers ps_Volumes].
  split; [|split; [|split; [|done]]].
  - unfold pod_wf. cbn [ps_Volumes ps_Containers]. rewrite Forall_singleton.
    cbn [ct_VolumeMounts]. rewrite !fmap_app, vols_names, mnts_names, mnts_paths.
    destruct (negb _); cbn [fmap list_fmap].
    + destruct (pod_wf_extra (bjsp_PVCs spec) "api-staging" "/staging/api") as [H1 H2]; done.
    + rewrite !app_nil_r. destruct (pod_wf_plain (bjsp_PVCs spec)); done.
  - unfold pod_claims. cbn [ps_Volumes]. rewrite omap_app, vols_claims.
    destruct (negb _); simpl; by rewrite app_nil_r.
  - rewrite Forall_singleton. cbn [ct_VolumeMounts ct_Env]. split; [|done].
    apply Forall_app. split; [|destruct (negb _); repeat constructor].
    by apply Forall_zip_with_all.
Qed.

Lemma BuildBackupJob_pod_witness :
  let spec := mkBackupJobSpec "daily-n1" "apps" "n1" "daily-repo" ["data"; "wal"] "daily-api"
                "notes" "agent:1" "" in
  NoDup (bjsp_PVCs spec) ∧
  pod_claims (job_pod (BuildBackupJob spec)) = [("data", true); ("wal", true)].
Proof.
  intros spec. assert (NoDup (bjsp_PVCs spec)) as H by by apply (bool_decide_unpack _).
  split; [done|]. exact (proj1 (proj2 (BuildBackupJob_pod spec H))).
Defined.

(** The hypothesis is needed: a claim listed twice is mounted twice at one path,
    which the API server rejects. *)
Example duplicate_claim_pod :
  let spec := mkBackupJobSpec "daily-n1" "apps" "n1" "daily-repo" ["data"; "data"] "" "" "agent:1" "" in
  ¬ pod_wf (job_pod (BuildBackupJob spec)).
Proof.
  intros spec [_ Hms]. apply Forall_inv in Hms as [_ Hnd]. by apply (bool_decide_pack _) in Hnd.
Qed.

(** The pod after the updates of [BuildRestoreVolumeJob]. *)
Lemma volume_job_pod j c a ms vs :
  ps_Containers (job_pod j) = [c] →
  job_pod (update_pod (set_Affinity a) (update_pod addCacheEnv
    (update_pod (set_VolumeMounts ms) (update_pod (set_Volumes vs) j)))) =
  {| ps_Hostname := ps_Hostname (job_pod j);
     ps_RestartPolicy := ps_RestartPolicy (job_pod j);
     ps_ServiceAccountName := ps_ServiceAccountName (job_pod j);
     ps_NodeAffinity := Some a;
     ps_Containers := [{|
       ct_Name := ct_Name c; ct_Image := ct_Image c; ct_Command := ct_Command c;
       ct_Env := ct_Env c ++ [mkEnv "XDG_CACHE_HOME" "/cache" None; mkEnv "TMPDIR" "/cache" None];
       ct_VolumeMounts := ms; ct_ImagePullPolicy := ct_ImagePullPolicy c |}];
     ps_Volumes := vs;
     ps_NodeName := ps_NodeName (job_pod j) |}.
Proof. destruct j as [m b t [l [h r s n cs v nn]] cd]. cbn. by intros ->. Qed.

(** The pod of a volume restore Job mounts every claim of the group writable,
    once, next to the tmpfs cache volume; names and paths are consistent, it is
    pinned to the node of the group, runs as the given service account, and its
    environment is the contract keys of the copied secret plus the two cache
    variables. *)
Theorem BuildRestoreVolumeJob_pod spec node pvcs :
  NoDup pvcs →
  let p := job_pod (BuildRestoreVolumeJob spec node pvcs) in
  pod_wf p ∧
  pod_claims p = (λ c, (c, false)) <$> pvcs ∧
  cacheVolume ∈ ps_Volumes p ∧
  Forall (λ c, Forall (λ m, vm_ReadOnly m = false) (ct_VolumeMounts c) ∧
               ct_Env c = contractEnv (rjsp_RepoSecret spec) ++
                 [mkEnv "XDG_CACHE_HOME" "/cache" None; mkEnv "TMPDIR" "/cache" None])
    (ps_Containers p) ∧
  ps_NodeAffinity p = Some (pinned node) ∧
  ps_ServiceAccountName p = rjsp_ServiceAccount spec ∧
  ps_RestartPolicy p = RestartPolicyNever.
Proof.
  intros Hnd p. subst p. unfold BuildRestoreVolumeJob. rewrite restore_pvc_parts_eq.
  erewrite volume_job_pod by reflexivity.
  cbn [restoreJobBase job_pod job_Template pt_Spec ps_NodeAffinity ps_ServiceAccountName
       ps_RestartPolicy ps_Containers ps_Volumes].
  split; [|split; [|split; [|split; [|done]]]].
  - unfold pod_wf. cbn [ps_Volumes ps_Containers]. rewrite Forall_singleton.
    cbn [ct_VolumeMounts]. rewrite !fmap_app, vols_names, mnts_names, mnts_paths.
    destruct (pod_wf_extra pvcs "client-cache" "/cache") as [H1 H2]; done.
  - unfold pod_claims. cbn [ps_Volumes]. rewrite omap_app, vols_claims.
    simpl. by rewrite app_nil_r.
  - set_solver.
  - rewrite Forall_singleton. cbn [ct_VolumeMounts ct_Env]. split; [|done].
    apply Forall_app. split; [|repeat constructor]. by apply Forall_zip_with_all.
Qed.

Lemma BuildRestoreVolumeJob_pod_witness :
  let spec := mkRestoreJobSpec "r-vol-n1" "r" "apps" "r-repo" "host/a/1" "agent:1" "" in
  NoDup ["data"; "wal"] ∧
  pod_claims (job_pod (BuildRestoreVolumeJob spec "n1" ["data"; "wal"])) =
    [("data", false); ("wal", false)].
Proof.
  intros spec. assert (NoDup ["data"; "wal"]) as H by by apply (bool_decide_unpack _).
  split; [done|]. exact (proj1 (proj2 (BuildRestoreVolumeJob_pod spec "n1" _ H))).
Defined.
