(* ===== verification/AgentArgs.v ===== *)
(** * The agent's command lines: internal/agent, cmd/agent/main.go

    [flag.FlagSet.Parse] of the Go standard library for flags that take a
    value, the three argument parsers of the agent built on it, and the
    dispatch of [main].  The theorems are the contract between the two
    binaries: what [internal/backup/job.go] puts on a Job's command line is
    what the agent in that Job reads back. *)

From S2P Require Import Prelude GoLib Kube JobBuild.
From Stdlib Require Import Ascii.
From stdpp Require Import options.

Local Open Scope Z_scope.

(** ** Package [flag] *)

(** What one argument is to [parseOne]. *)
Inductive flag_token :=
  | TokStop                              (* not a flag: parsing ends here *)
  | TokTerminator                        (* "--": dropped, parsing ends *)
  | TokBad                               (* bad flag syntax *)
  | TokFlag (name : string) (value : option string).

(** Position of the first ["="] at index 1 or later of a flag name. *)
Definition split_name (name : string) : string * option string :=
  match name with
  | EmptyString => (name, None)
  | String a t =>
      match IndexByte t "=" with
      | Some i => (String a (stake i t), Some (sdrop (S i) t))
      | None => (name, None)
      end
  end.

Definition flag_name_token (name : string) : flag_token :=
  match name with
  | EmptyString => TokBad
  | String a _ =>
      if Ascii.eqb a "-" || Ascii.eqb a "=" then TokBad
      else let '(n, v) := split_name name in TokFlag n v
  end.

Definition flag_tokenize (s : string) : flag_token :=
  match s with
  | String "-" EmptyString => TokStop
  | String "-" (String "-" EmptyString) => TokTerminator
  | String "-" (String "-" name) => flag_name_token name
  | String "-" name => flag_name_token name
  | _ => TokStop
  end.

Inductive flag_error :=
  | ErrBadSyntax (arg : string) | ErrHelp | ErrNotDefined (name : string)
  | ErrNeedsArgument (name : string).

(** [FlagSet.Parse]: the assignments in order and the arguments left over. *)
Fixpoint flag_Parse (defined : list string) (args : list string)
    : flag_error + (list (string * string) * list string) :=
  match args with
  | [] => inr ([], [])
  | s :: args' =>
      match flag_tokenize s with
      | TokStop => inr ([], args)
      | TokTerminator => inr ([], args')
      | TokBad => inl (ErrBadSyntax s)
      | TokFlag name value =>
          if decide (name ∈ defined) then
            match value with
            | Some v =>
                match flag_Parse defined args' with
                | inl e => inl e
                | inr (set, rest) => inr ((name, v) :: set, rest)
                end
            | None =>
                match args' with
                | [] => inl (ErrNeedsArgument name)
                | v :: args'' =>
                    match flag_Parse defined args'' with
                    | inl e => inl e
                    | inr (set, rest) => inr ((name, v) :: set, rest)
                    end
                end
            end
          else if decide (name = "help" ∨ name = "h") then inl ErrHelp
          else inl (ErrNotDefined name)
      end
  end.

(** A repeatable flag ([pvcFlag]) collects every value; a [StringVar] keeps the
    last one. *)
Definition flag_all (name : string) (set : list (string * string)) : list string :=
  omap (λ nv, if bool_decide (nv.1 = name) then Some nv.2 else None) set.
Definition flag_last (name def : string) (set : list (string * string)) : string :=
  default def (last (flag_all name set)).

(** ** The agent's parsers *)

Inductive args_error := ErrFlag (e : flag_error) | ErrUsage (msg : string).

Definition default_termlog (getenv : string → string) : string :=
  let t := TrimSpace (getenv "TERMLOG") in
  if bool_decide (t = "") then "/dev/termination-log" else t.

Definition flag_Error (e : flag_error) : string :=
  match e with
  | ErrBadSyntax arg => "bad flag syntax: " +:+ arg
  | ErrHelp => "flag: help requested"
  | ErrNotDefined name => "flag provided but not defined: -" +:+ name
  | ErrNeedsArgument name => "flag needs an argument: -" +:+ name
  end.
Definition args_Error (e : args_error) : string :=
  match e with ErrFlag e => flag_Error e | ErrUsage msg => msg end.

Record backup_args := mkBackupArgs {
  ba_pvcs : list string; ba_apiDir : string; ba_notes : string; ba_termlog : string }.

Definition ParseBackupArgs (args : list string) (getenv : string → string)
    : args_error + backup_args :=
  let termlog := default_termlog getenv in
  match flag_Parse ["pvc"; "api"; "notes"; "termlog"] args with
  | inl e => inl (ErrFlag e)
  | inr (set, rest) =>
      let pvcs := flag_all "pvc" set in
      let apiDir := flag_last "api" "" set in
      if bool_decide (pvcs = []) && bool_decide (apiDir = "") then
        inl (ErrUsage "backup: at least one --pvc or --api is required")
      else if negb (bool_decide (rest = [])) then
        inl (ErrUsage ("backup: unexpected arguments: " +:+ Join rest " "))
      else
        inr (mkBackupArgs pvcs apiDir (flag_last "notes" "" set)
               (flag_last "termlog" termlog set))
  end.

(** internal/agent/restore.go *)
Record RestorePair := mkPair { rp_Archive : string; rp_Target : string }.

Record restore_args := mkRestoreArgs {
  ra_ref : string; ra_pairs : list RestorePair; ra_configMap : string; ra_termlog : string }.

Definition ParseRestoreVolumeArgs (args : list string) (getenv : string → string)
    : args_error + restore_args :=
  let termlog := default_termlog getenv in
  match flag_Parse ["ref"; "archive"; "target"; "configmap"; "termlog"] args with
  | inl e => inl (ErrFlag e)
  | inr (set, rest) =>
      let ref := flag_last "ref" "" set in
      let archives := flag_all "archive" set in
      let targets := flag_all "target" set in
      if bool_decide (ref = "") then inl (ErrUsage "restore-volume: --ref is required")
      else if bool_decide (archives = []) then
        inl (ErrUsage "restore-volume: at least one --archive/--target pair is required")
      else if negb (bool_decide (length archives = length targets)) then
        inl (ErrUsage ("restore-volume: " +:+ fmt_d (Z.of_nat (length archives)) +:+
                       " --archive flags but " +:+ fmt_d (Z.of_nat (length targets)) +:+ " --targets"))
      else if negb (bool_decide (rest = [])) then
        inl (ErrUsage ("restore-volume: unexpected arguments: " +:+ Join rest " "))
      else
        inr (mkRestoreArgs ref (zip_with mkPair archives targets)
               (flag_last "configmap" "" set) (flag_last "termlog" termlog set))
  end.

(** [csv] *)
Definition csv (l : string) : list string :=
  if bool_decide (TrimSpace l = "") then []
  else omap (λ f, let f := TrimSpace f in if bool_decide (f = "") then None else Some f)
         (SplitByte l ",").

Record apply_args := mkApplyArgs {
  aa_phase : string; aa_file : string; aa_drop : list string; aa_keep : list string;
  aa_termlog : string }.

Section apply_args.
(** [strconv.Quote], used in one error message only *)
Context (Quote : string → string).

Definition ParseApplyArgs (args : list string) (getenv : string → string)
    : args_error + apply_args :=
  let termlog := default_termlog getenv in
  match flag_Parse ["phase"; "file"; "drop"; "keep"; "termlog"] args with
  | inl e => inl (ErrFlag e)
  | inr (set, rest) =>
      let phase := flag_last "phase" "" set in
      let file := flag_last "file" "" set in
      if negb (bool_decide (phase = "pre")) && negb (bool_decide (phase = "workload")) then
        inl (ErrUsage ("apply-manifests: --phase must be pre or workload, got " +:+ Quote phase))
      else if bool_decide (file = "") then inl (ErrUsage "apply-manifests: --file is required")
      else if negb (bool_decide (rest = [])) then
        inl (ErrUsage ("apply-manifests: unexpected arguments: " +:+ Join rest " "))
      else
        inr (mkApplyArgs phase file (csv (flag_last "drop" "" set))
               (csv (flag_last "keep" "" set)) (flag_last "termlog" termlog set))
  end.

(** ** [main]: which run the arguments select, or a message and exit code 2 *)
Inductive agent_run :=
  | RunBackup_args (a : backup_args)
  | RunRestoreVolume_args (a : restore_args)
  | RunApplyManifests_args (a : apply_args)
  | ExitUsage (msg : string).

Definition main (argv : list string) (getenv : string → string) : agent_run :=
  let usage := λ e, ExitUsage ("pbs-agent: " +:+ args_Error e) in
  match argv with
  | _ :: sub :: args =>
      if bool_decide (sub = "backup") then
        match ParseBackupArgs args getenv with inl e => usage e | inr a => RunBackup_args a end
      else if bool_decide (sub = "restore-volume") then
        match ParseRestoreVolumeArgs args getenv with
        | inl e => usage e | inr a => RunRestoreVolume_args a end
      else if bool_decide (sub = "apply-manifests") then
        match ParseApplyArgs args getenv with
        | inl e => usage e | inr a => RunApplyManifests_args a end
      else
        ExitUsage ("unknown subcommand " +:+ Quote sub +:+
                   " (expected backup, restore-volume or apply-manifests)")
  | _ => ExitUsage "usage: pbs-agent <backup|restore-volume|apply-manifests> [args...]"
  end.
End apply_args.

(** ** Reading back a list of flags *)

Lemma flag_Parse_pair D f name v args set rest :
  flag_tokenize f = TokFlag name None → name ∈ D →
  flag_Parse D args = inr (set, rest) →
  flag_Parse D (f :: v :: args) = inr ((name, v) :: set, rest).
Proof. intros Hf Hin Hp. cbn. rewrite Hf, decide_True, Hp by done. done. Qed.

(** A sequence of groups of flags, each group a list of (flag, value) pairs. *)
Definition render_flags (fs : list (string * string)) : list string :=
  fs ≫= λ fv, ["--" +:+ fv.1; fv.2].

Definition plain_flag (name : string) : bool :=
  match flag_tokenize ("--" +:+ name) with
  | TokFlag n None => bool_decide (n = name)
  | _ => false
  end.

Lemma flag_Parse_render D fs :
  Forall (λ fv, plain_flag fv.1 = true ∧ fv.1 ∈ D) fs →
  flag_Parse D (render_flags fs) = inr (fs, []).
Proof.
  induction 1 as [|[n v] fs [Hp Hin] _ IH]; [done|].
  change (render_flags ((n, v) :: fs)) with (("--" +:+ n) :: v :: render_flags fs).
  apply flag_Parse_pair; [|done|done].
  unfold plain_flag in Hp. cbn [fst] in Hp.
  destruct (flag_tokenize ("--" +:+ n)) as [| | |n' [v'|]]; try done.
  by apply bool_decide_eq_true in Hp as ->.
Qed.

Lemma flag_all_app n s1 s2 : flag_all n (s1 ++ s2) = flag_all n s1 ++ flag_all n s2.
Proof. apply omap_app. Qed.

Lemma flag_all_same n (l : list string) : flag_all n ((λ v, (n, v)) <$> l) = l.
Proof.
  unfold flag_all. induction l as [|v l IH]; [done|]. cbn.
  rewrite bool_decide_eq_true_2 by done. by rewrite IH.
Qed.

Lemma flag_all_other n m (l : list string) : m ≠ n → flag_all n ((λ v, (m, v)) <$> l) = [].
Proof.
  intros H. unfold flag_all. induction l as [|v l IH]; [done|]. cbn.
  by rewrite bool_decide_eq_false_2.
Qed.

Lemma render_flags_app l1 l2 : render_flags (l1 ++ l2) = render_flags l1 ++ render_flags l2.
Proof. apply bind_app. Qed.

(** ** Jobs and agent agree on the command line *)

Definition backup_flags (spec : BackupJobSpec) : list (string * string) :=
  ((λ p, ("pvc", p)) <$> bjsp_PVCs spec) ++
  (if negb (bool_decide (bjsp_StagingConfigMap spec = "")) then [("api", "/staging/api")] else []) ++
  (if bool_decide (bjsp_Notes spec = "") then [] else [("notes", bjsp_Notes spec)]).

Lemma BuildBackupJob_command spec :
  job_command (BuildBackupJob spec) = ["pbs-agent"; "backup"] ++ render_flags (backup_flags spec).
Proof.
  unfold BuildBackupJob, job_command. rewrite backup_pvc_parts_eq.
  cbn [job_Template pt_Spec ps_Containers mbind list_bind ct_Command].
  rewrite app_nil_r. unfold backup_flags. rewrite !render_flags_app. simpl. do 2 f_equal.
  f_equal.
  - unfold render_flags. rewrite list_fmap_bind. done.
  - by destruct (bool_decide _), (bool_decide _).
Qed.

(** The agent started with the command of a backup Job backs up exactly the
    claims of the Job, in order, with the staging mount exactly when a staging
    ConfigMap was given, and with the notes of the spec verbatim. *)
Theorem backup_command_roundtrip Quote spec getenv :
  bjsp_PVCs spec ≠ [] ∨ bjsp_StagingConfigMap spec ≠ "" →
  main Quote (job_command (BuildBackupJob spec)) getenv =
  RunBackup_args
    {| ba_pvcs := bjsp_PVCs spec;
       ba_apiDir := if bool_decide (bjsp_StagingConfigMap spec = "") then "" else "/staging/api";
       ba_notes := bjsp_Notes spec;
       ba_termlog := default_termlog getenv |}.
Proof.
  intros Hne. rewrite BuildBackupJob_command. cbn [main app].
  rewrite bool_decide_eq_true_2 by done. unfold ParseBackupArgs.
  rewrite flag_Parse_render; last first.
  { unfold backup_flags. rewrite !Forall_app. split; [|split].
    - apply Forall_fmap, Forall_forall. intros p _. split; [done|]. cbn. repeat constructor.
    - destruct (negb _); repeat constructor.
    - destruct (bool_decide _); repeat constructor. }
  assert (flag_all "pvc" (backup_flags spec) = bjsp_PVCs spec) as ->.
  { unfold backup_flags. rewrite !flag_all_app, flag_all_same.
    by destruct (negb _), (bool_decide _); cbn; rewrite ?app_nil_r. }
  assert (∀ n d, n ≠ "pvc" → flag_last n d (backup_flags spec) =
    flag_last n d ((if negb (bool_decide (bjsp_StagingConfigMap spec = ""))
                    then [("api", "/staging/api")] else []) ++
       (if bool_decide (bjsp_Notes spec = "") then [] else [("notes", bjsp_Notes spec)]))) as Hl.
  { intros n d Hn. unfold flag_last, backup_flags. rewrite flag_all_app, flag_all_other by done. done. }
  rewrite !Hl by done. unfold flag_last.
  destruct (bool_decide (bjsp_StagingConfigMap spec = "")) eqn:Es,
    (bool_decide (bjsp_Notes spec = "")) eqn:En; cbn;
  apply bool_decide_eq_true in En || apply bool_decide_eq_false in En;
  apply bool_decide_eq_true in Es || apply bool_decide_eq_false in Es;
  destruct (bjsp_PVCs spec); try tauto; cbn; by rewrite ?En.
Qed.

Lemma backup_command_roundtrip_witness :
  ["data"; "wal"] ≠ [] ∧
  main id (job_command (BuildBackupJob
    (mkBackupJobSpec "b-n1" "pg" "n1" "s" ["data"; "wal"] "b-api" "-keep=7" "img" "")))
    (λ _, "") =
  RunBackup_args (mkBackupArgs ["data"; "wal"] "/staging/api" "-keep=7" "/dev/termination-log").
Proof.
  split; [done|].
  apply (backup_command_roundtrip id
    (mkBackupJobSpec "b-n1" "pg" "n1" "s" ["data"; "wal"] "b-api" "-keep=7" "img" "") (λ _, "")).
  left. discriminate.
Defined.

(** *** Volume restore *)

Definition restore_flags (ref : string) (pvcs : list string) : list (string * string) :=
  ("ref", ref) :: (pvcs ≫= λ p, [("archive", "pvc-" +:+ p +:+ ".pxar.didx");
                                 ("target", "/backup/" +:+ p)]).

Lemma BuildRestoreVolumeJob_command spec node pvcs :
  job_command (BuildRestoreVolumeJob spec node pvcs) =
  ["pbs-agent"; "restore-volume"] ++ render_flags (restore_flags (rjsp_Ref spec) pvcs).
Proof.
  unfold BuildRestoreVolumeJob, job_command. rewrite restore_pvc_parts_eq.
  autorewrite with jobs. cbn. do 4 f_equal.
  induction pvcs as [|p ps IH]; [done|]. cbn in *. by rewrite IH.
Qed.

Lemma flag_all_restore n ref pvcs :
  flag_all n (restore_flags ref pvcs) =
  (if bool_decide ("ref" = n) then [ref] else []) ++
  (if bool_decide ("archive" = n) then (λ p, "pvc-" +:+ p +:+ ".pxar.didx") <$> pvcs else []) ++
  (if bool_decide ("target" = n) then (λ p, "/backup/" +:+ p) <$> pvcs else []).
Proof.
  unfold restore_flags. change (?x :: ?l) with ([x] ++ l) at 1. rewrite flag_all_app. f_equal.
  { unfold flag_all. cbn. by destruct (bool_decide _). }
  induction pvcs as [|p ps IH]; [by repeat case_bool_decide|].
  cbn [mbind list_bind]. rewrite flag_all_app, IH. unfold flag_all. cbn.
  repeat case_bool_decide; simplify_eq; rewrite ?app_nil_r; done.
Qed.

Lemma flag_all_restore_cases ref pvcs :
  let set := restore_flags ref pvcs in
  flag_all "ref" set = [ref] ∧
  flag_all "archive" set = (λ p, "pvc-" +:+ p +:+ ".pxar.didx") <$> pvcs ∧
  flag_all "target" set = (λ p, "/backup/" +:+ p) <$> pvcs ∧
  flag_all "configmap" set = [] ∧ flag_all "termlog" set = [].
Proof.
  cbv zeta. rewrite !flag_all_restore. cbn [app].
  repeat split; repeat (case_bool_decide; simplify_eq); rewrite ?app_nil_r; done.
Qed.

(** The agent started with the command of a volume restore Job restores, for
    each claim of the Job in order, the claim's archive into the claim's mount,
    from the snapshot of the spec, and uploads no ConfigMap. *)
Theorem restore_volume_command_roundtrip Quote spec node pvcs getenv :
  rjsp_Ref spec ≠ "" → pvcs ≠ [] →
  main Quote (job_command (BuildRestoreVolumeJob spec node pvcs)) getenv =
  RunRestoreVolume_args
    {| ra_ref := rjsp_Ref spec;
       ra_pairs := (λ p, mkPair ("pvc-" +:+ p +:+ ".pxar.didx") ("/backup/" +:+ p)) <$> pvcs;
       ra_configMap := "";
       ra_termlog := default_termlog getenv |}.
Proof.
  intros Hr Hp. rewrite BuildRestoreVolumeJob_command. cbn [main app].
  rewrite bool_decide_eq_false_2, bool_decide_eq_true_2 by done.
  unfold ParseRestoreVolumeArgs. rewrite flag_Parse_render; last first.
  { unfold restore_flags. apply Forall_cons. split; [split; [done|repeat constructor]|].
    apply Forall_forall. intros x (p & Hx & _)%list_elem_of_bind.
    rewrite !elem_of_cons in Hx. destruct Hx as [->|[->|Hx]]; [..|by apply not_elem_of_nil in Hx];
      (split; [done|repeat constructor]). }
  destruct (flag_all_restore_cases (rjsp_Ref spec) pvcs) as (Href & Harc & Htar & Hcm & Htl).
  unfold flag_last. rewrite Href, Harc, Htar, Hcm, Htl. cbn [last default].
  rewrite (bool_decide_eq_false_2 (rjsp_Ref spec = "")) by done.
  case_bool_decide as H1; [by destruct pvcs|].
  case_bool_decide as H2; [|by rewrite !length_fmap in H2]. clear H1 H2.
  assert (∀ (f g : string → string) l,
    zip_with mkPair (f <$> l) (g <$> l) = (λ p, mkPair (f p) (g p)) <$> l) as ->; [|done].
  intros f g l. induction l as [|x l IH]; [done|]. cbn. by rewrite IH.
Qed.

Lemma restore_volume_command_roundtrip_witness :
  main id (job_command (BuildRestoreVolumeJob
    (mkRestoreJobSpec "r-vol-n1" "r" "pg" "s" "host/b/T" "img" "sa") "n1" ["data"])) (λ _, "") =
  RunRestoreVolume_args
    (mkRestoreArgs "host/b/T" [mkPair "pvc-data.pxar.didx" "/backup/data"] ""
       "/dev/termination-log").
Proof.
  apply (restore_volume_command_roundtrip id
    (mkRestoreJobSpec "r-vol-n1" "r" "pg" "s" "host/b/T" "img" "sa") "n1" ["data"] (λ _, ""));
    discriminate.
Defined.

(** *** Fetch of the API manifest *)

Lemma fetch_command_roundtrip Quote spec configMap getenv :
  rjsp_Ref spec ≠ "" →
  main Quote (job_command (BuildAPIFetchJob spec configMap)) getenv =
  RunRestoreVolume_args
    {| ra_ref := rjsp_Ref spec;
       ra_pairs := [mkPair "api.pxar.didx" "/staging/api"];
       ra_configMap := configMap;
       ra_termlog := default_termlog getenv |}.
Proof.
  intros Hr. unfold BuildAPIFetchJob. autorewrite with jobs. destruct (rjsp_Ref spec); done.
Qed.

(** *** Staged apply: kind filters *)

Definition is_alnum (a : ascii) : bool :=
  let n := N_of_ascii a in
  ((48 <=? n) && (n <=? 57) || (65 <=? n) && (n <=? 90) || (97 <=? n) && (n <=? 122))%N.

(** A Kind name: letters and digits, at least one. *)
Fixpoint all_alnum (s : string) : bool :=
  match s with EmptyString => true | String a t => is_alnum a && all_alnum t end.
Definition kind_name (s : string) : bool := negb (bool_decide (s = "")) && all_alnum s.

Definition first_alnum (s : string) : bool :=
  match s with EmptyString => false | String a _ => is_alnum a end.

Lemma alnum_prefix s e : first_alnum s = true → first_alnum e = false → e ≠ "" → HasPrefix s e = false.
Proof.
  intros Hs He Hne. apply not_true_iff_false. intros [t ->]%HasPrefix_spec.
  destruct e as [|a e]; [done|]. rewrite append_cons in Hs. cbn in Hs, He. congruence.
Qed.

(** Trimming keeps a string that starts and ends with a letter or digit. *)
Lemma TrimSpace_alnum s :
  first_alnum s = true → first_alnum (srev s) = true → TrimSpace s = s.
Proof.
  intros H1 H2. apply TrimSpace_id;
    [apply (Forall_impl (λ e, first_alnum e = false ∧ e ≠ ""))..]; try by apply (bool_decide_unpack _).
  all: intros e [He Hne]; by apply alnum_prefix.
Qed.

Lemma all_alnum_app s t : all_alnum (s +:+ t) = all_alnum s && all_alnum t.
Proof. induction s as [|a s IH]; [done|]. rewrite append_cons. cbn. by rewrite IH, andb_assoc. Qed.

Lemma all_alnum_srev s : all_alnum (srev s) = all_alnum s.
Proof.
  induction s as [|a s IH]; [done|]. unfold srev. cbn [srev_onto].
  rewrite srev_onto_srev, all_alnum_app, IH. cbn. by rewrite andb_true_r, andb_comm.
Qed.

Lemma first_alnum_app s t : kind_name s = true → first_alnum (s +:+ t) = true.
Proof.
  unfold kind_name. intros [Hne Ha]%andb_true_iff. destruct s as [|a s]; [done|].
  rewrite append_cons. cbn in *. by apply andb_true_iff in Ha as [-> _].
Qed.

Lemma kind_name_first s : kind_name s = true → first_alnum s = true.
Proof.
  unfold kind_name. intros [Hne Ha]%andb_true_iff. destruct s as [|a s]; [done|].
  cbn in Ha |- *. by apply andb_true_iff in Ha as [-> _].
Qed.

Lemma srev_nonempty s : srev s = "" → s = "".
Proof. intros H. rewrite <- (srev_srev s), H. done. Qed.

Lemma kind_name_srev s : kind_name s = true → kind_name (srev s) = true.
Proof.
  unfold kind_name. rewrite all_alnum_srev, !andb_true_iff, !negb_true_iff, !bool_decide_eq_false.
  intros [H1 H2]. split; [|done]. intros H. by apply srev_nonempty in H.
Qed.

Lemma byte_in_alnum c s : is_alnum c = false → all_alnum s = true → byte_in c s = false.
Proof.
  intros Hc. induction s as [|a s IH]; [done|]. cbn. intros [Ha Hs]%andb_true_iff.
  apply orb_false_iff. split; [|auto]. apply Ascii.eqb_neq. congruence.
Qed.

Lemma SplitByte_Join ks :
  ks ≠ [] → forallb kind_name ks = true → SplitByte (Join ks ",") "," = ks.
Proof.
  intros Hne Hks. induction ks as [|k ks IH]; [done|]. cbn in Hks.
  apply andb_true_iff in Hks as [Hk Hks].
  assert (byte_in "," k = false) as Hb.
  { apply byte_in_alnum; [done|]. by apply andb_true_iff in Hk as []. }
  destruct ks as [|k' ks]; [by apply SplitByte_no_sep|].
  change (Join (k :: k' :: ks) ",") with (k +:+ String "," (Join (k' :: ks) ",")).
  rewrite SplitByte_app by done. f_equal. by apply IH.
Qed.

Lemma Join_first ks : ks ≠ [] → forallb kind_name ks = true → first_alnum (Join ks ",") = true.
Proof.
  intros Hne Hks. destruct ks as [|k [|k' ks]]; [done|..]; cbn in Hks.
  - apply andb_true_iff in Hks as [Hk _]. by apply kind_name_first.
  - apply andb_true_iff in Hks as [Hk _]. by apply first_alnum_app.
Qed.

Lemma Join_last ks :
  ks ≠ [] → forallb kind_name ks = true → first_alnum (srev (Join ks ",")) = true.
Proof.
  intros Hne Hks. induction ks as [|k ks IH]; [done|]. cbn in Hks.
  apply andb_true_iff in Hks as [Hk Hks]. destruct ks as [|k' ks].
  - by apply kind_name_first, kind_name_srev.
  - change (Join (k :: k' :: ks) ",") with (k +:+ ("," +:+ Join (k' :: ks) ",")).
    rewrite srev_app, srev_app. specialize (IH ltac:(done) Hks).
    destruct (srev (Join (k' :: ks) ",")); [done|]. by rewrite !append_cons.
Qed.

Lemma csv_Join ks :
  forallb kind_name ks = true → csv (match ks with [] => "" | _ => Join ks "," end) = ks.
Proof.
  intros Hks. destruct (decide (ks = [])) as [->|Hne]; [done|].
  replace (match ks with [] => "" | _ => Join ks "," end) with (Join ks ",") by (by destruct ks).
  pose proof (Join_first ks Hne Hks) as H1. unfold csv.
  rewrite TrimSpace_alnum by (done || by apply Join_last).
  rewrite bool_decide_eq_false_2 by (by intros Hj; rewrite Hj in H1).
  rewrite SplitByte_Join by done. clear Hne H1.
  induction ks as [|k ks IH]; [done|]. cbn in Hks |- *.
  apply andb_true_iff in Hks as [Hk Hks].
  assert (TrimSpace k = k) as ->.
  { apply TrimSpace_alnum.
    - by apply kind_name_first.
    - by apply kind_name_first, kind_name_srev. }
  unfold kind_name in Hk. apply andb_true_iff in Hk as [Hk _]. apply negb_true_iff in Hk.
  rewrite Hk. f_equal. by apply IH.
Qed.

Definition apply_flags (phase : string) (drop keep : list string) : list (string * string) :=
  [("phase", phase); ("file", "/staging/api/api.yaml")] ++
  (match drop with [] => [] | _ => [("drop", Join drop ",")] end) ++
  (match keep with [] => [] | _ => [("keep", Join keep ",")] end).

Lemma BuildApplyJob_command spec phase configMap drop keep :
  job_command (BuildApplyJob spec phase configMap drop keep) =
  ["pbs-agent"; "apply-manifests"] ++ render_flags (apply_flags phase drop keep).
Proof. unfold BuildApplyJob. autorewrite with jobs. by destruct drop, keep. Qed.

Lemma flag_last_apply phase drop keep :
  let set := apply_flags phase drop keep in
  flag_last "phase" "" set = phase ∧ flag_last "file" "" set = "/staging/api/api.yaml" ∧
  flag_last "drop" "" set = (match drop with [] => "" | _ => Join drop "," end) ∧
  flag_last "keep" "" set = (match keep with [] => "" | _ => Join keep "," end) ∧
  ∀ d, flag_last "termlog" d set = d.
Proof. by destruct drop, keep. Qed.

(** The agent started with the command of an apply Job applies the phase of
    the Job with the Kind filters of the restore spec, element for element,
    when the filters hold Kind names (letters and digits). *)
Theorem apply_command_roundtrip Quote spec phase configMap drop keep getenv :
  phase = "pre" ∨ phase = "workload" →
  forallb kind_name drop = true → forallb kind_name keep = true →
  main Quote (job_command (BuildApplyJob spec phase configMap drop keep)) getenv =
  RunApplyManifests_args
    {| aa_phase := phase; aa_file := "/staging/api/api.yaml";
       aa_drop := drop; aa_keep := keep; aa_termlog := default_termlog getenv |}.
Proof.
  intros Hph Hd Hk. rewrite BuildApplyJob_command. cbn [main app].
  rewrite !bool_decide_eq_false_2, bool_decide_eq_true_2 by done.
  unfold ParseApplyArgs. rewrite flag_Parse_render.
  - destruct (flag_last_apply phase drop keep) as (-> & -> & -> & -> & ->).
    rewrite !csv_Join by done. by destruct Hph as [-> | ->].
  - destruct drop, keep; repeat constructor.
Qed.

Lemma apply_command_roundtrip_witness :
  main id (job_command (BuildApplyJob
    (mkRestoreJobSpec "r-api-pre" "r" "pg" "s" "host/b/T" "img" "sa")
    "pre" "r-api" ["Secret"; "Probe"] ["Probe"])) (λ _, "") =
  RunApplyManifests_args
    (mkApplyArgs "pre" "/staging/api/api.yaml" ["Secret"; "Probe"] ["Probe"]
       "/dev/termination-log").
Proof.
  apply (apply_command_roundtrip id
    (mkRestoreJobSpec "r-api-pre" "r" "pg" "s" "host/b/T" "img" "sa")
    "pre" "r-api" ["Secret"; "Probe"] ["Probe"] (λ _, ""));
    [by left|reflexivity|reflexivity].
Defined.
