(* ===== verification/RestorePlan.v ===== *)
(** * The restore plan: internal/backup/restore_plan.go

    Parsing of the staged [api.yaml], the rewrites that make a document
    restorable, the classification into apply buckets and the node a claim's
    workload pins.  The YAML reader and codec are third-party: the class
    [YamlLib]. *)

From S2P Require Import Prelude GoLib Kube Doc.
From Stdlib Require Import Ascii.
From stdpp Require Import options.

Local Open Scope Z_scope.

Class YamlLib := {
  (** [utilyaml.NewYAMLReader] read to the end: the raw documents, then the
      error that stopped it, if it was not [io.EOF] *)
  yaml_Documents : string → list string * option error;
  (** [yaml.Unmarshal] into a [map[string]any] *)
  yaml_Unmarshal : string → error + gmap string val;
  (** [yaml.Marshal] of a [map[string]any] *)
  yaml_Marshal : gmap string val → error + string;
}.

Record PlannedDoc := mkPlanned { pd_Kind : string; pd_Name : string; pd_YAML : string }.

Record ParsedDoc := mkParsed {
  d_Kind : string; d_Namespace : string; d_Name : string; d_Obj : gmap string val }.

Definition clusterScopedKinds : list string := ["Namespace"; "CustomResourceDefinition"].
Definition workloadKinds : list string :=
  ["Deployment"; "StatefulSet"; "DaemonSet"; "Job"; "CronJob"; "ReplicaSet"].
Definition droppedKinds : list string :=
  ["Pod"; "Endpoints"; "EndpointSlice"; "PodMetrics"; "ControllerRevision"].

(** [m[k]] on a [map[string]bool] whose values are all [true] *)
Definition kind_in (k : string) (ks : list string) : bool := bool_decide (k ∈ ks).

(** ** Rewrites *)

Definition pvcBindAnnotations : list string :=
  ["pv.kubernetes.io/bind-completed"; "pv.kubernetes.io/bound-by-controller";
   "volume.kubernetes.io/selected-node"].

(** [if len(anns) == 0 { delete(meta, "annotations") }] where [anns] is
    [meta["annotations"].(map[string]any)], nil when it is anything else *)
Definition drop_empty_annotations (meta : gmap string val) : gmap string val :=
  if bool_decide (map_or_nil (get_map meta "annotations") = ∅)
  then delete "annotations" meta else meta.

Definition stripPVCBinding (obj : gmap string val) : gmap string val :=
  let obj := update_map (delete "volumeName") "spec" obj in
  update_map (λ meta, drop_empty_annotations
                        (update_map (delete_keys pvcBindAnnotations) "annotations" meta))
    "metadata" obj.

Definition serviceAllocations : list string :=
  ["clusterIP"; "clusterIPs"; "loadBalancerIP"; "healthCheckNodePort"].

Definition stripServiceAllocations (obj : gmap string val) : gmap string val :=
  update_map (λ spec, update_list_maps (delete "nodePort") "ports"
                        (delete_keys serviceAllocations spec))
    "spec" obj.

(** ** Reading the manifest *)

(** [isBlankDoc] *)
Definition isBlankDoc (raw : string) : bool :=
  forallb (λ line, let l := TrimSpace line in
             bool_decide (l = "") || HasPrefix l "---" || HasPrefix l "#")
    (SplitByte raw "010").

(** [firstSnippet] *)
Definition firstSnippet (raw : string) : string :=
  let s := TrimSpace raw in
  let s := match IndexByte s "010" with Some i => stake i s | None => s end in
  if (60 <? Z.of_nat (String.length s)) then stake 60 s +:+ "..." else s.

Section yaml.
Context `{YamlLib}.

(** The [switch kind] of the parser. *)
Definition restorable (kind : string) (obj : gmap string val) : gmap string val :=
  if bool_decide (kind = "Service") then stripServiceAllocations obj
  else if bool_decide (kind = "PersistentVolumeClaim") then stripPVCBinding obj
  else obj.

(** One decoded document; [None] is the missing kind or name. *)
Definition parse_doc (targetNS : string) (obj : gmap string val) : option ParsedDoc :=
  let kind := get_string obj "kind" in
  let meta := map_or_nil (get_map obj "metadata") in
  let name := get_string meta "name" in
  if bool_decide (kind = "") || bool_decide (name = "") then None
  else
    let obj :=
      if negb (bool_decide (targetNS = "")) && negb (kind_in kind clusterScopedKinds)
      then <["metadata" := VMap (<["namespace" := VStr targetNS]> meta)]> obj
      else obj in
    let obj := restorable kind obj in
    let ns := get_string (map_or_nil (get_map obj "metadata")) "namespace" in
    Some (mkParsed kind ns name obj).

Definition doc_prefix (i : nat) : string := "manifest doc " +:+ fmt_d (Z.of_nat i).

(** The loop over the documents, from index [i]. *)
Fixpoint parse_docs (i : nat) (targetNS : string) (raws : list string) (rerr : option error)
    : error + list ParsedDoc :=
  match raws with
  | [] =>
      match rerr with
      | Some e => inl (ErrWrap (doc_prefix i +:+ ": ") e)
      | None => inr []
      end
  | raw :: raws' =>
      if isBlankDoc raw then parse_docs (S i) targetNS raws' rerr
      else
        match yaml_Unmarshal raw with
        | inl e => inl (ErrWrap (doc_prefix i +:+ " (" +:+ firstSnippet raw +:+ "): ") e)
        | inr obj =>
            match parse_doc targetNS obj with
            | None =>
                inl (ErrMsg (doc_prefix i +:+ " (" +:+ firstSnippet raw +:+
                             "): missing kind or metadata.name"))
            | Some d =>
                match parse_docs (S i) targetNS raws' rerr with
                | inl e => inl e
                | inr ds => inr (d :: ds)
                end
            end
        end
  end.

Definition ParseAPIManifests (data targetNS : string) : error + list ParsedDoc :=
  let '(raws, rerr) := yaml_Documents data in parse_docs 0 targetNS raws rerr.

(** ** Classification *)

Definition renderDoc (obj : gmap string val) : string :=
  match yaml_Marshal obj with inl _ => "" | inr b => b end.

Record buckets := mkBuckets {
  b_ns : list PlannedDoc; b_crds : list PlannedDoc;
  b_pre : list PlannedDoc; b_work : list PlannedDoc }.

(** The loop of [BucketDocs]; [drop] and [keep] are the sets of [kindSet]. *)
Fixpoint bucket_loop (docs : list ParsedDoc) (drop keep : list string) (acc : buckets)
    : buckets :=
  match docs with
  | [] => acc
  | d :: docs' =>
      if kind_in (d_Kind d) droppedKinds ||
         (kind_in (d_Kind d) drop && negb (kind_in (d_Kind d) keep))
      then bucket_loop docs' drop keep acc
      else
        let pd := mkPlanned (d_Kind d) (d_Name d) (renderDoc (d_Obj d)) in
        let '(mkBuckets ns crds pre work) := acc in
        bucket_loop docs' drop keep
          (if bool_decide (d_Kind d = "Namespace") then mkBuckets (ns ++ [pd]) crds pre work
           else if bool_decide (d_Kind d = "CustomResourceDefinition")
                then mkBuckets ns (crds ++ [pd]) pre work
           else if kind_in (d_Kind d) workloadKinds then mkBuckets ns crds pre (work ++ [pd])
           else mkBuckets ns crds (pre ++ [pd]) work)
  end.

Definition BucketDocs (docs : list ParsedDoc) (drop keep : list string) : buckets :=
  bucket_loop docs drop keep (mkBuckets [] [] [] []).
End yaml.

Definition PVCsFromDocs (pre : list PlannedDoc) : list string :=
  omap (λ d, if bool_decide (pd_Kind d = "PersistentVolumeClaim") then Some (pd_Name d) else None)
    pre.

(** ** The node a claim's workload pins *)

Definition claimsPodVolume (podSpec : gmap string val) (pvc : string) : bool :=
  existsb (λ v,
      let vm := map_or_nil (as_map v) in
      let ref := map_or_nil (get_map vm "persistentVolumeClaim") in
      bool_decide (get_string ref "claimName" = pvc))
    (get_list podSpec "volumes").

Definition stsClaimTemplate (spec : gmap string val) (stsName pvc : string) : bool :=
  existsb (λ t,
      let tm := map_or_nil (as_map t) in
      let tmeta := map_or_nil (get_map tm "metadata") in
      let tname := get_string tmeta "name" in
      negb (bool_decide (tname = "")) &&
      HasPrefix pvc (tname +:+ "-" +:+ stsName +:+ "-"))
    (get_list spec "volumeClaimTemplates").

Definition hostnameSelector (podSpec : gmap string val) : string :=
  get_string (map_or_nil (get_map podSpec "nodeSelector")) "kubernetes.io/hostname".

Definition doc_spec (d : ParsedDoc) : gmap string val := map_or_nil (get_map (d_Obj d) "spec").
Definition doc_podSpec (d : ParsedDoc) : gmap string val :=
  map_or_nil (get_map (map_or_nil (get_map (doc_spec d) "template")) "spec").

Fixpoint NodeForPVC (docs : list ParsedDoc) (pvc : string) : string :=
  match docs with
  | [] => ""
  | d :: docs' =>
      if negb (kind_in (d_Kind d) workloadKinds) then NodeForPVC docs' pvc
      else if claimsPodVolume (doc_podSpec d) pvc || stsClaimTemplate (doc_spec d) (d_Name d) pvc
      then let node := hostnameSelector (doc_podSpec d) in
           if negb (bool_decide (node = "")) then node else NodeForPVC docs' pvc
      else NodeForPVC docs' pvc
  end.

(** ** Buckets *)

Inductive bucket := BNamespace | BCRD | BPre | BWork.
#[export] Instance bucket_eq_dec : EqDecision bucket.
Proof. solve_decision. Defined.

Definition bucket_of (kind : string) : bucket :=
  if bool_decide (kind = "Namespace") then BNamespace
  else if bool_decide (kind = "CustomResourceDefinition") then BCRD
  else if kind_in kind workloadKinds then BWork else BPre.

(** The documents a restore applies: never a dropped kind; a kind the spec
    drops only when the spec keeps it. *)
Definition restored (drop keep : list string) (d : ParsedDoc) : Prop :=
  (d_Kind d ∉ droppedKinds) ∧ ((d_Kind d ∈ drop) → (d_Kind d ∈ keep)).
#[export] Instance restored_dec drop keep d : Decision (restored drop keep d).
Proof. unfold restored. apply _. Defined.

Section buckets_spec.
Context `{YamlLib}.

Definition plan (d : ParsedDoc) : PlannedDoc :=
  mkPlanned (d_Kind d) (d_Name d) (renderDoc (d_Obj d)).

Definition in_bucket (b : bucket) (drop keep : list string) (d : ParsedDoc) : Prop :=
  restored drop keep d ∧ bucket_of (d_Kind d) = b.
#[local] Instance in_bucket_dec b drop keep d : Decision (in_bucket b drop keep d).
Proof. unfold in_bucket. apply _. Defined.

Definition bucket_docs (b : bucket) (drop keep : list string) (docs : list ParsedDoc)
    : list PlannedDoc := plan <$> filter (in_bucket b drop keep) docs.

Definition app_buckets (a b : buckets) : buckets :=
  mkBuckets (b_ns a ++ b_ns b) (b_crds a ++ b_crds b) (b_pre a ++ b_pre b)
    (b_work a ++ b_work b).

Lemma skip_restored drop keep d :
  kind_in (d_Kind d) droppedKinds ||
    (kind_in (d_Kind d) drop && negb (kind_in (d_Kind d) keep)) = true ↔
  ¬ restored drop keep d.
Proof.
  unfold restored, kind_in.
  rewrite orb_true_iff, andb_true_iff, negb_true_iff, !bool_decide_eq_true, bool_decide_eq_false.
  destruct (decide (d_Kind d ∈ droppedKinds)), (decide (d_Kind d ∈ drop)),
    (decide (d_Kind d ∈ keep)); tauto.
Qed.

Lemma bucket_docs_skip b drop keep d docs :
  ¬ restored drop keep d → bucket_docs b drop keep (d :: docs) = bucket_docs b drop keep docs.
Proof.
  intros Hr. unfold bucket_docs. rewrite filter_cons_False; [done|]. by intros [? _].
Qed.

Lemma bucket_docs_cons b drop keep d docs :
  restored drop keep d →
  bucket_docs b drop keep (d :: docs) =
  (if decide (bucket_of (d_Kind d) = b) then [plan d] else []) ++ bucket_docs b drop keep docs.
Proof.
  intros Hr. unfold bucket_docs. rewrite filter_cons. unfold in_bucket at 1.
  destruct (decide (bucket_of (d_Kind d) = b)).
  - by rewrite decide_True.
  - rewrite decide_False; [done|]. by intros [].
Qed.

Lemma bucket_loop_spec docs drop keep acc :
  bucket_loop docs drop keep acc =
  app_buckets acc (mkBuckets (bucket_docs BNamespace drop keep docs)
    (bucket_docs BCRD drop keep docs) (bucket_docs BPre drop keep docs)
    (bucket_docs BWork drop keep docs)).
Proof.
  revert acc. induction docs as [|d docs IH]; intros [ns crds pre work].
  { unfold app_buckets. cbn. by rewrite !app_nil_r. }
  cbn [bucket_loop].
  destruct (kind_in (d_Kind d) droppedKinds || _) eqn:Hs.
  - apply skip_restored in Hs. by rewrite IH, !bucket_docs_skip.
  - assert (restored drop keep d) as Hr.
    { destruct (decide (restored drop keep d)) as [|Hn]; [done|].
      apply skip_restored in Hn. congruence. }
    rewrite IH, !bucket_docs_cons by done. unfold bucket_of.
    repeat case_match; unfold app_buckets; cbn in *;
      rewrite <- ?app_assoc; try done; simplify_eq.
Qed.

(** [BucketDocs] is the stable partition of the restorable documents: each
    bucket holds, in source order, exactly the documents of its class that are
    neither of an always-dropped kind nor dropped by the spec without being
    kept. *)
Theorem BucketDocs_spec docs drop keep :
  BucketDocs docs drop keep =
  mkBuckets (bucket_docs BNamespace drop keep docs) (bucket_docs BCRD drop keep docs)
    (bucket_docs BPre drop keep docs) (bucket_docs BWork drop keep docs).
Proof. unfold BucketDocs. by rewrite bucket_loop_spec. Qed.

(** Nothing is applied twice and nothing restorable is lost: the four
    buckets together are a permutation of the restorable documents, and no
    dropped kind is in any of them. *)
Theorem BucketDocs_complete docs drop keep :
  let b := BucketDocs docs drop keep in
  let applied := b_ns b ++ b_crds b ++ b_pre b ++ b_work b in
  applied ≡ₚ plan <$> filter (restored drop keep) docs ∧
  Forall (λ pd, pd_Kind pd ∉ droppedKinds) applied.
Proof.
  cbv zeta. unfold BucketDocs. rewrite bucket_loop_spec. cbn. split.
  - induction docs as [|d docs IH]; [done|].
    destruct (decide (restored drop keep d)) as [Hr|Hr].
    + rewrite !bucket_docs_cons by done. rewrite filter_cons_True by done. cbn.
      rewrite <- IH. clear IH. destruct (bucket_of (d_Kind d)); cbn; solve_Permutation.
    + rewrite !bucket_docs_skip by done. by rewrite filter_cons_False.
  - rewrite !Forall_app. unfold bucket_docs. repeat split; apply Forall_fmap, Forall_forall;
    intros d ([[? _] _] & _)%list_elem_of_filter; done.
Qed.

(** The claims to fill are the restorable claims, in source order. *)
Lemma PVCsFromDocs_spec docs drop keep :
  PVCsFromDocs (b_pre (BucketDocs docs drop keep)) =
  d_Name <$> filter (λ d, restored drop keep d ∧ d_Kind d = "PersistentVolumeClaim") docs.
Proof.
  unfold BucketDocs. rewrite bucket_loop_spec. cbn. unfold PVCsFromDocs, bucket_docs.
  induction docs as [|d docs IH]; [done|]. rewrite !filter_cons.
  destruct (decide (d_Kind d = "PersistentVolumeClaim")) as [Hk|Hk].
  - destruct (decide (restored drop keep d)) as [Hr|Hr].
    + rewrite !decide_True by (split; [done|]; by rewrite Hk). cbn.
      rewrite bool_decide_eq_true_2 by done. by rewrite IH.
    + rewrite !decide_False by (by intros []). done.
  - rewrite (decide_False (P := _ ∧ d_Kind d = _)) by (by intros []).
    case_decide; [cbn; rewrite bool_decide_eq_false_2 by done|]; done.
Qed.
End buckets_spec.

(** ** What the rewrites do *)

Definition spec_of (obj : gmap string val) : gmap string val := map_or_nil (get_map obj "spec").
Definition meta_of (obj : gmap string val) : gmap string val := map_or_nil (get_map obj "metadata").
Definition annotations_of (obj : gmap string val) : gmap string val :=
  map_or_nil (get_map (meta_of obj) "annotations").

Lemma drop_empty_annotations_get meta :
  map_or_nil (get_map (drop_empty_annotations meta) "annotations") =
  map_or_nil (get_map meta "annotations").
Proof.
  unfold drop_empty_annotations. case_bool_decide as H; [|done].
  rewrite H. unfold get_map. by rewrite lookup_delete_eq.
Qed.

Lemma drop_empty_annotations_ne meta k :
  k ≠ "annotations" → drop_empty_annotations meta !! k = meta !! k.
Proof.
  intros H. unfold drop_empty_annotations. case_bool_decide; [|done]. by rewrite lookup_delete_ne.
Qed.

Lemma drop_empty_annotations_nonempty meta :
  drop_empty_annotations meta !! "annotations" ≠ Some (VMap ∅).
Proof.
  unfold drop_empty_annotations. case_bool_decide as H; [by rewrite lookup_delete_eq|].
  intros Hs. apply H. unfold get_map. by rewrite Hs.
Qed.

Lemma drop_empty_annotations_twice meta :
  drop_empty_annotations (drop_empty_annotations meta) = drop_empty_annotations meta.
Proof.
  unfold drop_empty_annotations at 1. rewrite drop_empty_annotations_get.
  case_bool_decide as H; [|done]. unfold drop_empty_annotations.
  rewrite bool_decide_eq_true_2 by done. by rewrite delete_delete_eq.
Qed.

Lemma strip_meta_empty :
  drop_empty_annotations (update_map (delete_keys pvcBindAnnotations) "annotations" ∅) = ∅.
Proof. by vm_compute. Qed.

(** A claim restored by the plan carries no trace of its source binding:
    [spec.volumeName] and the three bind annotations are gone, an annotation map
    left empty is removed, and every other field of the document keeps its
    value. *)
Theorem stripPVCBinding_spec obj :
  let o := stripPVCBinding obj in
  spec_of o = delete "volumeName" (spec_of obj) ∧
  annotations_of o = delete_keys pvcBindAnnotations (annotations_of obj) ∧
  meta_of o !! "annotations" ≠ Some (VMap ∅) ∧
  (∀ k, k ≠ "annotations" → meta_of o !! k = meta_of obj !! k) ∧
  (∀ k, k ≠ "spec" → k ≠ "metadata" → o !! k = obj !! k).
Proof.
  cbv zeta. unfold stripPVCBinding, spec_of, annotations_of, meta_of.
  rewrite get_map_update_map_ne, map_or_nil_update by (done || apply delete_empty).
  rewrite (map_or_nil_update _ "metadata") by apply strip_meta_empty.
  rewrite get_map_update_map_ne by done.
  rewrite drop_empty_annotations_get, map_or_nil_update by apply delete_keys_empty.
  repeat split.
  - apply drop_empty_annotations_nonempty.
  - intros k Hk. by rewrite drop_empty_annotations_ne, lookup_update_map_ne.
  - intros k H1 H2. by rewrite !lookup_update_map_ne.
Qed.

(** A Service restored by the plan carries no allocation of its source: the
    cluster IPs, the load-balancer IP and the health-check port are gone from
    its spec and the node port from each of its ports; everything else keeps
    its value. *)
Theorem stripServiceAllocations_spec obj :
  let o := stripServiceAllocations obj in
  (∀ k, k ∈ serviceAllocations → spec_of o !! k = None) ∧
  get_list (spec_of o) "ports" =
    (λ p, match p with VMap m => VMap (delete "nodePort" m) | _ => p end)
      <$> get_list (spec_of obj) "ports" ∧
  (∀ k, k ∉ serviceAllocations → k ≠ "ports" → spec_of o !! k = spec_of obj !! k) ∧
  (∀ k, k ≠ "spec" → o !! k = obj !! k).
Proof.
  cbv zeta. unfold stripServiceAllocations, spec_of.
  rewrite map_or_nil_update by (by vm_compute).
  assert ("ports" ∉ serviceAllocations) as Hports by by apply (bool_decide_unpack _).
  split; [|split; [|split]].
  - intros k Hk. rewrite lookup_update_list_maps_ne by (by intros <-).
    rewrite lookup_delete_keys. by rewrite decide_True.
  - rewrite get_list_update_list_maps. f_equal. unfold get_list.
    by rewrite lookup_delete_keys, decide_False.
  - intros k Hk Hp. rewrite lookup_update_list_maps_ne by done.
    rewrite lookup_delete_keys. by rewrite decide_False.
  - intros k Hk. by rewrite lookup_update_map_ne.
Qed.

(** The rewrites are idempotent: a manifest that was already restored once can
    be backed up and restored again. *)
Definition strip_bind_meta (meta : gmap string val) : gmap string val :=
  drop_empty_annotations (update_map (delete_keys pvcBindAnnotations) "annotations" meta).

Lemma strip_bind_meta_twice meta : strip_bind_meta (strip_bind_meta meta) = strip_bind_meta meta.
Proof.
  unfold strip_bind_meta. set (m := update_map _ "annotations" meta).
  assert (update_map (delete_keys pvcBindAnnotations) "annotations" m = m) as Hm.
  { unfold m. rewrite update_map_compose. apply update_map_ext. intros; apply delete_keys_twice. }
  unfold drop_empty_annotations at 2 3. case_bool_decide as H.
  - rewrite update_map_delete. unfold drop_empty_annotations.
    rewrite bool_decide_eq_true_2; [by rewrite delete_delete_eq|].
    unfold get_map. by rewrite lookup_delete_eq.
  - rewrite Hm. unfold drop_empty_annotations. by rewrite bool_decide_eq_false_2.
Qed.

Lemma stripPVCBinding_eq obj :
  stripPVCBinding obj =
  update_map strip_bind_meta "metadata" (update_map (delete "volumeName") "spec" obj).
Proof. done. Qed.

Lemma stripPVCBinding_twice obj : stripPVCBinding (stripPVCBinding obj) = stripPVCBinding obj.
Proof.
  rewrite !stripPVCBinding_eq.
  rewrite (update_map_comm (delete "volumeName") strip_bind_meta "spec" "metadata") by done.
  rewrite !update_map_compose.
  rewrite (update_map_ext _ strip_bind_meta) by apply strip_bind_meta_twice. f_equal.
  apply update_map_ext. intros. apply delete_delete_eq.
Qed.

Lemma stripServiceAllocations_twice obj :
  stripServiceAllocations (stripServiceAllocations obj) = stripServiceAllocations obj.
Proof.
  unfold stripServiceAllocations. rewrite update_map_compose. apply update_map_ext. intros m.
  replace (delete_keys serviceAllocations (update_list_maps _ "ports" _)) with
    (update_list_maps (delete "nodePort") "ports" (delete_keys serviceAllocations m)).
  2:{ apply map_eq. intros k. rewrite lookup_delete_keys.
      unfold update_list_maps. rewrite !lookup_alter, !lookup_delete_keys.
      repeat case_decide; by subst. }
  rewrite update_list_maps_compose. apply update_list_maps_ext. intros x. apply delete_delete_eq.
Qed.

(** ** The parser against its documents *)

Lemma get_string_drop_empty_annotations meta k :
  k ≠ "annotations" → get_string (drop_empty_annotations meta) k = get_string meta k.
Proof. intros H. unfold get_string. by rewrite drop_empty_annotations_ne. Qed.

Lemma restorable_get_string kind obj k : get_string (restorable kind obj) k = get_string obj k.
Proof.
  unfold restorable, stripServiceAllocations, stripPVCBinding.
  repeat case_bool_decide; by rewrite ?get_string_update_map.
Qed.

(** A rewrite leaves [metadata.name] and [metadata.namespace] alone. *)
Lemma restorable_meta kind obj k :
  k ≠ "annotations" →
  get_string (meta_of (restorable kind obj)) k = get_string (meta_of obj) k.
Proof.
  intros Hk. unfold restorable, meta_of. repeat case_bool_decide; [| |done].
  - unfold stripServiceAllocations. by rewrite get_map_update_map_ne.
  - rewrite stripPVCBinding_eq, map_or_nil_update by apply strip_meta_empty.
    rewrite get_map_update_map_ne by done. unfold strip_bind_meta.
    by rewrite get_string_drop_empty_annotations, get_string_update_map.
Qed.

(** What every parsed document satisfies: it is named, its header fields are
    those of its object, and a namespaced one lives in the target namespace. *)
Definition well_planned (targetNS : string) (d : ParsedDoc) : Prop :=
  d_Kind d ≠ "" ∧ d_Name d ≠ "" ∧
  get_string (d_Obj d) "kind" = d_Kind d ∧
  get_string (meta_of (d_Obj d)) "name" = d_Name d ∧
  get_string (meta_of (d_Obj d)) "namespace" = d_Namespace d ∧
  (targetNS ≠ "" → d_Kind d ∉ clusterScopedKinds → d_Namespace d = targetNS).

Lemma parse_doc_well_planned ns obj d : parse_doc ns obj = Some d → well_planned ns d.
Proof.
  unfold parse_doc. fold (meta_of obj). set (meta := meta_of obj).
  set (o' := if negb (bool_decide (ns = "")) && _ then _ else obj).
  destruct (bool_decide (get_string obj "kind" = "") || _) eqn:Hb; [done|].
  apply orb_false_iff in Hb as [Hk%bool_decide_eq_false Hn%bool_decide_eq_false].
  intros [= <-]. unfold well_planned. cbn [d_Kind d_Namespace d_Name d_Obj].
  rewrite restorable_get_string, restorable_meta by done.
  assert (get_string o' "kind" = get_string obj "kind" ∧
          get_string (meta_of o') "name" = get_string meta "name" ∧
          (ns ≠ "" → get_string obj "kind" ∉ clusterScopedKinds →
           get_string (meta_of o') "namespace" = ns)) as (Ek & En & Ens).
  { unfold o'. destruct (_ && _) eqn:Hc.
    - unfold meta_of, get_map. rewrite lookup_insert_eq. unfold map_or_nil.
      cbn -[get_string]. rewrite !get_string_insert. done.
    - split; [done|split; [done|]]. intros Hns Hcs. exfalso.
      apply andb_false_iff in Hc as [Hc|Hc]; apply negb_false_iff, bool_decide_eq_true in Hc; done. }
  rewrite Ek, En. repeat split; try done.
  intros Hns Hcs. fold (meta_of (restorable (get_string obj "kind") o')).
  rewrite restorable_meta by done. by apply Ens.
Qed.

Section parse_spec.
Context `{YamlLib}.

Definition doc_parsed (ns raw : string) (d : ParsedDoc) : Prop :=
  ∃ obj, yaml_Unmarshal raw = inr obj ∧ parse_doc ns obj = Some d.

(** A document the parser passes: blank, or decoded, with a kind and a name *)
Definition doc_accepted (ns raw : string) : Prop :=
  isBlankDoc raw = true ∨ ∃ d, doc_parsed ns raw d.

Lemma parse_docs_spec i ns raws rerr ds :
  parse_docs i ns raws rerr = inr ds ↔
  rerr = None ∧ Forall2 (doc_parsed ns) (filter (λ raw, isBlankDoc raw = false) raws) ds.
Proof.
  revert i ds. induction raws as [|raw raws IH]; intros i ds; cbn [parse_docs].
  - destruct rerr; split; [done|by intros []|by intros [= <-]|].
    intros [_ Hds]. by apply Forall2_nil_inv_l in Hds as ->.
  - destruct (isBlankDoc raw) eqn:Hb.
    { rewrite filter_cons_False by congruence. apply IH. }
    rewrite filter_cons_True by done. split.
    + destruct (yaml_Unmarshal raw) as [e|obj] eqn:Hy; [done|].
      destruct (parse_doc ns obj) as [d|] eqn:Hp; [|done].
      destruct (parse_docs _ _ _ _) as [e|ds'] eqn:Hr; [done|]. intros [= <-].
      apply IH in Hr as [-> Hds]. split; [done|]. constructor; [|done]. by exists obj.
    + intros [Hn Hds]. apply Forall2_cons_inv_l in Hds as (d & ds' & (obj & Hy & Hp) & Hds & ->).
      rewrite Hy, Hp. by rewrite (proj2 (IH (S i) ds')).
Qed.

(** The error names the first document, counted from [i], that is refused. *)
Definition names_first_bad (ns : string) (i : nat) (raws : list string) (e : error) : Prop :=
  ∃ j, (j ≤ length raws)%nat ∧ HasPrefix (Error e) (doc_prefix (i + j)) = true ∧
       Forall (doc_accepted ns) (take j raws) ∧
       (∀ raw, raws !! j = Some raw → ¬ doc_accepted ns raw).

Lemma names_first_bad_next ns i raw raws e :
  doc_accepted ns raw → names_first_bad ns (S i) raws e → names_first_bad ns i (raw :: raws) e.
Proof.
  intros Hacc (j & Hj & Hp & Ha & Hb). exists (S j). rewrite Nat.add_succ_r.
  split_and!; [cbn; lia|done|by constructor|done].
Qed.

Lemma names_first_bad_here ns i raw raws e :
  ¬ doc_accepted ns raw → HasPrefix (Error e) (doc_prefix i) = true →
  names_first_bad ns i (raw :: raws) e.
Proof.
  intros Hna Hp. exists 0%nat. rewrite Nat.add_0_r.
  split_and!; [cbn; lia|done|by constructor|]. by intros raw' [= <-].
Qed.

Lemma parse_docs_error i ns raws rerr e :
  parse_docs i ns raws rerr = inl e → names_first_bad ns i raws e.
Proof.
  revert i. induction raws as [|raw raws IH]; intros i; cbn [parse_docs].
  - destruct rerr as [e'|]; [intros [= <-]|done]. exists 0%nat. rewrite Nat.add_0_r. cbn [Error].
    rewrite append_assoc. split_and!; [done|apply HasPrefix_app|by constructor|done].
  - destruct (isBlankDoc raw) eqn:Hb.
    { intros Hr. apply names_first_bad_next; [by left|by apply IH]. }
    destruct (yaml_Unmarshal raw) as [e'|obj] eqn:Hy.
    { intros [= <-]. apply names_first_bad_here.
      - intros [|(d & obj & Hy' & _)]; congruence.
      - cbn [Error]. rewrite !append_assoc. apply HasPrefix_app. }
    destruct (parse_doc ns obj) as [d|] eqn:Hp.
    + destruct (parse_docs (S i) ns raws rerr) eqn:Hr; [|done]. intros [= ->].
      apply names_first_bad_next; [|by apply IH]. right. exists d. by exists obj.
    + intros [= <-]. apply names_first_bad_here; [|cbn [Error]; apply HasPrefix_app].
      intros [|(d & obj' & Hy' & Hp')]; congruence.
Qed.

(** [ParseAPIManifests] succeeds exactly when the reader reached the end
    of the stream and every non-blank document decodes to a named object, and
    then returns those objects in order: no document is skipped. *)
Theorem ParseAPIManifests_spec data ns ds :
  ParseAPIManifests data ns = inr ds ↔
  (yaml_Documents data).2 = None ∧
  Forall2 (doc_parsed ns) (filter (λ raw, isBlankDoc raw = false) (yaml_Documents data).1) ds.
Proof. unfold ParseAPIManifests. destruct (yaml_Documents data). apply parse_docs_spec. Qed.

(** Every document a successful parse returns has a kind and a name, and a
    namespaced one has been moved to the target namespace; a failed parse
    names the first document that could not be read. *)
Theorem ParseAPIManifests_result data ns :
  match ParseAPIManifests data ns with
  | inr ds => Forall (well_planned ns) ds
  | inl e => names_first_bad ns 0 (yaml_Documents data).1 e
  end.
Proof.
  destruct (ParseAPIManifests data ns) as [e|ds] eqn:Hp.
  - unfold ParseAPIManifests in Hp. destruct (yaml_Documents data) as [raws rerr]. cbn.
    apply parse_docs_error in Hp. exact Hp.
  - apply ParseAPIManifests_spec in Hp as [_ Hds]. eapply Forall2_Forall_r; [done|].
    apply Forall_forall. intros raw _ d (obj & _ & Hd). by eapply parse_doc_well_planned.
Qed.
End parse_spec.

(** ** The pinned node *)

Definition consumes_claim (pvc : string) (d : ParsedDoc) : Prop :=
  d_Kind d ∈ workloadKinds ∧
  (claimsPodVolume (doc_podSpec d) pvc = true ∨ stsClaimTemplate (doc_spec d) (d_Name d) pvc = true).

Definition pins (pvc : string) (d : ParsedDoc) : Prop :=
  consumes_claim pvc d ∧ hostnameSelector (doc_podSpec d) ≠ "".
#[export] Instance pins_dec pvc d : Decision (pins pvc d).
Proof. unfold pins, consumes_claim. apply _. Defined.

(** [NodeForPVC] is the hostname selector of the first workload that both
    consumes the claim and pins a node, and empty when there is none. *)
Theorem NodeForPVC_spec docs pvc :
  NodeForPVC docs pvc =
  match filter (pins pvc) docs with
  | d :: _ => hostnameSelector (doc_podSpec d)
  | [] => ""
  end.
Proof.
  induction docs as [|d docs IH]; [done|]. cbn [NodeForPVC]. rewrite IH. clear IH.
  rewrite filter_cons. unfold kind_in.
  destruct (decide (pins pvc d)) as [[[Hk Hc] Hn]|Hp].
  - rewrite bool_decide_eq_true_2 by done. cbn [negb].
    rewrite (proj2 (orb_true_iff _ _)) by done. by rewrite bool_decide_eq_false_2.
  - case_bool_decide as Hk; [cbn [negb]|done].
    destruct (_ || _) eqn:Hc; [|done]. apply orb_true_iff in Hc.
    case_bool_decide as Hn; [done|]. exfalso. by apply Hp.
Qed.
