(* ===== verification/Hooks.v ===== *)
(** * Pre-backup hooks: internal/hooks/exec.go

    The annotation contract ([ParseHook]) and the exec of a hook over the session of
    client-go ([spdyExecutor_Exec]), which answers the call [CExec] of [Client]. *)

From S2P Require Import Prelude GoLib Kube Prog Json.
From stdpp Require Import options.

Local Open Scope Z_scope.

Definition AnnotationContainer : string := "pbs.backup/pre-hook-container".
Definition AnnotationCommand : string := "pbs.backup/pre-hook-command".

(** In nanoseconds *)
Definition HookTimeout : Z := 120 * Second.

(** [m[k]] on a [map[string]string] *)
Definition str_at (m : gmap string string) (k : string) : string := default "" (m !! k).

(** [(container, command, true, nil)] is [inr (Some (container, command))], no
    hook is [inr None]. *)
Definition ParseHook `{JsonLib} (pod : Pod) : error + option (string * list string) :=
  let anns := om_Annotations (pod_Meta pod) in
  let raw := str_at anns AnnotationCommand in
  if bool_decide (raw = "") then inr None
  else
    match json_strings raw with
    | inl e =>
        inl (ErrWrap ("annotation " +:+ AnnotationCommand +:+
                      " is not a JSON array of strings: ") e)
    | inr [] => inl (ErrMsg ("annotation " +:+ AnnotationCommand +:+ " is an empty array"))
    | inr command =>
        let container := str_at anns AnnotationContainer in
        if bool_decide (container = "") then
          match ps_Containers (pod_Spec pod) with
          | [] => inl (ErrMsg "no container annotation and the pod has no containers")
          | c :: _ => inr (Some (ct_Name c, command))
          end
        else inr (Some (container, command))
    end.

(** ** The SPDY session *)

(** What the request of an exec says: the pod's [exec] subresource and the
    [PodExecOptions], of which standard input and a terminal are never asked for. *)
Record exec_request := mkExecRequest {
  er_Method : string; er_Namespace : string; er_Pod : string; er_SubResource : string;
  er_Container : string; er_Command : list string; er_Stdout : bool; er_Stderr : bool }.

(** [remotecommand.NewSPDYExecutor], and [StreamWithContext] under a timeout, with
    what the two buffers hold afterwards *)
Inductive hcall :=
  | HNewSPDYExecutor (request : exec_request)
  | HStream (timeout : Z).
Record streamed := mkStreamed { st_Err : option error; st_Stdout : string; st_Stderr : string }.
Definition hresp (c : hcall) : Type :=
  match c with HNewSPDYExecutor _ => option error | HStream _ => streamed end.
Abbreviation hprog := (@prog hcall hresp).

(** [spdyExecutor.Exec] *)
Definition spdyExecutor_Exec (ns pod container : string) (command : list string) (timeout : Z)
    : hprog (option error) :=
  let where_ := "pod " +:+ ns +:+ "/" +:+ pod +:+ " container " +:+ container +:+ ": " in
  err ← do_call (HNewSPDYExecutor (mkExecRequest "POST" ns pod "exec" container command true true));
  match err with
  | Some e => mret (Some (ErrWrap (where_ +:+ "set up exec: ") e))
  | None =>
      s ← do_call (HStream timeout);
      match st_Err s with
      | Some e =>
          let msg := TrimSpace (st_Stderr s) in
          if negb (bool_decide (msg = "")) then
            let msg := if 512 <? Z.of_nat (String.length msg)
                       then stake 512 msg +:+ "..." else msg in
            mret (Some (ErrMsg (where_ +:+ Error e +:+ " (stderr: " +:+ msg +:+ ")")))
          else mret (Some (ErrMsg (where_ +:+ Error e)))
      | None => mret None
      end
  end.

Section specs.
Context `{JsonLib}.

(** [ParseHook] asks for a hook exactly when the command annotation is set;
    the hook it returns has a non-empty command, the decoded annotation, and
    the annotated container or else the pod's first. *)
Theorem ParseHook_spec pod :
  match ParseHook pod with
  | inr None => str_at (om_Annotations (pod_Meta pod)) AnnotationCommand = ""
  | inr (Some (container, command)) =>
      json_strings (str_at (om_Annotations (pod_Meta pod)) AnnotationCommand) = inr command ∧
      command ≠ [] ∧
      (if decide (str_at (om_Annotations (pod_Meta pod)) AnnotationContainer = "")
       then ct_Name <$> head (ps_Containers (pod_Spec pod)) = Some container
       else str_at (om_Annotations (pod_Meta pod)) AnnotationContainer = container)
  | inl _ => str_at (om_Annotations (pod_Meta pod)) AnnotationCommand ≠ "" ∧
      ((∃ e, json_strings (str_at (om_Annotations (pod_Meta pod)) AnnotationCommand) = inl e) ∨
       json_strings (str_at (om_Annotations (pod_Meta pod)) AnnotationCommand) = inr [] ∨
       (str_at (om_Annotations (pod_Meta pod)) AnnotationContainer = "" ∧
        ps_Containers (pod_Spec pod) = []))
  end.
Proof.
  unfold ParseHook. set (raw := str_at _ AnnotationCommand).
  case_bool_decide as Hr; [done|].
  destruct (json_strings raw) as [e|[|w command]] eqn:Hj; [by eauto 6| by eauto 6|].
  case_bool_decide as Hc.
  - destruct (ps_Containers (pod_Spec pod)) as [|c cs] eqn:Hcs; [by eauto 6|].
    by rewrite decide_True.
  - by rewrite decide_False.
Qed.
End specs.

(** One session with the command, under the timeout; the exec succeeds exactly when
    the session was set up and the stream ended without an error. *)
Theorem Exec_spec ns pod container command timeout tr res :
  runs (spdyExecutor_Exec ns pod container command timeout) tr res →
  let request := mkExecRequest "POST" ns pod "exec" container command true true in
  (∃ e, tr = [ev (HNewSPDYExecutor request) (Some e)] ∧ res ≠ None) ∨
  ∃ s, tr = [ev (HNewSPDYExecutor request) None; ev (HStream timeout) s] ∧
    (res = None ↔ st_Err s = None).
Proof.
  intros Hr request. unfold spdyExecutor_Exec in Hr.
  apply runs_bind in Hr as (t1 & e & t2 & -> & H1 & Hr). destruct H1 as (? & ? & -> & -> & <-).
  destruct e as [e|]; [left; exists e; by destruct Hr as [-> ->]|right].
  apply runs_bind in Hr as (t3 & s & t4 & -> & H3 & Hr). destruct H3 as (? & ? & -> & -> & <-).
  exists s. destruct (st_Err s); [destruct (negb _)|]; by destruct Hr as [-> ->].
Qed.

(** What is reported of the standard error are its first 512 bytes. *)
Definition filler (n : nat) : string := String.concat "" (repeat "x" n).
Definition long_stderr : string := filler 513 +:+ "why it failed".
Definition failed_session : string :=
  match (exec (λ c (_ : unit), (match c return hresp c with
                                | HNewSPDYExecutor _ => None
                                | HStream _ => mkStreamed (Some (ErrMsg "exit code 1")) "" long_stderr
                                end, tt))
           (spdyExecutor_Exec "apps" "db-0" "db" ["dump"] HookTimeout) tt).1.2 with
  | Some e => Error e
  | None => ""
  end.
Example stderr_head :
  failed_session =
    "pod apps/db-0 container db: exit code 1 (stderr: " +:+
    filler 512 +:+ "...)".
Proof. by vm_compute. Qed.
