(* ===== verification/Serialize.v ===== *)
(** * The namespace serializer: internal/backup/serialize.go

    [SerializeNamespace] over the discovery and dynamic clients (calls of
    [Client]), the YAML codec ([RestorePlan.YamlLib]) and the group-version
    helpers of apimachinery ([GroupLib]). *)

From S2P Require Import Prelude GoLib Sort Kube Doc Client JobBuild RestorePlan.
From Stdlib Require Import Ascii.
From stdpp Require Import options.

Local Open Scope Z_scope.

Class GroupLib := {
  (** [schema.ParseGroupVersion]: group and version *)
  ParseGroupVersion : string → error + (string * string);
  (** [schema.GroupKind.String] *)
  GroupKind_String : string * string → string;
}.

Definition lastAppliedAnnotation : string := "kubectl.kubernetes.io/last-applied-configuration".

(** Group and kind *)
Definition excludedKinds : list (string * string) :=
  [("", "Event"); ("events.k8s.io", "Event"); ("batch", "Job");
   ("pbs.sharifmind.ir", "PBSBackup"); ("pbs.sharifmind.ir", "PBSSchedule");
   ("pbs.sharifmind.ir", "PBSRestore")].

Definition volatileMetadata : list string :=
  ["uid"; "resourceVersion"; "creationTimestamp"; "generation"; "managedFields"].

(** The part of [stripVolatile] that works on [obj["metadata"]]. *)
Definition strip_meta (meta : gmap string val) : gmap string val :=
  let meta := delete_keys volatileMetadata meta in
  match get_map meta "annotations" with
  | Some anns =>
      let anns := delete lastAppliedAnnotation anns in
      if bool_decide (anns = ∅) then delete "annotations" meta
      else <["annotations" := VMap anns]> meta
  | None => meta
  end.

Definition stripVolatile (obj : gmap string val) : gmap string val :=
  update_map strip_meta "metadata" (delete "status" obj).

Definition hasVerb (verbs : list string) (verb : string) : bool :=
  existsb (λ v, bool_decide (v = verb) || bool_decide (v = "*")) verbs.

Definition skippableListError (err : apierror) : bool :=
  IsNotFound err || IsForbidden err || IsMethodNotSupported err || IsServiceUnavailable err.

(** ** Collecting *)

Record sdoc := mkSdoc { sd_gk : string; sd_name : string; sd_obj : gmap string val }.

(** [found[i] < found[j]] of the [sort.Slice] call *)
Definition sdoc_less (x y : sdoc) : bool :=
  if negb (bool_decide (sd_gk x = sd_gk y)) then string_lt (sd_gk x) (sd_gk y)
  else string_lt (sd_name x) (sd_name y).

Section serializer.
Context `{GroupLib} `{YamlLib} `{SortSlice}.

(** The filter on one resource of a list of group [g]. *)
Definition listed (g : string) (ar : APIResource) : bool :=
  negb (negb (ar_Namespaced ar) || Contains (ar_Name ar) "/" ||
        bool_decide ((g, ar_Kind ar) ∈ excludedKinds) || negb (hasVerb (ar_Verbs ar) "list")).

Definition unmanaged (u : Unstructured) : bool :=
  bool_decide (default "" (u_Labels u !! ManagedLabel) = "").

Definition item_docs (g : string) (ar : APIResource) (items : list Unstructured) : list sdoc :=
  (λ u, mkSdoc (GroupKind_String (g, ar_Kind ar)) (u_Name u) (u_Object u))
    <$> filter (λ u, unmanaged u = true) items.

(** The loop over the resources of one list. *)
Fixpoint collect_resources (gvs g ns : string) (ars : list APIResource) (found : list sdoc)
    : kprog (error + list sdoc) :=
  match ars with
  | [] => mret (inr found)
  | ar :: ars' =>
      if negb (listed g ar) then collect_resources gvs g ns ars' found
      else
        r ← do_call (CListDynamic (gvs, ar_Name ar) ns);
        match r with
        | inl e =>
            if skippableListError e then collect_resources gvs g ns ars' found
            else mret (inl (ErrAPI e))
        | inr items => collect_resources gvs g ns ars' (found ++ item_docs g ar items)
        end
  end.

(** The loop over the lists. *)
Fixpoint collect (ns : string) (lists : list APIResourceList) (found : list sdoc)
    : kprog (error + list sdoc) :=
  match lists with
  | [] => mret (inr found)
  | l :: lists' =>
      match ParseGroupVersion (arl_GroupVersion l) with
      | inl e => mret (inl e)
      | inr (g, _) =>
          found <-? collect_resources (arl_GroupVersion l) g ns (arl_APIResources l) found;
          collect ns lists' found
      end
  end.

(** The rendering loop. *)
Fixpoint render_all (docs : list sdoc) : error + list string :=
  match docs with
  | [] => inr []
  | d :: docs' =>
      match yaml_Marshal (stripVolatile (sd_obj d)) with
      | inl e => inl e
      | inr b => match render_all docs' with inl e => inl e | inr bs => inr (b :: bs) end
      end
  end.

Definition doc_separator : string := newline +:+ "---" +:+ newline.

Definition render (found : list sdoc) : error + string :=
  match render_all (sort_Slice sdoc_less found) with
  | inl e => inl e
  | inr [] => inr ""
  | inr rendered => inr (Join rendered doc_separator +:+ newline)
  end.

Definition SerializeNamespace (ns : string) : kprog (error + string) :=
  r ← do_call CServerResources;
  match r with
  | (_, Some (DiscoveryOther e)) => mret (inl e)
  | (lists, _) =>
      found <-? collect ns lists [];
      mret (render found)
  end.
End serializer.

(** ** What is stripped *)

Lemma strip_meta_lookup meta k :
  k ≠ "annotations" →
  strip_meta meta !! k = if decide (k ∈ volatileMetadata) then None else meta !! k.
Proof.
  intros Hk. unfold strip_meta.
  rewrite <- lookup_delete_keys. destruct (get_map _ _); [|done].
  case_bool_decide; [by rewrite lookup_delete_ne|by rewrite lookup_insert_ne].
Qed.

Lemma strip_meta_annotations meta :
  map_or_nil (get_map (strip_meta meta) "annotations") =
  delete lastAppliedAnnotation (map_or_nil (get_map meta "annotations")).
Proof.
  unfold strip_meta.
  replace (get_map (delete_keys volatileMetadata meta) "annotations")
    with (get_map meta "annotations") by (unfold get_map; by rewrite lookup_delete_keys).
  destruct (get_map meta "annotations") as [anns|] eqn:Ha; cbn [map_or_nil default].
  - case_bool_decide as He.
    + unfold get_map. by rewrite lookup_delete_eq.
    + unfold get_map. by rewrite lookup_insert_eq.
  - unfold get_map in *. rewrite lookup_delete_keys, decide_False; [|by apply (bool_decide_unpack _)].
    destruct (meta !! "annotations") as [[]|]; try done; cbn; by rewrite delete_empty.
Qed.

(** A serialized object carries no status, no volatile metadata and no
    last-applied annotation; an annotation map left empty by that is dropped;
    every other field, label and annotation keeps its value. *)
Theorem stripVolatile_spec obj :
  let o := stripVolatile obj in
  o !! "status" = None ∧
  (∀ k, k ∈ volatileMetadata → meta_of o !! k = None) ∧
  annotations_of o = delete lastAppliedAnnotation (annotations_of obj) ∧
  (∀ k, k ∉ volatileMetadata → k ≠ "annotations" → meta_of o !! k = meta_of obj !! k) ∧
  (∀ k, k ≠ "status" → k ≠ "metadata" → o !! k = obj !! k).
Proof.
  cbv zeta. unfold stripVolatile.
  assert (Hm : meta_of (update_map strip_meta "metadata" (delete "status" obj)) =
               strip_meta (meta_of obj)).
  { unfold meta_of. rewrite map_or_nil_update by (by vm_compute).
    unfold get_map. by rewrite lookup_delete_ne by done. }
  unfold annotations_of. rewrite Hm. clear Hm. split_and!.
  - rewrite lookup_update_map_ne by done. apply lookup_delete_eq.
  - intros k Hk. rewrite strip_meta_lookup; [by rewrite decide_True|].
    intros ->. revert Hk. by apply (bool_decide_unpack _).
  - apply strip_meta_annotations.
  - intros k Hk Ha. by rewrite strip_meta_lookup, decide_False.
  - intros k H1 H2. rewrite lookup_update_map_ne by done. by rewrite lookup_delete_ne.
Qed.

(** A serialized object that is read back and serialized again is unchanged. *)
Lemma strip_meta_twice meta : strip_meta (strip_meta meta) = strip_meta meta.
Proof.
  apply map_eq. intros k. destruct (decide (k = "annotations")) as [->|Hk].
  - assert (Hn : ∀ m, strip_meta m !! "annotations" =
      match get_map m "annotations" with
      | Some anns => let anns := delete lastAppliedAnnotation anns in
          if bool_decide (anns = ∅) then None else Some (VMap anns)
      | None => m !! "annotations"
      end).
    { intros m. unfold strip_meta.
      replace (get_map (delete_keys volatileMetadata m) "annotations")
        with (get_map m "annotations") by (unfold get_map; by rewrite lookup_delete_keys).
      destruct (get_map m "annotations"); [|by rewrite lookup_delete_keys].
      cbv zeta. case_bool_decide; [by rewrite lookup_delete_eq|by rewrite lookup_insert_eq]. }
    rewrite !Hn. unfold get_map at 1. rewrite Hn.
    destruct (get_map meta "annotations") as [anns|] eqn:Ha; cbv zeta.
    + case_bool_decide as He; [done|]. cbv zeta. rewrite delete_delete_eq.
      by rewrite bool_decide_eq_false_2.
    + unfold get_map in Ha. by destruct (meta !! "annotations") as [[]|].
  - rewrite !strip_meta_lookup by done. by case_decide.
Qed.

Lemma stripVolatile_twice obj : stripVolatile (stripVolatile obj) = stripVolatile obj.
Proof.
  unfold stripVolatile. apply map_eq. intros k.
  rewrite <- (update_map_ext (λ m, strip_meta (strip_meta m)) strip_meta "metadata")
    by apply strip_meta_twice.
  unfold update_map. rewrite !lookup_alter, !lookup_delete, !lookup_alter, !lookup_delete.
  repeat case_decide; subst; try done.
  destruct (obj !! "metadata") as [[]|]; try done.
  cbn. by rewrite !strip_meta_twice.
Qed.

(** ** The order of the documents *)

Definition sdoc_le : relation sdoc := not_less sdoc_less.

Lemma sdoc_le_spec x y :
  sdoc_le x y ↔ (sd_gk x = sd_gk y ∧ String.le (sd_name x) (sd_name y)) ∨
                (sd_gk x ≠ sd_gk y ∧ String.le (sd_gk x) (sd_gk y)).
Proof.
  unfold sdoc_le, not_less, sdoc_less.
  destruct (decide (sd_gk y = sd_gk x)) as [Hg|Hg].
  - rewrite bool_decide_eq_true_2 by done. cbn [negb]. rewrite string_lt_false. naive_solver.
  - rewrite bool_decide_eq_false_2 by done. cbn [negb]. rewrite string_lt_false. naive_solver.
Qed.

#[export] Instance sdoc_le_total : Total sdoc_le.
Proof.
  intros x y. rewrite !sdoc_le_spec.
  destruct (decide (sd_gk x = sd_gk y)).
  - destruct (total String.le (sd_name x) (sd_name y)); naive_solver.
  - destruct (total String.le (sd_gk x) (sd_gk y)); naive_solver.
Qed.

#[export] Instance sdoc_le_transitive : Transitive sdoc_le.
Proof.
  intros x y z. rewrite !sdoc_le_spec.
  intros [[Hg1 Hn1]|[Hg1 Hn1]] [[Hg2 Hn2]|[Hg2 Hn2]].
  - left. split; [congruence|by etrans].
  - right. rewrite Hg1. done.
  - right. rewrite <- Hg2. done.
  - destruct (decide (sd_gk x = sd_gk z)) as [Hg|Hg]; [|right; split; [done|by etrans]].
    exfalso. apply Hg1. rewrite <- Hg in Hn2. by apply (anti_symm String.le).
Qed.

Section order.
Context `{GL : GroupLib} `{YL : YamlLib} `{SS : SortSlice} {SL : SortSliceLaws}.

Definition sdoc_key (d : sdoc) : string * string := (sd_gk d, sd_name d).

Lemma sdoc_less_antisym x y :
  sdoc_less x y = false → sdoc_less y x = false → sdoc_key x = sdoc_key y.
Proof.
  unfold sdoc_less, sdoc_key.
  destruct (decide (sd_gk x = sd_gk y)) as [Hg|Hg].
  - rewrite (bool_decide_eq_true_2 (sd_gk x = sd_gk y)), bool_decide_eq_true_2 by done.
    cbn [negb]. rewrite !string_lt_false. intros Hxy Hyx.
    f_equal; [done|]. by apply (anti_symm String.le).
  - rewrite (bool_decide_eq_false_2 (sd_gk x = sd_gk y)), bool_decide_eq_false_2 by done.
    cbn [negb]. rewrite !string_lt_false. intros Hxy Hyx. f_equal; [|]; exfalso; apply Hg.
    all: by apply (anti_symm String.le).
Qed.

Lemma sort_sdocs_unique l l' :
  l ≡ₚ l' → NoDup (sdoc_key <$> l) → sort_Slice sdoc_less l = sort_Slice sdoc_less l'.
Proof using SL.
  intros Hp Hnd. apply sort_Slice_unique; [apply sdoc_le_total|apply sdoc_le_transitive|done|].
  intros x y Hx Hy Hxy Hyx. pose proof (sdoc_less_antisym _ _ Hyx Hxy) as Hk.
  apply list_elem_of_lookup in Hx as [i Hi]. apply list_elem_of_lookup in Hy as [j Hj].
  assert (i = j) as ->; [|congruence].
  eapply (NoDup_lookup _ _ _ (sdoc_key x) Hnd); rewrite list_lookup_fmap; [by rewrite Hi|].
  rewrite Hj. cbn. by rewrite Hk.
Qed.

(** The payload does not depend on the order in which discovery reports the
    resources or the API server lists the objects: two listings of the same
    objects, each with its own group-kind and name, render to the same text,
    although the sort is not stable. *)
Theorem render_deterministic found found' :
  found ≡ₚ found' → NoDup (sdoc_key <$> found) → render found = render found'.
Proof using SL. intros Hp Hnd. unfold render. by rewrite (sort_sdocs_unique found found'). Qed.
End order.

#[local] Instance witness_YamlLib : YamlLib := {
  yaml_Documents s := (SplitByte s "010", None);
  yaml_Unmarshal s := inr {["kind" := VStr s]};
  yaml_Marshal o := inr (get_string o "kind") }.
#[local] Instance witness_GroupLib : GroupLib := {
  ParseGroupVersion s := inr ("", s);
  GroupKind_String g := g.2 }.

Lemma render_deterministic_witness :
  let a := mkSdoc "ConfigMap" "a" {["kind" := VStr "ConfigMap"]} in
  let b := mkSdoc "Secret" "a" {["kind" := VStr "Secret"]} in
  [b; a] ≡ₚ [a; b] ∧ NoDup (sdoc_key <$> [b; a]) ∧ render [b; a] = render [a; b] ∧
  render [b; a] = inr (Join ["ConfigMap"; "Secret"] doc_separator +:+ newline).
Proof.
  intros a b.
  assert (Hp : [b; a] ≡ₚ [a; b]) by apply Permutation_swap.
  assert (Hn : NoDup (sdoc_key <$> [b; a])) by by apply (bool_decide_unpack _).
  split; [done|split; [done|split; [exact (render_deterministic _ _ Hp Hn)|by vm_compute]]].
Defined.

(** ** What is collected *)

(** The kinds that are never backed up: events of both APIs, Jobs, and the operator's
    own runs *)
Definition never_backed_up : list (string * string) :=
  [("", "Event"); ("events.k8s.io", "Event"); ("batch", "Job");
   ("pbs.sharifmind.ir", "PBSBackup"); ("pbs.sharifmind.ir", "PBSSchedule");
   ("pbs.sharifmind.ir", "PBSRestore")].

(** A resource of group [g] that is to be listed: namespaced, no subresource, not of
    one of those kinds, and one that can be listed *)
Definition wanted (g : string) (ar : APIResource) : Prop :=
  ar_Namespaced ar = true ∧ Contains (ar_Name ar) "/" = false ∧
  (g, ar_Kind ar) ∉ never_backed_up ∧ ("list" ∈ ar_Verbs ar ∨ "*" ∈ ar_Verbs ar).
#[export] Instance wanted_dec g ar : Decision (wanted g ar).
Proof. unfold wanted. apply _. Defined.

Lemma hasVerb_spec verbs verb : hasVerb verbs verb = true ↔ verb ∈ verbs ∨ "*" ∈ verbs.
Proof.
  unfold hasVerb. rewrite existsb_exists. setoid_rewrite orb_true_iff.
  setoid_rewrite bool_decide_eq_true. setoid_rewrite <- list_elem_of_In. naive_solver.
Qed.

Lemma listed_wanted g ar : listed g ar = true ↔ wanted g ar.
Proof.
  unfold listed, wanted. rewrite negb_true_iff, !orb_false_iff, !negb_false_iff, bool_decide_eq_false.
  rewrite hasVerb_spec. change excludedKinds with never_backed_up. tauto.
Qed.

(** The errors with which an API may answer a listing and be left out: it is gone or
    not served, it may not be listed, or it is down *)
Definition left_out (e : apierror) : Prop :=
  ae_Reason e ∈ [ReasonNotFound; ReasonForbidden; ReasonMethodNotAllowed; ReasonServiceUnavailable].

Lemma skippable_left_out e : skippableListError e = true ↔ left_out e.
Proof.
  unfold skippableListError, left_out, IsNotFound, IsForbidden, IsMethodNotSupported, IsServiceUnavailable.
  rewrite !orb_true_iff, !bool_decide_eq_true. set_solver.
Qed.

(** An object without what a server writes into it: no status, none of the five volatile
    fields, no last-applied annotation and no annotations left empty by that; every other
    field, label and annotation as it was *)
Definition stripped (obj o : gmap string val) : Prop :=
  o !! "status" = None ∧
  (∀ k, k ∈ ["uid"; "resourceVersion"; "creationTimestamp"; "generation"; "managedFields"] →
     meta_of o !! k = None) ∧
  annotations_of o = delete "kubectl.kubernetes.io/last-applied-configuration" (annotations_of obj) ∧
  meta_of o !! "annotations" ≠ Some (VMap ∅) ∧
  (∀ k, k ∉ ["uid"; "resourceVersion"; "creationTimestamp"; "generation"; "managedFields"; "annotations"] →
     meta_of o !! k = meta_of obj !! k) ∧
  (∀ k, k ≠ "status" → k ≠ "metadata" → o !! k = obj !! k).

Lemma strip_meta_nonempty m : strip_meta m !! "annotations" ≠ Some (VMap ∅).
Proof.
  unfold strip_meta. cbv zeta. destruct (get_map _ _) as [anns|] eqn:Ha.
  - case_bool_decide as Hn; [by rewrite lookup_delete_eq|]. rewrite lookup_insert_eq. intros [= He]. by apply Hn.
  - unfold get_map in Ha. by destruct (_ !! _) as [[]|].
Qed.

Lemma stripVolatile_stripped obj : stripped obj (stripVolatile obj).
Proof.
  destruct (stripVolatile_spec obj) as (H1 & H2 & H3 & H4 & H5). split_and!; try done.
  - unfold stripVolatile, meta_of. rewrite map_or_nil_update by (by vm_compute). apply strip_meta_nonempty.
  - intros k Hk. apply H4; [|set_solver]. unfold volatileMetadata. set_solver.
Qed.

(** By group-kind and name, bytewise *)
Definition before_or_same (x y : sdoc) : Prop :=
  (sd_gk x = sd_gk y ∧ String.le (sd_name x) (sd_name y)) ∨
  (sd_gk x ≠ sd_gk y ∧ String.le (sd_gk x) (sd_gk y)).

Section collected.
Context `{GL : GroupLib} `{YL : YamlLib} `{SS : SortSlice} {SL : SortSliceLaws}.

(** The resources a listing visits, with the group version and the group. *)
Definition visited (lists : list APIResourceList) : list (string * string * APIResource) :=
  lists ≫= λ l,
    match ParseGroupVersion (arl_GroupVersion l) with
    | inl _ => []
    | inr (g, _) => (λ ar, (arl_GroupVersion l, g, ar)) <$> filter (wanted g) (arl_APIResources l)
    end.

Definition list_event (ns : string) (x : string * string * APIResource)
    (a : apierror + list Unstructured) : kevent :=
  ev (CListDynamic (x.1.1, ar_Name x.2) ns) a.

(** The objects of an answer that are not the operator's own *)
Definition answer_docs (x : string * string * APIResource) (a : apierror + list Unstructured)
    : list sdoc :=
  match a with
  | inl _ => []
  | inr items =>
      (λ u, mkSdoc (GroupKind_String (x.1.2, ar_Kind x.2)) (u_Name u) (u_Object u))
        <$> filter (λ u, default "" (u_Labels u !! "pbs.sharifmind.ir/managed") = "") items
  end.

Definition answer_ok (a : apierror + list Unstructured) : Prop :=
  match a with inl e => left_out e | inr _ => True end.

Lemma item_answer_docs x items : item_docs x.1.2 x.2 items = answer_docs x (inr items).
Proof using Type.
  unfold item_docs, answer_docs. f_equal. apply list_filter_iff. intros u.
  unfold unmanaged. by rewrite bool_decide_eq_true.
Qed.

(** A run of the listing that succeeds: one answer per visited resource. *)
Definition collected (ns : string) (xs : list (string * string * APIResource))
    (tr : list kevent) (found : list sdoc) : Prop :=
  ∃ answers, length answers = length xs ∧ Forall answer_ok answers ∧
    tr = zip_with (list_event ns) xs answers ∧
    found = mjoin (zip_with answer_docs xs answers).

Lemma collected_nil ns : collected ns [] [] [].
Proof using Type. by exists []. Qed.

Lemma collected_cons ns x xs a tr found :
  answer_ok a → collected ns xs tr found →
  collected ns (x :: xs) (list_event ns x a :: tr) (answer_docs x a ++ found).
Proof using Type.
  intros Ha (answers & Hl & Hok & -> & ->). exists (a :: answers).
  split_and!; [cbn; by f_equal|by constructor|done|done].
Qed.

Lemma collected_app ns xs xs' tr tr' found found' :
  collected ns xs tr found → collected ns xs' tr' found' →
  collected ns (xs ++ xs') (tr ++ tr') (found ++ found').
Proof using Type.
  intros (as1 & Hl1 & Hok1 & -> & ->) (as2 & Hl2 & Hok2 & -> & ->). exists (as1 ++ as2).
  split_and!; [by rewrite !length_app, Hl1, Hl2|by apply Forall_app| |].
  - by rewrite zip_with_app.
  - by rewrite zip_with_app, join_app.
Qed.

(** The answer that ends a listing *)
Definition list_failed (ns : string) (tr : list kevent) (e : error) : Prop :=
  ∃ gvr a, ev (CListDynamic gvr ns) (inl a) ∈ tr ∧ ¬ left_out a ∧ e = ErrAPI a.

Lemma list_failed_app ns tr t e : list_failed ns tr e → list_failed ns (t ++ tr) e.
Proof using Type. intros (gvr & a & Hin & Ha). exists gvr, a. rewrite elem_of_app. naive_solver. Qed.

Lemma collect_resources_spec gvs g ns ars found tr res :
  runs (collect_resources gvs g ns ars found) tr res →
  match res with
  | inl e => list_failed ns tr e
  | inr found' =>
      ∃ more, found' = found ++ more ∧
        collected ns ((λ ar, (gvs, g, ar)) <$> filter (wanted g) ars) tr more
  end.
Proof using Type.
  revert found tr. induction ars as [|ar ars IH]; intros found tr; cbn [collect_resources].
  - intros H. runs_inv. exists []. split; [by rewrite app_nil_r|apply collected_nil].
  - destruct (listed g ar) eqn:Hl; cbn [negb].
    2:{ intros H%IH. destruct res; [done|]. rewrite filter_cons_False; [done|].
        rewrite <- listed_wanted. congruence. }
    rewrite filter_cons_True by by apply listed_wanted. intros H. runs_step. runs_step.
    destruct a as [e|items].
    + destruct (skippableListError e) eqn:He.
      * apply IH in H1. destruct res as [er|found']; [by apply (list_failed_app _ _ [_])|].
        destruct H1 as (more & -> & Hc). exists more. split; [done|].
        apply (collected_cons ns (gvs, g, ar) _ (inl e) _ more); [by apply skippable_left_out|done].
      * runs_inv. exists (gvs, ar_Name ar), e. split; [by left|]. split; [|done].
        rewrite <- skippable_left_out. congruence.
    + apply IH in H1. destruct res as [er|found']; [by apply (list_failed_app _ _ [_])|].
      destruct H1 as (more & -> & Hc). exists (item_docs g ar items ++ more).
      split; [by rewrite app_assoc|].
      change (item_docs g ar items) with (item_docs (gvs, g, ar).1.2 (gvs, g, ar).2 items).
      rewrite item_answer_docs. by apply (collected_cons ns (gvs, g, ar) _ (inr items) _ more).
Qed.

Lemma collect_spec ns lists found tr res :
  runs (collect ns lists found) tr res →
  match res with
  | inl e => list_failed ns tr e ∨ ∃ l, l ∈ lists ∧ ParseGroupVersion (arl_GroupVersion l) = inl e
  | inr found' =>
      (∃ more, found' = found ++ more ∧ collected ns (visited lists) tr more) ∧
      ∀ l, l ∈ lists → ∃ gv, ParseGroupVersion (arl_GroupVersion l) = inr gv
  end.
Proof using Type.
  revert found tr. induction lists as [|l lists IH]; intros found tr; cbn [collect].
  - intros H. runs_inv. split; [|by intros l ?%not_elem_of_nil].
    exists []. split; [by rewrite app_nil_r|apply collected_nil].
  - unfold visited. cbn [mbind list_bind].
    destruct (ParseGroupVersion _) as [e|[g v]] eqn:Hp.
    { intros H; runs_inv. right. exists l. split; [by left|done]. }
    intros H. runs_step. apply collect_resources_spec in H0. destruct x as [e|found1].
    { runs_inv. left. by rewrite app_nil_r. }
    destruct H0 as (more1 & -> & Hc1). apply IH in H1. destruct res as [e|found'].
    { destruct H1 as [H1|(l' & Hin & Hl)]; [left; by apply list_failed_app|right].
      exists l'. split; [by right|done]. }
    destruct H1 as [(more2 & -> & Hc2) Hall]. split.
    + exists (more1 ++ more2). split; [by rewrite app_assoc|]. by apply collected_app.
    + intros l' [->|Hin]%elem_of_cons; [by eexists|by apply Hall].
Qed.

(** What a successful serialization listed and rendered *)
Lemma serialized_listing ns tr yaml :
  runs (SerializeNamespace ns) tr (inr yaml) →
  ∃ lists derr answers,
    tr = ev CServerResources (lists, derr) :: zip_with (list_event ns) (visited lists) answers ∧
    length answers = length (visited lists) ∧ Forall answer_ok answers ∧
    (derr = None ∨ derr = Some GroupDiscoveryFailed) ∧
    (∀ l, l ∈ lists → ∃ gv, ParseGroupVersion (arl_GroupVersion l) = inr gv) ∧
    render (mjoin (zip_with answer_docs (visited lists) answers)) = inr yaml.
Proof using Type.
  unfold SerializeNamespace. intros H. runs_step. runs_step. destruct a as [lists derr].
  assert (runs (found <-? collect ns lists []; mret (render found)) t0 (inr yaml) ∧
          (derr = None ∨ derr = Some GroupDiscoveryFailed)) as [Hr Hd].
  { destruct derr as [[|e]|]; [by auto|by runs_inv|by auto]. }
  clear H1. runs_step. apply collect_spec in H0. destruct x as [e|found]; [by runs_inv|]. runs_inv.
  destruct H0 as [(more & -> & answers & Hlen & Hok & -> & ->) Hall].
  exists lists, derr, answers. rewrite app_nil_r. split_and!; done.
Qed.

(** The text of a list of objects: each one, stripped and marshalled, in the order of
    group-kind and name, with a separator line between them; nothing for none *)
Definition rendered (found : list sdoc) (yaml : string) : Prop :=
  ∃ docs texts, docs ≡ₚ found ∧ StronglySorted before_or_same docs ∧
    Forall2 (λ d text, ∃ o, stripped (sd_obj d) o ∧ yaml_Marshal o = inr text) docs texts ∧
    yaml = match texts with
           | [] => ""
           | _ => Join texts (newline +:+ "---" +:+ newline) +:+ newline
           end.

Lemma render_all_stripped docs :
  match render_all docs with
  | inr texts => Forall2 (λ d text, ∃ o, stripped (sd_obj d) o ∧ yaml_Marshal o = inr text) docs texts
  | inl e => ∃ d o, d ∈ docs ∧ stripped (sd_obj d) o ∧ yaml_Marshal o = inl e
  end.
Proof using Type.
  induction docs as [|d docs IH]; cbn [render_all]; [done|].
  pose proof (stripVolatile_stripped (sd_obj d)) as Hs.
  destruct (yaml_Marshal _) as [e|b] eqn:Hm; [by exists d, (stripVolatile (sd_obj d)); split; [left|]|].
  destruct (render_all docs) as [e|bs].
  - destruct IH as (d' & o & Hin & Ho). exists d', o. split; [by right|done].
  - constructor; [by eexists|done].
Qed.

Lemma render_rendered found :
  match render found with
  | inr yaml => rendered found yaml
  | inl e => ∃ d o, d ∈ found ∧ stripped (sd_obj d) o ∧ yaml_Marshal o = inl e
  end.
Proof using SL.
  unfold render. pose proof (render_all_stripped (sort_Slice sdoc_less found)) as Ht.
  destruct (render_all _) as [e|texts].
  { destruct Ht as (d & o & Hin & Ho). exists d, o. split; [|done].
    by rewrite sort_Slice_Permutation in Hin. }
  assert (Hr : rendered found match texts with
    | [] => "" | _ => Join texts (newline +:+ "---" +:+ newline) +:+ newline end).
  { exists (sort_Slice sdoc_less found), texts. split; [by rewrite sort_Slice_Permutation|].
    split; [|done]. pose proof (sort_Slice_sorted sdoc_less found _ _) as Hs.
    clear -Hs. induction Hs as [|x l _ IH Hf]; [constructor|]. constructor; [done|].
    eapply Forall_impl; [exact Hf|]. intros y. apply sdoc_le_spec. }
  by destruct texts.
Qed.

Lemma answered_doc ns xs answers d :
  length answers = length xs → d ∈ mjoin (zip_with answer_docs xs answers) →
  ∃ gvr items u, ev (CListDynamic gvr ns) (inr items) ∈ zip_with (list_event ns) xs answers ∧
    u ∈ items ∧ sd_obj d = u_Object u.
Proof using Type.
  intros Hlen (docs & Hd & Hin)%list_elem_of_join.
  apply elem_of_lookup_zip_with in Hin as (i & x & a & -> & Hx & Ha).
  destruct a as [e|items]; [by apply not_elem_of_nil in Hd|].
  apply list_elem_of_fmap in Hd as (u & -> & [_ Hu]%list_elem_of_filter).
  exists (x.1.1, ar_Name x.2), items, u. split; [|done].
  apply elem_of_lookup_zip_with. by exists i, x, (inr items).
Qed.

(** C40: the text of a namespace is complete.  A successful serialization lists
    exactly the resources discovery reported that are namespaced, no subresource, with
    the verb to list and not of the excluded kinds, each once and in the order reported,
    with no group version of them left out; every listing is answered or refused with
    one of the four errors that may be left out; and the text is the objects of the
    answers that do not carry the operator's label, all of them and nothing else,
    without their status and volatile fields, in the order of group-kind and name,
    separated by "---".  It fails only with the error of the discovery, of a group
    version that cannot be parsed, of a listing refused with any other error, or of an
    object that cannot be marshalled. *)
Theorem SerializeNamespace_complete ns tr res :
  runs (SerializeNamespace ns) tr res →
  match res with
  | inr yaml =>
      ∃ lists derr answers,
        tr = ev CServerResources (lists, derr) :: zip_with (list_event ns) (visited lists) answers ∧
        length answers = length (visited lists) ∧ Forall answer_ok answers ∧
        (derr = None ∨ derr = Some GroupDiscoveryFailed) ∧
        (∀ l, l ∈ lists → ∃ gv, ParseGroupVersion (arl_GroupVersion l) = inr gv) ∧
        rendered (mjoin (zip_with answer_docs (visited lists) answers)) yaml
  | inl e =>
      (∃ lists, ev CServerResources (lists, Some (DiscoveryOther e)) ∈ tr) ∨
      (∃ lists derr l, ev CServerResources (lists, derr) ∈ tr ∧ l ∈ lists ∧
         ParseGroupVersion (arl_GroupVersion l) = inl e) ∨
      list_failed ns tr e ∨
      (∃ gvr items u o, ev (CListDynamic gvr ns) (inr items) ∈ tr ∧ u ∈ items ∧
         stripped (u_Object u) o ∧ yaml_Marshal o = inl e)
  end.
Proof using SL.
  intros Hr. destruct res as [e|yaml].
  2:{ apply serialized_listing in Hr as (lists & derr & answers & -> & Hlen & Hok & Hd & Hall & Hr).
      exists lists, derr, answers. split_and!; try done.
      pose proof (render_rendered (mjoin (zip_with answer_docs (visited lists) answers))) as Ht.
      by rewrite Hr in Ht. }
  revert Hr. unfold SerializeNamespace. intros H. runs_step. runs_step. destruct a as [lists derr].
  set (first := ev CServerResources (lists, derr)).
  assert (Hfirst : ∀ t : list kevent, first ∈ [first] ++ t) by (intros t; left).
  assert ((∃ er, derr = Some (DiscoveryOther er) ∧ er = e) ∨
          runs (found <-? collect ns lists []; mret (render found)) t0 (inl e)) as [(er & -> & ->)|Hr].
  { destruct derr as [[|er]|]; [by right|left|by right]. runs_inv. by eexists. }
  { left. eexists. apply Hfirst. }
  right. clear H1. runs_step. apply collect_spec in H0. destruct x as [er|found].
  { runs_inv. rewrite app_nil_r. destruct H0 as [Hf|(l & Hin & Hl)]; [|left; by exists lists, derr, l].
    right; left. by apply list_failed_app. }
  apply runs_ret in H1 as [-> Hren]. right; right. destruct H0 as [(more & -> & answers & Hlen & _ & -> & ->) _].
  pose proof (render_rendered ([] ++ mjoin (zip_with answer_docs (visited lists) answers))) as Ht.
  rewrite <- Hren in Ht. destruct Ht as (d & o & Hin & Ho & Hm).
  apply (answered_doc ns) in Hin as (gvr & items & u & Hev & Hu & Hd); [|done]. rewrite Hd in Ho.
  exists gvr, items, u, o. rewrite app_nil_r, elem_of_app. by split; [right|].
Qed.
End collected.
(** Discovery reports one listable resource with one object, another that is
    gone by the time it is listed, and the operator's own scaffolding. *)
Definition witness_handler (c : call) (s : unit) : resp c * unit :=
  match c return resp c * unit with
  | CServerResources =>
      ([mkAPIResourceList "v1" [mkAPIResource "configmaps" "ConfigMap" true ["list"];
                                mkAPIResource "pods" "Pod" true ["*"];
                                mkAPIResource "nodes" "Node" false ["list"]]],
       Some GroupDiscoveryFailed, s)
  | CListDynamic gvr ns =>
      (if decide (gvr.2 = "configmaps") then
         inr [mkUnstructured "cm" ∅ {["kind" := VStr "ConfigMap"]};
              mkUnstructured "own" {[ManagedLabel := "true"]} {["kind" := VStr "Own"]}]
       else inl (mkAPIError ReasonNotFound "gone"), s)
  | CGet _ _ | CList _ _ _ | CCreate _ _ | CUpdate _ _ | CPatch _ _ _ | CStatusPatch _ _ _ =>
      (inl (mkAPIError ReasonOther "no"), s)
  | CSetStatusCondition cs _ => (cs, false, s)
  | CEvent _ _ _ _ => (tt, s)
  | CNow => (0, s)
  | CGetenv _ => ("", s)
  | CExec _ _ _ _ => (None, s)
  | CMetricSet _ _ _ | CMetricInc _ _ => (tt, s)
  | CDial _ _ => (inr [], s)
  | CHttp _ _ => (inl (ErrMsg "no"), s)
  | CSelect _ => (None, s)
  end.

Lemma SerializeNamespace_complete_witness :
  let run := exec witness_handler (SerializeNamespace "ns") tt in
  run.1.2 = inr ("ConfigMap" +:+ newline) ∧
  ∃ lists derr answers,
    run.1.1 = ev CServerResources (lists, derr)
                :: zip_with (list_event "ns") (visited lists) answers ∧
    length answers = length (visited lists) ∧ Forall answer_ok answers ∧
    (derr = None ∨ derr = Some GroupDiscoveryFailed) ∧
    (∀ l, l ∈ lists → ∃ gv, ParseGroupVersion (arl_GroupVersion l) = inr gv) ∧
    rendered (mjoin (zip_with answer_docs (visited lists) answers)) ("ConfigMap" +:+ newline).
Proof.
  intros run. assert (Hr : run.1.2 = inr ("ConfigMap" +:+ newline)) by by vm_compute.
  split; [done|].
  assert (Hruns : runs (SerializeNamespace "ns") run.1.1 (inr ("ConfigMap" +:+ newline)))
    by (rewrite <- Hr; apply exec_runs).
  exact (SerializeNamespace_complete "ns" run.1.1 (inr ("ConfigMap" +:+ newline)) Hruns).
Defined.
