(* ===== verification/ControllerLib.v ===== *)
(** * What the reconcilers share

    The package-level helpers of internal/controller that more than one
    reconciler uses, from pbsbackup_controller.go and pbsrepo_controller.go. *)

From S2P Require Import Prelude GoLib Kube Api Client JobBuild.
From Stdlib Require Import Ascii.
From stdpp Require Import options.

Local Open Scope Z_scope.

Definition requeueWait : Z := Minute.
Definition requeueWaitSlow : Z := 5 * Minute.
Definition condReady : string := "Ready".
Definition reasonRepoNotReady : string := "RepoNotReady".
Definition reasonUnplaceable : string := "PlacementFailed".
Definition reasonSecretCopy : string := "SecretCopyFailed".
Definition reasonJobDeleted : string := "JobDeleted".
Definition reasonRunning : string := "Running".
Definition reasonCompleted : string := "Completed".
Definition reasonFailed : string := "Failed".
Definition defaultAgentImage : string := "pbs-agent:dev".
Definition operatorNamespaceFallback : string := "pbs-operator-system".

Definition operatorNamespace : kprog string :=
  ns ← Getenv "POD_NAMESPACE";
  mret (if negb (bool_decide (ns = "")) then ns else operatorNamespaceFallback).

(** [firstNode]: the alphabetically first node name, [""] without nodes. *)
Definition firstNode : kprog (error + string) :=
  nodes <-? api (List_ KNode None SelAll);
  mret (inr (match sort_Strings ((λ n, om_Name (node_Meta n)) <$> nodes) with
             | [] => ""
             | name :: _ => name
             end)).

Definition repoSecretKeys : list string :=
  ["host"; "port"; "datastore"; "namespace";
   "tokenID"; "tokenSecret"; "fingerprint"; "keyfile"].

(** [bytes.Equal(a[k], b[k])]: an absent key is the empty value. *)
Definition contractEqual (a b : gmap string string) : bool :=
  forallb (λ k, bool_decide (default "" (a !! k) = default "" (b !! k))) repoSecretKeys.

(** The loop that copies the contract keys present in the source. *)
Definition contract_data (src : gmap string string) : gmap string string :=
  filter (λ kv, kv.1 ∈ repoSecretKeys) src.

(** ** Jobs *)

Definition jobCondition (job : Job) (cond : JobConditionType) : bool :=
  existsb (λ c, bool_decide (jc_Type c = cond) && bool_decide (jc_Status c = ConditionTrue))
    (job_Conditions job).

Definition jobState (job : Job) : string :=
  if jobCondition job JobFailed then "failed"
  else if jobCondition job JobComplete then "complete"
  else "active".

Definition jobName (backup node : string) : string :=
  let full := backup +:+ "-" +:+ node in
  if (String.length full <=? 63)%nat then full
  else
    let suffix := "-" +:+ fmt_08x (fnv32a full) in
    TrimRightByte (stake (63 - String.length suffix) full) "-" +:+ suffix.

Definition agentImage (configured : string) : string :=
  if bool_decide (configured = "") then defaultAgentImage else configured.

(** ** Lemmas *)

Lemma calls_firstNode : calls_in is_read firstNode.
Proof. unfold firstNode, List_. calls_auto. Qed.

Lemma contractEqual_spec a b :
  contractEqual a b = true ↔
  ∀ k, k ∈ repoSecretKeys → default "" (a !! k) = default "" (b !! k).
Proof.
  unfold contractEqual. rewrite forallb_forall. setoid_rewrite bool_decide_eq_true.
  by setoid_rewrite list_elem_of_In.
Qed.

Lemma lookup_contract_data src k :
  contract_data src !! k = if decide (k ∈ repoSecretKeys) then src !! k else None.
Proof.
  unfold contract_data. case_decide as Hk.
  - apply option_eq. intros v. rewrite map_lookup_filter_Some. naive_solver.
  - apply map_lookup_filter_None. right. naive_solver.
Qed.

(** The copy feeds the agents what the source holds: exactly the variables of
    the environment contract of the Jobs. *)
Lemma repoSecretKeys_envContract : repoSecretKeys = envContract.*2.
Proof. done. Qed.

Lemma jobCondition_spec job cond :
  jobCondition job cond = true ↔
  ∃ c, c ∈ job_Conditions job ∧ jc_Type c = cond ∧ jc_Status c = ConditionTrue.
Proof.
  unfold jobCondition. rewrite existsb_exists. setoid_rewrite andb_true_iff.
  setoid_rewrite bool_decide_eq_true. by setoid_rewrite <- list_elem_of_In.
Qed.

Lemma fmt_08x_length z : String.length (fmt_08x z) = 8%nat.
Proof. apply length_fmt_hex. Qed.

Lemma jobName_length backup node : (String.length (jobName backup node) ≤ 63)%nat.
Proof.
  unfold jobName. case_match eqn:Hl; [by apply Nat.leb_le in Hl|].
  rewrite !length_append, fmt_08x_length.
  pose proof (length_TrimRightByte
    (stake (63 - String.length ("-" +:+ fmt_08x (fnv32a (backup +:+ "-" +:+ node))))
       (backup +:+ "-" +:+ node)) "-") as Ht.
  rewrite length_stake in Ht. rewrite length_append, fmt_08x_length in Ht.
  cbn [String.length] in *. lia.
Qed.

(** C39: a Job name fits the 63 characters of a DNS label; it is
    [<backup>-<node>] whenever that fits, so two nodes then get two names; and
    two overlong names that collide collide in the 32-bit hash of the full
    name. *)
Theorem jobName_spec backup node node' :
  (String.length (jobName backup node) ≤ 63)%nat ∧
  ((String.length (backup +:+ "-" +:+ node) ≤ 63)%nat →
   jobName backup node = backup +:+ "-" +:+ node) ∧
  ((String.length (backup +:+ "-" +:+ node) ≤ 63)%nat →
   (String.length (backup +:+ "-" +:+ node') ≤ 63)%nat →
   jobName backup node = jobName backup node' → node = node') ∧
  ((63 < String.length (backup +:+ "-" +:+ node))%nat →
   (63 < String.length (backup +:+ "-" +:+ node'))%nat →
   jobName backup node = jobName backup node' →
   fnv32a (backup +:+ "-" +:+ node) = fnv32a (backup +:+ "-" +:+ node')).
Proof.
  assert (Hs : ∀ n, (String.length (backup +:+ "-" +:+ n) ≤ 63)%nat →
                    jobName backup n = backup +:+ "-" +:+ n).
  { intros n Hn. unfold jobName. by rewrite (proj2 (Nat.leb_le _ _)). }
  split; [apply jobName_length|]. split; [apply Hs|]. split.
  - intros H1 H2. rewrite !Hs by done. intros Heq. by do 2 apply append_inj_l in Heq.
  - intros H1 H2. unfold jobName. rewrite !(proj2 (Nat.leb_gt _ _)) by done.
    intros Heq. apply append_inj_same_length in Heq as [_ Heq];
      [|by rewrite !length_append, !fmt_08x_length].
    apply append_inj_l in Heq. eapply (fmt_hex_inj 8); [apply fnv32a_range..|done].
Qed.

Lemma jobName_spec_witness :
  jobName "daily" "n1" = "daily-n1" ∧
  (String.length (jobName "a-very-long-backup-name-that-goes-on" "and-a-very-long-node-name.example.org") ≤ 63)%nat.
Proof.
  split.
  - apply (jobName_spec "daily" "n1" "n2"). vm_compute. lia.
  - apply (jobName_spec _ _ "").
Defined.

(** The name is not always a DNS label: a node name with dots keeps them, and the
    pod hostname taken from it is then one the API server rejects. *)
Example jobName_dotted :
  jobName "daily" "ip-10-0-0-1.ec2.internal" = "daily-ip-10-0-0-1.ec2.internal" ∧
  byte_in "." (jobName "daily" "ip-10-0-0-1.ec2.internal") = true.
Proof. by vm_compute. Qed.
