(* ===== verification/SecretCopy.v ===== *)
(** * Copies of the repo secret

    What it means for a secret written by a reconcile to be a copy of the
    repo's credentials, and the cases both reconcilers' [ensureRepoSecret] end
    in. *)

From S2P Require Import Prelude GoLib Kube Api Client Trace JobBuild Hooks ControllerLib.
From stdpp Require Import options.

Local Open Scope Z_scope.

(** The contract keys of the source and nothing else. *)
Definition copy_of (src : Secret) (data : gmap string string) : Prop :=
  ∀ k, data !! k = if decide (k ∈ repoSecretKeys) then sec_Data src !! k else None.

Definition managed (m : ObjectMeta) : Prop := om_Labels m !! ManagedLabel = Some "true".

Definition found_secret (tr : list kevent) (key : NamespacedName) (s : Secret) : Prop :=
  ev (CGet KSecret key) (inr s) ∈ tr.

(** The key [ref] points to; without a namespace it is in the operator's. *)
Definition source_key (ref : NamespacedSecretRef) (key : NamespacedName) : Prop :=
  nn_Name key = ref_Name ref ∧ (ref_Namespace ref ≠ "" → nn_Namespace key = ref_Namespace ref).

(** A secret written after [tr]: a copy of the source that was read, marked as
    the operator's own, under its key in [ns] (or over the object found there). *)
Definition good_copy (tr : list kevent) (ref : NamespacedSecretRef) (ns name : string)
    (s : Secret) : Prop :=
  ∃ src key, source_key ref key ∧ found_secret tr key src ∧ copy_of src (sec_Data s) ∧ managed (sec_Meta s) ∧
    ((om_Namespace (sec_Meta s) = ns ∧ om_Name (sec_Meta s) = name) ∨
     ∃ old, found_secret tr (mkNN ns name) old ∧
            om_Namespace (sec_Meta s) = om_Namespace (sec_Meta old) ∧
            om_Name (sec_Meta s) = om_Name (sec_Meta old)).

Definition secret_written (c : call) : option Secret :=
  match c with
  | CCreate k o | CUpdate k o =>
      match k return obj k → option Secret with KSecret => Some | _ => λ _, None end o
  | _ => None
  end.

Definition secret_writes (tr : list kevent) : list Secret := omap secret_written (calls tr).

Lemma secret_writes_app t1 t2 : secret_writes (t1 ++ t2) = secret_writes t1 ++ secret_writes t2.
Proof. unfold secret_writes. by rewrite calls_app, omap_app. Qed.

(** The copy found in place agrees with the source on the contract keys. *)
Definition copy_in_place (tr : list kevent) (ref : NamespacedSecretRef) (ns name : string) : Prop :=
  ∃ src old key, source_key ref key ∧ found_secret tr key src ∧ found_secret tr (mkNN ns name) old ∧
    ∀ k, k ∈ repoSecretKeys → default "" (sec_Data old !! k) = default "" (sec_Data src !! k).

(** The contract of [ensureRepoSecret]: at most one write, of a good copy, and
    success without a write only over an up-to-date copy. *)
Definition secret_copied (ref : NamespacedSecretRef) (ns name : string) (tr : list kevent)
    (res : error + (string + string)) : Prop :=
  Forall (good_copy tr ref ns name) (secret_writes tr) ∧ (length (secret_writes tr) ≤ 1)%nat ∧
  (secret_writes tr = [] → res = inr (inr name) → copy_in_place tr ref ns name).

Section cases.
Context (ref : NamespacedSecretRef) (ns name : string) (h : list kevent) (src : Secret) (key : NamespacedName).
Context (Hh : secret_writes h = []).

Lemma secret_copied_none e res :
  secret_written (projT1 e) = None → res ≠ inr (inr name) → secret_copied ref ns name (h ++ [e]) res.
Proof using Hh.
  intros He Hne. unfold secret_copied. rewrite secret_writes_app, Hh.
  unfold secret_writes, calls. cbn. rewrite He. split_and!; [constructor|cbn; lia|done].
Qed.

Context (Hkey : source_key ref key) (Hsrc : found_secret h key src).

Lemma secret_copied_found old res :
  contractEqual (sec_Data old) (contract_data (sec_Data src)) = true →
  secret_copied ref ns name (h ++ [ev (CGet KSecret (mkNN ns name)) (inr old)]) res.
Proof using Hh Hkey Hsrc.
  intros Heq. unfold secret_copied. rewrite secret_writes_app, Hh.
  split_and!; [constructor|cbn; lia|]. intros _ _. exists src, old, key.
  split; [done|]. split; [by apply elem_of_grow|]. split; [apply elem_of_snoc|]. intros k Hk.
  rewrite (proj1 (contractEqual_spec _ _) Heq) by done. rewrite lookup_contract_data.
  by rewrite decide_True.
Qed.

Lemma secret_copied_write g c s a res :
  secret_writes [g] = [] → secret_writes [ev c a] = [s] →
  sec_Data s = contract_data (sec_Data src) → managed (sec_Meta s) →
  ((om_Namespace (sec_Meta s) = ns ∧ om_Name (sec_Meta s) = name) ∨
   ∃ old, g = ev (CGet KSecret (mkNN ns name)) (inr old) ∧
          om_Namespace (sec_Meta s) = om_Namespace (sec_Meta old) ∧
          om_Name (sec_Meta s) = om_Name (sec_Meta old)) →
  secret_copied ref ns name ((h ++ [g]) ++ [ev c a]) res.
Proof using Hh Hkey Hsrc.
  intros Hg Hc Hd Hm Hold. unfold secret_copied. rewrite !secret_writes_app, Hh, Hg, Hc.
  split_and!; [|cbn; lia|done]. apply Forall_singleton. exists src, key.
  split; [done|]. split; [by do 2 apply elem_of_grow|]. split; [intros k; rewrite Hd; apply lookup_contract_data|].
  split; [done|]. destruct Hold as [Hold|(old & -> & Hold)]; [by left|]. right. exists old.
  split; [|done]. apply elem_of_grow, elem_of_snoc.
Qed.
End cases.
