(* ===== verification/BackupCtl.v ===== *)
(** * The backup reconciler: internal/controller/pbsbackup_controller.go

    Every function of the file as a [kprog], in the order of the source, and
    [Reconcile] composed of its numbered steps.  The state is the PBSBackup the
    first Get answers; [recordOutcome] writes its status back. *)

From S2P Require Import Prelude GoLib Sort Kube Api Client Json Placement JobBuild RestorePlan.
From S2P Require Import Hooks Serialize ControllerLib.
From Stdlib Require Import QArith_base.
From stdpp Require Import options.

Local Open Scope Z_scope.

Definition reasonNoPVCs : string := "NoPVCsSelected".
Definition reasonHookInvalid : string := "HookInvalid".
Definition reasonHookFailed : string := "HookFailed".
Definition reasonBadResult : string := "ResultUnreadable".

(** The fields of the reconciler; a nil [Serializer], [Metrics] or
    [HookExecutor] is [false]. *)
Record PBSBackupReconciler := mkBackupReconciler {
  br_AgentImage : string;
  br_Serializer : bool;
  br_Metrics : bool;
  br_HookExecutor : bool;
}.

(** A launched Job with the node its claims live on. *)
Record placedJob := mkPlaced { pj_node : string; pj_job : Job }.

(** ** Status updates on a copy *)

Definition set_Phase (p : BackupPhase) (s : PBSBackupStatus) : PBSBackupStatus :=
  {| bst_Phase := p; bst_SnapshotRef := bst_SnapshotRef s; bst_Jobs := bst_Jobs s;
     bst_StartedAt := bst_StartedAt s; bst_CompletedAt := bst_CompletedAt s;
     bst_Bytes := bst_Bytes s; bst_Conditions := bst_Conditions s |}.
Definition set_Conditions (c : list Condition) (s : PBSBackupStatus) : PBSBackupStatus :=
  {| bst_Phase := bst_Phase s; bst_SnapshotRef := bst_SnapshotRef s; bst_Jobs := bst_Jobs s;
     bst_StartedAt := bst_StartedAt s; bst_CompletedAt := bst_CompletedAt s;
     bst_Bytes := bst_Bytes s; bst_Conditions := c |}.
Definition set_Jobs (js : list BackupJobStatus) (s : PBSBackupStatus) : PBSBackupStatus :=
  {| bst_Phase := bst_Phase s; bst_SnapshotRef := bst_SnapshotRef s; bst_Jobs := Some js;
     bst_StartedAt := bst_StartedAt s; bst_CompletedAt := bst_CompletedAt s;
     bst_Bytes := bst_Bytes s; bst_Conditions := bst_Conditions s |}.
Definition set_StartedAt (t : Z) (s : PBSBackupStatus) : PBSBackupStatus :=
  {| bst_Phase := bst_Phase s; bst_SnapshotRef := bst_SnapshotRef s; bst_Jobs := bst_Jobs s;
     bst_StartedAt := Some t; bst_CompletedAt := bst_CompletedAt s;
     bst_Bytes := bst_Bytes s; bst_Conditions := bst_Conditions s |}.
Definition set_CompletedAt (t : Z) (s : PBSBackupStatus) : PBSBackupStatus :=
  {| bst_Phase := bst_Phase s; bst_SnapshotRef := bst_SnapshotRef s; bst_Jobs := bst_Jobs s;
     bst_StartedAt := bst_StartedAt s; bst_CompletedAt := Some t;
     bst_Bytes := bst_Bytes s; bst_Conditions := bst_Conditions s |}.
Definition set_Bytes (n : Z) (s : PBSBackupStatus) : PBSBackupStatus :=
  {| bst_Phase := bst_Phase s; bst_SnapshotRef := bst_SnapshotRef s; bst_Jobs := bst_Jobs s;
     bst_StartedAt := bst_StartedAt s; bst_CompletedAt := bst_CompletedAt s;
     bst_Bytes := n; bst_Conditions := bst_Conditions s |}.
Definition set_SnapshotRef (r : string) (s : PBSBackupStatus) : PBSBackupStatus :=
  {| bst_Phase := bst_Phase s; bst_SnapshotRef := r; bst_Jobs := bst_Jobs s;
     bst_StartedAt := bst_StartedAt s; bst_CompletedAt := bst_CompletedAt s;
     bst_Bytes := bst_Bytes s; bst_Conditions := bst_Conditions s |}.

(** [if s.StartedAt == nil { now := metav1.Now(); s.StartedAt = &now }] *)
Definition stamp_StartedAt (s : PBSBackupStatus) : kprog PBSBackupStatus :=
  match bst_StartedAt s with
  | Some _ => mret s
  | None => now ← Now; mret (set_StartedAt now s)
  end.
Definition stamp_CompletedAt (s : PBSBackupStatus) : kprog PBSBackupStatus :=
  match bst_CompletedAt s with
  | Some _ => mret s
  | None => now ← Now; mret (set_CompletedAt now s)
  end.

(** [jobStatuses] *)
Definition jobStatuses (placed : list placedJob) : list BackupJobStatus :=
  (λ pj, mkBJS (pj_node pj) (om_Name (job_Meta (pj_job pj))) (jobState (pj_job pj))) <$> placed.

Section reconciler.
Context `{KubeLib} `{JsonLib} `{GroupLib} `{YamlLib} `{SortSlice}.
Context (r : PBSBackupReconciler).

(** ** Metrics *)

Definition observeCompleted (b : PBSBackup) : kprog unit :=
  match br_Metrics r, bst_CompletedAt (bk_Status b) with
  | true, Some completed =>
      do_call (CMetricSet LastSuccess (om_Namespace (bk_Meta b)) (inject_Z (Unix completed)));;
      match bst_StartedAt (bk_Status b) with
      | Some started =>
          do_call (CMetricSet Duration (om_Namespace (bk_Meta b))
                     (Qmake (Sub completed started) 1000000000))
      | None => mret tt
      end
  | _, _ => mret tt
  end.

Definition observeFailed (b : PBSBackup) : kprog unit :=
  if br_Metrics r then do_call (CMetricInc Errors (om_Namespace (bk_Meta b))) else mret tt.

(** ** Recording an outcome *)

(** [recordOutcome]: the updated backup with the transition flag.  After a
  patch the object is what the server answered. *)
Definition recordOutcome (b : PBSBackup) (phase : BackupPhase)
    (status : ConditionStatus) (reason message : string)
    (extra : PBSBackupStatus → kprog PBSBackupStatus) : kprog (error + PBSBackup * bool) :=
  let before := b in
  cs ← SetStatusCondition (bst_Conditions (bk_Status b))
         (newCondition condReady status reason message (om_Generation (bk_Meta b)));
  let st := set_Phase phase (set_Conditions cs.1 (bk_Status b)) in
  st ← extra st;
  let b := set_bk_Status b st in
  if bool_decide (bk_Status before = bk_Status b) then mret (inr (b, cs.2))
  else
    b <-? api (StatusPatch KPBSBackup before b);
    mret (inr (b, cs.2)).

Definition emit (transitioned : bool) (b : PBSBackup) (t : event_type) (reason message : string)
  : kprog unit :=
  if transitioned then Eventf (bk_Meta b) t reason message else mret tt.

Definition hold (b : PBSBackup) (reason message : string) (wait : Z) : kprog reconcile_result :=
  let phase :=
    if bool_decide (bst_Phase (bk_Status b) = BackupPhaseRunning) then BackupPhaseRunning
    else BackupPhaseScheduled in
  bt <-? recordOutcome b phase ConditionFalse reason message (λ s, mret s);
  emit bt.2 bt.1 EventTypeWarning reason message;;
  mret (requeue_after wait).

Definition runBackup (b : PBSBackup) (placed : list placedJob) : kprog reconcile_result :=
  bt <-? recordOutcome b BackupPhaseRunning ConditionFalse reasonRunning "backup jobs running"
           (λ s, s ← stamp_StartedAt s; mret (set_Jobs (jobStatuses placed) s));
  emit bt.2 bt.1 EventTypeNormal reasonRunning "backup jobs are running";;
  mret (requeue_after requeueWait).

Definition failBackup (b : PBSBackup) (reason message : string) (placed : list placedJob)
  : kprog reconcile_result :=
  bt <-? recordOutcome b BackupPhaseFailed ConditionFalse reason message
           (λ s, stamp_CompletedAt (set_Jobs (jobStatuses placed) s));
  emit bt.2 bt.1 EventTypeWarning reason message;;
  observeFailed bt.1;;
  mret no_requeue.

(** ** Results *)

(** The message of one container status: the loop body of [jobResult]. *)
Definition terminated_message (cs : ContainerStatus) : string :=
  let msg := default "" (cs_Terminated cs) in
  if bool_decide (msg = "") then default "" (cs_LastTerminated cs) else msg.

Fixpoint first_message (css : list ContainerStatus) : option string :=
  match css with
  | [] => None
  | cs :: css' =>
      let msg := terminated_message cs in
      if bool_decide (msg = "") then first_message css' else Some msg
  end.

Fixpoint pods_message (pods : list Pod) : option string :=
  match pods with
  | [] => None
  | pod :: pods' =>
      match first_message (pod_ContainerStatuses pod) with
      | Some msg => Some msg
      | None => pods_message pods'
      end
  end.

(** The result is [(ref, bytes)] or the problem. *)
Definition jobResult (ns : string) (job : Job) : kprog (error + (string + string * Z)) :=
  let name := om_Name (job_Meta job) in
  pods <-? api (List_ KPod (Some ns) (SelMatchingLabels {["pbsbackup" := name]}));
  mret (inr (match pods_message pods with
             | None => inl ("job " +:+ name +:+ ": no pod with a termination log found")
             | Some msg =>
                 let unreadable :=
                   "job " +:+ name +:+ ": unreadable termination log " +:+ Quote msg in
                 match json_result msg with
                 | inl _ => inl unreadable
                 | inr (ref, bytes) =>
                     if bool_decide (ref = "") then inl unreadable else inr (ref, bytes)
                 end
             end)).

(** The loop of [completeBackup]: the statuses, the total and the last
  reference, or the problem of the first unreadable Job. *)
Fixpoint collect_results (ns : string) (placed : list placedJob)
    (statuses : list BackupJobStatus) (total : Z) (singleRef : string)
    : kprog (error + (string + list BackupJobStatus * Z * string)) :=
  match placed with
  | [] => mret (inr (inr (statuses, total, singleRef)))
  | pj :: placed' =>
      res <-? jobResult ns (pj_job pj);
      match res with
      | inl problem => mret (inr (inl problem))
      | inr (ref, bytes) =>
          collect_results ns placed'
            (statuses ++ [mkBJS (pj_node pj) (om_Name (job_Meta (pj_job pj))) ("ok:" +:+ ref)])
            (add_int64 total bytes) ref
      end
  end.

Definition completeBackup (b : PBSBackup) (placed : list placedJob) : kprog reconcile_result :=
  res <-? collect_results (om_Namespace (bk_Meta b)) placed [] 0 "";
  match res with
  | inl problem => failBackup b reasonBadResult problem placed
  | inr (statuses, total, singleRef) =>
      let single := bool_decide (length placed = 1%nat) in
      let message :=
        if single then "snapshot " +:+ singleRef
        else fmt_d (Z.of_nat (length placed)) +:+ " node job(s) completed" in
      bt <-? recordOutcome b BackupPhaseCompleted ConditionTrue reasonCompleted message
               (λ s,
                 let s := set_Bytes total (set_Jobs statuses s) in
                 let s := if single then set_SnapshotRef singleRef s else s in
                 stamp_CompletedAt s);
      emit bt.2 bt.1 EventTypeNormal reasonCompleted message;;
      observeCompleted bt.1;;
      mret no_requeue
  end.

(** ** Copies of the repo secret and of the API objects *)

(** [inl] is the user-facing problem, [inr] the name of the copy. *)
Definition ensureRepoSecret (b : PBSBackup) (repo : PBSRepo) : kprog (error + (string + string)) :=
  let ref := rsp_SecretRef (repo_Spec repo) in
  srcNS ← (if bool_decide (ref_Namespace ref = "") then operatorNamespace
           else mret (ref_Namespace ref));
  src ← Get KSecret (mkNN srcNS (ref_Name ref));
  match src with
  | inl e =>
      if IsNotFound e then
        mret (inr (inl ("repo secret " +:+ srcNS +:+ "/" +:+ ref_Name ref +:+ " not found")))
      else mret (inl (ErrAPI e))
  | inr src =>
      let data := contract_data (sec_Data src) in
      let name := "pbsrepo-" +:+ om_Name (repo_Meta repo) in
      existing ← Get KSecret (mkNN (om_Namespace (bk_Meta b)) name);
      match existing with
      | inr existing =>
          let meta := sec_Meta existing in
          if contractEqual (sec_Data existing) data &&
             negb (bool_decide (str_at (om_Labels meta) ManagedLabel = ""))
          then mret (inr (inr name))
          else
            _ <-? api (Update KSecret
              (mkSecret (set_Labels meta (<[ManagedLabel := "true"]> (om_Labels meta))) data));
            mret (inr (inr name))
      | inl e =>
          if IsNotFound e then
            let meta := newMeta name (om_Namespace (bk_Meta b)) {[ManagedLabel := "true"]} in
            match SetControllerReference KPBSBackup (bk_Meta b) meta with
            | inl e => mret (inl e)
            | inr refs =>
                created ← Create KSecret (mkSecret (set_OwnerReferences meta refs) data);
                match created with
                | inl e =>
                    if negb (IsAlreadyExists e) then mret (inl (ErrAPI e)) else mret (inr (inr name))
                | inr _ => mret (inr (inr name))
                end
            end
          else mret (inl (ErrAPI e))
      end
  end.

Definition ensureStagingConfigMap (b : PBSBackup) (apiYAML : string) : kprog (error + string) :=
  let name := om_Name (bk_Meta b) +:+ "-api" in
  existing ← Get KConfigMap (mkNN (om_Namespace (bk_Meta b)) name);
  match existing with
  | inr existing =>
      if bool_decide (str_at (cm_Data existing) "api.yaml" = apiYAML) then mret (inr name)
      else
        _ <-? api (Update KConfigMap (mkConfigMap (cm_Meta existing) {["api.yaml" := apiYAML]}));
        mret (inr name)
  | inl e =>
      if IsNotFound e then
        let meta := newMeta name (om_Namespace (bk_Meta b)) {[ManagedLabel := "true"]} in
        match SetControllerReference KPBSBackup (bk_Meta b) meta with
        | inl e => mret (inl e)
        | inr refs =>
            created ← Create KConfigMap
              (mkConfigMap (set_OwnerReferences meta refs) {["api.yaml" := apiYAML]});
            match created with
            | inl e => if negb (IsAlreadyExists e) then mret (inl (ErrAPI e)) else mret (inr name)
            | inr _ => mret (inr name)
            end
        end
      else mret (inl (ErrAPI e))
  end.

(** ** Selection and placement *)

Fixpoint get_pvcs (ns : string) (names : list string) (out : list PersistentVolumeClaim)
    : kprog (error + (string + list PersistentVolumeClaim)) :=
  match names with
  | [] => mret (inr (inr out))
  | name :: names' =>
      pvc ← Get KPVC (mkNN ns name);
      match pvc with
      | inl e =>
          if IsNotFound e then
            mret (inr (inl ("PVC " +:+ name +:+ " not found in namespace " +:+ ns)))
          else mret (inl (ErrAPI e))
      | inr pvc => get_pvcs ns names' (out ++ [pvc])
      end
  end.

Definition selectPVCs (b : PBSBackup) : kprog (error + (string + list PersistentVolumeClaim)) :=
  let ns := om_Namespace (bk_Meta b) in
  match bs_PVCs (bk_Spec b) with
  | _ :: _ => get_pvcs ns (bs_PVCs (bk_Spec b)) []
  | [] =>
      match bs_Selector (bk_Spec b) with
      | Some selector =>
          match LabelSelectorAsSelector selector with
          | Some e => mret (inr (inl ("invalid selector: " +:+ Error e)))
          | None =>
              items <-? api (List_ KPVC (Some ns) (SelLabelSelector selector));
              mret (inr (inr items))
          end
      | None =>
          items <-? api (List_ KPVC (Some ns) SelAll);
          mret (inr (inr items))
      end
  end.

(** [inl] is the problem, [inr] the node. *)
Definition placePVC (pvc : PersistentVolumeClaim) (pods : list Pod)
  : kprog (error + (string + string)) :=
  let name := om_Name (pvc_Meta pvc) in
  if bool_decide (pvc_VolumeName pvc = "") then
    mret (inr (inl ("PVC " +:+ name +:+ " is not bound to a PersistentVolume yet")))
  else
    pv ← Get KPV (mkNN "" (pvc_VolumeName pvc));
    match pv with
    | inl e =>
        if IsNotFound e then
          mret (inr (inl ("PV " +:+ pvc_VolumeName pvc +:+ " for PVC " +:+ name +:+ " not found")))
        else mret (inl (ErrAPI e))
    | inr pv => mret (inr (ResolveNode pvc (Some pv) pods))
    end.

(** The loop over the claims that fills [groups]. *)
Fixpoint place_all (pvcs : list PersistentVolumeClaim) (pods : list Pod)
    (groups : gmap string (list string)) : kprog (error + (string + gmap string (list string))) :=
  match pvcs with
  | [] => mret (inr (inr groups))
  | pvc :: pvcs' =>
      res <-? placePVC pvc pods;
      match res with
      | inl problem => mret (inr (inl problem))
      | inr node =>
          place_all pvcs' pods
            (<[node := default [] (groups !! node) ++ [om_Name (pvc_Meta pvc)]]> groups)
      end
  end.

(** ** Pre-backup hooks *)

Definition mounts_selected (selected : list string) (pod : Pod) : bool :=
  existsb (λ vol, match vol_PersistentVolumeClaim vol with
                  | Some src => bool_decide (pvs_ClaimName src ∈ selected)
                  | None => false
                  end) (ps_Volumes (pod_Spec pod)).

Definition pod_name (pod : Pod) : string := om_Name (pod_Meta pod).

(** The loop over the sorted names; [None] is success, [Some (problem, reason)]
  a terminal problem. *)
Fixpoint run_hooks (byName : gmap string Pod) (names : list string)
    : kprog (option (string * string)) :=
  match names with
  | [] => mret None
  | name :: names' =>
      match byName !! name with
      | None => run_hooks byName names'
      | Some pod =>
          match ParseHook pod with
          | inl e => mret (Some ("pod " +:+ pod_name pod +:+ ": " +:+ Error e, reasonHookInvalid))
          | inr None => run_hooks byName names'
          | inr (Some (container, command)) =>
              if negb (br_HookExecutor r) then
                mret (Some ("pre-hook in pod " +:+ pod_name pod +:+
                            " cannot run: no hook executor configured", reasonHookFailed))
              else
                e ← Exec (om_Namespace (pod_Meta pod)) (pod_name pod) container command;
                match e with
                | Some e =>
                    mret (Some ("pre-hook in pod " +:+ pod_name pod +:+ " failed: " +:+ Error e,
                                reasonHookFailed))
                | None => run_hooks byName names'
                end
          end
      end
  end.

Definition hooked_pods (pvcs : list PersistentVolumeClaim) (pods : list Pod) : list Pod :=
  filter (λ p, mounts_selected ((λ c, om_Name (pvc_Meta c)) <$> pvcs) p = true) pods.

Definition runPreHooks (pvcs : list PersistentVolumeClaim) (pods : list Pod)
  : kprog (option (string * string)) :=
  let mounting := hooked_pods pvcs pods in
  let byName := foldl (λ m p, <[pod_name p := p]> m) (∅ : gmap string Pod) mounting in
  run_hooks byName (sort_Strings (pod_name <$> mounting)).

(** ** Jobs *)

(** One turn of the loop over the nodes; [inl] ends the reconcile. *)
Definition ensure_job (b : PBSBackup) (repoSecret staging node : string) (pvcs : list string)
  : kprog (reconcile_result + Job) :=
  let ns := om_Namespace (bk_Meta b) in
  let name := jobName (om_Name (bk_Meta b)) node in
  found ← Get KJob (mkNN ns name);
  match found with
  | inr job => mret (inr job)
  | inl e =>
      if negb (IsNotFound e) then mret (inl (inl (ErrAPI e)))
      else if bool_decide (name ∈ bjs_Job <$> slice (bst_Jobs (bk_Status b))) then
        res ← hold b reasonJobDeleted
          ("job " +:+ name +:+ " (node " +:+ node +:+
           ") was deleted before the backup finished; not recreating it") requeueWait;
        mret (inl res)
      else
        let job := BuildBackupJob
          {| bjsp_Name := name; bjsp_Namespace := ns; bjsp_Node := node;
             bjsp_RepoSecret := repoSecret; bjsp_PVCs := sort_Strings pvcs;
             bjsp_StagingConfigMap := staging; bjsp_Notes := bs_Notes (bk_Spec b);
             bjsp_Image := agentImage (br_AgentImage r); bjsp_ServiceAccount := "" |} in
        match SetControllerReference KPBSBackup (bk_Meta b) (job_Meta job) with
        | inl e => mret (inl (inl e))
        | inr refs =>
            created ← Create KJob (set_job_Meta job (set_OwnerReferences (job_Meta job) refs));
            match created with
            | inr job => mret (inr job)
            | inl e =>
                if negb (IsAlreadyExists e) then mret (inl (inl (ErrAPI e)))
                else
                  again ← Get KJob (mkNN ns name);
                  mret (match again with inl e => inl (inl (ErrAPI e)) | inr job => inr job end)
            end
        end
  end.

Fixpoint ensure_jobs (b : PBSBackup) (repoSecret staging : string)
    (groups : gmap string (list string)) (nodes : list string) (placed : list placedJob)
    : kprog (reconcile_result + list placedJob) :=
  match nodes with
  | [] => mret (inr placed)
  | node :: nodes' =>
      job <-? ensure_job b repoSecret staging node (default [] (groups !! node));
      ensure_jobs b repoSecret staging groups nodes' (placed ++ [mkPlaced node job])
  end.

(** Step 7: the Job states decide the phase. *)
Definition failed_job (placed : list placedJob) : option placedJob :=
  head (filter (λ pj, jobCondition (pj_job pj) JobFailed = true) placed).

Definition all_complete (placed : list placedJob) : bool :=
  forallb (λ pj, jobCondition (pj_job pj) JobFailed || jobCondition (pj_job pj) JobComplete) placed.

Definition conclude (b : PBSBackup) (placed : list placedJob) : kprog reconcile_result :=
  match failed_job placed with
  | Some failed =>
      failBackup b reasonFailed
        ("job " +:+ om_Name (job_Meta (pj_job failed)) +:+ " (node " +:+ pj_node failed +:+ ") failed")
        placed
  | None => if negb (all_complete placed) then runBackup b placed else completeBackup b placed
  end.

(** Steps 5 to 7. *)
Definition reconcile_jobs (b : PBSBackup) (repoSecret staging : string)
    (groups : gmap string (list string)) : kprog reconcile_result :=
  let nodes := sort_Strings (map_to_list groups).*1 in
  placed ← ensure_jobs b repoSecret staging groups nodes [];
  match placed with
  | inl res => mret res
  | inr placed => conclude b placed
  end.

(** Steps 4 and 4.5: placement and the hooks; then the Jobs. *)
Definition reconcile_place (b : PBSBackup) (repoSecret staging : string)
    (pvcs : list PersistentVolumeClaim) : kprog reconcile_result :=
  pods <-? api (List_ KPod (Some (om_Namespace (bk_Meta b))) SelAll);
  groups ← (match pvcs with
            | [] =>
                node ← firstNode;
                match node with
                | inl e => mret (inl (inl e))
                | inr node =>
                    if bool_decide (node = "") then
                      res ← hold b reasonUnplaceable
                              "no nodes found to run the API-only backup job" requeueWait;
                      mret (inl res)
                    else mret (inr {[node := []]})
                end
            | _ :: _ =>
                res ← place_all pvcs pods ∅;
                match res with
                | inl e => mret (inl (inl e))
                | inr (inl problem) =>
                    res ← hold b reasonUnplaceable problem requeueWait;
                    mret (inl res)
                | inr (inr groups) => mret (inr groups)
                end
            end : kprog (reconcile_result + gmap string (list string)));
  match groups with
  | inl res => mret res
  | inr groups =>
      match slice (bst_Jobs (bk_Status b)) with
      | [] =>
          problem ← runPreHooks pvcs pods;
          match problem with
          | Some (problem, reason) => failBackup b reason problem []
          | None => reconcile_jobs b repoSecret staging groups
          end
      | _ :: _ => reconcile_jobs b repoSecret staging groups
      end
  end.

(** Step 3.5: the staging ConfigMap. *)
Definition stage_api (b : PBSBackup) : kprog (error + string) :=
  if br_Serializer r then
    apiYAML ← SerializeNamespace (om_Namespace (bk_Meta b));
    match apiYAML with
    | inl e => mret (inl (ErrWrap ("serialize namespace " +:+ om_Namespace (bk_Meta b) +:+ ": ") e))
    | inr apiYAML =>
        if negb (bool_decide (apiYAML = "")) then ensureStagingConfigMap b apiYAML
        else mret (inr "")
    end
  else mret (inr "").

(** Steps 2 (after the repo gate) to 3.5. *)
Definition reconcile_backup (b : PBSBackup) (repo : PBSRepo) : kprog reconcile_result :=
  copied <-? ensureRepoSecret b repo;
  match copied with
  | inl problem => hold b reasonSecretCopy problem requeueWait
  | inr repoSecret =>
      selected <-? selectPVCs b;
      match selected with
      | inl problem => hold b reasonUnplaceable problem requeueWait
      | inr pvcs =>
          staging <-? stage_api b;
          if bool_decide (pvcs = []) && bool_decide (staging = "") then
            hold b reasonNoPVCs
              "no PVCs selected and the namespace has no API objects to serialize (the workload may appear later)"
              requeueWaitSlow
          else reconcile_place b repoSecret staging pvcs
      end
  end.

Definition Reconcile (req : NamespacedName) : kprog reconcile_result :=
  got ← Get KPBSBackup req;
  match got with
  | inl e => mret (if IsNotFound e then no_requeue else inl (ErrAPI e))
  | inr backup =>
      if bool_decide (bst_Phase (bk_Status backup) = BackupPhaseCompleted) ||
         bool_decide (bst_Phase (bk_Status backup) = BackupPhaseFailed)
      then mret no_requeue
      else
        let ref := bs_RepoRef (bk_Spec backup) in
        repo ← Get KPBSRepo (mkNN "" ref);
        match repo with
        | inl e =>
            if negb (IsNotFound e) then mret (inl (ErrAPI e))
            else hold backup reasonRepoNotReady ("PBSRepo " +:+ ref +:+ " not found") requeueWait
        | inr repo =>
            if negb (IsStatusConditionTrue (rst_Conditions (repo_Status repo)) condReady) then
              hold backup reasonRepoNotReady
                ("PBSRepo " +:+ om_Name (repo_Meta repo) +:+ " is not Ready") requeueWait
            else reconcile_backup backup repo
        end
  end.
End reconciler.
