(* ===== verification/BackupPlace.v ===== *)
(** * Grouping the claims of a backup by node

    What [place_all], the claim loop of the backup reconciler, returns: a
    partition of the selected claims by the node that holds their data. *)

From S2P Require Import Prelude GoLib Kube Api Client Json Placement JobBuild RestorePlan.
From S2P Require Import Hooks Serialize ControllerLib BackupCtl.
From stdpp Require Import options.

Local Open Scope Z_scope.

Definition pvc_name (pvc : PersistentVolumeClaim) : string := om_Name (pvc_Meta pvc).

(** [pvc] was resolved to [node] during [tr], from the volume it is bound to. *)
Definition resolved (pods : list Pod) (tr : list kevent) (pvc : PersistentVolumeClaim)
    (node : string) : Prop :=
  ∃ pv : PersistentVolume,
    pvc_VolumeName pvc ≠ "" ∧ ev (CGet KPV (mkNN "" (pvc_VolumeName pvc))) (inr pv) ∈ tr ∧
    ResolveNode pvc (Some pv) pods = inr node.

(** The names of the claims on [node], in selection order. *)
Definition claims_on (node : string) (pvcs : list PersistentVolumeClaim) (nodes : list string)
    : list string :=
  fst <$> filter (λ x, x.2 = node) (zip (pvc_name <$> pvcs) nodes).

Lemma claims_on_cons node pvc pvcs n nodes :
  claims_on node (pvc :: pvcs) (n :: nodes) =
  (if decide (n = node) then [pvc_name pvc] else []) ++ claims_on node pvcs nodes.
Proof. unfold claims_on. cbn [fmap list_fmap zip_with]. rewrite filter_cons. cbn. by case_decide. Qed.

Lemma claims_on_sub node pvcs nodes : claims_on node pvcs nodes ⊆ pvc_name <$> pvcs.
Proof.
  intros x (y & -> & Hy)%list_elem_of_fmap. apply list_elem_of_filter in Hy as [_ Hy].
  destruct y as [a n]. by apply elem_of_zip_l in Hy.
Qed.

Section place.
Context `{KubeLib}.

Lemma resolved_app_l pods t1 t2 pvc node : resolved pods t1 pvc node → resolved pods (t1 ++ t2) pvc node.
Proof. intros (pv & Hv & Hin & Hr). exists pv. split_and!; [done|apply elem_of_app; by left|done]. Qed.
Lemma resolved_app_r pods t1 t2 pvc node : resolved pods t2 pvc node → resolved pods (t1 ++ t2) pvc node.
Proof. intros (pv & Hv & Hin & Hr). exists pv. split_and!; [done|apply elem_of_app; by right|done]. Qed.

Lemma placePVC_spec pvc pods tr node :
  runs (placePVC pvc pods) tr (inr (inr node)) → resolved pods tr pvc node.
Proof.
  unfold placePVC. case_bool_decide as Hv; intros Hr; [by runs_inv|].
  apply runs_bind in Hr as (t1 & pv & t2 & -> & Hg & Hr).
  destruct Hg as (a & t & -> & -> & ->).
  destruct a as [e|pv]; [destruct (IsNotFound e); by runs_inv|].
  destruct Hr as [-> Hr]. injection Hr as Hr. exists pv. split_and!; [done| |done].
  by apply list_elem_of_singleton.
Qed.

Lemma place_all_spec pvcs pods groups tr groups' :
  runs (place_all pvcs pods groups) tr (inr (inr groups')) →
  ∃ nodes, Forall2 (resolved pods tr) pvcs nodes ∧
    (∀ node, default [] (groups' !! node) = default [] (groups !! node) ++ claims_on node pvcs nodes) ∧
    (∀ node, is_Some (groups' !! node) ↔ is_Some (groups !! node) ∨ node ∈ nodes).
Proof.
  revert groups tr. induction pvcs as [|pvc pvcs IH]; intros groups tr; cbn [place_all]; intros Hr.
  - destruct Hr as [-> [= <-]]. exists []. split_and!; [constructor| |].
    + intros node. by rewrite app_nil_r.
    + intros node. split; [by left|]. by intros [|?%not_elem_of_nil].
  - apply runs_bind in Hr as (t1 & res & t2 & -> & Hp & Hr).
    destruct res as [e|[p|node]]; [by runs_inv..|]. apply placePVC_spec in Hp.
    apply IH in Hr as (nodes & Hall & Hg & Hd). exists (node :: nodes). split_and!.
    + constructor; [by apply resolved_app_l|].
      eapply Forall2_impl; [exact Hall|]. intros ??. apply resolved_app_r.
    + intros n. rewrite Hg, claims_on_cons. destruct (decide (node = n)) as [->|Hne].
      * rewrite lookup_insert_eq. cbn. by rewrite <- app_assoc.
      * by rewrite lookup_insert_ne.
    + intros n. rewrite Hd, elem_of_cons. destruct (decide (node = n)) as [->|Hne].
      * rewrite lookup_insert_eq. split; [by auto|]. intros _. left. by eexists.
      * rewrite lookup_insert_ne by done. naive_solver.
Qed.

(** The claims of the groups are all the claims, once. *)
Lemma group_by_Permutation {A} (ns : list string) (l : list (A * string)) :
  NoDup ns → (∀ x, x ∈ l → x.2 ∈ ns) →
  ns ≫= (λ n, fst <$> filter (λ x, x.2 = n) l) ≡ₚ l.*1.
Proof.
  intros Hnd. revert l. induction Hnd as [|n ns Hn Hnd IH]; intros l Hin.
  { destruct l as [|x l]; [done|]. exfalso. eapply not_elem_of_nil, (Hin x). by left. }
  cbn [mbind list_bind].
  trans ((filter (λ x, x.2 = n) l).*1 ++ (filter (λ x, x.2 ≠ n) l).*1).
  2:{ by rewrite <- fmap_app, (filter_app_complement (λ x, x.2 = n) l). }
  f_equiv.
  rewrite <- (IH (filter (λ x, x.2 ≠ n) l)).
  - apply Permutation_refl', Forall_bind_ext, Forall_forall. intros m Hm.
    f_equal. rewrite list_filter_filter. apply list_filter_iff. intros x. split; [|by intros []].
    intros <-. split; [done|]. by intros <-.
  - intros x [Hx Hl]%list_elem_of_filter. specialize (Hin x Hl).
    apply elem_of_cons in Hin as [|]; done.
Qed.

Lemma claims_on_Permutation (ns : list string) pvcs nodes :
  length nodes = length pvcs → NoDup ns → (∀ n, n ∈ nodes → n ∈ ns) →
  ns ≫= (λ n, claims_on n pvcs nodes) ≡ₚ pvc_name <$> pvcs.
Proof.
  intros Hlen Hnd Hin. unfold claims_on. rewrite group_by_Permutation; [|done|].
  - by rewrite fst_zip by (rewrite length_fmap; lia).
  - intros [c n] Hx. apply Hin. by eapply elem_of_zip_r.
Qed.

(** A successful placement resolves every selected claim to a node through
    the volume it is bound to, and groups the claims by node: the group of a
    node lists exactly the claims resolved to it, in selection order; there is
    a group for exactly the nodes that hold a claim; and the groups together
    are the selected claims, each once. *)
Theorem place_all_partition pvcs pods tr groups :
  runs (place_all pvcs pods ∅) tr (inr (inr groups)) →
  ∃ nodes, Forall2 (resolved pods tr) pvcs nodes ∧
    (∀ node, default [] (groups !! node) = claims_on node pvcs nodes) ∧
    (∀ node, is_Some (groups !! node) ↔ node ∈ nodes) ∧
    (map_to_list groups).*1 ≫= (λ node, default [] (groups !! node)) ≡ₚ pvc_name <$> pvcs.
Proof.
  intros Hr. apply place_all_spec in Hr as (nodes & Hall & Hg & Hd). exists nodes.
  assert (Hg' : ∀ node, default [] (groups !! node) = claims_on node pvcs nodes).
  { intros node. by rewrite Hg, lookup_empty. }
  assert (Hd' : ∀ node, is_Some (groups !! node) ↔ node ∈ nodes).
  { intros node. rewrite Hd, lookup_empty. split; [|by right]. by intros [[]|]. }
  split_and!; [done..|]. erewrite list_bind_ext; [|apply Hg'|done].
  apply claims_on_Permutation.
  - symmetry. by eapply Forall2_length.
  - apply NoDup_fst_map_to_list.
  - intros n [g Hn]%Hd'. apply list_elem_of_fmap. exists (n, g). split; [done|].
    by apply elem_of_map_to_list.
Qed.
End place.
