(* ===== verification/BackupSafety.v ===== *)
(** * Safety of the backup reconciler

    What every run of [BackupCtl.Reconcile] keeps, whatever the API server and
    the other services answer. *)

From S2P Require Import Prelude GoLib Sort Kube Api Client Trace Json JobBuild RestorePlan.
From S2P Require Import Hooks Serialize ControllerLib BackupCtl BackupPlace.
From stdpp Require Import options.

Local Open Scope Z_scope.

(** ** The calls each part makes *)

(** Writing the outcome: reads, the status patch, the event. *)
Definition outcome_call (c : call) : bool :=
  match c with
  | CStatusPatch KPBSBackup _ _ | CEvent _ _ _ _ => true
  | _ => is_read c
  end.
(** The metrics of a terminal outcome. *)
Definition final_call (c : call) : bool :=
  match c with
  | CMetricSet _ _ _ | CMetricInc _ _ => true
  | _ => outcome_call c
  end.
Definition secret_call (c : call) : bool :=
  match c with
  | CCreate KSecret _ | CUpdate KSecret _ => true
  | _ => is_read c
  end.
Definition configmap_call (c : call) : bool :=
  match c with
  | CCreate KConfigMap _ | CUpdate KConfigMap _ => true
  | _ => is_read c
  end.

Section footprints.
Context `{KubeLib} `{JsonLib} `{GroupLib} `{YamlLib} `{SortSlice}.
Context (r : PBSBackupReconciler).

Lemma calls_stamp_StartedAt s : calls_in is_read (stamp_StartedAt s).
Proof. unfold stamp_StartedAt, Now. calls_auto. Qed.
Lemma calls_stamp_CompletedAt s : calls_in is_read (stamp_CompletedAt s).
Proof. unfold stamp_CompletedAt, Now. calls_auto. Qed.

Lemma calls_operatorNamespace : calls_in is_read operatorNamespace.
Proof. unfold operatorNamespace, Getenv. calls_auto. Qed.

Lemma calls_ensureRepoSecret b repo : calls_in secret_call (ensureRepoSecret b repo).
Proof. unfold ensureRepoSecret, operatorNamespace, Getenv, Get, Update, Create, api. calls_auto. Qed.

Lemma calls_get_pvcs ns names out : calls_in is_read (get_pvcs ns names out).
Proof.
  revert out. induction names as [|name names IH]; intros out; cbn [get_pvcs]; unfold Get;
    calls_auto.
Qed.

Lemma calls_selectPVCs b : calls_in is_read (selectPVCs b).
Proof.
  unfold selectPVCs, List_, api. pose proof calls_get_pvcs. calls_auto.
Qed.

Lemma calls_place_all pvcs pods groups : calls_in is_read (place_all pvcs pods groups).
Proof.
  revert groups. induction pvcs as [|pvc pvcs IH]; intros groups; cbn [place_all];
    unfold placePVC, Get; calls_auto.
Qed.

Lemma calls_collect_results ns placed statuses total ref :
  calls_in is_read (collect_results ns placed statuses total ref).
Proof.
  revert statuses total ref. induction placed as [|pj placed IH]; intros statuses total ref;
    cbn [collect_results]; unfold jobResult, List_, api; calls_auto.
Qed.

Lemma calls_collect_resources gvs g ns ars found :
  calls_in is_read (collect_resources gvs g ns ars found).
Proof.
  revert found. induction ars as [|ar ars IH]; intros found; cbn [collect_resources]; calls_auto.
Qed.

Lemma calls_SerializeNamespace ns : calls_in is_read (SerializeNamespace ns).
Proof.
  pose proof calls_collect_resources.
  assert (Hc : ∀ lists found, calls_in is_read (collect ns lists found)).
  { induction lists; intros found; cbn [collect]; calls_auto. }
  unfold SerializeNamespace. calls_auto.
Qed.

Lemma calls_stage_api b : calls_in configmap_call (stage_api r b).
Proof.
  assert (Hs : ∀ ns, calls_in configmap_call (SerializeNamespace ns)).
  { intros ns. eapply calls_in_mono; [|apply calls_SerializeNamespace]. by intros []. }
  unfold stage_api, ensureStagingConfigMap, Get, Update, Create, api. calls_auto.
Qed.
End footprints.

(** ** Legal status updates *)

Definition terminal (p : BackupPhase) : Prop := p = BackupPhaseCompleted ∨ p = BackupPhaseFailed.
#[export] Instance terminal_dec p : Decision (terminal p).
Proof. unfold terminal. apply _. Defined.

(** The phase machine: New, Scheduled, Running, then Completed or Failed; a
    running backup never goes back. *)
Inductive backup_step : BackupPhase → BackupPhase → Prop :=
  | step_hold p : ¬ terminal p → p ≠ BackupPhaseRunning → backup_step p BackupPhaseScheduled
  | step_run p : ¬ terminal p → backup_step p BackupPhaseRunning
  | step_complete p : ¬ terminal p → backup_step p BackupPhaseCompleted
  | step_fail p : ¬ terminal p → backup_step p BackupPhaseFailed.

(** What a status patch may change. *)
Record legal_update (s s' : PBSBackupStatus) : Prop := {
  lu_phase : backup_step (bst_Phase s) (bst_Phase s');
  lu_started : ∀ t, bst_StartedAt s = Some t → bst_StartedAt s' = Some t;
  lu_completed : ∀ t, bst_CompletedAt s = Some t → bst_CompletedAt s' = Some t;
  lu_completed_terminal : terminal (bst_Phase s') → is_Some (bst_CompletedAt s');
  lu_completed_active : ¬ terminal (bst_Phase s') → bst_CompletedAt s' = bst_CompletedAt s;
  lu_started_running : bst_Phase s ≠ BackupPhaseRunning → bst_Phase s' = BackupPhaseRunning →
    is_Some (bst_StartedAt s');
  lu_result : bst_Phase s' ≠ BackupPhaseCompleted →
    bst_SnapshotRef s' = bst_SnapshotRef s ∧ bst_Bytes s' = bst_Bytes s;
}.

(** ** What holds of a call, given the events before it *)

Definition exec_succeeded (e : kevent) : Prop :=
  match e with
  | existT c a =>
      match c return resp c → Prop with CExec _ _ _ _ => λ a, a = None | _ => λ _, True end a
  end.

Section safety.
Context `{KubeLib} `{JsonLib} `{GroupLib} `{YamlLib} `{SortSlice}.
Context (r : PBSBackupReconciler) (req : NamespacedName).

(** The reconcile works on [b], read first and not terminal. *)
Definition working_on (h : list kevent) (b : PBSBackup) : Prop :=
  head h = Some (ev (CGet KPBSBackup req) (inr b)) ∧ ¬ terminal (bst_Phase (bk_Status b)).

(** The repo of [b] was read and was Ready. *)
Definition repo_ready (h : list kevent) (b : PBSBackup) : Prop :=
  ∃ repo, ev (CGet KPBSRepo (mkNN "" (bs_RepoRef (bk_Spec b)))) (inr repo) ∈ h ∧
    IsStatusConditionTrue (rst_Conditions (repo_Status repo)) condReady = true.

(** The hook of [pod], if it has one, has been run and has succeeded. *)
Definition hook_done (h : list kevent) (pod : Pod) : Prop :=
  match ParseHook pod with
  | inl _ => False
  | inr None => True
  | inr (Some (container, command)) =>
      ev (CExec (om_Namespace (pod_Meta pod)) (pod_name pod) container command) None ∈ h
  end.

(** Every pod of the namespace that mounts one of [claims] has its hook done. *)
Definition listed_pods (h : list kevent) (b : PBSBackup) (pods : list Pod) : Prop :=
  ev (CList KPod (Some (om_Namespace (bk_Meta b))) SelAll) (inr pods) ∈ h.
Definition hooks_done (h : list kevent) (b : PBSBackup) (claims : list string) : Prop :=
  ∃ pods, listed_pods h b pods ∧
    (NoDup (pod_name <$> pods) →
     ∀ pod, pod ∈ pods → mounts_selected claims pod = true → hook_done h pod).

(** The Job of the group on [node]: what [Create] is called with. *)
Definition group_job (b : PBSBackup) (repoSecret staging node : string) (pvcs : list string)
    (refs : list OwnerReference) : Job :=
  let job := BuildBackupJob
    {| bjsp_Name := jobName (om_Name (bk_Meta b)) node;
       bjsp_Namespace := om_Namespace (bk_Meta b); bjsp_Node := node;
       bjsp_RepoSecret := repoSecret; bjsp_PVCs := sort_Strings pvcs;
       bjsp_StagingConfigMap := staging; bjsp_Notes := bs_Notes (bk_Spec b);
       bjsp_Image := agentImage (br_AgentImage r); bjsp_ServiceAccount := "" |} in
  set_job_Meta job (set_OwnerReferences (job_Meta job) refs).

Definition recorded_jobs (b : PBSBackup) : list string :=
  bjs_Job <$> slice (bst_Jobs (bk_Status b)).

Definition job_create_ok (h : list kevent) (j : Job) : Prop :=
  ∃ b repoSecret staging node pvcs refs,
    j = group_job b repoSecret staging node pvcs refs ∧
    working_on h b ∧ repo_ready h b ∧
    (∃ e, ev (CGet KJob (obj_key KJob j)) (inl e) ∈ h ∧ IsNotFound e = true) ∧
    om_Name (job_Meta j) ∉ recorded_jobs b ∧
    (slice (bst_Jobs (bk_Status b)) = [] → hooks_done h b pvcs).

Definition exec_ok (h : list kevent) : Prop :=
  ∃ b, working_on h b ∧ repo_ready h b ∧ slice (bst_Jobs (bk_Status b)) = [] ∧
    jobs_created h = [] ∧ Forall exec_succeeded h.

Definition patch_ok (h : list kevent) (before after : PBSBackup) : Prop :=
  working_on h before ∧ Forall no_patch h ∧
  bk_Meta after = bk_Meta before ∧ bk_Spec after = bk_Spec before ∧
  legal_update (bk_Status before) (bk_Status after).

(** The server accepted a patch that moved the backup to [phase]. *)
Definition reached (h : list kevent) (phase : BackupPhase) (b : PBSBackup) : Prop :=
  ∃ before after, ev (CStatusPatch KPBSBackup before after) (inr b) ∈ h ∧
    bst_Phase (bk_Status after) = phase.

Definition backup_call_ok (h : list kevent) (c : call) : Prop :=
  match c with
  | CCreate KJob j => job_create_ok h j
  | CExec _ _ _ _ => exec_ok h
  | CStatusPatch KPBSBackup before after => patch_ok h before after
  | CEvent _ _ reason _ => Forall patch_accepted h ∧ transitioned h reason
  | CMetricSet _ ns _ => ∃ b, reached h BackupPhaseCompleted b ∧ om_Namespace (bk_Meta b) = ns
  | CMetricInc _ ns => ∃ b, reached h BackupPhaseFailed b ∧ om_Namespace (bk_Meta b) = ns
  | CCreate KSecret _ | CUpdate KSecret _ | CCreate KConfigMap _ | CUpdate KConfigMap _ =>
      ∃ b, working_on h b ∧ repo_ready h b
  | _ => is_read c = true
  end.

(** ** Facts that survive further events *)

Lemma working_on_app h t b : working_on h b → working_on (h ++ t) b.
Proof. intros [Hh Ha]. split; [by destruct h|done]. Qed.
Lemma repo_ready_app h t b : repo_ready h b → repo_ready (h ++ t) b.
Proof. intros (repo & Hin & Hr). exists repo. split; [|done]. apply elem_of_app. by left. Qed.

Lemma read_call_ok h c : is_read c = true → backup_call_ok h c.
Proof. by destruct c. Qed.

Lemma wp_breads {R} (I : list kevent → Prop) (p : kprog R) (Q : R → Prop) h :
  read_stable I → calls_in is_read p → (∀ tr x, runs p tr x → Q x) → I h →
  wp backup_call_ok p (λ h' x, I h' ∧ Q x) h.
Proof. apply wp_reads, read_call_ok. Qed.

(** At work on [b], its status still unwritten. *)
Definition unwritten (b : PBSBackup) (h : list kevent) : Prop :=
  working_on h b ∧ Forall no_patch h.

Lemma unwritten_read_stable b : read_stable (unwritten b).
Proof.
  intros h c a Hc [Hw Hn]. split; [by apply working_on_app|].
  apply Forall_app; split; [done|]. apply Forall_singleton. by apply read_no_patch.
Qed.

(** ** Outcomes *)

Definition recorded (phase : BackupPhase) (reason : string) (h : list kevent)
    (res : error + PBSBackup * bool) : Prop :=
  match res with
  | inl _ => True
  | inr (b', tr) => Forall patch_accepted h ∧ (tr = true → transitioned h reason) ∧
                    (terminal phase → reached h phase b')
  end.

Lemma wp_recordOutcome b phase st reason message extra h :
  unwritten b h → (∀ s, calls_in is_read (extra s)) →
  (∀ cs tr s, runs (extra (set_Phase phase (set_Conditions cs (bk_Status b)))) tr s →
     legal_update (bk_Status b) s ∧ bst_Phase s = phase) →
  wp backup_call_ok (recordOutcome b phase st reason message extra) (recorded phase reason) h.
Proof.
  intros Hu Hreads Hlegal. unfold recordOutcome.
  apply wp_bind. split; [done|]. intros [cs tr]. cbn [wp fst snd].
  set (h1 := h ++ [_]).
  set (I := λ h', unwritten b h' ∧ (tr = true → transitioned h' reason)).
  assert (HI : read_stable I).
  { intros h' c a Hc [Hu' Ht]. split; [by apply unwritten_read_stable|].
    intros (conds & c' & cs' & Hin & Hreason)%Ht. exists conds, c', cs'.
    split; [|done]. apply elem_of_app. by left. }
  assert (Hh1 : I h1).
  { split; [by apply unwritten_read_stable|]. intros ->. eexists _, _, cs.
    split; [apply elem_of_app; right; by apply list_elem_of_singleton|done]. }
  apply wp_bind. eapply wp_post; [apply (wp_breads I); [done|apply Hreads|apply Hlegal|done]|].
  intros h2 s _ [[[Hw Hn] Ht] [Hl Hp]]. case_bool_decide as He.
  - cbn [recorded]. split; [by eapply Forall_impl; [|apply no_patch_accepted]|]. split; [done|].
    intros Hterm. exfalso. destruct Hl as [Hstep _ _ _ _ _ _]. destruct Hw as [_ Hact].
    rewrite He in Hact. cbn [set_bk_Status bk_Status] in Hact. rewrite Hp in Hact. done.
  - apply wp_bind. unfold api. apply wp_bind. split.
    + split_and!; done.
    + intros [e|b']; [done|]. cbn [wp recorded]. split_and!.
      * apply Forall_app; split; [by eapply Forall_impl; [|apply no_patch_accepted]|].
        by apply Forall_singleton.
      * intros (conds & c' & cs' & Hin & Hreason)%Ht. exists conds, c', cs'.
        split; [|done]. apply elem_of_app. by left.
      * intros _. eexists _, _. split; [apply elem_of_app; right; by apply list_elem_of_singleton|].
        done.
Qed.

Lemma reached_app h t phase b : reached h phase b → reached (h ++ t) phase b.
Proof.
  intros (before & after & Hin & Hp). exists before, after. split; [|done].
  apply elem_of_app. by left.
Qed.

Lemma reached_prefix h h' phase b :
  h `prefix_of` h' → reached h phase b → reached h' phase b.
Proof. intros [t ->]. apply reached_app. Qed.

Lemma wp_emit tr b t reason message h :
  Forall patch_accepted h → (tr = true → transitioned h reason) →
  wp backup_call_ok (emit tr b t reason message) (λ _ _, True) h.
Proof. intros Ha Ht. destruct tr; [|done]. split; [split; [done|by apply Ht]|done]. Qed.

(** What a reconcile that worked on a backup returns: no requeue only once the
    server has accepted a terminal phase. *)
Definition finished (h : list kevent) : Prop :=
  ∃ phase b, terminal phase ∧ reached h phase b.
Definition settled (h : list kevent) (res : reconcile_result) : Prop :=
  match res with
  | inl _ => True
  | inr x => (RequeueAfter x = 0 ∧ finished h) ∨
             RequeueAfter x = requeueWait ∨ RequeueAfter x = requeueWaitSlow
  end.

Lemma hold_legal s cs :
  ¬ terminal (bst_Phase s) →
  let phase := if bool_decide (bst_Phase s = BackupPhaseRunning) then BackupPhaseRunning
               else BackupPhaseScheduled in
  legal_update s (set_Phase phase (set_Conditions cs s)).
Proof.
  intros Ha phase.
  assert (Hstep : backup_step (bst_Phase s) phase ∧ ¬ terminal phase ∧
                  (bst_Phase s ≠ BackupPhaseRunning → phase ≠ BackupPhaseRunning)).
  { unfold phase, terminal. case_bool_decide as Hr; [|by split_and!; [constructor|intros []|]].
    rewrite Hr in *. by split_and!; [constructor|intros []|]. }
  destruct Hstep as (Hs & Ht & Hn). by split; cbn; try done; naive_solver.
Qed.

Lemma wp_hold b reason message wait h :
  unwritten b h → wait = requeueWait ∨ wait = requeueWaitSlow →
  wp backup_call_ok (hold b reason message wait) settled h.
Proof.
  intros Hu Hw. unfold hold. apply wp_bind.
  eapply wp_post; [apply wp_recordOutcome; [done|by intros|]|].
  - intros cs tr s [_ ->]. split; [|done]. apply hold_legal. apply Hu.
  - intros h' [e|[b' tr]] _ Hr; [done|]. destruct Hr as (Ha & Ht & _). apply wp_bind.
    eapply wp_post; [by apply wp_emit|]. intros ????. by right.
Qed.

Lemma runs_stamp_StartedAt s tr s' :
  runs (stamp_StartedAt s) tr s' →
  is_Some (bst_StartedAt s') ∧ (∀ t, bst_StartedAt s = Some t → s' = s) ∧
  ∃ t, s' = {| bst_Phase := bst_Phase s; bst_SnapshotRef := bst_SnapshotRef s;
     bst_Jobs := bst_Jobs s; bst_StartedAt := t; bst_CompletedAt := bst_CompletedAt s;
     bst_Bytes := bst_Bytes s; bst_Conditions := bst_Conditions s |}.
Proof.
  unfold stamp_StartedAt, Now. destruct (bst_StartedAt s) eqn:Hs; intros Hr; runs_inv.
  - split_and!; [by rewrite Hs|done|]. exists (bst_StartedAt s). by destruct s.
  - split_and!; [done|done|]. by eexists.
Qed.

Lemma runs_stamp_CompletedAt s tr s' :
  runs (stamp_CompletedAt s) tr s' →
  is_Some (bst_CompletedAt s') ∧ (∀ t, bst_CompletedAt s = Some t → s' = s) ∧
  ∃ t, s' = {| bst_Phase := bst_Phase s; bst_SnapshotRef := bst_SnapshotRef s;
     bst_Jobs := bst_Jobs s; bst_StartedAt := bst_StartedAt s; bst_CompletedAt := t;
     bst_Bytes := bst_Bytes s; bst_Conditions := bst_Conditions s |}.
Proof.
  unfold stamp_CompletedAt, Now. destruct (bst_CompletedAt s) eqn:Hs; intros Hr; runs_inv.
  - split_and!; [by rewrite Hs|done|]. exists (bst_CompletedAt s). by destruct s.
  - split_and!; [done|done|]. by eexists.
Qed.

Lemma wp_runBackup b placed h :
  unwritten b h → wp backup_call_ok (runBackup b placed) settled h.
Proof.
  intros Hu. unfold runBackup. apply wp_bind.
  eapply wp_post; [apply wp_recordOutcome; [done| |]|].
  - intros s. pose proof calls_stamp_StartedAt. calls_auto.
  - intros cs tr s Hr. apply runs_bind in Hr as (t1 & s1 & t2 & _ & Hr & [_ ->]).
    apply runs_stamp_StartedAt in Hr as (Hsome & Hsame & t' & ->).
    split; [|done]. destruct Hu as [[_ Hact] _].
    split; cbn in *; try done; [by constructor| |].
    + intros u Hu. by specialize (Hsame u Hu) as [= ->].
    + intros [|]; done.
  - intros h' [e|[b' tr]] _ Hr; [done|]. destruct Hr as (Ha & Ht & _). apply wp_bind.
    eapply wp_post; [by apply wp_emit|]. intros ????. right. by left.
Qed.

(** The status of a terminal patch: the extra work before the time stamp
    leaves phase, start and completion alone. *)
Lemma terminal_legal s s1 s2 tr phase :
  ¬ terminal (bst_Phase s) → terminal phase →
  bst_Phase s1 = phase → bst_StartedAt s1 = bst_StartedAt s →
  bst_CompletedAt s1 = bst_CompletedAt s →
  (phase ≠ BackupPhaseCompleted →
   bst_SnapshotRef s1 = bst_SnapshotRef s ∧ bst_Bytes s1 = bst_Bytes s) →
  runs (stamp_CompletedAt s1) tr s2 → legal_update s s2 ∧ bst_Phase s2 = phase.
Proof.
  intros Ha Ht Hp Hst Hco Hres Hr.
  apply runs_stamp_CompletedAt in Hr as (Hsome & Hsame & t' & ->). cbn in *.
  split; [|done]. split; cbn; rewrite ?Hp.
  - destruct Ht as [-> | ->]; by constructor.
  - by rewrite Hst.
  - rewrite <- Hco. intros u Hu. rewrite <- Hu. by rewrite <- (f_equal bst_CompletedAt (Hsame u Hu)).
  - done.
  - done.
  - intros _ ->. by destruct Ht.
  - done.
Qed.

Lemma wp_observeFailed b h :
  reached h BackupPhaseFailed b → wp backup_call_ok (observeFailed r b) (λ _ _, True) h.
Proof. intros Hr. unfold observeFailed. destruct (br_Metrics r); [|done]. split; [by exists b|done]. Qed.

Lemma wp_observeCompleted b h :
  reached h BackupPhaseCompleted b → wp backup_call_ok (observeCompleted r b) (λ _ _, True) h.
Proof.
  intros Hr. unfold observeCompleted. destruct (br_Metrics r), (bst_CompletedAt (bk_Status b)); [|done..].
  split; [by exists b|]. intros []. destruct (bst_StartedAt (bk_Status b)); [|done].
  split; [|done]. exists b. split; [by apply reached_app|done].
Qed.

Lemma wp_failBackup b reason message placed h :
  unwritten b h → wp backup_call_ok (failBackup r b reason message placed) settled h.
Proof.
  intros Hu. unfold failBackup. apply wp_bind.
  eapply wp_post; [apply wp_recordOutcome; [done| |]|].
  - intros s. apply calls_stamp_CompletedAt.
  - intros cs tr s Hr. eapply terminal_legal; [apply Hu|by right|..|exact Hr]; done.
  - intros h1 [e|[b' tr]] _ Hr; [done|]. destruct Hr as (Ha & Ht & Hre). cbn [fst snd].
    specialize (Hre (or_intror eq_refl)). apply wp_bind.
    eapply wp_post; [by apply wp_emit|]. intros h2 _ Hp2 _. apply wp_bind.
    eapply reached_prefix in Hre; [|exact Hp2].
    eapply wp_post; [by apply wp_observeFailed|]. intros h3 _ Hp3 _. left. split; [done|].
    eexists _, b'. split; [by right|]. by eapply reached_prefix.
Qed.

Lemma wp_completeBackup b placed h :
  unwritten b h → wp backup_call_ok (completeBackup r b placed) settled h.
Proof.
  intros Hu. unfold completeBackup. apply wp_bind.
  eapply wp_post; [apply (wp_breads (unwritten b) _ (λ _, True))|].
  - apply unwritten_read_stable.
  - apply calls_collect_results.
  - done.
  - done.
  - intros h0 [e|[problem|[[statuses total] ref]]] _ [Hu0 _]; [done| |].
    { by apply wp_failBackup. }
    apply wp_bind. eapply wp_post; [apply wp_recordOutcome; [done| |]|].
    + intros s. apply calls_stamp_CompletedAt.
    + intros cs tr s Hr.
      eapply terminal_legal; [apply Hu|by left|..|exact Hr]; by case_bool_decide.
    + intros h1 [e|[b' tr]] _ Hr; [done|]. destruct Hr as (Ha & Ht & Hre). cbn [fst snd].
      specialize (Hre (or_introl eq_refl)). apply wp_bind.
      eapply wp_post; [by apply wp_emit|]. intros h2 _ Hp2 _. apply wp_bind.
      eapply reached_prefix in Hre; [|exact Hp2].
      eapply wp_post; [by apply wp_observeCompleted|]. intros h3 _ Hp3 _. left. split; [done|].
      eexists _, b'. split; [by left|]. by eapply reached_prefix.
Qed.

Lemma wp_conclude b placed h :
  unwritten b h → wp backup_call_ok (conclude r b placed) settled h.
Proof.
  intros Hu. unfold conclude. destruct (failed_job placed); [by apply wp_failBackup|].
  destruct (all_complete placed); [by apply wp_completeBackup|by apply wp_runBackup].
Qed.

(** ** Jobs *)

(** Ready to create the Job of a group whose claims are among [names]. *)
Definition may_launch (b : PBSBackup) (names : list string) (h : list kevent) : Prop :=
  unwritten b h ∧ repo_ready h b ∧
  (slice (bst_Jobs (bk_Status b)) = [] → hooks_done h b names).

Lemma mounts_selected_mono claims names pod :
  claims ⊆ names → mounts_selected claims pod = true → mounts_selected names pod = true.
Proof.
  unfold mounts_selected. rewrite !existsb_exists. intros Hsub (vol & Hin & Hv).
  exists vol. split; [done|]. destruct (vol_PersistentVolumeClaim vol); [|done].
  apply bool_decide_eq_true in Hv. apply bool_decide_eq_true. by apply Hsub.
Qed.

Lemma hook_done_app h t pod : hook_done h pod → hook_done (h ++ t) pod.
Proof.
  unfold hook_done. destruct (ParseHook pod) as [|[[container command]|]]; [done| |done].
  intros Hin. apply elem_of_app. by left.
Qed.

Lemma hooks_done_mono h t b names claims :
  claims ⊆ names → hooks_done h b names → hooks_done (h ++ t) b claims.
Proof.
  intros Hsub (pods & Hl & Hd). exists pods. split; [apply elem_of_app; by left|].
  intros Hnd pod Hin Hm. apply hook_done_app, Hd; [done..|]. by eapply mounts_selected_mono.
Qed.

(** An event that is not a status patch keeps the permission. *)
Lemma may_launch_app b names h e :
  no_patch e → may_launch b names h → may_launch b names (h ++ [e]).
Proof.
  intros He ([Hw Hn] & Hr & Hd). split_and!.
  - split; [by apply working_on_app|]. apply Forall_app; split; [done|by apply Forall_singleton].
  - by apply repo_ready_app.
  - intros Hj. eapply hooks_done_mono; [done|by apply Hd].
Qed.

Lemma group_job_key b repoSecret staging node pvcs refs :
  obj_key KJob (group_job b repoSecret staging node pvcs refs) =
  mkNN (om_Namespace (bk_Meta b)) (jobName (om_Name (bk_Meta b)) node).
Proof.
  unfold group_job, BuildBackupJob, obj_key.
  by destruct (backup_pvc_parts 0 _) as [[volumes mounts] args].
Qed.

Lemma wp_ensure_job b repoSecret staging node pvcs names h :
  may_launch b names h → pvcs ⊆ names →
  wp backup_call_ok (ensure_job r b repoSecret staging node pvcs)
    (λ h' res, match res with inl res => settled h' res | inr _ => may_launch b names h' end) h.
Proof.
  intros Hm Hsub. unfold ensure_job. apply wp_bind. split; [done|]. intros [e|job]; cbn [wp].
  2:{ by apply may_launch_app. }
  set (key := mkNN _ _) at 1. pose proof (may_launch_app _ _ _ (ev (CGet KJob key) (inl e)) I Hm) as Hm1.
  destruct (IsNotFound e) eqn:He; cbn [negb]; [|done].
  case_bool_decide as Hk.
  { apply wp_bind. eapply wp_post; [apply wp_hold; [apply Hm1|by left]|]. by intros. }
  destruct (SetControllerReference _ _ _) as [e1|refs] eqn:Hrefs; [done|].
  apply wp_bind. split.
  - exists b, repoSecret, staging, node, pvcs, refs. split; [done|].
    split; [apply Hm1|]. split; [apply Hm1|].
    pose proof (group_job_key b repoSecret staging node pvcs refs) as Hkey.
    split; [|split].
    2:{ change (nn_Name (obj_key KJob (group_job b repoSecret staging node pvcs refs))
          ∉ recorded_jobs b). by rewrite Hkey. }
    + change (set_job_Meta _ _) with (group_job b repoSecret staging node pvcs refs).
      rewrite Hkey. exists e. split; [|done]. apply elem_of_app. right. by apply list_elem_of_singleton.
    + intros Hj. destruct Hm as (_ & _ & Hd). eapply hooks_done_mono; [done|by apply Hd].
  - intros [e2|job]; cbn [wp].
    + destruct (IsAlreadyExists e2); cbn [negb]; [|done]. split; [done|].
      intros [e3|job]; [done|]. by repeat apply may_launch_app.
    + by apply may_launch_app.
Qed.

Lemma wp_ensure_jobs b repoSecret staging groups nodes placed names h :
  may_launch b names h → (∀ node, default [] (groups !! node) ⊆ names) →
  wp backup_call_ok (ensure_jobs r b repoSecret staging groups nodes placed)
    (λ h' res, match res with inl res => settled h' res | inr _ => may_launch b names h' end) h.
Proof.
  intros Hm Hg. revert placed h Hm. induction nodes as [|node nodes IH]; intros placed h Hm; [done|].
  cbn [ensure_jobs]. apply wp_bind.
  eapply wp_post; [by apply wp_ensure_job|]. intros h1 [res|job] _ Hpost; [done|]. by apply IH.
Qed.

Lemma wp_reconcile_jobs b repoSecret staging groups names h :
  may_launch b names h → (∀ node, default [] (groups !! node) ⊆ names) →
  wp backup_call_ok (reconcile_jobs r b repoSecret staging groups) settled h.
Proof.
  intros Hm Hg. unfold reconcile_jobs. apply wp_bind.
  eapply wp_post; [by apply wp_ensure_jobs|]. intros h1 [res|placed] _ Hpost; [done|].
  apply wp_conclude, Hpost.
Qed.

(** ** Hooks *)

(** No Job launched, no hook failed, nothing written to the status. *)
Definition before_jobs (b : PBSBackup) (h : list kevent) : Prop :=
  unwritten b h ∧ repo_ready h b ∧ jobs_created h = [] ∧ Forall exec_succeeded h.

(** An event that neither patches a status, nor creates a Job, nor fails. *)
Definition harmless (e : kevent) : Prop :=
  no_patch e ∧ created_job (projT1 e) = None ∧ exec_succeeded e.

Lemma before_jobs_app b h e : harmless e → before_jobs b h → before_jobs b (h ++ [e]).
Proof.
  intros (He & Hj & Hx) ([Hw Hn] & Hr & Hjs & Hxs). split_and!.
  - split; [by apply working_on_app|]. apply Forall_app; split; [done|by apply Forall_singleton].
  - by apply repo_ready_app.
  - rewrite jobs_created_app, Hjs. unfold jobs_created, calls. cbn. by rewrite Hj.
  - apply Forall_app; split; [done|by apply Forall_singleton].
Qed.

Lemma before_jobs_read_stable b : read_stable (before_jobs b).
Proof. intros h c a Hc. apply before_jobs_app. by destruct c. Qed.

Lemma wp_run_hooks b byName names h :
  slice (bst_Jobs (bk_Status b)) = [] → before_jobs b h →
  wp backup_call_ok (run_hooks r byName names)
    (λ h' res, match res with
               | Some _ => unwritten b h'
               | None => before_jobs b h' ∧
                   ∀ name pod, name ∈ names → byName !! name = Some pod → hook_done h' pod
               end) h.
Proof.
  intros Hnil. revert h. induction names as [|name names IH]; intros h Hb.
  { split; [done|]. intros name pod Hin. by apply not_elem_of_nil in Hin. }
  cbn [run_hooks].
  assert (Hcons : ∀ h1, before_jobs b h1 →
    (∀ pod h2, h1 `prefix_of` h2 → byName !! name = Some pod → hook_done h2 pod) →
    wp backup_call_ok (run_hooks r byName names)
      (λ h' res, match res with
               | Some _ => unwritten b h'
               | None => before_jobs b h' ∧
                   ∀ name' pod, name' ∈ name :: names → byName !! name' = Some pod → hook_done h' pod
               end) h1).
  { intros h1 Hb1 Hd. eapply wp_post; [by apply IH|]. intros h2 [p|] Hpre; [done|].
    intros [Hb2 Hds]. split; [done|]. intros name' pod [->|Hin]%elem_of_cons Hpod; [by apply Hd|].
    by eapply Hds. }
  destruct (byName !! name) as [pod|] eqn:Hpod; [|by apply Hcons].
  destruct (ParseHook pod) as [e|[[container command]|]] eqn:Hhook; [apply Hb| |].
  - destruct (br_HookExecutor r); cbn [negb]; [|apply Hb].
    apply wp_bind. split; [exists b; by destruct Hb as ([??] & ? & ? & ?)|].
    intros [e|]; cbn [wp].
    + destruct Hb as [Hu _]. split; [apply working_on_app, Hu|].
      apply Forall_app; split; [apply Hu|by apply Forall_singleton].
    + apply Hcons; [by apply before_jobs_app|]. intros pod' h2 [t ->] [= <-].
      apply hook_done_app. unfold hook_done. rewrite Hhook. apply elem_of_app. right.
      by apply list_elem_of_singleton.
  - apply Hcons; [done|]. intros pod' h2 _ [= <-]. unfold hook_done. by rewrite Hhook.
Qed.

Lemma foldl_byName (l : list Pod) (m : gmap string Pod) pod :
  NoDup (pod_name <$> l) → pod ∈ l ∨ (pod_name pod ∉ pod_name <$> l ∧ m !! pod_name pod = Some pod) →
  foldl (λ m p, <[pod_name p := p]> m) m l !! pod_name pod = Some pod.
Proof.
  revert m. induction l as [|p l IH]; intros m Hnd Hin; cbn [foldl].
  { destruct Hin as [Hin|[_ Hm]]; [by apply not_elem_of_nil in Hin|done]. }
  apply NoDup_cons in Hnd as [Hp Hnd]. apply IH; [done|].
  destruct Hin as [[->|Hin]%elem_of_cons|[Hn Hm]].
  - right. split; [done|]. by rewrite lookup_insert_eq.
  - by left.
  - right. apply not_elem_of_cons in Hn as [Hne Hn]. split; [done|].
    by rewrite lookup_insert_ne by congruence.
Qed.

Lemma wp_runPreHooks b pvcs pods h :
  slice (bst_Jobs (bk_Status b)) = [] → before_jobs b h → listed_pods h b pods →
  wp backup_call_ok (runPreHooks r pvcs pods)
    (λ h' res, match res with
               | Some _ => unwritten b h'
               | None => may_launch b ((λ c, om_Name (pvc_Meta c)) <$> pvcs) h'
               end) h.
Proof.
  intros Hnil Hb Hl. unfold runPreHooks. set (mounting := hooked_pods pvcs pods).
  eapply wp_post; [by apply wp_run_hooks|]. intros h' [p|] [t ->]; [done|].
  intros [(Hu & Hr & _) Hd]. split_and!; [done|done|]. intros _.
  exists pods. split; [apply elem_of_app; by left|]. intros Hnd pod Hin Hm.
  assert (pod ∈ mounting) as Hpm by by apply list_elem_of_filter.
  apply (Hd (pod_name pod)).
  - apply elem_of_sort_Strings. by apply list_elem_of_fmap_2.
  - apply foldl_byName; [|by left].
    eapply sublist_NoDup; [exact Hnd|]. apply fmap_sublist, sublist_filter.
Qed.

(** ** Reconcile *)

Lemma harmless_secret c a : secret_call c → harmless (ev c a).
Proof. destruct c as [| |[]|[]| | | | | | | | | | | | | |]; done. Qed.
Lemma harmless_configmap c a : configmap_call c → harmless (ev c a).
Proof. destruct c as [| |[]|[]| | | | | | | | | | | | | |]; done. Qed.

Lemma secret_call_ok b h c : secret_call c → before_jobs b h → backup_call_ok h c.
Proof.
  intros Hc (Hu & Hr & _). assert (working_on h b) by apply Hu.
  destruct c as [| |[]|[]| | | | | | | | | | | | | |]; try done; by exists b.
Qed.
Lemma configmap_call_ok b h c : configmap_call c → before_jobs b h → backup_call_ok h c.
Proof.
  intros Hc (Hu & Hr & _). assert (working_on h b) by apply Hu.
  destruct c as [| |[]|[]| | | | | | | | | | | | | |]; try done; by exists b.
Qed.

Lemma wp_ensureRepoSecret b repo h :
  before_jobs b h → wp backup_call_ok (ensureRepoSecret b repo) (λ h' _, before_jobs b h') h.
Proof.
  intros Hb. eapply wp_calls_in; [apply calls_ensureRepoSecret|done|].
  intros h' c Hc Hb'. split; [by eapply secret_call_ok|]. intros a.
  by apply before_jobs_app; [apply harmless_secret|].
Qed.

Lemma wp_stage_api b h :
  before_jobs b h → wp backup_call_ok (stage_api r b) (λ h' _, before_jobs b h') h.
Proof.
  intros Hb. eapply wp_calls_in; [apply calls_stage_api|done|].
  intros h' c Hc Hb'. split; [by eapply configmap_call_ok|]. intros a.
  by apply before_jobs_app; [apply harmless_configmap|].
Qed.

Lemma wp_reconcile_place b repoSecret staging pvcs h :
  before_jobs b h → wp backup_call_ok (reconcile_place r b repoSecret staging pvcs) settled h.
Proof.
  intros Hb. unfold reconcile_place, api. apply wp_bind, wp_bind. split; [done|].
  intros [e|pods]; cbn [wp]; [done|]. set (h1 := h ++ [_]).
  set (I := λ h', before_jobs b h' ∧ listed_pods h' b pods).
  assert (HI : read_stable I).
  { intros h' c a Hc [Hb' Hl]. split; [by apply before_jobs_read_stable|].
    apply elem_of_app. by left. }
  assert (Hh1 : I h1).
  { split; [by apply before_jobs_app|]. apply elem_of_app. right.
    by apply list_elem_of_singleton. }
  apply wp_bind.
  apply (wp_post _ _ (λ h' res, match res with
    | inl res => settled h' res
    | inr groups => I h' ∧ ∀ node, default [] (groups !! node) ⊆ pvc_name <$> pvcs
    end)).
  - destruct pvcs as [|pvc pvcs].
    + apply wp_bind. eapply wp_post; [apply (wp_breads I _ (λ _, True)); [done| |done|done]|].
      { apply calls_firstNode. }
      intros h2 [e|node] _ [HI2 _]; [done|]. case_bool_decide.
      * apply wp_bind. eapply wp_post; [apply wp_hold; [apply HI2|by left]|]. by intros.
      * split; [done|]. intros n. cbn [fmap list_fmap].
        destruct (decide (node = n)) as [->|Hne].
        -- by rewrite lookup_singleton_eq.
        -- by rewrite lookup_singleton_ne.
    + apply wp_bind. eapply wp_post; [apply (wp_breads I _ (λ res, ∀ groups node,
        res = inr (inr groups) → default [] (groups !! node) ⊆ pvc_name <$> (pvc :: pvcs))
        ); [done| | |done]|].
      { apply calls_place_all. }
      { intros tr res Hr groups node ->. apply place_all_spec in Hr as (nodes & _ & Hg & _).
        rewrite Hg, lookup_empty. apply claims_on_sub. }
      intros h2 [e|[problem|groups]] _ [HI2 Hsub]; [done| |].
      * apply wp_bind. eapply wp_post; [apply wp_hold; [apply HI2|by left]|]. by intros.
      * split; [done|]. intros node. by apply Hsub.
  - intros h2 [res|groups] _; [done|]. intros [[Hb2 Hl2] Hsub].
    destruct (slice (bst_Jobs (bk_Status b))) as [|js jss] eqn:Hjs.
    + apply wp_bind. eapply wp_post; [by apply wp_runPreHooks|].
      intros h3 [[problem reason]|] _ Hpost; [by apply wp_failBackup|].
      by eapply wp_reconcile_jobs.
    + eapply wp_reconcile_jobs; [|exact Hsub]. split_and!; [apply Hb2|apply Hb2|].
      by rewrite Hjs.
Qed.

Lemma wp_reconcile_backup b repo h :
  before_jobs b h → wp backup_call_ok (reconcile_backup r b repo) settled h.
Proof.
  intros Hb. unfold reconcile_backup. apply wp_bind.
  eapply wp_post; [by apply wp_ensureRepoSecret|].
  intros h1 [e|[problem|repoSecret]] _ Hb1; [done|apply wp_hold; [apply Hb1|by left]|].
  apply wp_bind. eapply wp_post; [apply (wp_breads (before_jobs b) _ (λ _, True));
    [apply before_jobs_read_stable|apply calls_selectPVCs|done|done]|].
  intros h2 [e|[problem|pvcs]] _ [Hb2 _]; [done|apply wp_hold; [apply Hb2|by left]|].
  apply wp_bind. eapply wp_post; [by apply wp_stage_api|].
  intros h3 [e|staging] _ Hb3; [done|].
  destruct (_ && _); [apply wp_hold; [apply Hb3|by right]|by apply wp_reconcile_place].
Qed.

(** What [Reconcile] returns: an error, a finite wait, or no requeue when the
    backup is gone, was already terminal, or has just become so. *)
Definition reconciled (h : list kevent) (res : reconcile_result) : Prop :=
  match res with
  | inl _ => True
  | inr x =>
      RequeueAfter x = requeueWait ∨ RequeueAfter x = requeueWaitSlow ∨
      (RequeueAfter x = 0 ∧
       (finished h ∨
        ∃ a, h = [ev (CGet KPBSBackup req) a] ∧
             match a with
             | inl e => IsNotFound e = true
             | inr b => terminal (bst_Phase (bk_Status b))
             end))
  end.

Lemma wp_Reconcile : wp backup_call_ok (Reconcile r req) reconciled [].
Proof.
  unfold Reconcile. apply wp_bind. split; [done|]. intros [e|b]; cbn [wp app].
  { destruct (IsNotFound e) eqn:He; cbn; [|done]. right. right. split; [done|]. right.
    by exists (inl e). }
  destruct (_ || _) eqn:Hterm.
  { cbn. right. right. split; [done|]. right. exists (inr b). split; [done|].
    apply orb_true_iff in Hterm as [Ht|Ht]; apply bool_decide_eq_true in Ht; [by left|by right]. }
  assert (Hact : ¬ terminal (bst_Phase (bk_Status b))).
  { apply orb_false_iff in Hterm as [Hn1%bool_decide_eq_false Hn2%bool_decide_eq_false].
    by intros []. }
  assert (Hset : ∀ h' res, settled h' res → reconciled h' res).
  { intros h' [e|x]; [done|]. cbn. naive_solver. }
  apply wp_bind. split; [done|]. intros [e|repo]; cbn [wp app].
  - destruct (IsNotFound e); cbn [negb]; [|done].
    eapply wp_post; [apply wp_hold; [|by left]|intros; by apply Hset].
    by split; [|repeat constructor].
  - destruct (IsStatusConditionTrue _ _) eqn:Hready; cbn [negb].
    + eapply wp_post; [apply wp_reconcile_backup|intros; by apply Hset].
      split; [by split; [|repeat constructor]|]. split; [|by split; [|repeat constructor]].
      exists repo. split; [|done]. apply elem_of_cons. right. by apply list_elem_of_singleton.
    + eapply wp_post; [apply wp_hold; [|by left]|intros; by apply Hset].
      by split; [|repeat constructor].
Qed.
End safety.
