(* ===== verification/Cluster.v ===== *)
(** * A concrete environment

    An executable API server with a clock and a PBS server, to run the reconcilers
    on concrete clusters ([Prog.exec]).  The theorems hold for every environment; this one
    shows that their hypotheses can be met, and gives the third-party functions
    concrete values. *)

From S2P Require Import Prelude GoLib GoNet GoUtf8 Sort Kube Api Doc Client Json JsonText RestorePlan Serialize.
From Stdlib Require Import Ascii.
From stdpp Require Import options.

Local Open Scope Z_scope.

(** JSON written with apostrophes *)
Fixpoint js (s : string) : string :=
  match s with
  | EmptyString => EmptyString
  | String c t => String (if Ascii.eqb c "'" then dquote else c) (js t)
  end.

(** A PBS server whose certificate is the bytes [cert]. *)
Definition cl_certificate : list string := ["cert"].
Definition cl_pbs (r : http_request) : error + (Z * (error + string)) :=
  if bool_decide (rq_Method r = "POST") then inr (400, inr "Namespace Already Exists")
  else if Contains (rq_URL r) "/tasks/" then inr (200, inr (js "{'data':{'status':'stopped','exitstatus':'OK'}}"))
  else inr (200, inr (js "{'data':[]}")).

Record cluster := mkCluster {
  cl_objects : ∀ k, list (obj k);
  cl_clock : Z;
  cl_exec : string → option error;    (* the outcome of a hook, by pod name *)
}.

Definition empty_cluster : cluster := mkCluster (λ _, []) 0 (λ _, None).

Definition set_objects {k} (l : list (obj k)) (s : cluster) : cluster :=
  {| cl_objects := λ k', match decide (k = k') with
                         | left e => match e in _ = k' return list (obj k') with eq_refl => l end
                         | right _ => cl_objects s k'
                         end;
     cl_clock := cl_clock s; cl_exec := cl_exec s |}.

Definition add_object (k : kind) (o : obj k) (s : cluster) : cluster :=
  set_objects (cl_objects s k ++ [o]) s.

Definition tick (s : cluster) : cluster :=
  {| cl_objects := cl_objects s; cl_clock := cl_clock s + Second; cl_exec := cl_exec s |}.

Definition has_key (k : kind) (key : NamespacedName) (o : obj k) : bool :=
  bool_decide (obj_key k o = key).

Definition replace_object (k : kind) (o : obj k) (s : cluster) : (apierror + obj k) * cluster :=
  if existsb (has_key k (obj_key k o)) (cl_objects s k) then
    (inr o, set_objects ((λ o', if has_key k (obj_key k o) o' then o else o') <$> cl_objects s k) s)
  else (inl (mkAPIError ReasonNotFound "not found"), s).

Definition matches (sel : list_selector) (labels : gmap string string) : bool :=
  match sel with
  | SelAll => true
  | SelMatchingLabels m => bool_decide (m ⊆ labels)
  | SelLabelSelector ls => bool_decide (ls_MatchLabels ls ⊆ labels)
  end.

Definition listed_in (k : kind) (ns : option string) (sel : list_selector) (o : obj k) : bool :=
  match ns with
  | Some n => bool_decide (om_Namespace (obj_meta k o) = n)
  | None => true
  end && matches sel (om_Labels (obj_meta k o)).

(** [meta.SetStatusCondition] at time [now] *)
Fixpoint set_condition (conds : list Condition) (c : Condition) (now : Z)
    : list Condition * bool :=
  match conds with
  | [] => ([mkCondition (c_Type c) (c_Status c) (c_ObservedGeneration c) now (c_Reason c)
              (c_Message c)], true)
  | c0 :: conds' =>
      if bool_decide (c_Type c0 = c_Type c) then
        let t := if bool_decide (c_Status c0 = c_Status c) then c_LastTransitionTime c0 else now in
        let c1 := mkCondition (c_Type c) (c_Status c) (c_ObservedGeneration c) t (c_Reason c)
                    (c_Message c) in
        (c1 :: conds', negb (bool_decide (c0 = c1)))
      else
        let '(cs, changed) := set_condition conds' c now in (c0 :: cs, changed)
  end.

Definition serve (c : call) (s : cluster) : resp c * cluster :=
  match c return resp c * cluster with
  | CGet k key =>
      (match List.find (has_key k key) (cl_objects s k) with
       | Some o => inr o
       | None => inl (mkAPIError ReasonNotFound "not found")
       end, s)
  | CList k ns sel =>
      (inr (List.filter (listed_in k ns sel) (cl_objects s k)), s)
  | CCreate k o =>
      if existsb (has_key k (obj_key k o)) (cl_objects s k)
      then (inl (mkAPIError ReasonAlreadyExists "exists"), s)
      else (inr o, add_object k o s)
  | CUpdate k o => replace_object k o s
  | CPatch k _ o => replace_object k o s
  | CStatusPatch k _ o => replace_object k o s
  | CSetStatusCondition conds c => (set_condition conds c (cl_clock s), s)
  | CEvent _ _ _ _ => (tt, s)
  | CNow => (cl_clock s, tick s)
  | CGetenv _ => ("", s)
  | CExec _ pod _ _ => (cl_exec s pod, s)
  | CMetricSet _ _ _ => (tt, s)
  | CMetricInc _ _ => (tt, s)
  | CServerResources => ([], None, s)
  | CListDynamic _ _ => (inr [], s)
  | CDial _ _ => (inr cl_certificate, s)
  | CHttp _ r => (cl_pbs r, s)
  | CSelect _ => (None, tick s)
  end.

(** ** Concrete third-party functions *)

#[export] Instance cluster_KubeLib : KubeLib := {
  IsStatusConditionTrue conds t :=
    existsb (λ c, bool_decide (c_Type c = t) && bool_decide (c_Status c = ConditionTrue)) conds;
  LabelSelectorAsSelector _ := None;
  SetControllerReference k owner _ := inr [mkOwnerReference "owner" (om_Name owner) (om_UID owner) true];
}.

(** [encoding/json] as [JsonText] models it *)
#[export] Instance cluster_JsonLib : JsonLib :=
  go_JsonLib (λ target _, ErrMsg ("json: not a " +:+ target)) (λ _, true).
(** A document is the line [kind/name]. *)
#[export] Instance cluster_YamlLib : YamlLib := {
  yaml_Documents s := (SplitByte s "010", None);
  yaml_Unmarshal s :=
    match SplitByte s "/" with
    | [k; name] => inr {["kind" := VStr k; "metadata" := VMap {["name" := VStr name]}]}
    | _ => inl (ErrMsg "not a document")
    end;
  yaml_Marshal o :=
    inr (get_string o "kind" +:+ "/" +:+ get_string (map_or_nil (get_map o "metadata")) "name");
}.
#[export] Instance cluster_GroupLib : GroupLib := {
  ParseGroupVersion s := inr ("", s);
  GroupKind_String g := g.2;
}.

(** ** A small cluster: one Ready repo, one claim bound to a local volume on
    [n1], mounted by one hooked pod *)

Definition meta0 (ns name : string) : ObjectMeta := newMeta name ns ∅.

Definition example_repo : PBSRepo :=
  mkRepo (meta0 "" "repo")
    (mkRepoSpec "pbs" 8007 "store" "" "" (mkSecretRef "creds" "ops") (mkSecretRef "" ""))
    (mkRepoStatus [mkCondition "Ready" ConditionTrue 0 0 "Reachable" ""] None).

Definition example_secret : Secret :=
  mkSecret (meta0 "ops" "creds") {["host" := "pbs"; "tokenSecret" := "s3cret"; "note" := "x"]}.

Definition example_pvc : PersistentVolumeClaim := mkPVC (meta0 "apps" "data") "pv-data".
Definition example_pv : PersistentVolume :=
  mkPV (meta0 "" "pv-data")
    (Some (mkVNA (Some (mkNS [mkNST [mkNSR "kubernetes.io/hostname" NodeSelectorOpIn ["n1"]] []])))).

Definition example_pod : Pod :=
  let meta := meta0 "apps" "db-0" in
  mkPod
    {| om_Name := om_Name meta; om_Namespace := om_Namespace meta; om_UID := "";
       om_Generation := 0; om_CreationTimestamp := 0; om_DeletionTimestamp := None;
       om_Labels := ∅; om_Annotations := {["pbs.backup/pre-hook-command" := js "['sync','now']"]};
       om_OwnerReferences := [] |}
    (mkPodSpec "" "Always" "" None [mkContainer "db" "" [] [] [] ""]
       [pvcVolume "data" "data" false] "n1") [].

Definition base_cluster : cluster :=
  add_object KPBSRepo example_repo
    (add_object KSecret example_secret
      (add_object KPVC example_pvc
        (add_object KPV example_pv
          (add_object KPod example_pod
            (add_object KNode (mkNode (meta0 "" "n1")) empty_cluster))))).
