(* ===== verification/BackupProps.v ===== *)
(** * Properties of the backup reconciler

    The corollaries of [BackupSafety.wp_Reconcile], with runs on the concrete
    environment of [Cluster], and the functional behaviour of the single
    steps. *)

From S2P Require Import Prelude GoLib Sort Kube Api Client Trace Json JobBuild RestorePlan.
From S2P Require Import Hooks Serialize ControllerLib SecretCopy BackupCtl BackupPlace.
From S2P Require Import BackupSafety Cluster.
From stdpp Require Import options.

Local Open Scope Z_scope.

(** ** Concrete runs *)

Definition example_backup (phase : BackupPhase) (jobs : option (list BackupJobStatus)) : PBSBackup :=
  mkBackup (meta0 "apps" "daily") (mkBackupSpec "repo" [] None "")
    (mkBackupStatus phase "" jobs None None 0 []).
Definition example_reconciler : PBSBackupReconciler := mkBackupReconciler "" false true true.
Definition example_req : NamespacedName := mkNN "apps" "daily".

Definition run_backup (b : PBSBackup) (s : cluster) :=
  exec serve (Reconcile example_reconciler example_req) (add_object KPBSBackup b s).

(** The first reconcile runs the hook and launches the Job of node n1. *)
Definition first_run := run_backup (example_backup BackupPhaseNew None) base_cluster.
Definition first_trace : list kevent := first_run.1.1.
Definition first_result : reconcile_result := first_run.1.2.

Definition job_names (tr : list kevent) : list string := (λ j, om_Name (job_Meta j)) <$> jobs_created tr.

Example first_run_launches :
  job_names first_trace = ["daily-n1"] ∧ first_result = requeue_after requeueWait.
Proof. by vm_compute. Qed.

Lemma first_run_runs :
  runs (Reconcile example_reconciler example_req) first_trace first_result.
Proof.
  exact (exec_runs serve (Reconcile example_reconciler example_req)
    (add_object KPBSBackup (example_backup BackupPhaseNew None) base_cluster)).
Qed.

(** The last reconcile finds the Job complete and its agent's result. *)
Definition done_job : Job :=
  mkJob (meta0 "apps" "daily-n1") (Some 0) (Some 3600)
    (mkPodTemplate ∅ (mkPodSpec "" "" "" None [] [] "")) [mkJobCondition JobComplete ConditionTrue].
Definition done_pod : Pod :=
  mkPod (newMeta "daily-n1-x" "apps" {["pbsbackup" := "daily-n1"]})
    (mkPodSpec "" "Never" "" None [] [] "n1") [mkCS (Some (js "{'snapshotRef':'host/daily-n1/T','bytes':15}")) None].
Definition last_run :=
  run_backup (example_backup BackupPhaseRunning (Some [mkBJS "n1" "daily-n1" "active"]))
    (add_object KJob done_job (add_object KPod done_pod base_cluster)).
Definition last_trace : list kevent := last_run.1.1.
Definition last_result : reconcile_result := last_run.1.2.
Lemma last_run_runs : runs (Reconcile example_reconciler example_req) last_trace last_result.
Proof. exact (exec_runs serve (Reconcile example_reconciler example_req) (add_object KPBSBackup _ _)). Qed.
Example last_run_finishes : last_result = no_requeue ∧ jobs_created last_trace = [].
Proof. by vm_compute. Qed.

(** The reconcile of a finished backup. *)
Definition final_run := run_backup (example_backup BackupPhaseCompleted None) base_cluster.

(** The answer of a Get of the backup *)
Definition got_backup (e : kevent) : option (apierror + PBSBackup) :=
  match e with
  | existT c a =>
      match c return resp c → option (apierror + PBSBackup) with
      | CGet k _ =>
          match k return (apierror + obj k) → option (apierror + PBSBackup) with
          | KPBSBackup => Some
          | _ => λ _, None
          end
      | _ => λ _, None
      end a
  end.

Section safety.
Context `{KubeLib} `{JsonLib} `{GroupLib} `{YamlLib} `{SortSlice}.
Context (r : PBSBackupReconciler) (req : NamespacedName).

Lemma reconcile_call_ok tr res i c (a : resp c) :
  runs (Reconcile r req) tr res → tr !! i = Some (ev c a) →
  backup_call_ok r req (take i tr) c.
Proof.
  intros Hr Hi. destruct (wp_runs _ _ _ _ _ (wp_Reconcile r req) Hr) as [Hc _].
  apply (Hc _ (ev c a) (drop (S i) tr)). by rewrite take_drop_middle.
Qed.

(** C1: a backup Job is created only for a backup that was read and is not
    terminal, whose repo was read and is Ready, when the API server has just
    answered that the Job does not exist and the status has no record of it (a
    Job that vanished mid-run is never recreated); and, unless Jobs were already
    recorded, only after the hook of every pod that mounts a claim of the Job
    has been executed and has succeeded. *)
Theorem backup_job_gate tr res i j a :
  runs (Reconcile r req) tr res → tr !! i = Some (ev (CCreate KJob j) a) →
  job_create_ok r req (take i tr) j.
Proof. apply reconcile_call_ok. Qed.

(** C2: the status of a backup only moves along its phase machine: every patch
    starts from the status that was read, never leaves a terminal phase, never
    takes a Running backup back, sets the start once (on entering Running) and
    the completion once (exactly with a terminal phase), changes the result only
    on Completed, leaves metadata and spec alone, and is the only patch of the
    reconcile. *)
Theorem backup_phase_machine tr res i before after a :
  runs (Reconcile r req) tr res → tr !! i = Some (ev (CStatusPatch KPBSBackup before after) a) →
  patch_ok req (take i tr) before after.
Proof. apply (reconcile_call_ok tr res i (CStatusPatch KPBSBackup before after)). Qed.

(** C9: a hook is executed only before the first Job of a backup: the repo is
    Ready, the status records no Job, this reconcile has created none, and every
    hook executed so far has succeeded. *)
Theorem backup_hooks_first tr res i ns pod container command a :
  runs (Reconcile r req) tr res → tr !! i = Some (ev (CExec ns pod container command) a) →
  exec_ok req (take i tr).
Proof. apply (reconcile_call_ok tr res i (CExec ns pod container command)). Qed.

(** Metrics and events follow the API server: the success gauges are set
    only after the server accepted the Completed status, the error counter
    bumped only after it accepted Failed, both for the namespace of the
    accepted object, and an event is emitted only when a condition for its
    reason changed content and no status patch was refused. *)
Theorem backup_observations tr res i c a :
  runs (Reconcile r req) tr res → tr !! i = Some (ev c a) →
  match c with
  | CMetricSet _ ns _ =>
      ∃ b, reached (take i tr) BackupPhaseCompleted b ∧ om_Namespace (bk_Meta b) = ns
  | CMetricInc _ ns =>
      ∃ b, reached (take i tr) BackupPhaseFailed b ∧ om_Namespace (bk_Meta b) = ns
  | CEvent _ _ reason _ => Forall patch_accepted (take i tr) ∧ transitioned (take i tr) reason
  | _ => True
  end.
Proof. intros Hr Hi. pose proof (reconcile_call_ok _ _ _ _ _ Hr Hi). by destruct c. Qed.

(** The only objects a backup reconcile writes are the repo secret copy, the
    staging ConfigMap, its Jobs and its own status. *)
Theorem backup_writes tr res i c a :
  runs (Reconcile r req) tr res → tr !! i = Some (ev c a) → is_write c = true →
  match c with
  | CCreate k _ => k = KSecret ∨ k = KConfigMap ∨ k = KJob
  | CUpdate k _ => k = KSecret ∨ k = KConfigMap
  | CStatusPatch k _ _ => k = KPBSBackup
  | _ => False
  end.
Proof.
  intros Hr Hi Hw. pose proof (reconcile_call_ok _ _ _ _ _ Hr Hi) as Hc.
  destruct c as [| |k o|k o|k o|k o| | | | | | | | | | | |]; try done; destruct k; naive_solver.
Qed.

(** A backup is never forgotten: a reconcile returns without asking to be
    called again only when the object is gone, was already terminal, or has just
    reached a terminal phase that the server accepted; otherwise it returns an
    error or one of the two waits. *)
Theorem backup_result tr res :
  runs (Reconcile r req) tr res → reconciled req tr res.
Proof. intros Hr. apply (wp_runs _ _ _ _ _ (wp_Reconcile r req) Hr). Qed.

(** Terminal phases are final: the reconcile of a Completed or Failed backup
    reads it and does nothing else. *)
Theorem backup_terminal b tr res :
  terminal (bst_Phase (bk_Status b)) →
  runs (Reconcile r req) (ev (CGet KPBSBackup req) (inr b) :: tr) res →
  tr = [] ∧ res = no_requeue.
Proof.
  intros Ht. unfold Reconcile. intros (a & t & Heq & Hr).
  apply (f_equal (λ l, (got_backup <$> head l, tail l))) in Heq. injection Heq as <- <-.
  cbn [mbind prog_bind] in Hr. rewrite (proj2 (orb_true_iff _ _)) in Hr.
  - by destruct Hr.
  - destruct Ht as [Ht|Ht]; rewrite Ht; [by left|by right].
Qed.
End safety.

Lemma backup_job_gate_witness :
  ∃ j a, first_trace !! 10%nat = Some (ev (CCreate KJob j) a) ∧
    job_create_ok example_reconciler example_req (take 10 first_trace) j.
Proof.
  at_index first_trace 10%nat ltac:(fun c a => lazymatch c with CCreate KJob ?j =>
    exists j, a; assert (Hi : first_trace !! 10%nat = Some (ev c a)) by (vm_cast_no_check (eq_refl (Some (ev (resp := resp) c a))));
    split; [exact Hi|exact (backup_job_gate _ _ _ _ _ _ _ first_run_runs Hi)] end).
Defined.

Lemma backup_phase_machine_witness :
  ∃ before after a, first_trace !! 13%nat = Some (ev (CStatusPatch KPBSBackup before after) a) ∧
    patch_ok example_req (take 13 first_trace) before after.
Proof.
  at_index first_trace 13%nat ltac:(fun c a => lazymatch c with CStatusPatch KPBSBackup ?b ?b' =>
    exists b, b', a; assert (Hi : first_trace !! 13%nat = Some (ev c a)) by (vm_cast_no_check (eq_refl (Some (ev (resp := resp) c a))));
    split; [exact Hi|exact (backup_phase_machine _ _ _ _ _ _ _ _ first_run_runs Hi)] end).
Defined.

Lemma backup_hooks_first_witness :
  first_trace !! 8%nat = Some (ev (CExec "apps" "db-0" "db" ["sync"; "now"]) None) ∧
  exec_ok example_req (take 8 first_trace).
Proof.
  assert (Hi : first_trace !! 8%nat = Some (ev (CExec "apps" "db-0" "db" ["sync"; "now"]) None))
    by by vm_compute.
  split; [exact Hi|exact (backup_hooks_first _ _ _ _ _ _ _ _ _ _ first_run_runs Hi)].
Defined.

Lemma backup_observations_witness :
  ∃ v, last_trace !! 14%nat = Some (ev (CMetricSet LastSuccess "apps" v) tt) ∧
  ∃ b, reached (take 14 last_trace) BackupPhaseCompleted b ∧ om_Namespace (bk_Meta b) = "apps".
Proof.
  at_index last_trace 14%nat ltac:(fun c a => lazymatch c with CMetricSet _ _ ?v =>
    exists v; assert (Hi : last_trace !! 14%nat = Some (ev c a)) by (vm_cast_no_check (eq_refl (Some (ev (resp := resp) c a))));
    split; [exact Hi|exact (backup_observations _ _ _ _ _ _ _ last_run_runs Hi)] end).
Defined.

Lemma backup_writes_witness :
  ∃ s a, first_trace !! 4%nat = Some (ev (CCreate KSecret s) a) ∧
    is_write (CCreate KSecret s) = true ∧
    (KSecret = KSecret ∨ KSecret = KConfigMap ∨ KSecret = KJob).
Proof.
  at_index first_trace 4%nat ltac:(fun c a => lazymatch c with CCreate KSecret ?s =>
    exists s, a; assert (Hi : first_trace !! 4%nat = Some (ev c a)) by (vm_cast_no_check (eq_refl (Some (ev (resp := resp) c a))));
    split; [exact Hi|split; [reflexivity|
      exact (backup_writes _ _ _ _ _ _ _ first_run_runs Hi eq_refl)]] end).
Defined.

Lemma backup_result_witness :
  first_result = requeue_after requeueWait ∧ last_result = no_requeue ∧
  reconciled example_req first_trace first_result ∧ reconciled example_req last_trace last_result.
Proof.
  split; [by vm_compute|]. split; [by vm_compute|].
  split; [exact (backup_result _ _ _ _ first_run_runs)|exact (backup_result _ _ _ _ last_run_runs)].
Defined.

Lemma backup_terminal_witness :
  let b := example_backup BackupPhaseCompleted None in
  terminal (bst_Phase (bk_Status b)) ∧
  runs (Reconcile example_reconciler example_req) [ev (CGet KPBSBackup example_req) (inr b)] no_requeue ∧
  ([] : list kevent) = [].
Proof.
  intros b. assert (Ht : terminal (bst_Phase (bk_Status b))) by by left.
  assert (Hr : runs (Reconcile example_reconciler example_req)
                 [ev (CGet KPBSBackup example_req) (inr b)] no_requeue).
  { exists (inr b), []. done. }
  split; [exact Ht|split; [exact Hr|exact (proj1 (backup_terminal _ _ b [] _ Ht Hr))]].
Defined.

(** ** The copy of the repo secret *)

Section secret.
Context `{KubeLib}.

(** C38: the agents get the credentials of the repo and nothing more: whatever
    [ensureRepoSecret] writes holds exactly the contract keys of the source
    secret and carries the managed label, in the namespace of the backup; it
    writes at most once; and when it succeeds without a write, the copy it found
    already agrees with the source on every contract key. *)
Theorem ensureRepoSecret_spec b repo tr res :
  runs (ensureRepoSecret b repo) tr res →
  secret_copied (rsp_SecretRef (repo_Spec repo)) (om_Namespace (bk_Meta b)) ("pbsrepo-" +:+ om_Name (repo_Meta repo)) tr res.
Proof.
  intros Hr. set (name := "pbsrepo-" +:+ om_Name (repo_Meta repo)).
  set (ns := om_Namespace (bk_Meta b)).
  cut (wp (λ _ _, True) (ensureRepoSecret b repo) (secret_copied (rsp_SecretRef (repo_Spec repo)) ns name) []).
  { intros Hwp. apply (wp_runs _ _ _ _ _ Hwp Hr). }
  clear Hr tr res. unfold ensureRepoSecret. fold name ns. apply wp_bind.
  apply (wp_post _ _ (λ h srcNS, secret_writes h = [] ∧
    source_key (rsp_SecretRef (repo_Spec repo)) (mkNN srcNS (ref_Name (rsp_SecretRef (repo_Spec repo)))))).
  { case_bool_decide; [|done]. by split. }
  intros h srcNS _ [Hh Hkey]. apply wp_bind. split; [done|]. intros [e|src]; cbn [wp].
  { destruct (IsNotFound e); by apply secret_copied_none. }
  set (key := mkNN srcNS _) in *. set (h1 := h ++ [_]).
  assert (Hh1 : secret_writes h1 = []) by (unfold h1; by rewrite secret_writes_app, Hh).
  assert (Hsrc : found_secret h1 key src) by apply elem_of_snoc.
  apply wp_bind. split; [done|]. intros [e|old]; cbn [wp].
  - destruct (IsNotFound e); [|by apply secret_copied_none].
    destruct (SetControllerReference _ _ _) as [e'|refs]; [by apply secret_copied_none|].
    apply wp_bind. split; [done|].
    intros [e'|s]; cbn [wp]; [destruct (IsAlreadyExists e')|].
    all: apply (secret_copied_write _ _ _ _ _ _ Hh1 Hkey Hsrc) with
      (s := mkSecret (set_OwnerReferences (newMeta name ns {[ManagedLabel := "true"]}) refs)
              (contract_data (sec_Data src))); try reflexivity; by left.
  - destruct (contractEqual _ _ && _) eqn:Heq.
    + apply andb_true_iff in Heq as [Heq _]. by eapply secret_copied_found.
    + unfold api. apply wp_bind, wp_bind. split; [done|]. intros [e|s]; cbn [wp].
      all: apply (secret_copied_write _ _ _ _ _ _ Hh1 Hkey Hsrc) with
        (s := mkSecret (set_Labels (sec_Meta old) (<[ManagedLabel := "true"]> (om_Labels (sec_Meta old))))
                (contract_data (sec_Data src))); try reflexivity;
        [apply lookup_insert_eq|right; by exists old].
Qed.
End secret.
