(* ===== verification/BackupProgress.v ===== *)
(** * Progress of a PBSBackup

    What a reconcile that ends without an error has done: it finished the backup,
    saw a Job of it that has not finished, or was held for a cause that it
    observed. *)

From S2P Require Import Prelude GoLib Sort Kube Api Client Trace Json JobBuild RestorePlan Placement.
From S2P Require Import Hooks Serialize ControllerLib BackupCtl BackupSafety Cluster BackupProps.
From stdpp Require Import options.

Local Open Scope Z_scope.

Section progress.
Context `{KubeLib} `{JsonLib} `{GroupLib} `{YamlLib} `{SortSlice}.
Context (r : PBSBackupReconciler) (req : NamespacedName).

(** The claim was selected as it was read. *)
Definition saw_claim (h : list kevent) (pvc : PersistentVolumeClaim) : Prop :=
  (∃ key, saw h (CGet KPVC key) (inr pvc)) ∨
  ∃ ns sel items, saw h (CList KPVC ns sel) (inr items) ∧ pvc ∈ items.

(** The Job, which was read or has just been created, has not finished. *)
Definition saw_active_job (h : list kevent) : Prop :=
  ∃ job, ((∃ key, saw h (CGet KJob key) (inr job)) ∨ ∃ j, saw h (CCreate KJob j) (inr job)) ∧
    jobCondition job JobFailed = false ∧ jobCondition job JobComplete = false.

(** The reason to hold a backup, with what was observed *)
Inductive backup_blocked (h : list kevent) : string → Prop :=
  | bb_repo_gone key e :
      saw h (CGet KPBSRepo key) (inl e) → IsNotFound e = true → backup_blocked h reasonRepoNotReady
  | bb_repo_unready key repo :
      saw h (CGet KPBSRepo key) (inr repo) →
      IsStatusConditionTrue (rst_Conditions (repo_Status repo)) condReady = false → backup_blocked h reasonRepoNotReady
  | bb_no_secret key e :
      saw h (CGet KSecret key) (inl e) → IsNotFound e = true → backup_blocked h reasonSecretCopy
  | bb_no_claim key e :
      saw h (CGet KPVC key) (inl e) → IsNotFound e = true → backup_blocked h reasonUnplaceable
  | bb_bad_selector b sel e :
      saw h (CGet KPBSBackup req) (inr b) → bs_Selector (bk_Spec b) = Some sel →
      LabelSelectorAsSelector sel = Some e → backup_blocked h reasonUnplaceable
  | bb_nothing ns sel :
      saw h (CList KPVC ns sel) (inr []) → backup_blocked h reasonNoPVCs
  | bb_unbound pvc :
      saw_claim h pvc → pvc_VolumeName pvc = "" → backup_blocked h reasonUnplaceable
  | bb_no_volume key e :
      saw h (CGet KPV key) (inl e) → IsNotFound e = true → backup_blocked h reasonUnplaceable
  | bb_no_node pvc key pv ns pods problem :
      saw_claim h pvc → saw h (CGet KPV key) (inr pv) → saw h (CList KPod ns SelAll) (inr pods) →
      ResolveNode pvc (Some pv) pods = inl problem → backup_blocked h reasonUnplaceable
  | bb_no_nodes nodes :
      saw h (CList KNode None SelAll) (inr nodes) →
      (∀ n, head (sort_Strings ((λ n, om_Name (node_Meta n)) <$> nodes)) = Some n → n = "") →
      backup_blocked h reasonUnplaceable
  | bb_job_deleted b key e :
      saw h (CGet KPBSBackup req) (inr b) → saw h (CGet KJob key) (inl e) → IsNotFound e = true →
      nn_Name key ∈ bjs_Job <$> slice (bst_Jobs (bk_Status b)) → backup_blocked h reasonJobDeleted.

Lemma saw_claim_app h t pvc : saw_claim h pvc → saw_claim (h ++ t) pvc.
Proof.
  intros [(key & Hs)|(ns & sel & items & Hs & Hin)]; [left|right].
  - exists key. by apply saw_app.
  - exists ns, sel, items. by split; [apply saw_app|].
Qed.
Lemma saw_active_job_app h t : saw_active_job h → saw_active_job (h ++ t).
Proof.
  intros (job & Hs & Hj). exists job. split; [|done].
  destruct Hs as [(key & Hs)|(j & Hs)]; [left; exists key|right; exists j]; by apply saw_app.
Qed.
Hint Resolve saw_claim_app : traces.
Lemma backup_blocked_app h t reason : backup_blocked h reason → backup_blocked (h ++ t) reason.
Proof.
  destruct 1; [eapply bb_repo_gone|eapply bb_repo_unready|eapply bb_no_secret|eapply bb_no_claim|
    eapply bb_bad_selector|eapply bb_nothing|eapply bb_unbound|eapply bb_no_volume|eapply bb_no_node|
    eapply bb_no_nodes|eapply bb_job_deleted]; eauto with traces.
Qed.

(** The condition says so. *)
Definition backup_held (h : list kevent) : Prop :=
  ∃ reason conds c cs, backup_blocked h reason ∧ saw h (CSetStatusCondition conds c) cs ∧
    c_Type c = condReady ∧ c_Status c = ConditionFalse ∧ c_Reason c = reason.

Definition backup_progressed (h : list kevent) (res : reconcile_result) : Prop :=
  match res with
  | inl _ => True
  | inr x => RequeueAfter x = 0 ∨ saw_active_job h ∨ backup_held h
  end.

(** ** Outcomes *)

Lemma wp_held_backup h b reason message wait :
  backup_blocked h reason → wp anything (hold b reason message wait) backup_progressed h.
Proof.
  intros Hb. unfold hold, recordOutcome. apply wp_bind, wp_bind. split; [done|]. intros cs.
  apply wp_anything. intros t s. apply wp_anything. intros t1 o. apply wp_anything.
  intros t2 [e|x]; [done|]. right. right. eexists reason, _, _, cs.
  split; [by do 4 apply backup_blocked_app|].
  split; [do 3 apply saw_app; apply saw_last|done].
Qed.
Lemma wp_running_backup h b placed :
  saw_active_job h → wp anything (runBackup b placed) backup_progressed h.
Proof. intros Hb. apply wp_anything. intros t [e|x]; [done|]. right. left. by apply saw_active_job_app. Qed.

Lemma wp_dequeued {A} (p : kprog (error + A)) (q : A → kprog unit) (q' : A → kprog unit) h :
  wp anything (x <-? p; q x;; q' x;; mret no_requeue) backup_progressed h.
Proof.
  apply wp_bind, wp_anything. intros t [e|x]; [done|]. apply wp_bind, wp_anything. intros t1 [].
  apply wp_bind, wp_anything. intros t2 []. by left.
Qed.
Lemma wp_failed_backup h b reason message placed :
  wp anything (failBackup r b reason message placed) backup_progressed h.
Proof. apply wp_dequeued. Qed.
Lemma wp_completed_backup h b placed : wp anything (completeBackup r b placed) backup_progressed h.
Proof.
  unfold completeBackup. apply wp_bind, wp_anything. intros t [e|[problem|[[sts total] ref]]].
  - done.
  - apply wp_failed_backup.
  - apply wp_dequeued.
Qed.

(** ** The steps before the Jobs *)

Definition at_backup (b : PBSBackup) (h : list kevent) : Prop := saw h (CGet KPBSBackup req) (inr b).
Lemma at_backup_app b h t : at_backup b h → at_backup b (h ++ t).
Proof. apply saw_app. Qed.
Hint Resolve at_backup_app : traces.

(** A step that answers a problem has seen what blocks the backup. *)
Definition step_ok {A} (reason : string) (K : list kevent → A → Prop) (h : list kevent)
    (res : error + (string + A)) : Prop :=
  match res with
  | inl _ => True
  | inr (inl _) => backup_blocked h reason
  | inr (inr x) => K h x
  end.

Lemma wp_copy_secret b repo h :
  wp anything (BackupCtl.ensureRepoSecret b repo) (step_ok reasonSecretCopy (λ _ _, True)) h.
Proof.
  unfold BackupCtl.ensureRepoSecret. apply wp_bind, wp_anything. intros t srcNS.
  apply wp_bind. split; [done|]. intros [e|src]; cbn [wp].
  - destruct (IsNotFound e) eqn:He; [|done]. eapply bb_no_secret; [apply saw_last|done].
  - apply wp_bind. split; [done|]. intros [e|existing]; cbn [wp].
    + destruct (IsNotFound e); [|done]. destruct (SetControllerReference _ _ _); [done|].
      apply wp_bind. split; [done|]. intros [e'|s]; cbn [wp]; [by destruct (negb _)|done].
    + destruct (_ && _); [done|]. unfold api. apply wp_bind, wp_bind. split; [done|]. by intros [].
Qed.

(** The claims were read, and when there are none a listing was empty. *)
Definition claims_seen (h : list kevent) (pvcs : list PersistentVolumeClaim) : Prop :=
  (∀ pvc, pvc ∈ pvcs → saw_claim h pvc) ∧
  (pvcs = [] → ∃ ns sel, saw h (CList KPVC ns sel) (inr [])).

Lemma claims_seen_app h t pvcs : claims_seen h pvcs → claims_seen (h ++ t) pvcs.
Proof.
  intros [Hc Hn]. split; [intros pvc Hin; by apply saw_claim_app, Hc|].
  intros (ns & sel & Hs)%Hn. exists ns, sel. by apply saw_app.
Qed.

Lemma wp_get_pvcs ns names out h :
  (∀ pvc, pvc ∈ out → saw_claim h pvc) → (names = [] → out ≠ []) →
  wp anything (get_pvcs ns names out) (step_ok reasonUnplaceable claims_seen) h.
Proof.
  revert out h. induction names as [|name names IH]; intros out h Hout Hne; cbn [get_pvcs].
  { split; [done|]. intros ->. by destruct (Hne eq_refl). }
  apply wp_bind. split; [done|]. intros [e|pvc]; cbn [wp].
  - destruct (IsNotFound e) eqn:He; [|done]. eapply bb_no_claim; [apply saw_last|done].
  - apply IH; [|by destruct out]. intros c [Hc| ->%list_elem_of_singleton]%elem_of_app.
    + by apply saw_claim_app, Hout.
    + left. eexists. apply saw_last.
Qed.

Lemma wp_listed_pvcs ns sel h :
  wp anything (items <-? api (List_ KPVC ns sel); mret (inr (inr items)) :
    kprog (error + (string + list PersistentVolumeClaim))) (step_ok reasonUnplaceable claims_seen) h.
Proof.
  unfold api. apply wp_bind, wp_bind. split; [done|]. intros [e|items]; [done|]. split.
  - intros pvc Hin. right. exists ns, sel, items. split; [apply saw_last|done].
  - intros ->. exists ns, sel. apply saw_last.
Qed.

Lemma wp_selectPVCs b h :
  at_backup b h → wp anything (selectPVCs b) (step_ok reasonUnplaceable claims_seen) h.
Proof.
  intros Hb. unfold selectPVCs. destruct (bs_PVCs (bk_Spec b)).
  - destruct (bs_Selector (bk_Spec b)) as [sel|] eqn:Hs; [|apply wp_listed_pvcs].
    destruct (LabelSelectorAsSelector sel) as [e|] eqn:He; [|apply wp_listed_pvcs].
    by eapply bb_bad_selector.
  - apply wp_get_pvcs; [|done]. by intros pvc ?%not_elem_of_nil.
Qed.

Lemma wp_place_all pvcs ns pods groups h :
  (∀ pvc, pvc ∈ pvcs → saw_claim h pvc) → saw h (CList KPod ns SelAll) (inr pods) →
  wp anything (place_all pvcs pods groups) (step_ok reasonUnplaceable (λ _ _, True)) h.
Proof.
  revert groups h. induction pvcs as [|pvc pvcs IH]; intros groups h Hc Hp; [done|]. cbn [place_all].
  assert (Hpvc : saw_claim h pvc) by (apply Hc; by left).
  unfold placePVC. apply wp_bind. case_bool_decide as Hv; [by eapply bb_unbound|].
  apply wp_bind. split; [done|]. intros [e|pv]; cbn [wp].
  - destruct (IsNotFound e) eqn:He; [|done]. eapply bb_no_volume; [apply saw_last|done].
  - apply wp_ret. destruct (ResolveNode _ _ _) as [problem|node] eqn:Hr.
    + eapply bb_no_node; [by apply saw_claim_app|apply saw_last|by apply saw_app|exact Hr].
    + apply IH; [|by apply saw_app]. intros c Hin. apply saw_claim_app, Hc. by right.
Qed.

(** ** The Jobs *)

Definition saw_job (h : list kevent) (job : Job) : Prop :=
  (∃ key, saw h (CGet KJob key) (inr job)) ∨ ∃ j, saw h (CCreate KJob j) (inr job).
Lemma saw_job_app h t job : saw_job h job → saw_job (h ++ t) job.
Proof. intros [(key & Hs)|(j & Hs)]; [left; exists key|right; exists j]; by apply saw_app. Qed.

Lemma wp_ensure_job_progress b repoSecret staging node pvcs h :
  at_backup b h →
  wp anything (ensure_job r b repoSecret staging node pvcs)
    (λ h' res, match res with inl res => backup_progressed h' res | inr job => saw_job h' job end) h.
Proof.
  intros Hb. unfold ensure_job. apply wp_bind. split; [done|]. intros [e|job]; cbn [wp].
  2:{ left. eexists. apply saw_last. }
  destruct (IsNotFound e) eqn:He; cbn [negb]; [|done]. case_bool_decide as Hk.
  { apply wp_bind. eapply wp_post; [apply wp_held_backup|done].
    eapply bb_job_deleted; [by apply saw_app|apply saw_last|done|exact Hk]. }
  destruct (SetControllerReference _ _ _) as [err|refs]; [done|].
  apply wp_bind. split; [done|]. intros [e'|job]; cbn [wp].
  - destruct (IsAlreadyExists e'); cbn [negb]; [|done]. apply wp_bind. split; [done|].
    intros [e2|job]; [done|]. left. eexists. apply saw_last.
  - right. eexists. apply saw_last.
Qed.

Lemma wp_ensure_jobs_progress b repoSecret staging groups nodes placed h :
  at_backup b h → (∀ pj, pj ∈ placed → saw_job h (pj_job pj)) →
  wp anything (ensure_jobs r b repoSecret staging groups nodes placed)
    (λ h' res, match res with
               | inl res => backup_progressed h' res
               | inr placed => ∀ pj, pj ∈ placed → saw_job h' (pj_job pj)
               end) h.
Proof.
  revert placed h. induction nodes as [|node nodes IH]; intros placed h Hb Hp; [done|].
  cbn [ensure_jobs]. apply wp_bind. eapply wp_post; [by apply wp_ensure_job_progress|].
  intros h' [res|job] [t ->] Hj; [done|]. apply IH; [by apply saw_app|].
  intros pj [Hin| ->%list_elem_of_singleton]%elem_of_app; [by apply saw_job_app, Hp|done].
Qed.

Lemma wp_conclude_progress b placed h :
  (∀ pj, pj ∈ placed → saw_job h (pj_job pj)) →
  wp anything (conclude r b placed) backup_progressed h.
Proof.
  intros Hp. unfold conclude. destruct (failed_job placed) as [pj|] eqn:Hf; [apply wp_failed_backup|].
  destruct (all_complete placed) eqn:Ha; cbn [negb]; [apply wp_completed_backup|]. apply wp_running_backup.
  unfold all_complete in Ha. apply not_true_iff_false in Ha. rewrite forallb_forall in Ha.
  destruct (decide (Exists (λ pj, jobCondition (pj_job pj) JobFailed = false ∧
    jobCondition (pj_job pj) JobComplete = false) placed)) as [Hx|Hx].
  - apply Exists_exists in Hx as (pj & Hin & Hj). exists (pj_job pj). split; [by apply Hp|done].
  - destruct Ha. intros pj Hin%list_elem_of_In. apply not_Exists_Forall in Hx; [|intros ?; apply _].
    rewrite Forall_forall in Hx. specialize (Hx pj Hin). apply orb_true_iff.
    destruct (jobCondition (pj_job pj) JobFailed) eqn:Hjf; [by left|].
    destruct (jobCondition (pj_job pj) JobComplete) eqn:Hjc; [by right|by exfalso; apply Hx].
Qed.

(** ** Reconcile *)

Lemma wp_jobs_progress b repoSecret staging groups h :
  at_backup b h → wp anything (reconcile_jobs r b repoSecret staging groups) backup_progressed h.
Proof.
  intros Hb. unfold reconcile_jobs. apply wp_bind. eapply wp_post; [apply wp_ensure_jobs_progress; [done|]|].
  - by intros pj ?%not_elem_of_nil.
  - intros h' [res|placed] _ Hp; [exact Hp|by apply wp_conclude_progress].
Qed.

Lemma wp_place_progress b repoSecret staging pvcs h :
  at_backup b h → (∀ pvc, pvc ∈ pvcs → saw_claim h pvc) →
  wp anything (reconcile_place r b repoSecret staging pvcs) backup_progressed h.
Proof.
  intros Hb Hc. unfold reconcile_place, api. apply wp_bind, wp_bind. split; [done|].
  intros [e|pods]; [done|]. apply wp_ret. set (h1 := h ++ [_]). apply wp_bind.
  assert (Hb1 : at_backup b h1) by by apply saw_app.
  eapply (wp_post _ _ (λ h' res, at_backup b h' ∧ match res with inl res => backup_progressed h' res | _ => True end)).
  { destruct pvcs as [|pvc pvcs].
    - unfold firstNode, api. do 3 apply wp_bind. split; [done|]. intros [e|nodes]; [by split; [apply saw_app|]|].
      do 3 apply wp_ret. set (h2 := h1 ++ [_]). assert (Hb2 : at_backup b h2) by by apply saw_app.
      case_bool_decide as Hn; [|done]. apply wp_bind. eapply wp_post; [apply wp_held_backup|].
      + eapply bb_no_nodes; [apply saw_last|]. intros n Hh. destruct (sort_Strings _); [done|]. by injection Hh as <-.
      + intros h3 res [t ->] Hr. split; [by apply saw_app|done].
    - apply wp_bind. eapply wp_post; [eapply wp_place_all; [|apply saw_last]|].
      + intros c Hin. by apply saw_claim_app, Hc.
      + intros h2 [e|[problem|groups]] [t ->] Hp; [by split; [apply saw_app|]| |by split; [apply saw_app|]].
        apply wp_bind. eapply wp_post; [by apply wp_held_backup|]. intros h3 res [t' ->] Hr.
        split; [by do 2 apply saw_app|done]. }
  intros h2 [res|groups] _ [Hb2 Hp]; [exact Hp|].
  destruct (slice _); [|by apply wp_jobs_progress].
  apply wp_bind, wp_anything. intros t [[problem reason]|]; [apply wp_failed_backup|].
  by apply wp_jobs_progress, saw_app.
Qed.

Lemma wp_backup_progress b repo h :
  at_backup b h → wp anything (reconcile_backup r b repo) backup_progressed h.
Proof.
  intros Hb. unfold reconcile_backup. apply wp_bind. eapply wp_post; [apply wp_copy_secret|].
  intros h1 [e|[problem|repoSecret]] [t ->] Hp; [done|by apply wp_held_backup|]. apply wp_bind.
  eapply wp_post; [by apply wp_selectPVCs, saw_app|].
  intros h2 [e|[problem|pvcs]] [t2 ->] Hs; [done|by apply wp_held_backup|]. apply wp_bind, wp_anything.
  intros t3 [e|staging]; [done|]. pose proof (claims_seen_app _ t3 _ Hs) as [Hc Hn]. clear Hs.
  destruct (bool_decide (pvcs = [])) eqn:Hnil; cbn [andb].
  - apply bool_decide_eq_true in Hnil. destruct (Hn Hnil) as (ns & sel & Hs).
    case_bool_decide; [apply wp_held_backup; by eapply bb_nothing|].
    apply wp_place_progress; [by do 3 apply saw_app|done].
  - apply wp_place_progress; [by do 3 apply saw_app|done].
Qed.

Lemma wp_Reconcile_backup_progress : wp anything (Reconcile r req) backup_progressed [].
Proof.
  unfold Reconcile. apply wp_bind. split; [done|]. intros [e|b]; cbn [wp].
  { destruct (IsNotFound e); [by left|done]. }
  set (h1 := [] ++ [_]). assert (Hb : at_backup b h1) by apply saw_last.
  destruct (_ || _); [by left|].
  apply wp_bind. split; [done|]. intros [e|repo]; cbn [wp].
  - destruct (IsNotFound e) eqn:He; cbn [negb]; [|done]. apply wp_held_backup.
    eapply bb_repo_gone; [apply saw_last|done].
  - destruct (IsStatusConditionTrue _ _) eqn:Hr; cbn [negb].
    + apply wp_backup_progress. by apply saw_app.
    + apply wp_held_backup. eapply bb_repo_unready; [apply saw_last|done].
Qed.

End progress.

