(* ===== verification/BackupOutcome.v ===== *)
(** * How a backup ends

    Step 7 of the backup reconciler: from the states of its Jobs to the phase
    and the result in the status. *)

From S2P Require Import Prelude GoLib Sort Kube Api Client Trace Json JobBuild RestorePlan.
From S2P Require Import Hooks Serialize ControllerLib SecretCopy BackupCtl BackupPlace.
From S2P Require Import BackupSafety Cluster BackupProps.
From stdpp Require Import options.

Local Open Scope Z_scope.

(** ** Totals *)

Definition total_bytes (start : Z) (sizes : list Z) : Z := foldl add_int64 start sizes.

Lemma total_bytes_exact sizes start :
  0 ≤ start → Forall (λ n, 0 ≤ n) sizes → start + foldr Z.add 0 sizes < 2 ^ 63 →
  total_bytes start sizes = start + foldr Z.add 0 sizes.
Proof.
  unfold total_bytes. revert start. induction sizes as [|n sizes IH]; intros start Hs Hall Hsum;
    cbn [foldl foldr] in *; [lia|].
  apply Forall_cons in Hall as [Hn Hall].
  assert (Hp : 0 ≤ foldr Z.add 0 sizes).
  { clear -Hall. induction Hall; cbn; lia. }
  rewrite add_int64_exact by lia. rewrite IH by (done || lia). lia.
Qed.

Section outcome.
Context `{KubeLib} `{JsonLib} `{GroupLib} `{YamlLib} `{SortSlice}.
Context (r : PBSBackupReconciler).

(** ** What the agents reported *)

Definition job_name (pj : placedJob) : string := om_Name (job_Meta (pj_job pj)).

(** The messages the containers of these pods ended with, in order: of each container the
    one it has now, or else the one from before its last restart, if there is any *)
Definition termination_messages (pods : list Pod) : list string :=
  cs ← pods ≫= pod_ContainerStatuses;
  take 1 (filter (λ msg, msg ≠ "") [default "" (cs_Terminated cs); default "" (cs_LastTerminated cs)]).

Lemma first_message_head css :
  first_message css = head (css ≫= λ cs, take 1 (filter (λ msg, msg ≠ "")
    [default "" (cs_Terminated cs); default "" (cs_LastTerminated cs)])).
Proof.
  induction css as [|cs css IH]; [done|]. cbn [first_message mbind list_bind]. rewrite IH.
  unfold terminated_message. rewrite !filter_cons, filter_nil. repeat case_bool_decide; repeat case_decide; done.
Qed.

Lemma pods_message_head pods : pods_message pods = head (termination_messages pods).
Proof.
  unfold termination_messages. induction pods as [|pod pods IH]; [done|].
  cbn [pods_message mbind list_bind]. rewrite bind_app, first_message_head, IH.
  by destruct (pod_ContainerStatuses pod ≫= _).
Qed.

(** The pods of the Job, as they were listed *)
Definition listed_pods (ns : string) (tr : list kevent) (pj : placedJob) (pods : list Pod) : Prop :=
  ev (CList KPod (Some ns) (SelMatchingLabels {["pbsbackup" := job_name pj]})) (inr pods) ∈ tr.

(** The agent of the Job reported this reference and size: the first termination
    message of its pods, as JSON. *)
Definition reported (ns : string) (tr : list kevent) (pj : placedJob) (res : string * Z) : Prop :=
  ∃ pods msg, listed_pods ns tr pj pods ∧
    head (termination_messages pods) = Some msg ∧ json_result msg = inr res ∧ res.1 ≠ "".

(** There is no report: no message, or one that is not JSON or without a reference. *)
Definition unreadable (ns : string) (tr : list kevent) (pj : placedJob) : Prop :=
  ∃ pods, listed_pods ns tr pj pods ∧
    ∀ msg res, head (termination_messages pods) = Some msg → json_result msg = inr res → res.1 = "".

Lemma unreadable_app ns t1 t2 pj :
  unreadable ns t1 pj ∨ unreadable ns t2 pj → unreadable ns (t1 ++ t2) pj.
Proof.
  intros [(pods & Hin & Hrest)|(pods & Hin & Hrest)]; exists pods;
    (split; [apply elem_of_app|exact Hrest]); [by left|by right].
Qed.

Lemma reported_app ns t1 t2 pj res :
  reported ns t1 pj res ∨ reported ns t2 pj res → reported ns (t1 ++ t2) pj res.
Proof.
  intros [(pods & msg & Hin & Hrest)|(pods & msg & Hin & Hrest)]; exists pods, msg;
    (split; [apply elem_of_app|exact Hrest]); [by left|by right].
Qed.

Lemma jobResult_spec ns pj tr res :
  runs (jobResult ns (pj_job pj)) tr (inr res) →
  match res with inl _ => unreadable ns tr pj | inr got => reported ns tr pj got end.
Proof.
  unfold jobResult, api. intros Hr.
  apply runs_bind in Hr as (t1 & pods & t2 & -> & Hl & Hr).
  apply runs_bind in Hl as (t3 & a & t4 & -> & (a' & t5 & -> & -> & ->) & Hl).
  destruct Hl as [-> ->]. destruct a' as [e|pods]; destruct Hr as [-> Hr]; [done|].
  injection Hr as ->. assert (Hin : listed_pods ns (([ev (CList KPod (Some ns)
    (SelMatchingLabels {["pbsbackup" := job_name pj]})) (inr pods)] ++ []) ++ []) pj pods)
    by (by apply list_elem_of_singleton).
  rewrite pods_message_head. destruct (head (termination_messages pods)) as [msg|] eqn:Hm.
  2:{ exists pods. split; [done|]. congruence. }
  destruct (json_result msg) as [e|[ref bytes]] eqn:Hj.
  { exists pods. split; [done|]. intros msg' res Hm'. congruence. }
  case_bool_decide as Hne.
  - exists pods. split; [done|]. intros msg' res Hm' Hj'. assert (res = (ref, bytes)) as -> by congruence. done.
  - exists pods, msg. by split_and!.
Qed.

Definition ok_status (pj : placedJob) (res : string * Z) : BackupJobStatus :=
  mkBJS (pj_node pj) (job_name pj) ("ok:" +:+ res.1).

Lemma collect_results_spec ns placed sts total ref tr res :
  runs (collect_results ns placed sts total ref) tr (inr res) →
  match res with
  | inl _ => Exists (unreadable ns tr) placed
  | inr (sts', total', ref') =>
      ∃ rs, Forall2 (reported ns tr) placed rs ∧ sts' = sts ++ zip_with ok_status placed rs ∧
        total' = total_bytes total rs.*2 ∧ ref' = default ref (last rs.*1)
  end.
Proof.
  revert sts total ref tr. induction placed as [|pj placed IH]; intros sts total ref tr;
    cbn [collect_results]; intros Hr.
  - destruct Hr as [-> [= ->]]. exists []. rewrite app_nil_r. by split_and!.
  - apply runs_bind in Hr as (t1 & x & t2 & -> & Hj & Hr).
    destruct x as [e|res1]; [by destruct Hr|]. apply jobResult_spec in Hj.
    destruct res1 as [problem|[ref1 bytes]].
    { destruct Hr as [-> [= ->]]. apply Exists_cons_hd, unreadable_app. by left. }
    apply IH in Hr. destruct res as [problem|[[sts' total'] ref']].
    { apply Exists_cons_tl. eapply Exists_impl; [exact Hr|]. intros ??. apply unreadable_app. by right. }
    destruct Hr as (rs & Hall & -> & -> & ->). exists ((ref1, bytes) :: rs). split_and!.
    + constructor; [apply reported_app; by left|].
      eapply Forall2_impl; [exact Hall|]. intros ???. apply reported_app. by right.
    + cbn. by rewrite <- app_assoc.
    + done.
    + cbn [fmap list_fmap fst]. rewrite last_cons. by destruct (last rs.*1).
Qed.

(** ** The status that is patched *)

(** Every status patch carries a status in [S]. *)
Definition patches_in (S : PBSBackupStatus → Prop) (c : call) : Prop :=
  match c with CStatusPatch KPBSBackup _ after => S (bk_Status after) | _ => True end.

Lemma calls_recordOutcome (S : PBSBackupStatus → Prop) b phase st reason message extra :
  (∀ s, calls_in is_read (extra s)) →
  (∀ cs tr s, runs (extra (set_Phase phase (set_Conditions cs (bk_Status b)))) tr s → S s) →
  calls_in (patches_in S) (recordOutcome b phase st reason message extra).
Proof.
  intros Hreads HS. unfold recordOutcome. apply calls_in_bind_runs; [by split|].
  intros t1 [cs tr] _. apply calls_in_bind_runs.
  { eapply calls_in_mono; [|apply Hreads]. by intros []. }
  intros t2 s Hs. case_bool_decide; [done|]. unfold api. repeat apply calls_in_bind; try done.
  - split; [|done]. by eapply HS.
  - by intros [].
Qed.

Definition quiet (c : call) : Prop :=
  match c with CStatusPatch _ _ _ => False | _ => True end.
Lemma quiet_patches S c : quiet c → patches_in S c.
Proof. by destruct c as [| | | | |[]| | | | | | | | | | | |]. Qed.

Lemma calls_emit S tr b t reason message : calls_in (patches_in S) (emit tr b t reason message).
Proof. by destruct tr. Qed.
Lemma calls_observeFailed S b : calls_in (patches_in S) (observeFailed r b).
Proof. unfold observeFailed. by destruct (br_Metrics r). Qed.
Lemma calls_observeCompleted S b : calls_in (patches_in S) (observeCompleted r b).
Proof.
  unfold observeCompleted. destruct (br_Metrics r), (bst_CompletedAt (bk_Status b)); try done.
  apply calls_in_bind; [done|]. intros _. by destruct (bst_StartedAt (bk_Status b)).
Qed.

Definition unfinished (placed : list placedJob) (phase : BackupPhase) (s : PBSBackupStatus) : Prop :=
  bst_Phase s = phase ∧ bst_Jobs s = Some (jobStatuses placed).

(** The status of a completed backup: every Job with the reference its agent
    reported, the total size, and the reference itself if there is one Job. *)
Definition completed_with (b : PBSBackup) (placed : list placedJob) (rs : list (string * Z))
    (s : PBSBackupStatus) : Prop :=
  bst_Phase s = BackupPhaseCompleted ∧
  bst_Jobs s = Some (zip_with ok_status placed rs) ∧
  bst_Bytes s = total_bytes 0 rs.*2 ∧
  bst_SnapshotRef s = match rs with
                      | [res] => res.1
                      | _ => bst_SnapshotRef (bk_Status b)
                      end.

Lemma calls_failBackup b reason message placed :
  calls_in (patches_in (unfinished placed BackupPhaseFailed)) (failBackup r b reason message placed).
Proof.
  unfold failBackup. apply calls_in_bind.
  - apply calls_recordOutcome; [intros; apply calls_stamp_CompletedAt|].
    intros cs tr s Hr. by apply runs_stamp_CompletedAt in Hr as (_ & _ & t & ->).
  - intros [e|bt]; [done|]. apply calls_in_bind; [apply calls_emit|]. intros _.
    apply calls_in_bind; [apply calls_observeFailed|done].
Qed.

Lemma calls_runBackup b placed :
  calls_in (patches_in (unfinished placed BackupPhaseRunning)) (runBackup b placed).
Proof.
  unfold runBackup. apply calls_in_bind.
  - apply calls_recordOutcome; [intros s; pose proof calls_stamp_StartedAt; calls_auto|].
    intros cs tr s Hr. apply runs_bind in Hr as (t1 & s1 & t2 & _ & Hr & [_ ->]).
    by apply runs_stamp_StartedAt in Hr as (_ & _ & t & ->).
  - intros [e|bt]; [done|]. apply calls_in_bind; [apply calls_emit|done].
Qed.

(** The status patches of a run, in order. *)
Definition patched_status (c : call) : option PBSBackupStatus :=
  match c with CStatusPatch KPBSBackup _ after => Some (bk_Status after) | _ => None end.
Definition patched (tr : list kevent) : list PBSBackupStatus := omap patched_status (calls tr).

Lemma patched_cons c (a : resp c) tr :
  patched (ev c a :: tr) =
  match patched_status c with Some s => s :: patched tr | None => patched tr end.
Proof. done. Qed.

Lemma patched_in S (p : kprog reconcile_result) tr res :
  calls_in (patches_in S) p → runs p tr res → Forall S (patched tr).
Proof.
  intros Hp Hr. pose proof (calls_in_runs _ _ _ _ Hp Hr) as Hall. clear Hr.
  induction Hall as [|[c a] tr' Hc _ IH]; [constructor|]. rewrite (patched_cons c a).
  destruct c as [| | | | |[]| | | | | | | | | | | |]; try exact IH. by constructor.
Qed.

Lemma patched_read {R} (p : kprog R) tr res : calls_in is_read p → runs p tr res → patched tr = [].
Proof.
  intros Hp Hr. pose proof (calls_in_runs _ _ _ _ Hp Hr) as Hall. clear Hr.
  induction Hall as [|[c a] tr' Hc _ IH]; [done|]. rewrite (patched_cons c a). by destruct c.
Qed.

Definition job_failed (pj : placedJob) : Prop := jobCondition (pj_job pj) JobFailed = true.
Definition job_complete (pj : placedJob) : Prop := jobCondition (pj_job pj) JobComplete = true.

Definition conclusion (b : PBSBackup) (placed : list placedJob) (tr : list kevent)
    (s : PBSBackupStatus) : Prop :=
  (Exists job_failed placed → unfinished placed BackupPhaseFailed s) ∧
  (¬ Exists job_failed placed → ¬ Forall job_complete placed →
   unfinished placed BackupPhaseRunning s) ∧
  (¬ Exists job_failed placed → Forall job_complete placed →
   (unfinished placed BackupPhaseFailed s ∧
    Exists (unreadable (om_Namespace (bk_Meta b)) tr) placed) ∨
   ∃ rs, Forall2 (reported (om_Namespace (bk_Meta b)) tr) placed rs ∧ completed_with b placed rs s).

Lemma failed_job_Some placed pj : failed_job placed = Some pj → Exists job_failed placed.
Proof.
  unfold failed_job. intros Hh. apply Exists_exists. exists pj.
  apply head_Some_elem_of in Hh. by apply list_elem_of_filter in Hh as [Hf Hin].
Qed.
Lemma failed_job_None placed : failed_job placed = None → ¬ Exists job_failed placed.
Proof.
  unfold failed_job. intros Hh (pj & Hin & Hf)%Exists_exists.
  destruct (filter _ placed) as [|pj' l] eqn:Hl; [|done].
  apply (not_elem_of_nil pj). rewrite <- Hl. by apply list_elem_of_filter.
Qed.
Lemma all_complete_spec placed :
  ¬ Exists job_failed placed → all_complete placed = true ↔ Forall job_complete placed.
Proof.
  intros Hf. unfold all_complete. rewrite forallb_forall, Forall_forall.
  rewrite Exists_exists in Hf. setoid_rewrite <- list_elem_of_In.
  setoid_rewrite orb_true_iff. unfold job_complete, job_failed in *. naive_solver.
Qed.

Lemma completeBackup_status b placed tr res :
  runs (completeBackup r b placed) tr res →
  Forall (λ s, (unfinished placed BackupPhaseFailed s ∧
                Exists (unreadable (om_Namespace (bk_Meta b)) tr) placed) ∨
    ∃ rs, Forall2 (reported (om_Namespace (bk_Meta b)) tr) placed rs ∧ completed_with b placed rs s)
    (patched tr).
Proof.
  unfold completeBackup. intros Hr. apply runs_bind in Hr as (t1 & x & t2 & -> & Hc & Hr).
  assert (Happ : patched (t1 ++ t2) = patched t2).
  { unfold patched. rewrite calls_app, omap_app. fold (patched t1).
    by rewrite (patched_read _ _ _ (calls_collect_results _ _ _ _ _) Hc). }
  rewrite Happ. destruct x as [e|[problem|[[sts total] ref]]].
  - by destruct Hr as [-> _].
  - apply collect_results_spec in Hc.
    eapply Forall_impl; [eapply patched_in; [apply calls_failBackup|exact Hr]|]. intros s Hs. left.
    split; [done|]. eapply Exists_impl; [exact Hc|]. intros ??. apply unreadable_app. by left.
  - apply collect_results_spec in Hc as (rs & Hall & -> & -> & ->).
    pose proof (Forall2_length _ _ _ Hall) as Hlen.
    eapply Forall_impl; [eapply (patched_in (completed_with b placed rs)); [|exact Hr]|].
    + apply calls_in_bind.
      * apply calls_recordOutcome; [intros; apply calls_stamp_CompletedAt|].
        intros cs tr s Hs. apply runs_stamp_CompletedAt in Hs as (_ & _ & t & ->).
        unfold completed_with. rewrite Hlen. destruct rs as [|res1 [|res2 rs]]; done.
      * intros [e|bt]; [done|]. apply calls_in_bind; [apply calls_emit|]. intros _.
        apply calls_in_bind; [apply calls_observeCompleted|done].
    + intros s Hs. right. exists rs. split; [|done]. eapply Forall2_impl; [exact Hall|].
      intros ???. apply reported_app. by left.
Qed.

(** What the Jobs decide *)
Lemma conclude_patched b placed tr res :
  runs (conclude r b placed) tr res → Forall (conclusion b placed tr) (patched tr).
Proof.
  unfold conclude, conclusion. destruct (failed_job placed) as [failed|] eqn:Hf; intros Hr.
  - apply failed_job_Some in Hf.
    eapply Forall_impl; [eapply patched_in; [apply calls_failBackup|exact Hr]|].
    intros s Hs. by split_and!.
  - apply failed_job_None in Hf. pose proof (all_complete_spec placed Hf) as Hall.
    destruct (all_complete placed); cbn [negb] in Hr.
    + pose proof (proj1 Hall eq_refl) as Hc.
      eapply Forall_impl; [by eapply completeBackup_status|].
      intros s Hs. by split_and!.
    + assert (Hc : ¬ Forall job_complete placed) by naive_solver.
      eapply Forall_impl; [eapply patched_in; [apply calls_runBackup|exact Hr]|].
      intros s Hs. by split_and!.
Qed.

(** C22: the Job states decide the backup: with a failed Job the status written is
    Failed; with a Job still active it is Running; with every Job complete it is
    Completed, listing for each Job the reference its agent reported, the total
    of the reported sizes (modulo int64) and, for a single Job, its reference as
    the snapshot of the backup, or Failed when the listed pods of some Job have no
    readable report.  Nothing else is ever written. *)
Theorem conclude_spec b placed tr res :
  runs (conclude r b placed) tr res → Forall (conclusion b placed tr) (patched tr).
Proof. apply conclude_patched. Qed.
End outcome.

Lemma conclude_spec_witness :
  let b := example_backup BackupPhaseRunning (Some [mkBJS "n1" "daily-n1" "active"]) in
  let run := exec serve (conclude example_reconciler b [mkPlaced "n1" done_job])
               (add_object KPBSBackup b (add_object KPod done_pod base_cluster)) in
  (bst_SnapshotRef <$> patched run.1.1) = ["host/daily-n1/T"] ∧
  Forall (conclusion b [mkPlaced "n1" done_job] run.1.1) (patched run.1.1).
Proof.
  intros b run. split; [vm_cast_no_check (eq_refl ["host/daily-n1/T"])|].
  apply (conclude_spec example_reconciler b [mkPlaced "n1" done_job] run.1.1 run.1.2).
  apply exec_runs.
Defined.

(** ** Witnesses of the steps before *)

Lemma place_all_partition_witness :
  let run := exec serve (place_all [example_pvc] [example_pod] ∅) base_cluster in
  let groups : gmap string (list string) := {["n1" := ["data"]]} in
  run.1.2 = inr (inr groups) ∧
  ∃ nodes, Forall2 (resolved [example_pod] run.1.1) [example_pvc] nodes ∧
    (∀ node, default [] (groups !! node) = claims_on node [example_pvc] nodes) ∧
    (∀ node, is_Some (groups !! node) ↔ node ∈ nodes) ∧
    (map_to_list groups).*1 ≫= (λ node, default [] (groups !! node)) ≡ₚ pvc_name <$> [example_pvc].
Proof.
  intros run groups. assert (Hr : run.1.2 = inr (inr groups)) by by vm_compute.
  split; [exact Hr|]. apply place_all_partition. rewrite <- Hr. apply exec_runs.
Defined.

Lemma ensureRepoSecret_spec_witness :
  let b := example_backup BackupPhaseNew None in
  let run := exec serve (ensureRepoSecret b example_repo) base_cluster in
  run.1.2 = inr (inr "pbsrepo-repo") ∧
  sec_Data <$> secret_writes run.1.1 = [{["host" := "pbs"; "tokenSecret" := "s3cret"]}] ∧
  secret_copied (rsp_SecretRef (repo_Spec example_repo)) "apps" "pbsrepo-repo" run.1.1 run.1.2.
Proof.
  intros b run. split; [vm_cast_no_check (eq_refl run.1.2)|].
  split; [vm_cast_no_check (eq_refl (sec_Data <$> secret_writes run.1.1))|].
  apply (ensureRepoSecret_spec b example_repo run.1.1 run.1.2). apply exec_runs.
Defined.
