(* ===== verification/BackupLife.v ===== *)
(** * The life of a PBSBackup

    Its status over any number of reconciles ([Life]): what holds of every stored
    status, and how it changes. *)

From S2P Require Import Prelude GoLib Sort Kube Api Client Trace Json JobBuild RestorePlan.
From S2P Require Import Hooks Serialize ControllerLib BackupCtl BackupSafety Cluster BackupProps BackupOutcome.
From S2P Require Import Life.
From stdpp Require Import options.

Local Open Scope Z_scope.

(** ** The server *)

Definition wire (s : PBSBackupStatus) : PBSBackupStatus :=
  mkBackupStatus (bst_Phase s) (bst_SnapshotRef s) (wire_list (bst_Jobs s))
    (wire_time <$> bst_StartedAt s) (wire_time <$> bst_CompletedAt s) (bst_Bytes s)
    (wire_condition <$> bst_Conditions s).

Definition merge_patch (before after stored : PBSBackupStatus) : PBSBackupStatus :=
  let b := wire before in
  let a := wire after in
  mkBackupStatus
    (patch_field (bst_Phase b) (bst_Phase a) (bst_Phase stored))
    (patch_field (bst_SnapshotRef b) (bst_SnapshotRef a) (bst_SnapshotRef stored))
    (patch_field (bst_Jobs b) (bst_Jobs a) (bst_Jobs stored))
    (patch_field (bst_StartedAt b) (bst_StartedAt a) (bst_StartedAt stored))
    (patch_field (bst_CompletedAt b) (bst_CompletedAt a) (bst_CompletedAt stored))
    (patch_field (bst_Bytes b) (bst_Bytes a) (bst_Bytes stored))
    (patch_field (bst_Conditions b) (bst_Conditions a) (bst_Conditions stored)).

Lemma wire_twice s : wire (wire s) = wire s.
Proof.
  unfold wire. cbn [bst_Phase bst_SnapshotRef bst_Jobs bst_StartedAt bst_CompletedAt bst_Bytes bst_Conditions].
  by rewrite !wire_times_twice, wire_list_twice, wire_conditions_twice.
Qed.

(** A patch against what is stored *)
Lemma merge_patch_fresh s after : wire s = s → merge_patch s after s = wire after.
Proof.
  intros Hs. unfold merge_patch. cbv zeta. rewrite Hs, !patch_field_fresh. by destruct after.
Qed.

(** An event as the backup [req] sees it *)
Definition backup_view (req : NamespacedName) (e : kevent) : view PBSBackupStatus :=
  match e with
  | existT c a =>
      match c return resp c → view PBSBackupStatus with
      | CGet KPBSBackup key => λ a,
          if bool_decide (key = req)
          then VGet (match a with inr b => Some (bk_Status b) | inl _ => None end) else VOther
      | CStatusPatch KPBSBackup before after => λ a,
          VPatch (bk_Status before) (bk_Status after)
            (match a with inr b => Some (bk_Status b) | inl _ => None end)
      | _ => λ _, VOther
      end a
  end.

Section life.
Context `{KubeLib} `{JsonLib} `{GroupLib} `{YamlLib} `{SortSlice}.
Context (r : PBSBackupReconciler) (req : NamespacedName).

Definition backup_step_life : PBSBackupStatus → PBSBackupStatus → Prop :=
  life (backup_view req) merge_patch (Reconcile r req).

(** A backup that was just created, and the statuses it can get *)
Definition new_status (p : BackupPhase) : PBSBackupStatus := mkBackupStatus p "" None None None 0 [].
Definition reachable (st : PBSBackupStatus) : Prop :=
  ∃ p, (p = BackupPhaseUnset ∨ p = BackupPhaseNew) ∧ rtc backup_step_life (new_status p) st.

(** ** One reconcile *)

Lemma no_patch_view e : no_patch e → is_patch (backup_view req e) = false.
Proof.
  destruct e as [c a]. destruct c; try done; intros Hn; destruct k; try done. cbn.
  by case_bool_decide.
Qed.

Lemma view_patch e before after answer :
  backup_view req e = VPatch before after answer →
  ∃ b b' a, e = ev (CStatusPatch KPBSBackup b b') a ∧ before = bk_Status b ∧ after = bk_Status b'.
Proof.
  destruct e as [c a]. destruct c as [k key| | | | |k b b'| | | | | | | | | | | |]; try done;
    destruct k; try done; cbn.
  - by case_bool_decide.
  - intros [= <- <- _]. by exists b, b', a.
Qed.

Definition active_update (st after : PBSBackupStatus) : Prop :=
  legal_update st after ∧ ¬ terminal (bst_Phase st).

Lemma backup_patches_read : patches_read (backup_view req) (Reconcile r req) active_update.
Proof.
  intros tr res i e before after answer Hr Hi Hv.
  apply view_patch in Hv as (b & b' & a & -> & -> & ->).
  destruct (reconcile_call_ok _ _ _ _ _ _ _ Hr Hi) as ([Hh Ht] & Hn & _ & _ & Hl). split_and!; [|..|done].
  - eapply Forall_impl; [exact Hn|]. intros e. apply no_patch_view.
  - eexists. split; [exact Hh|]. cbn. by rewrite bool_decide_eq_true_2.
Qed.

(** ** All reconciles *)

Definition rank (p : BackupPhase) : nat :=
  match p with
  | BackupPhaseUnset | BackupPhaseNew => 0
  | BackupPhaseScheduled => 1
  | BackupPhaseRunning => 2
  | BackupPhaseCompleted | BackupPhaseFailed => 3
  end.

(** What holds of every stored status. *)
Record status_ok (st : PBSBackupStatus) : Prop := {
  ok_wire : wire st = st;
  ok_completed : terminal (bst_Phase st) ↔ is_Some (bst_CompletedAt st);
  ok_started : bst_Phase st = BackupPhaseRunning → is_Some (bst_StartedAt st);
  ok_result : bst_Phase st ≠ BackupPhaseCompleted → bst_SnapshotRef st = "" ∧ bst_Bytes st = 0;
}.

(** How a status changes over any number of reconciles. *)
Record evolves (st st' : PBSBackupStatus) : Prop := {
  ev_phase : (rank (bst_Phase st) ≤ rank (bst_Phase st'))%nat;
  ev_terminal : terminal (bst_Phase st) → st' = st;
  ev_started : ∀ t, bst_StartedAt st = Some t → bst_StartedAt st' = Some t;
  ev_completed : ∀ t, bst_CompletedAt st = Some t → bst_CompletedAt st' = Some t;
}.

Lemma evolves_refl st : evolves st st.
Proof. by split. Qed.
Lemma evolves_trans st1 st2 st3 : evolves st1 st2 → evolves st2 st3 → evolves st1 st3.
Proof.
  intros [P1 T1 S1 C1] [P2 T2 S2 C2]. split; [lia| |by eauto..].
  intros Ht. rewrite <- (T1 Ht). apply T2. by rewrite (T1 Ht).
Qed.

Lemma backup_step_rank p p' : backup_step p p' → (rank p ≤ rank p')%nat.
Proof.
  intros [q Ht Hn|q Ht|q Ht|q Ht]; destruct q; cbn; try lia; exfalso;
    first [by apply Hn|by apply Ht; left|by apply Ht; right].
Qed.

Lemma wire_started st : wire st = st → wire_time <$> bst_StartedAt st = bst_StartedAt st.
Proof. intros Hw. by rewrite <- Hw at 2. Qed.
Lemma wire_completed st : wire st = st → wire_time <$> bst_CompletedAt st = bst_CompletedAt st.
Proof. intros Hw. by rewrite <- Hw at 2. Qed.

Lemma legal_evolves st after :
  wire st = st → ¬ terminal (bst_Phase st) → legal_update st after → evolves st (wire after).
Proof.
  intros Hw Ht Hl. split; cbn.
  - by apply backup_step_rank, Hl.
  - done.
  - intros t Hs. rewrite (lu_started _ _ Hl t Hs), <- Hs. by apply wire_started.
  - intros t Hs. rewrite (lu_completed _ _ Hl t Hs), <- Hs. by apply wire_completed.
Qed.

Lemma legal_ok st after :
  status_ok st → ¬ terminal (bst_Phase st) → legal_update st after → status_ok (wire after).
Proof.
  intros [Hw Hc Hs Hr] Ht [L1 L2 L3 L4 L5 L6 L7]. split; cbn.
  - apply wire_twice.
  - rewrite fmap_is_Some. split; [apply L4|]. intros Hi. destruct (decide (terminal (bst_Phase after))) as [|Hn]; [done|].
    rewrite (L5 Hn) in Hi. by apply Hc in Hi.
  - intros Hp. rewrite fmap_is_Some. destruct (decide (bst_Phase st = BackupPhaseRunning)) as [He|He]; [|by apply L6].
    destruct (Hs He) as [t Hst]. rewrite (L2 t Hst). by eexists.
  - intros Hp. destruct (L7 Hp) as [-> ->]. apply Hr. intros He. apply Ht. by left.
Qed.

Lemma life_ok st st' : status_ok st → backup_step_life st st' → status_ok st' ∧ evolves st st'.
Proof.
  intros Hok Hs. destruct (life_cases _ _ _ _ _ _ backup_patches_read Hs) as [->|(after & [Hl Ht] & ->)].
  - split; [done|apply evolves_refl].
  - rewrite merge_patch_fresh by apply Hok.
    split; [by eapply legal_ok|by apply legal_evolves; [apply Hok|..]].
Qed.

Lemma rtc_life_ok st st' : rtc backup_step_life st st' → status_ok st → status_ok st' ∧ evolves st st'.
Proof. apply rtc_life; [apply evolves_refl|apply evolves_trans|apply life_ok]. Qed.

(** ** Reads that lag *)

(** What holds of every stored status and of any two of them, whatever the reads
    of the reconciles answered. *)
Definition timed (st : PBSBackupStatus) : Prop :=
  wire st = st ∧ (terminal (bst_Phase st) → is_Some (bst_CompletedAt st)) ∧
  (bst_Phase st = BackupPhaseRunning → is_Some (bst_StartedAt st)).
Definition keeps_times (later earlier : PBSBackupStatus) : Prop :=
  (is_Some (bst_StartedAt earlier) → is_Some (bst_StartedAt later)) ∧
  (is_Some (bst_CompletedAt earlier) → is_Some (bst_CompletedAt later)).

Lemma keeps_times_trans s1 s2 s3 : keeps_times s1 s2 → keeps_times s2 s3 → keeps_times s1 s3.
Proof. unfold keeps_times. naive_solver. Qed.

Lemma merge_patch_wire before after st : wire st = st → wire (merge_patch before after st) = merge_patch before after st.
Proof.
  intros Hw. pose proof (wire_twice before) as Hb. pose proof (wire_twice after) as Ha.
  unfold merge_patch. destruct (wire before) as [p1 r1 j1 s1 c1 n1 k1], (wire after) as [p2 r2 j2 s2 c2 n2 k2].
  destruct st as [p0 r0 j0 s0 c0 n0 k0]. unfold wire in Hw, Ha |- *. cbn in *.
  injection Hw as Hj Hs Hc Hk. injection Ha as Hj' Hs' Hc' Hk'.
  f_equal; unfold patch_field; case_decide; assumption.
Qed.

(** A patch over [st] of a status that was stored before it *)
Lemma stale_patch_ok before after st :
  timed before ∧ keeps_times st before → timed st → active_update before after →
  timed (merge_patch before after st) ∧ keeps_times (merge_patch before after st) st.
Proof.
  intros [(Hwb & _ & _) [Hks Hkc]] (Hw & Hc & Hs) [Hl _].
  assert (HS : ∀ t, bst_StartedAt (wire before) = Some t → bst_StartedAt (wire after) = Some t).
  { intros t. rewrite Hwb. intros Hb. cbn. rewrite (lu_started _ _ Hl t Hb), <- Hb. by apply wire_started. }
  assert (HC : ∀ t, bst_CompletedAt (wire before) = Some t → bst_CompletedAt (wire after) = Some t).
  { intros t. rewrite Hwb. intros Hb. cbn. rewrite (lu_completed _ _ Hl t Hb), <- Hb. by apply wire_completed. }
  split; [split; [by apply merge_patch_wire|]|by split; intros; apply patch_field_keeps].
  unfold merge_patch. cbn [bst_Phase bst_StartedAt bst_CompletedAt]. unfold patch_field at 1 3.
  destruct (decide (bst_Phase (wire before) = bst_Phase (wire after))) as [He|He].
  { split; intros Hp; apply patch_field_keeps; auto. }
  split; intros Hp; apply patch_field_sets; rewrite ?Hwb; try done; cbn; rewrite fmap_is_Some.
  - by apply (lu_completed_terminal _ _ Hl).
  - apply (lu_started_running _ _ Hl); [|done]. intros Hb. apply He. cbn in Hp |- *. congruence.
Qed.

Lemma cached_backup_ok seen seen' :
  history timed keeps_times seen →
  cached_life (backup_view req) merge_patch (Reconcile r req) seen seen' →
  history timed keeps_times seen'.
Proof.
  intros Hh Hs.
  destruct (cached_life_cases _ _ _ _ _ _ backup_patches_read Hs) as (st & old & st' & -> & -> & Hst).
  assert (Hrefl : ∀ s, keeps_times s s) by by split.
  destruct (history_seen _ _ _ _ st Hrefl Hh) as [Hok _]; [by left|].
  destruct Hst as [->|(before & after & Hin & Hl & ->)];
    (apply history_cons; [apply keeps_times_trans|done|..]); try done;
    eapply (stale_patch_ok before after st); eauto; eapply history_seen; eauto.
Qed.

(** C5: the life of a PBSBackup over any number of reconciles, interrupted ones and
    ones whose patch failed or seemed to included.  As long as every reconcile reads
    the backup as it is stored: every stored status has a completion time exactly when
    its phase is terminal, a start time while it runs, and a result only when it
    completed; from any of them on, the phase never goes back, a terminal status never
    changes again, and the start and the completion time are kept once set.  When a
    reconcile may also be answered any status the backup had before (a cache that
    lags), the phase can go back, but it still holds that every stored status that is
    terminal has a completion time and every one that runs a start time, and that
    neither is ever erased. *)
Theorem backup_life :
  (∀ st st', reachable st → rtc backup_step_life st st' → status_ok st' ∧ evolves st st') ∧
  (∀ p seen, p = BackupPhaseUnset ∨ p = BackupPhaseNew →
     rtc (cached_life (backup_view req) merge_patch (Reconcile r req)) [new_status p] seen →
     history timed keeps_times seen).
Proof.
  split.
  - intros st st' (p & Hp & Hr) Hr'. apply (rtc_life_ok st st' Hr').
    apply (rtc_life_ok _ _ Hr). split; cbn; [done| |by destruct Hp as [-> | ->]|done].
    split; [by intros [->| ->]; destruct Hp|by intros []].
  - intros p seen Hp Hr. eapply rtc_cached; [apply cached_backup_ok|exact Hr|].
    split; [|by repeat constructor]. constructor; [|done].
    split_and!; cbn; [done|by intros [->| ->]; destruct Hp|by intros ->; destruct Hp].
Qed.
End life.

(** ** Runs *)

Definition running_status : PBSBackupStatus :=
  Eval vm_compute in default (new_status BackupPhaseNew) (head (patched first_trace)).

Lemma first_life : backup_step_life example_reconciler example_req (new_status BackupPhaseNew) running_status.
Proof.
  apply (life_reconcile _ _ _ _ first_trace [] first_result).
  - rewrite app_nil_r. apply first_run_runs.
  - vm_compute. by repeat split.
Qed.

(** A reconcile whose cache still has the backup as new while the stored one is
    running: what it patches is merged into the latter. *)
Definition lagging (c : call) (s : cluster) : resp c * cluster :=
  match c with
  | CStatusPatch k before after =>
      match k return obj k → obj k → (apierror + obj k) * cluster with
      | KPBSBackup => λ before after,
          (inr (mkBackup (bk_Meta after) (bk_Spec after)
             (merge_patch (bk_Status before) (bk_Status after) running_status)), s)
      | k => λ before after, serve (CStatusPatch k before after) s
      end before after
  | c => serve c s
  end.

(** The fresh reads are needed: it finds the repo not Ready and moves the running
    backup back. *)
Definition stale_run :=
  exec lagging (Reconcile example_reconciler example_req)
    (add_object KPBSBackup (example_backup BackupPhaseNew None)
       (add_object KNode (mkNode (meta0 "" "n1")) empty_cluster)).
Definition gone_back : PBSBackupStatus := Eval vm_compute in
  default running_status
    ((λ after, merge_patch (new_status BackupPhaseNew) after running_status) <$> head (patched stale_run.1.1)).
Example stale_read_goes_back :
  bst_Phase running_status = BackupPhaseRunning ∧ bst_Phase gone_back = BackupPhaseScheduled.
Proof. by vm_compute. Qed.

Lemma stale_life :
  rtc (cached_life (backup_view example_req) merge_patch (Reconcile example_reconciler example_req))
    [new_status BackupPhaseNew] [gone_back; running_status; new_status BackupPhaseNew].
Proof.
  eapply rtc_l; [|apply rtc_once].
  - apply (cached_reconcile _ _ _ _ _ first_trace [] first_result).
    + rewrite app_nil_r. apply first_run_runs.
    + vm_compute. split; [by left|]. by repeat split.
  - apply (cached_reconcile _ _ _ _ _ stale_run.1.1 [] stale_run.1.2).
    + rewrite app_nil_r. apply (exec_runs lagging (Reconcile example_reconciler example_req)).
    + vm_compute. split; [by right; left|]. by repeat split.
Qed.

Lemma backup_life_witness :
  (bst_Phase running_status = BackupPhaseRunning ∧
   status_ok running_status ∧ evolves (new_status BackupPhaseNew) running_status) ∧
  history timed keeps_times [gone_back; running_status; new_status BackupPhaseNew].
Proof.
  destruct (backup_life example_reconciler example_req) as [Hfresh Hcached]. split.
  - split; [reflexivity|]. apply Hfresh.
    + exists BackupPhaseNew. split; [by right|apply rtc_refl].
    + apply rtc_once. exact first_life.
  - apply (Hcached BackupPhaseNew); [by right|exact stale_life].
Defined.

(** Hooks run once per reconcile that starts no Job: while the API server refuses
    the Jobs of a backup, every reconcile executes them again. *)
Definition refuse_jobs (c : call) (s : cluster) : resp c * cluster :=
  match c with
  | CCreate k o =>
      if bool_decide (k = KJob) then (inl (mkAPIError ReasonForbidden "exceeded quota"), s)
      else serve (CCreate k o) s
  | c => serve c s
  end.
Definition refused_run :=
  exec refuse_jobs (Reconcile example_reconciler example_req)
    (add_object KPBSBackup (example_backup BackupPhaseNew None) base_cluster).
Definition executed_in (tr : list kevent) : list string :=
  omap (λ c, match c with CExec _ pod _ _ => Some pod | _ => None end) (calls tr).
Example hooks_run_again :
  executed_in refused_run.1.1 = ["db-0"] ∧ patched refused_run.1.1 = [] ∧
  executed_in (exec refuse_jobs (Reconcile example_reconciler example_req) refused_run.2).1.1 = ["db-0"].
Proof. by vm_compute. Qed.
