(* ===== verification/RestoreCtl.v ===== *)
(** * The restore reconciler: internal/controller/pbsrestore_controller.go

    Every function of the file as a [kprog].  A pipeline step answers done, not
    done, a hold (the [restoreHold] of the source) or an error; [Reconcile]
    walks the steps in the order of the source. *)

From S2P Require Import Prelude GoLib Sort Kube Api Doc Client JobBuild RestorePlan Hooks.
From S2P Require Import ControllerLib.
From Stdlib Require Import Ascii.
From stdpp Require Import options.

Local Open Scope Z_scope.

Definition restoreSA : string := "pbs-restore".
Definition restoreRoleName : string := "pbs-operator-pbs-restore".
Definition restoreClusterRoleName : string := "pbs-operator-pbs-restore-cluster".
Definition reasonRestoreInvalid : string := "InvalidSpec".
Definition reasonStagingAbsent : string := "ApiManifestMissing".
Definition reasonTerminating : string := "TargetNamespaceTerminating".

(** ** Status updates on a copy *)

Definition set_rPhase (p : RestorePhase) (s : PBSRestoreStatus) : PBSRestoreStatus :=
  {| rest_Phase := p; rest_Conditions := rest_Conditions s; rest_StartedAt := rest_StartedAt s;
     rest_CompletedAt := rest_CompletedAt s; rest_Jobs := rest_Jobs s |}.
Definition set_rConditions (c : list Condition) (s : PBSRestoreStatus) : PBSRestoreStatus :=
  {| rest_Phase := rest_Phase s; rest_Conditions := c; rest_StartedAt := rest_StartedAt s;
     rest_CompletedAt := rest_CompletedAt s; rest_Jobs := rest_Jobs s |}.
Definition set_rStartedAt (t : Z) (s : PBSRestoreStatus) : PBSRestoreStatus :=
  {| rest_Phase := rest_Phase s; rest_Conditions := rest_Conditions s; rest_StartedAt := Some t;
     rest_CompletedAt := rest_CompletedAt s; rest_Jobs := rest_Jobs s |}.
Definition set_rCompletedAt (t : Z) (s : PBSRestoreStatus) : PBSRestoreStatus :=
  {| rest_Phase := rest_Phase s; rest_Conditions := rest_Conditions s;
     rest_StartedAt := rest_StartedAt s; rest_CompletedAt := Some t; rest_Jobs := rest_Jobs s |}.
Definition set_rJobs (js : option (list RestoreJobStatus)) (s : PBSRestoreStatus)
    : PBSRestoreStatus :=
  {| rest_Phase := rest_Phase s; rest_Conditions := rest_Conditions s;
     rest_StartedAt := rest_StartedAt s; rest_CompletedAt := rest_CompletedAt s; rest_Jobs := js |}.

Definition rstamp_StartedAt (s : PBSRestoreStatus) : kprog PBSRestoreStatus :=
  match rest_StartedAt s with
  | Some _ => mret s
  | None => now ← Now; mret (set_rStartedAt now s)
  end.
Definition rstamp_CompletedAt (s : PBSRestoreStatus) : kprog PBSRestoreStatus :=
  match rest_CompletedAt s with
  | Some _ => mret s
  | None => now ← Now; mret (set_rCompletedAt now s)
  end.

(** ** The spec and the records *)

(** [""] when the spec is valid *)
Definition validateSpec (rs : PBSRestore) : string :=
  let spec := rt_Spec rs in
  if bool_decide (rs_RepoRef spec = "") then "repoRef is required"
  else if bool_decide (rs_SnapshotRef spec = "") then "snapshotRef is required"
  else if bool_decide (rs_TargetNamespace spec = "") then "targetNamespace is required"
  else if negb (bool_decide (length (SplitByte (rs_SnapshotRef spec) "/") = 3%nat)) then
    "snapshotRef " +:+ rs_SnapshotRef spec +:+ " is malformed, want <type>/<id>/<ISO8601Z>"
  else "".

Definition recorded (rs : PBSRestore) : list RestoreJobStatus := slice (rest_Jobs (rt_Status rs)).

Definition knownJob (rs : PBSRestore) (name : string) : bool :=
  existsb (λ js, bool_decide (rjs_Job js = name)) (recorded rs).

Definition recordedJobState (rs : PBSRestore) (name : string) : string :=
  match List.find (λ js, bool_decide (rjs_Job js = name)) (recorded rs) with
  | Some js => rjs_State js
  | None => ""
  end.

Definition jobPhaseByName (rs : PBSRestore) (name : string) : string :=
  let base := TrimPrefix name (om_Name (rt_Meta rs) +:+ "-") in
  if HasPrefix base "vol-" then RestorePhase_string RestorePhaseRestoringVolumes
  else if bool_decide (base = "api-workload") then
    RestorePhase_string RestorePhaseApplyingWorkloads
  else RestorePhase_string RestorePhaseStagingAPI.

Definition holdPhase (current : RestorePhase) : RestorePhase :=
  if bool_decide (current = RestorePhaseNew) then RestorePhaseStagingAPI else current.

Definition rbacLabels (restore : string) : gmap string string :=
  <[ManagedLabel := "true"]> {["pbsrestore" := restore]}.

(** [out[i].Job < out[j].Job] *)
Definition rjs_less (x y : RestoreJobStatus) : bool := string_lt (rjs_Job x) (rjs_Job y).

(** The outcome of a pipeline step that is not done-or-not: [restoreHold] or any
    other error. *)
Inductive step_error :=
  | StepHold (reason msg : string)
  | StepError (e : error).

Section reconciler.
Context `{KubeLib} `{YamlLib} `{SortSlice}.
Context (AgentImage : string).

(** The merge of [liveJobs]: the live Jobs with their states, then the recorded
    entries of Jobs that are gone. *)
Definition merge_jobs (rs : PBSRestore) (items : list Job) : list RestoreJobStatus :=
  let live := (λ j, om_Name (job_Meta j)) <$> items in
  let out := (λ j, mkRJS (jobPhaseByName rs (om_Name (job_Meta j))) (om_Name (job_Meta j))
                     (jobState j)) <$> items in
  sort_Slice rjs_less (out ++ filter (λ js, rjs_Job js ∉ live) (recorded rs)).

Definition liveJobs (rs : PBSRestore) : kprog (option (list RestoreJobStatus)) :=
  list ← List_ KJob (Some (rs_TargetNamespace (rt_Spec rs)))
           (SelMatchingLabels {["pbsrestore" := om_Name (rt_Meta rs)]});
  mret (match list with
        | inl _ => rest_Jobs (rt_Status rs)
        | inr items => Some (merge_jobs rs items)
        end).

(** ** Outcomes *)

Definition recordRestore (rs : PBSRestore) (phase : RestorePhase) (status : ConditionStatus)
    (reason message : string) (extra : PBSRestoreStatus → kprog PBSRestoreStatus)
    : kprog (error + PBSRestore * bool) :=
  let before := rs in
  cs ← SetStatusCondition (rest_Conditions (rt_Status rs))
         (newCondition condReady status reason message (om_Generation (rt_Meta rs)));
  let st := set_rPhase phase (set_rConditions cs.1 (rt_Status rs)) in
  st ← extra st;
  let rs := set_rt_Status rs st in
  if bool_decide (rt_Status before = rt_Status rs) then mret (inr (rs, cs.2))
  else
    rs <-? api (StatusPatch KPBSRestore before rs);
    mret (inr (rs, cs.2)).

Definition emit (transitioned : bool) (rs : PBSRestore) (t : event_type) (reason message : string)
  : kprog unit :=
  if transitioned then Eventf (rt_Meta rs) t reason message else mret tt.

Definition holdRestore (rs : PBSRestore) (reason message : string) (wait : Z)
  : kprog reconcile_result :=
  rt <-? recordRestore rs (holdPhase (rest_Phase (rt_Status rs))) ConditionFalse reason message
           (λ s, mret s);
  emit rt.2 rt.1 EventTypeWarning reason message;;
  mret (requeue_after wait).

(** [s.Jobs = r.liveJobs(ctx, rs)], where [s] is the status of [rs] *)
Definition refresh_jobs (rs : PBSRestore) (s : PBSRestoreStatus) : kprog PBSRestoreStatus :=
  js ← liveJobs (set_rt_Status rs s);
  mret (set_rJobs js s).

Definition completeRestore (rs : PBSRestore) : kprog reconcile_result :=
  let message := "restore of " +:+ rs_SnapshotRef (rt_Spec rs) +:+ " into " +:+
                 rs_TargetNamespace (rt_Spec rs) +:+ " completed" in
  rt <-? recordRestore rs RestorePhaseCompleted ConditionTrue reasonCompleted message
           (λ s, s ← refresh_jobs rs s; rstamp_CompletedAt s);
  emit rt.2 rt.1 EventTypeNormal reasonCompleted message;;
  mret no_requeue.

Definition failRestore (rs : PBSRestore) (reason message : string) : kprog reconcile_result :=
  rt <-? recordRestore rs RestorePhaseFailed ConditionFalse reason message
           (λ s, s ← refresh_jobs rs s; rstamp_CompletedAt s);
  emit rt.2 rt.1 EventTypeWarning reason message;;
  mret no_requeue.

(** [requeueOrHold]; its Job argument is not used by the source. *)
Definition requeueOrHold (rs : PBSRestore) (phase : RestorePhase) (err : option step_error)
  : kprog reconcile_result :=
  match err with
  | Some (StepHold reason msg) =>
      if bool_decide (reason = reasonFailed) then failRestore rs reason msg
      else holdRestore rs reason msg requeueWait
  | Some (StepError e) => mret (inl e)
  | None =>
      _ <-? recordRestore rs phase ConditionFalse reasonRunning
              ("restore in phase " +:+ RestorePhase_string phase)
              (λ s, s ← rstamp_StartedAt s; refresh_jobs rs s);
      mret (requeue_after requeueWait)
  end.

(** ** The target namespace and what the Jobs need there *)

(** [Some problem] is a reason to hold. *)
Definition ensureTargetNamespace (rs : PBSRestore) : kprog (error + option string) :=
  let target := rs_TargetNamespace (rt_Spec rs) in
  got ← Get KNamespace (mkNN "" target);
  match got with
  | inr ns =>
      mret (inr (match om_DeletionTimestamp (namespace_Meta ns) with
                 | Some _ =>
                     Some ("target namespace " +:+ om_Name (namespace_Meta ns) +:+ " is terminating")
                 | None => None
                 end))
  | inl e =>
      if IsNotFound e then
        created ← Create KNamespace (mkNamespace (newMeta target "" ∅));
        mret (match created with
              | inl e => if negb (IsAlreadyExists e) then inl (ErrAPI e) else inr None
              | inr _ => inr None
              end)
      else mret (inl (ErrAPI e))
  end.

(** [inl] is the user-facing problem, [inr] the name of the copy; no owner
    reference. *)
Definition ensureRepoSecret (rs : PBSRestore) (repo : PBSRepo)
  : kprog (error + (string + string)) :=
  let ref := rsp_SecretRef (repo_Spec repo) in
  let target := rs_TargetNamespace (rt_Spec rs) in
  srcNS ← (if bool_decide (ref_Namespace ref = "") then operatorNamespace
           else mret (ref_Namespace ref));
  src ← Get KSecret (mkNN srcNS (ref_Name ref));
  match src with
  | inl e =>
      if IsNotFound e then
        mret (inr (inl ("repo secret " +:+ srcNS +:+ "/" +:+ ref_Name ref +:+ " not found")))
      else mret (inl (ErrAPI e))
  | inr src =>
      let data := contract_data (sec_Data src) in
      let name := "pbsrepo-" +:+ om_Name (repo_Meta repo) in
      existing ← Get KSecret (mkNN target name);
      match existing with
      | inr existing =>
          let meta := sec_Meta existing in
          if contractEqual (sec_Data existing) data &&
             negb (bool_decide (str_at (om_Labels meta) ManagedLabel = ""))
          then mret (inr (inr name))
          else
            _ <-? api (Update KSecret
              (mkSecret (set_Labels meta (<[ManagedLabel := "true"]> (om_Labels meta))) data));
            mret (inr (inr name))
      | inl e =>
          if IsNotFound e then
            created ← Create KSecret
              (mkSecret (newMeta name target {[ManagedLabel := "true"]}) data);
            match created with
            | inl e =>
                if negb (IsAlreadyExists e) then mret (inl (ErrAPI e)) else mret (inr (inr name))
            | inr _ => mret (inr (inr name))
            end
          else mret (inl (ErrAPI e))
      end
  end.

(** The block [ensureJobRBAC] repeats for each of its three objects. *)
Definition create_if_missing (k : kind) (key : NamespacedName) (o : obj k) : kprog (error + unit) :=
  got ← Get k key;
  match got with
  | inr _ => mret (inr tt)
  | inl e =>
      if IsNotFound e then
        created ← Create k o;
        mret (match created with
              | inl e => if negb (IsAlreadyExists e) then inl (ErrAPI e) else inr tt
              | inr _ => inr tt
              end)
      else mret (inl (ErrAPI e))
  end.

Definition restore_subject (rs : PBSRestore) : Subject :=
  mkSubject "ServiceAccount" restoreSA (rs_TargetNamespace (rt_Spec rs)).
Definition restore_sa (rs : PBSRestore) : ServiceAccount :=
  mkSA (newMeta restoreSA (rs_TargetNamespace (rt_Spec rs)) (rbacLabels (om_Name (rt_Meta rs)))).
Definition restore_rb (rs : PBSRestore) : RoleBinding :=
  mkRB (newMeta restoreSA (rs_TargetNamespace (rt_Spec rs)) (rbacLabels (om_Name (rt_Meta rs))))
    [restore_subject rs] (mkRoleRef "rbac.authorization.k8s.io" "ClusterRole" restoreRoleName).
Definition restore_crb (rs : PBSRestore) : ClusterRoleBinding :=
  mkCRB (newMeta ("pbs-restore-" +:+ rs_TargetNamespace (rt_Spec rs)) ""
           (rbacLabels (om_Name (rt_Meta rs))))
    [restore_subject rs]
    (mkRoleRef "rbac.authorization.k8s.io" "ClusterRole" restoreClusterRoleName).

Definition ensureJobRBAC (rs : PBSRestore) : kprog (error + unit) :=
  let target := rs_TargetNamespace (rt_Spec rs) in
  _ <-? create_if_missing KServiceAccount (mkNN target restoreSA) (restore_sa rs);
  _ <-? create_if_missing KRoleBinding (mkNN target restoreSA) (restore_rb rs);
  create_if_missing KClusterRoleBinding (mkNN "" ("pbs-restore-" +:+ target)) (restore_crb rs).

(** ** Pipeline Jobs *)

(** [true] is done.  [build] is the builder's Job, whose name the controller
    sets. *)
Definition ensureJob (rs : PBSRestore) (name : string) (build : Job) : kprog (step_error + bool) :=
  got ← Get KJob (mkNN (rs_TargetNamespace (rt_Spec rs)) name);
  match got with
  | inr job =>
      if jobCondition job JobFailed then
        mret (inl (StepHold reasonFailed ("job " +:+ name +:+ " failed")))
      else mret (inr (jobCondition job JobComplete))
  | inl e =>
      if negb (IsNotFound e) then mret (inl (StepError (ErrAPI e)))
      else if knownJob rs name then
        if bool_decide (recordedJobState rs name = "complete") then mret (inr true)
        else mret (inl (StepHold reasonJobDeleted
               ("job " +:+ name +:+ " was deleted before the restore finished; not recreating it")))
      else
        let job := set_job_Meta build (set_Name (job_Meta build) name) in
        owned ← (if bool_decide (om_Namespace (job_Meta job) = om_Namespace (rt_Meta rs)) then
                   match SetControllerReference KPBSRestore (rt_Meta rs) (job_Meta job) with
                   | inl e => mret (inl (StepError e))
                   | inr refs =>
                       mret (inr (set_job_Meta job (set_OwnerReferences (job_Meta job) refs)))
                   end
                 else mret (inr job) : kprog (step_error + Job));
        match owned with
        | inl e => mret (inl e)
        | inr job =>
            created ← Create KJob job;
            match created with
            | inl e =>
                if negb (IsAlreadyExists e) then mret (inl (StepError (ErrAPI e)))
                else mret (inr false)
            | inr _ => mret (inr false)
            end
        end
  end.

(** The loop over the claims of [ensureVolumeJobs] that fills [groups]. *)
Fixpoint group_volumes (docs : list ParsedDoc) (fallback : string) (pvcs : list string)
    (groups : gmap string (list string)) : step_error + gmap string (list string) :=
  match pvcs with
  | [] => inr groups
  | pvc :: pvcs' =>
      let pin := NodeForPVC docs pvc in
      if bool_decide (pin = "") && bool_decide (fallback = "") then
        inl (StepHold reasonUnplaceable
               ("PVC " +:+ pvc +:+ " has no pinned node and the cluster has no nodes"))
      else
        let node := if bool_decide (pin = "") then fallback else pin in
        group_volumes docs fallback pvcs'
          (<[node := default [] (groups !! node) ++ [pvc]]> groups)
  end.

(** The loop over the nodes: stops at the first Job that is not done. *)
Fixpoint ensure_volumes (rs : PBSRestore) (spec : RestoreJobSpec)
    (groups : gmap string (list string)) (nodes : list string) : kprog (step_error + bool) :=
  match nodes with
  | [] => mret (inr true)
  | node :: nodes' =>
      done <-? ensureJob rs (jobName (om_Name (rt_Meta rs)) ("vol-" +:+ node))
                 (BuildRestoreVolumeJob spec node (sort_Strings (default [] (groups !! node))));
      if negb done then mret (inr false) else ensure_volumes rs spec groups nodes'
  end.

Definition ensureVolumeJobs (rs : PBSRestore) (spec : RestoreJobSpec) (docs : list ParsedDoc)
    (pvcs : list string) : kprog (step_error + bool) :=
  fallback ← firstNode;
  match fallback with
  | inl e => mret (inl (StepError e))
  | inr fallback =>
      match group_volumes docs fallback pvcs ∅ with
      | inl e => mret (inl e)
      | inr groups => ensure_volumes rs spec groups (sort_Strings (map_to_list groups).*1)
      end
  end.

(** Answers the ConfigMap the caller's pointer holds afterwards: the client
    stores the server's answer to an accepted patch in it. *)
Definition adoptConfigMap (rs : PBSRestore) (cm : ConfigMap) : kprog ConfigMap :=
  if negb (bool_decide (om_Namespace (cm_Meta cm) = om_Namespace (rt_Meta rs))) then mret cm
  else if existsb (λ ref, bool_decide (or_UID ref = om_UID (rt_Meta rs)))
            (om_OwnerReferences (cm_Meta cm)) then mret cm
  else
    match SetControllerReference KPBSRestore (rt_Meta rs) (cm_Meta cm) with
    | inl _ => mret cm
    | inr refs =>
        let owned := mkConfigMap (set_OwnerReferences (cm_Meta cm) refs) (cm_Data cm) in
        patched ← Patch KConfigMap cm owned;
        mret (match patched with inl _ => owned | inr answer => answer end)
    end.

(** ** Reconcile *)

Definition restore_spec (rs : PBSRestore) (repoSecret : string) : RestoreJobSpec :=
  {| rjsp_Name := ""; rjsp_Restore := om_Name (rt_Meta rs);
     rjsp_Namespace := rs_TargetNamespace (rt_Spec rs); rjsp_RepoSecret := repoSecret;
     rjsp_Ref := rs_SnapshotRef (rt_Spec rs); rjsp_Image := agentImage AgentImage;
     rjsp_ServiceAccount := restoreSA |}.

Definition api_configmap (rs : PBSRestore) : string := om_Name (rt_Meta rs) +:+ "-api".
Definition stage_name (rs : PBSRestore) (suffix : string) : string :=
  jobName (om_Name (rt_Meta rs)) suffix.

(** [if err != nil || !done { return r.requeueOrHold(..., phase, ..., err) }] *)
Definition await (rs : PBSRestore) (phase : RestorePhase) (step : kprog (step_error + bool))
    (next : kprog reconcile_result) : kprog reconcile_result :=
  res ← step;
  match res with
  | inl e => requeueOrHold rs phase (Some e)
  | inr false => requeueOrHold rs phase None
  | inr true => next
  end.

(** Step 5. *)
Definition reconcile_workload (rs : PBSRestore) (spec : RestoreJobSpec) : kprog reconcile_result :=
  await rs RestorePhaseApplyingWorkloads
    (ensureJob rs (stage_name rs "api-workload")
       (BuildApplyJob spec "workload" (api_configmap rs)
          (rs_DropKinds (rt_Spec rs)) (rs_KeepKinds (rt_Spec rs))))
    (completeRestore rs).

(** Step 4. *)
Definition reconcile_volumes (rs : PBSRestore) (spec : RestoreJobSpec) (cm : ConfigMap)
  : kprog reconcile_result :=
  match ParseAPIManifests (str_at (cm_Data cm) "api.yaml") (rjsp_Namespace spec) with
  | inl e => failRestore rs reasonRestoreInvalid ("api ConfigMap: " +:+ Error e)
  | inr docs =>
      let preDocs := b_pre (BucketDocs docs (rs_DropKinds (rt_Spec rs)) (rs_KeepKinds (rt_Spec rs))) in
      match PVCsFromDocs preDocs with
      | [] => reconcile_workload rs spec
      | pvcs =>
          await rs RestorePhaseRestoringVolumes (ensureVolumeJobs rs spec docs pvcs)
            (reconcile_workload rs spec)
      end
  end.

(** Steps 1 to 3. *)
Definition reconcile_stages (rs : PBSRestore) (spec : RestoreJobSpec) : kprog reconcile_result :=
  await rs RestorePhaseStagingAPI
    (ensureJob rs (stage_name rs "api-fetch") (BuildAPIFetchJob spec (api_configmap rs)))
    (cm ← Get KConfigMap (mkNN (rjsp_Namespace spec) (api_configmap rs));
     match cm with
     | inl e =>
         if IsNotFound e then
           holdRestore rs reasonStagingAbsent
             ("fetch Job completed but ConfigMap " +:+ api_configmap rs +:+ " is absent") requeueWait
         else mret (inl (ErrAPI e))
     | inr cm =>
         cm ← adoptConfigMap rs cm;
         await rs RestorePhaseStagingAPI
           (ensureJob rs (stage_name rs "api-pre")
              (BuildApplyJob spec "pre" (api_configmap rs)
                 (rs_DropKinds (rt_Spec rs)) (rs_KeepKinds (rt_Spec rs))))
           (reconcile_volumes rs spec cm)
     end).

(** From the repo gate to the pipeline. *)
Definition reconcile_restore (rs : PBSRestore) (repo : PBSRepo) : kprog reconcile_result :=
  problem <-? ensureTargetNamespace rs;
  match problem with
  | Some problem => holdRestore rs reasonTerminating problem requeueWait
  | None =>
      copied <-? ensureRepoSecret rs repo;
      match copied with
      | inl problem => holdRestore rs reasonSecretCopy problem requeueWait
      | inr repoSecret =>
          _ <-? ensureJobRBAC rs;
          reconcile_stages rs (restore_spec rs repoSecret)
      end
  end.

Definition Reconcile (req : NamespacedName) : kprog reconcile_result :=
  got ← Get KPBSRestore req;
  match got with
  | inl e => mret (if IsNotFound e then no_requeue else inl (ErrAPI e))
  | inr rs =>
      if bool_decide (rest_Phase (rt_Status rs) = RestorePhaseCompleted) ||
         bool_decide (rest_Phase (rt_Status rs) = RestorePhaseFailed)
      then mret no_requeue
      else if negb (bool_decide (validateSpec rs = "")) then
        failRestore rs reasonRestoreInvalid (validateSpec rs)
      else
        let ref := rs_RepoRef (rt_Spec rs) in
        repo ← Get KPBSRepo (mkNN "" ref);
        match repo with
        | inl e =>
            if negb (IsNotFound e) then mret (inl (ErrAPI e))
            else holdRestore rs reasonRepoNotReady ("PBSRepo " +:+ ref +:+ " not found") requeueWait
        | inr repo =>
            if negb (IsStatusConditionTrue (rst_Conditions (repo_Status repo)) condReady) then
              holdRestore rs reasonRepoNotReady
                ("PBSRepo " +:+ om_Name (repo_Meta repo) +:+ " is not Ready") requeueWait
            else reconcile_restore rs repo
        end
  end.
End reconciler.
