(* ===== verification/RestoreSafety.v ===== *)
(** * Safety of the restore reconciler

    What every run of [RestoreCtl.Reconcile] keeps, whatever the API server and
    the other services answer. *)

From S2P Require Import Prelude GoLib Sort Kube Api Doc Client Trace JobBuild RestorePlan.
From S2P Require Import Hooks ControllerLib SecretCopy RestoreCtl.
From stdpp Require Import options.

Local Open Scope Z_scope.

(** ** The memory of the pipeline *)

Lemma rjs_not_less x y : not_less rjs_less x y ↔ String.le (rjs_Job x) (rjs_Job y).
Proof. apply string_lt_false. Qed.

Lemma rjs_total : Total (not_less rjs_less).
Proof. intros x y. rewrite !rjs_not_less. apply (total String.le). Qed.
Lemma rjs_transitive : Transitive (not_less rjs_less).
Proof. intros x y z. rewrite !rjs_not_less. by etrans. Qed.

(** A recorded Job is never forgotten. *)
Definition remembers (js js' : option (list RestoreJobStatus)) : Prop :=
  ∀ x, x ∈ slice js → ∃ y, y ∈ slice js' ∧ rjs_Job y = rjs_Job x.

Section memory.
Context `{SL : SortSliceLaws}.

Lemma elem_of_merge_jobs rs items x :
  x ∈ merge_jobs rs items ↔
  (∃ j, j ∈ items ∧ x = mkRJS (jobPhaseByName rs (om_Name (job_Meta j)))
                          (om_Name (job_Meta j)) (jobState j)) ∨
  (x ∈ recorded rs ∧ ∀ j, j ∈ items → om_Name (job_Meta j) ≠ rjs_Job x).
Proof using SL.
  unfold merge_jobs. rewrite elem_of_sort_Slice, elem_of_app, list_elem_of_fmap, list_elem_of_filter.
  rewrite list_elem_of_fmap. naive_solver.
Qed.

Lemma merge_jobs_remembers rs items :
  remembers (rest_Jobs (rt_Status rs)) (Some (merge_jobs rs items)).
Proof using SL.
  intros x Hx. destruct (decide (rjs_Job x ∈ (λ j, om_Name (job_Meta j)) <$> items)) as [Hin|Hout].
  - apply list_elem_of_fmap in Hin as (j & Hj & Hin).
    exists (mkRJS (jobPhaseByName rs (om_Name (job_Meta j))) (om_Name (job_Meta j)) (jobState j)).
    split; [|done]. apply elem_of_merge_jobs. left. by exists j.
  - exists x. split; [|done]. apply elem_of_merge_jobs. right. split; [done|]. intros j Hj Heq.
    apply Hout, list_elem_of_fmap. by exists j.
Qed.

(** The recorded Jobs are the memory of the pipeline: the merge of the live
    Jobs and the records lists every live Job with its current state and every
    recorded Job that is no longer live with the state last recorded, nothing
    else, in the order of the names; so a record is never lost. *)
Theorem merge_jobs_spec rs items :
  let js := merge_jobs rs items in
  (∀ x, x ∈ js ↔
     (∃ j, j ∈ items ∧ x = mkRJS (jobPhaseByName rs (om_Name (job_Meta j)))
                             (om_Name (job_Meta j)) (jobState j)) ∨
     (x ∈ recorded rs ∧ ∀ j, j ∈ items → om_Name (job_Meta j) ≠ rjs_Job x)) ∧
  StronglySorted (λ x y, String.le (rjs_Job x) (rjs_Job y)) js ∧
  remembers (rest_Jobs (rt_Status rs)) (Some js).
Proof using SL.
  split; [apply elem_of_merge_jobs|]. split; [|apply merge_jobs_remembers].
  apply (StronglySorted_weaken (not_less rjs_less)).
  - intros x y. by rewrite rjs_not_less.
  - apply sort_Slice_sorted; [apply rjs_total|apply rjs_transitive].
Qed.
End memory.

Lemma merge_jobs_spec_witness :
  let rs := mkRestore (newMeta "r" "apps" ∅) (mkRestoreSpec "" "" "apps" [] [])
    (mkRestoreStatus RestorePhaseStagingAPI [] None None
       (Some [mkRJS "StagingAPI" "r-api-pre" "active"; mkRJS "StagingAPI" "r-api-fetch" "complete"])) in
  let live := mkJob (newMeta "r-api-pre" "apps" ∅) None None
    (mkPodTemplate ∅ (mkPodSpec "" "" "" None [] [] "")) [mkJobCondition JobComplete ConditionTrue] in
  merge_jobs rs [live] =
    [mkRJS "StagingAPI" "r-api-fetch" "complete"; mkRJS "StagingAPI" "r-api-pre" "complete"] ∧
  remembers (rest_Jobs (rt_Status rs)) (Some (merge_jobs rs [live])).
Proof. intros rs live. split; [by vm_compute|]. apply (merge_jobs_spec rs [live]). Defined.

(** ** Pipeline stages *)

Inductive stage := StFetch | StPre | StVolume (node : string) | StWorkload.

Definition stage_suffix (st : stage) : string :=
  match st with
  | StFetch => "api-fetch"
  | StPre => "api-pre"
  | StVolume node => "vol-" +:+ node
  | StWorkload => "api-workload"
  end.

Definition stage_key (rs : PBSRestore) (st : stage) : NamespacedName :=
  mkNN (rs_TargetNamespace (rt_Spec rs)) (stage_name rs (stage_suffix st)).

(** The phase of a restore while the Job of a stage has not finished *)
Definition stage_phase (st : stage) : RestorePhase :=
  match st with
  | StFetch | StPre => RestorePhaseStagingAPI
  | StVolume _ => RestorePhaseRestoringVolumes
  | StWorkload => RestorePhaseApplyingWorkloads
  end.

(** The builder's Job of a stage; [groups] is the volume plan. *)
Definition stage_build (rs : PBSRestore) (spec : RestoreJobSpec)
    (groups : gmap string (list string)) (st : stage) : Job :=
  match st with
  | StFetch => BuildAPIFetchJob spec (api_configmap rs)
  | StPre => BuildApplyJob spec "pre" (api_configmap rs)
               (rs_DropKinds (rt_Spec rs)) (rs_KeepKinds (rt_Spec rs))
  | StVolume node => BuildRestoreVolumeJob spec node (sort_Strings (default [] (groups !! node)))
  | StWorkload => BuildApplyJob spec "workload" (api_configmap rs)
                    (rs_DropKinds (rt_Spec rs)) (rs_KeepKinds (rt_Spec rs))
  end.

(** ** Legal status updates *)

Definition rterminal (p : RestorePhase) : Prop :=
  p = RestorePhaseCompleted ∨ p = RestorePhaseFailed.

Record legal_restore (s s' : PBSRestoreStatus) : Prop := {
  lr_active : ¬ rterminal (rest_Phase s);
  lr_started : ∀ t, rest_StartedAt s = Some t → rest_StartedAt s' = Some t;
  lr_completed : ∀ t, rest_CompletedAt s = Some t → rest_CompletedAt s' = Some t;
  lr_completed_terminal : rterminal (rest_Phase s') → is_Some (rest_CompletedAt s');
  lr_completed_active : ¬ rterminal (rest_Phase s') → rest_CompletedAt s' = rest_CompletedAt s;
  lr_memory : remembers (rest_Jobs s) (rest_Jobs s');
}.

Section safety.
Context `{KL : KubeLib} `{YL : YamlLib} `{SS : SortSlice} {SL : SortSliceLaws}.
Context (AgentImage : string) (req : NamespacedName).

(** The reconcile works on [rs], read first, not terminal and valid. *)
Definition working_on (h : list kevent) (rs : PBSRestore) : Prop :=
  head h = Some (ev (CGet KPBSRestore req) (inr rs)) ∧ ¬ rterminal (rest_Phase (rt_Status rs)).

Definition repo_ready (h : list kevent) (rs : PBSRestore) : Prop :=
  validateSpec rs = "" ∧
  ∃ repo, ev (CGet KPBSRepo (mkNN "" (rs_RepoRef (rt_Spec rs)))) (inr repo) ∈ h ∧
    IsStatusConditionTrue (rst_Conditions (repo_Status repo)) condReady = true.

(** The answer to a Get of a Job means that the Job has finished: it is Complete
    and not Failed, or gone after it was recorded complete. *)
Definition answer_done (rs : PBSRestore) (name : string) (a : apierror + Job) : Prop :=
  match a with
  | inr job => jobCondition job JobFailed = false ∧ jobCondition job JobComplete = true
  | inl e => IsNotFound e = true ∧ recordedJobState rs name = "complete"
  end.

Definition answered (h : list kevent) (key : NamespacedName) (a : apierror + Job) : Prop :=
  ev (CGet KJob key) a ∈ h.

Definition stage_done (h : list kevent) (rs : PBSRestore) (st : stage) : Prop :=
  ∃ a, answered h (stage_key rs st) a ∧ answer_done rs (stage_name rs (stage_suffix st)) a.

Definition read_configmap (h : list kevent) (rs : PBSRestore) (cm : ConfigMap) : Prop :=
  ev (CGet KConfigMap (mkNN (rs_TargetNamespace (rt_Spec rs)) (api_configmap rs))) (inr cm) ∈ h.

(** The ConfigMap as it was read, or as the API server answered its adoption. *)
Definition seen_configmap (h : list kevent) (rs : PBSRestore) (cm : ConfigMap) : Prop :=
  read_configmap h rs cm ∨
  ∃ before after, read_configmap h rs before ∧ ev (CPatch KConfigMap before after) (inr cm) ∈ h.

(** The claims the plan of [cm] fills, and their groups by node. *)
Definition plan_pvcs (rs : PBSRestore) (docs : list ParsedDoc) : list string :=
  PVCsFromDocs (b_pre (BucketDocs docs (rs_DropKinds (rt_Spec rs)) (rs_KeepKinds (rt_Spec rs)))).

Definition planned (h : list kevent) (rs : PBSRestore) (groups : gmap string (list string)) : Prop :=
  ∃ cm docs, seen_configmap h rs cm ∧
    ParseAPIManifests (str_at (cm_Data cm) "api.yaml") (rs_TargetNamespace (rt_Spec rs)) = inr docs ∧
    ∃ fallback, group_volumes docs fallback (plan_pvcs rs docs) ∅ = inr groups.

(** When the Job of a stage may be created. *)
Definition stage_ready (h : list kevent) (rs : PBSRestore) (groups : gmap string (list string))
    (st : stage) : Prop :=
  match st with
  | StFetch => True
  | StPre => stage_done h rs StFetch ∧ ∃ cm, read_configmap h rs cm
  | StVolume node =>
      stage_done h rs StFetch ∧ stage_done h rs StPre ∧ planned h rs groups ∧
      is_Some (groups !! node)
  | StWorkload =>
      stage_done h rs StFetch ∧ stage_done h rs StPre ∧ planned h rs groups ∧
      ∀ node, is_Some (groups !! node) → stage_done h rs (StVolume node)
  end.

(** The Job that [ensureJob] creates from a builder's Job. *)
Definition owned_job (rs : PBSRestore) (name : string) (build j : Job) : Prop :=
  let named := set_job_Meta build (set_Name (job_Meta build) name) in
  if decide (om_Namespace (job_Meta build) = om_Namespace (rt_Meta rs)) then
    ∃ refs, SetControllerReference KPBSRestore (rt_Meta rs) (job_Meta named) = inr refs ∧
            j = set_job_Meta named (set_OwnerReferences (job_Meta named) refs)
  else j = named.

Lemma owned_job_name rs name build j : owned_job rs name build j → om_Name (job_Meta j) = name.
Proof using Type. unfold owned_job. cbv zeta. case_decide; [by intros (refs & _ & ->)|by intros ->]. Qed.

Definition job_create_ok (h : list kevent) (j : Job) : Prop :=
  ∃ rs repoSecret groups st,
    owned_job rs (stage_name rs (stage_suffix st))
      (stage_build rs (restore_spec AgentImage rs repoSecret) groups st) j ∧
    working_on h rs ∧ repo_ready h rs ∧ stage_ready h rs groups st ∧
    (∃ e, answered h (stage_key rs st) (inl e) ∧ IsNotFound e = true) ∧
    knownJob rs (stage_name rs (stage_suffix st)) = false ∧
    jobs_created h = [].

Definition completion_ok (h : list kevent) (rs : PBSRestore) : Prop :=
  ∃ groups, stage_ready h rs groups StWorkload ∧ stage_done h rs StWorkload.

(** The Job of the stage was seen and has not finished, or was asked for. *)
Definition unfinished_stage (h : list kevent) (rs : PBSRestore) (st : stage) : Prop :=
  (∃ job, answered h (stage_key rs st) (inr job) ∧
     jobCondition job JobFailed = false ∧ jobCondition job JobComplete = false) ∨
  (∃ j a, ev (CCreate KJob j) a ∈ h ∧ om_Name (job_Meta j) = stage_name rs (stage_suffix st) ∧
     match a with inr _ => True | inl e => IsAlreadyExists e = true end).

(** The restore waits, in this phase, for the first stage that is not done. *)
Definition waiting (h : list kevent) (rs : PBSRestore) (phase : RestorePhase) : Prop :=
  ∃ groups st, stage_phase st = phase ∧ stage_ready h rs groups st ∧ unfinished_stage h rs st.

(** The phase that may be written: the one that was read, except that a new restore
    that is held becomes StagingAPI; a terminal one; or that of the stage it waits
    for.  So a phase in flight goes back only to a stage whose Job has not
    finished. *)
Definition phase_ok (h : list kevent) (rs : PBSRestore) (phase : RestorePhase) : Prop :=
  let current := rest_Phase (rt_Status rs) in
  phase = current ∨ (current = RestorePhaseNew ∧ phase = RestorePhaseStagingAPI) ∨
  rterminal phase ∨ waiting h rs phase.

Definition patch_ok (h : list kevent) (before after : PBSRestore) : Prop :=
  working_on h before ∧ Forall no_patch h ∧
  rt_Meta after = rt_Meta before ∧ rt_Spec after = rt_Spec before ∧
  legal_restore (rt_Status before) (rt_Status after) ∧
  phase_ok h before (rest_Phase (rt_Status after)) ∧
  (rest_Phase (rt_Status after) = RestorePhaseCompleted → completion_ok h before).

Definition at_work (h : list kevent) (P : PBSRestore → Prop) : Prop :=
  ∃ rs, working_on h rs ∧ repo_ready h rs ∧ P rs.

(** A secret the restore writes: the copy of the secret that the repo refers to, new
    and without owner in the target namespace, or over the copy found there, of
    which only the managed label is set. *)
Definition secret_scope (h : list kevent) (rs : PBSRestore) (new : bool) (s : Secret) : Prop :=
  let target := rs_TargetNamespace (rt_Spec rs) in
  ∃ repo, ev (CGet KPBSRepo (mkNN "" (rs_RepoRef (rt_Spec rs)))) (inr repo) ∈ h ∧
    let name := "pbsrepo-" +:+ om_Name (repo_Meta repo) in
    good_copy h (rsp_SecretRef (repo_Spec repo)) target name s ∧
    if new then sec_Meta s = newMeta name target {[ManagedLabel := "true"]}
    else ∃ old, found_secret h (mkNN target name) old ∧
           sec_Meta s = set_Labels (sec_Meta old) (<[ManagedLabel := "true"]> (om_Labels (sec_Meta old))).

Definition restore_call_ok (h : list kevent) (c : call) : Prop :=
  match c with
  | CCreate KJob j => job_create_ok h j
  | CCreate KNamespace ns =>
      at_work h (λ rs, ns = mkNamespace (newMeta (rs_TargetNamespace (rt_Spec rs)) "" ∅))
  | CCreate KServiceAccount o => at_work h (λ rs, o = restore_sa rs)
  | CCreate KRoleBinding o => at_work h (λ rs, o = restore_rb rs)
  | CCreate KClusterRoleBinding o => at_work h (λ rs, o = restore_crb rs)
  | CCreate KSecret s => at_work h (λ rs, secret_scope h rs true s)
  | CUpdate KSecret s => at_work h (λ rs, secret_scope h rs false s)
  | CPatch KConfigMap before after =>
      at_work h (λ rs, read_configmap h rs before ∧
        om_Namespace (cm_Meta before) = om_Namespace (rt_Meta rs) ∧
        cm_Data after = cm_Data before)
  | CStatusPatch KPBSRestore before after => patch_ok h before after
  | CEvent _ _ reason _ => Forall patch_accepted h ∧ transitioned h reason
  | _ => is_read c = true
  end.

(** ** Facts that survive further events *)

Lemma restore_working_app h t rs : working_on h rs → working_on (h ++ t) rs.
Proof. intros [Hh Ha]. split; [by destruct h|done]. Qed.
Lemma restore_repo_app h t rs : repo_ready h rs → repo_ready (h ++ t) rs.
Proof. intros (Hv & repo & Hin & Hr). split; [done|]. exists repo. by split; [apply elem_of_grow|]. Qed.
Lemma stage_done_app h t rs st : stage_done h rs st → stage_done (h ++ t) rs st.
Proof. intros (a & Hin & Ha). exists a. by split; [apply elem_of_grow|]. Qed.
Lemma seen_configmap_app h t rs cm : seen_configmap h rs cm → seen_configmap (h ++ t) rs cm.
Proof.
  intros [Hin|(before & after & Hb & Hin)]; [by left; apply elem_of_grow|].
  right. exists before, after. by split; apply elem_of_grow.
Qed.
Lemma planned_app h t rs groups : planned h rs groups → planned (h ++ t) rs groups.
Proof. intros (cm & docs & Hin & Hrest). exists cm, docs. by split; [apply seen_configmap_app|]. Qed.
Lemma stage_ready_app h t rs groups st : stage_ready h rs groups st → stage_ready (h ++ t) rs groups st.
Proof.
  destruct st; cbn [stage_ready].
  - done.
  - intros (Hd & cm & Hin). split; [by apply stage_done_app|]. exists cm. by apply elem_of_grow.
  - intros (Hf & Hp & Hg & Hn). split_and!; [by apply stage_done_app..|by apply planned_app|done].
  - intros (Hf & Hp & Hg & Hn).
    split_and!; [by apply stage_done_app..|by apply planned_app|].
    intros node Hs. by apply stage_done_app, Hn.
Qed.

Lemma waiting_app h t rs phase : waiting h rs phase → waiting (h ++ t) rs phase.
Proof.
  intros (groups & st & Hp & Hr & Hu). exists groups, st. split; [done|]. split; [by apply stage_ready_app|].
  destruct Hu as [(job & Hin & Hj)|(j & a & Hin & Hj)]; [left; exists job|right; exists j, a];
    (split; [by apply elem_of_grow|done]).
Qed.
Lemma phase_ok_app h t rs phase : phase_ok h rs phase → phase_ok (h ++ t) rs phase.
Proof. intros [?|[?|[?|?]]]; [by left|by right; left|by right; right; left|]. do 3 right. by apply waiting_app. Qed.
Lemma completion_ok_app h t rs : completion_ok h rs → completion_ok (h ++ t) rs.
Proof.
  intros (groups & (Hf & Hp & Hg & Hv) & Hw). exists groups. split; [split_and!|].
  - by apply stage_done_app.
  - by apply stage_done_app.
  - by apply planned_app.
  - intros node Hn. by apply stage_done_app, Hv.
  - by apply stage_done_app.
Qed.

Lemma restore_read_ok h c : is_read c = true → restore_call_ok h c.
Proof. by destruct c. Qed.

Lemma wp_rreads {R} (I : list kevent → Prop) (p : kprog R) (Q : R → Prop) h :
  read_stable I → calls_in is_read p → (∀ tr x, runs p tr x → Q x) → I h →
  wp restore_call_ok p (λ h' x, I h' ∧ Q x) h.
Proof. apply wp_reads, restore_read_ok. Qed.

Definition unwritten (rs : PBSRestore) (h : list kevent) : Prop :=
  working_on h rs ∧ Forall no_patch h.

Lemma unwritten_app rs h e : no_patch e → unwritten rs h → unwritten rs (h ++ [e]).
Proof. intros He [Hw Hn]. by split; [apply restore_working_app|apply Forall_snoc]. Qed.

(** ** Outcomes *)

Lemma runs_rstamp_StartedAt s tr s' :
  runs (rstamp_StartedAt s) tr s' →
  (∀ t, rest_StartedAt s = Some t → s' = s) ∧
  ∃ t, s' = {| rest_Phase := rest_Phase s; rest_Conditions := rest_Conditions s;
     rest_StartedAt := t; rest_CompletedAt := rest_CompletedAt s; rest_Jobs := rest_Jobs s |}.
Proof.
  unfold rstamp_StartedAt, Now. destruct (rest_StartedAt s) eqn:Hs; intros Hr; runs_inv.
  - split; [done|]. exists (rest_StartedAt s). by destruct s.
  - split; [done|]. by eexists.
Qed.

Lemma runs_rstamp_CompletedAt s tr s' :
  runs (rstamp_CompletedAt s) tr s' →
  is_Some (rest_CompletedAt s') ∧ (∀ t, rest_CompletedAt s = Some t → s' = s) ∧
  ∃ t, s' = {| rest_Phase := rest_Phase s; rest_Conditions := rest_Conditions s;
     rest_StartedAt := rest_StartedAt s; rest_CompletedAt := t; rest_Jobs := rest_Jobs s |}.
Proof.
  unfold rstamp_CompletedAt, Now. destruct (rest_CompletedAt s) eqn:Hs; intros Hr; runs_inv.
  - split_and!; [by rewrite Hs|done|]. exists (rest_CompletedAt s). by destruct s.
  - split_and!; [done|done|]. by eexists.
Qed.

Lemma runs_refresh_jobs rs s tr s' :
  runs (refresh_jobs rs s) tr s' → ∃ js, s' = set_rJobs js s ∧ remembers (rest_Jobs s) js.
Proof using SL.
  unfold refresh_jobs, liveJobs. intros Hr.
  apply runs_bind in Hr as (t1 & js & t2 & -> & Hl & [-> ->]). exists js. split; [done|].
  apply runs_bind in Hl as (t3 & a & t4 & -> & _ & [-> ->]). destruct a as [e|items].
  - intros x Hx. by exists x.
  - apply (merge_jobs_remembers (set_rt_Status rs s)).
Qed.

Lemma calls_refresh_jobs rs s : calls_in is_read (refresh_jobs rs s).
Proof. unfold refresh_jobs, liveJobs, List_. calls_auto. Qed.
Lemma calls_rstamp_StartedAt s : calls_in is_read (rstamp_StartedAt s).
Proof. unfold rstamp_StartedAt, Now. calls_auto. Qed.
Lemma calls_rstamp_CompletedAt s : calls_in is_read (rstamp_CompletedAt s).
Proof. unfold rstamp_CompletedAt, Now. calls_auto. Qed.

Definition reached (h : list kevent) (phase : RestorePhase) : Prop :=
  ∃ before after a, ev (CStatusPatch KPBSRestore before after) (inr a) ∈ h ∧
    rest_Phase (rt_Status after) = phase.

Definition recorded_as (phase : RestorePhase) (reason : string) (h : list kevent)
    (res : error + PBSRestore * bool) : Prop :=
  match res with
  | inl _ => True
  | inr (_, tr) => Forall patch_accepted h ∧ (tr = true → transitioned h reason) ∧
                   (rterminal phase → reached h phase)
  end.

Lemma wp_recordRestore rs phase st reason message extra h :
  unwritten rs h → (∀ s, calls_in is_read (extra s)) →
  (∀ cs tr s, runs (extra (set_rPhase phase (set_rConditions cs (rt_Status rs)))) tr s →
     legal_restore (rt_Status rs) s ∧ rest_Phase s = phase) →
  phase_ok h rs phase → (phase = RestorePhaseCompleted → completion_ok h rs) →
  wp restore_call_ok (recordRestore rs phase st reason message extra) (recorded_as phase reason) h.
Proof.
  intros Hu Hreads Hlegal Hphase Hcomp. unfold recordRestore.
  apply wp_bind. split; [done|]. intros [cs tr]. cbn [wp fst snd]. set (h1 := h ++ [_]).
  set (I := λ h', unwritten rs h' ∧ (tr = true → transitioned h' reason) ∧ phase_ok h' rs phase ∧
                  (phase = RestorePhaseCompleted → completion_ok h' rs)).
  assert (HI : read_stable I).
  { intros h' c a Hc (Hu' & Ht & Hph & Hco).
    split_and!; [by apply unwritten_app; [apply read_no_patch|]| | |].
    - intros Htr. by apply transitioned_app, Ht.
    - by apply phase_ok_app.
    - intros Hp. by apply completion_ok_app, Hco. }
  assert (Hh1 : I h1).
  { split_and!; [by apply unwritten_app| | |].
    - intros ->. eexists _, _, cs. split; [apply elem_of_snoc|done].
    - by apply phase_ok_app.
    - intros Hp. by apply completion_ok_app, Hcomp. }
  apply wp_bind. eapply wp_post; [apply (wp_rreads I); [done|apply Hreads|apply Hlegal|done]|].
  intros h2 s _ [[[Hw Hn] (Ht & Hph & Hco)] [Hl Hp]]. case_bool_decide as He.
  - cbn [recorded_as]. split_and!; [by apply no_patches_accepted|done|].
    intros Hterm. exfalso. apply (lr_active _ _ Hl). rewrite He. cbn. by rewrite Hp.
  - apply wp_bind. unfold api. apply wp_bind. split.
    + split_and!; try done; cbn; by rewrite Hp.
    + intros [e|rs']; [done|]. cbn [wp recorded_as]. split_and!.
      * apply Forall_snoc; [by apply no_patches_accepted|done].
      * intros Htr. by apply transitioned_app, Ht.
      * intros _. eexists _, _, _. split; [apply elem_of_snoc|done].
Qed.

Lemma wp_restore_emit tr rs t reason message h :
  Forall patch_accepted h → (tr = true → transitioned h reason) →
  wp restore_call_ok (emit tr rs t reason message) (λ _ _, True) h.
Proof. intros Ha Ht. destruct tr; [|done]. split; [split; [done|by apply Ht]|done]. Qed.

Lemma rreached_prefix h h' phase : h `prefix_of` h' → reached h phase → reached h' phase.
Proof.
  intros [t ->] (before & after & a & Hin & Hp). exists before, after, a.
  by split; [apply elem_of_grow|].
Qed.

Definition finished (h : list kevent) : Prop := ∃ phase, rterminal phase ∧ reached h phase.

Definition settled (h : list kevent) (res : reconcile_result) : Prop :=
  match res with
  | inl _ => True
  | inr x => (RequeueAfter x = 0 ∧ finished h) ∨ RequeueAfter x = requeueWait
  end.

Lemma holdPhase_active p : ¬ rterminal p → ¬ rterminal (holdPhase p).
Proof. unfold holdPhase. case_bool_decide; [by intros _ []|done]. Qed.

Lemma remembers_refl js : remembers js js.
Proof. intros x Hx. by exists x. Qed.

Lemma wp_holdRestore rs reason message h :
  unwritten rs h → wp restore_call_ok (holdRestore rs reason message requeueWait) settled h.
Proof.
  intros Hu. pose proof (holdPhase_active _ (proj2 (proj1 Hu))) as Ha. unfold holdRestore.
  apply wp_bind. eapply wp_post; [apply wp_recordRestore; [done|by intros| | |]|].
  - intros cs tr s [_ ->]. split; [|done]. split; cbn; try done; [apply Hu|apply remembers_refl].
  - unfold phase_ok, holdPhase. case_bool_decide; [by right; left|by left].
  - intros Hc. exfalso. apply Ha. by left.
  - intros h' [e|[rs' tr]] _ Hr; [done|]. destruct Hr as (Hacc & Ht & _). apply wp_bind.
    eapply wp_post; [by apply wp_restore_emit|]. intros ????. by right.
Qed.

(** The two terminal outcomes share their status update. *)
Lemma rterminal_legal rs phase cs tr s :
  ¬ rterminal (rest_Phase (rt_Status rs)) → rterminal phase →
  runs (refresh_jobs rs (set_rPhase phase (set_rConditions cs (rt_Status rs))) ≫= rstamp_CompletedAt)
    tr s → legal_restore (rt_Status rs) s ∧ rest_Phase s = phase.
Proof using SL.
  intros Ha Hterm Hr. apply runs_bind in Hr as (t1 & s1 & t2 & -> & Hj & Hr).
  apply runs_refresh_jobs in Hj as (js & -> & Hm).
  apply runs_rstamp_CompletedAt in Hr as (Hsome & Hsame & t & ->). split; [|done].
  split; cbn in *; try done.
  intros u Hu. specialize (Hsame u Hu). by injection Hsame as ->.
Qed.

Lemma wp_finish rs phase st t reason message h :
  unwritten rs h → rterminal phase → (phase = RestorePhaseCompleted → completion_ok h rs) →
  wp restore_call_ok
    (rt <-? recordRestore rs phase st reason message
              (λ s, s ← refresh_jobs rs s; rstamp_CompletedAt s);
     emit rt.2 rt.1 t reason message;; mret no_requeue) settled h.
Proof using SL.
  intros Hu Hterm Hcomp. apply wp_bind.
  eapply wp_post; [apply wp_recordRestore; [done| | | |done]|].
  - intros s. pose proof calls_refresh_jobs. pose proof calls_rstamp_CompletedAt. calls_auto.
  - intros cs tr s Hr. eapply rterminal_legal; [apply Hu|done|exact Hr].
  - by right; right; left.
  - intros h1 [e|[rs' tr]] _ Hr; [done|]. destruct Hr as (Ha & Ht & Hre). cbn [fst snd].
    apply wp_bind. eapply wp_post; [by apply wp_restore_emit|]. intros h2 _ Hp _. left. split; [done|].
    exists phase. split; [done|]. eapply rreached_prefix; [exact Hp|by apply Hre].
Qed.

Lemma wp_completeRestore rs h :
  unwritten rs h → completion_ok h rs → wp restore_call_ok (completeRestore rs) settled h.
Proof using SL. intros. apply wp_finish; [done|by left|done]. Qed.

Lemma wp_failRestore rs reason message h :
  unwritten rs h → wp restore_call_ok (failRestore rs reason message) settled h.
Proof using SL. intros. apply wp_finish; [done|by right|done]. Qed.

Lemma wp_requeueOrHold rs phase err h :
  unwritten rs h → ¬ rterminal phase → (err = None → waiting h rs phase) →
  wp restore_call_ok (requeueOrHold rs phase err) settled h.
Proof using SL.
  intros Hu Ha Hwait. destruct err as [[reason msg|e]|]; cbn [requeueOrHold]; [|done|].
  - case_bool_decide; [by apply wp_failRestore|by apply wp_holdRestore].
  - apply wp_bind. eapply wp_post; [apply wp_recordRestore; [done| | | |]|].
    + intros s. pose proof calls_refresh_jobs. pose proof calls_rstamp_StartedAt. calls_auto.
    + intros cs tr s Hr. apply runs_bind in Hr as (t1 & s1 & t2 & -> & Hs & Hr).
      apply runs_rstamp_StartedAt in Hs as (Hsame & t & ->).
      apply runs_refresh_jobs in Hr as (js & -> & Hm). split; [|done].
      split; cbn in *; try done; [apply Hu|].
      intros u Hu'. specialize (Hsame u Hu'). by injection Hsame as ->.
    + do 3 right. by apply Hwait.
    + intros ->. destruct Ha. by left.
    + intros h' [e|[rs' tr]] _ Hr; [done|]. by right.
Qed.

(** ** Pipeline Jobs *)

(** At work with the repo ready, no Job created in this reconcile yet. *)
Definition launching (rs : PBSRestore) (h : list kevent) : Prop :=
  unwritten rs h ∧ repo_ready h rs ∧ jobs_created h = [].

Lemma launching_app rs h e :
  no_patch e → created_job (projT1 e) = None → launching rs h → launching rs (h ++ [e]).
Proof.
  intros He Hj (Hu & Hr & Hjs).
  split_and!; [by apply unwritten_app|by apply restore_repo_app|by rewrite jobs_created_snoc].
Qed.

(** A stage is done, or the restore waits for it, or the reconcile ends with the status
    unwritten. *)
Definition step_post (rs : PBSRestore) (phase : RestorePhase) (K : list kevent → Prop) (h : list kevent)
    (res : step_error + bool) : Prop :=
  match res with
  | inr true => launching rs h ∧ K h
  | inr false => unwritten rs h ∧ waiting h rs phase
  | inl _ => unwritten rs h
  end.

Lemma wp_ensureJob rs repoSecret groups st h :
  launching rs h → stage_ready h rs groups st →
  wp restore_call_ok
    (ensureJob rs (stage_name rs (stage_suffix st))
       (stage_build rs (restore_spec AgentImage rs repoSecret) groups st))
    (step_post rs (stage_phase st) (λ h', stage_done h' rs st)) h.
Proof.
  intros Hl Hready. unfold ensureJob. set (build := stage_build _ _ _ _).
  set (name := stage_name rs _). set (named := set_job_Meta build _).
  apply wp_bind. split; [done|]. intros a.
  set (h1 := h ++ [_]). assert (Hl1 : launching rs h1) by by apply launching_app.
  assert (Hans : answered h1 (stage_key rs st) a) by apply elem_of_snoc.
  assert (Hu1 : unwritten rs h1) by apply Hl1.
  destruct a as [e|job]; cbn [wp].
  2:{ destruct (jobCondition job JobFailed) eqn:Hf; [done|].
      destruct (jobCondition job JobComplete) eqn:Hc; (split; [done|]); [by exists (inr job)|].
      exists groups, st. split; [done|]. split; [by apply stage_ready_app|]. left. by exists job. }
  destruct (IsNotFound e) eqn:He; cbn [negb]; [|done].
  destruct (knownJob rs name) eqn:Hk.
  { case_bool_decide as Hrec; [|done]. split; [done|]. by exists (inl e). }
  assert (Hcreate : ∀ j, owned_job rs name build j →
    wp restore_call_ok (created ← Create KJob j;
      match created with
      | inl e => if negb (IsAlreadyExists e) then mret (inl (StepError (ErrAPI e))) else mret (inr false)
      | inr _ => mret (inr false)
      end) (step_post rs (stage_phase st) (λ h', stage_done h' rs st)) h1).
  { intros j Hj. apply wp_bind. split.
    - exists rs, repoSecret, groups, st. split_and!; try done.
      + apply Hl1.
      + apply Hl1.
      + by apply stage_ready_app.
      + by exists e.
      + apply Hl1.
    - assert (Hwait : ∀ a : apierror + Job, match a with inr _ => True | inl e => IsAlreadyExists e = true end →
        waiting (h1 ++ [ev (CCreate KJob j) a]) rs (stage_phase st)).
      { intros a Ha. exists groups, st. split; [done|]. split; [by do 2 apply stage_ready_app|]. right.
        exists j, a. split; [apply elem_of_snoc|]. split; [|done]. by eapply owned_job_name. }
      intros [e'|j']; cbn [wp]; [destruct (IsAlreadyExists e') eqn:Hex; cbn [negb]|].
      + split; [by apply unwritten_app|by apply Hwait].
      + by apply unwritten_app.
      + split; [by apply unwritten_app|by apply Hwait]. }
  apply wp_bind. unfold owned_job in Hcreate. fold named in Hcreate.
  case_bool_decide as Hns.
  - destruct (SetControllerReference _ _ _) as [e1|refs] eqn:Hrefs; [done|].
    apply Hcreate. rewrite decide_True by done. by exists refs.
  - apply Hcreate. by rewrite decide_False.
Qed.

Lemma wp_await rs phase step next K h :
  ¬ rterminal phase → wp restore_call_ok step (step_post rs phase K) h →
  (∀ h', h `prefix_of` h' → launching rs h' → K h' → wp restore_call_ok next settled h') →
  wp restore_call_ok (await rs phase step next) settled h.
Proof using SL.
  intros Ha Hs Hn. unfold await. apply wp_bind. eapply wp_post; [exact Hs|].
  intros h' [e|[|]] Hp Hpost; [by apply wp_requeueOrHold| |].
  - destruct Hpost. by apply Hn.
  - destruct Hpost. by apply wp_requeueOrHold.
Qed.

(** ** Volumes *)

(** The API stages are done and the volumes are planned. *)
Definition planning (rs : PBSRestore) (groups : gmap string (list string)) (h : list kevent) : Prop :=
  stage_done h rs StFetch ∧ stage_done h rs StPre ∧ planned h rs groups.

Lemma planning_prefix rs groups h h' :
  h `prefix_of` h' → planning rs groups h → planning rs groups h'.
Proof.
  intros [t ->] (Hf & Hp & Hg). split_and!; [by apply stage_done_app..|by apply planned_app].
Qed.
Lemma stage_done_prefix rs st h h' : h `prefix_of` h' → stage_done h rs st → stage_done h' rs st.
Proof. intros [t ->]. apply stage_done_app. Qed.

Lemma wp_ensure_volumes rs repoSecret groups nodes h :
  launching rs h → planning rs groups h → (∀ node, node ∈ nodes → is_Some (groups !! node)) →
  wp restore_call_ok (ensure_volumes rs (restore_spec AgentImage rs repoSecret) groups nodes)
    (step_post rs RestorePhaseRestoringVolumes (λ h', ∀ node, node ∈ nodes → stage_done h' rs (StVolume node))) h.
Proof.
  revert h. induction nodes as [|node nodes IH]; intros h Hl Hp Hin.
  { split; [done|]. by intros ? ?%not_elem_of_nil. }
  cbn [ensure_volumes]. apply wp_bind.
  eapply wp_post; [apply (wp_ensureJob rs repoSecret groups (StVolume node)); [done|]|].
  { destruct Hp as (Hf & Hpre & Hg). split_and!; [done..|]. apply Hin. by left. }
  intros h1 [e|[|]] Hpre Hpost; [done| |done]. destruct Hpost as [Hl1 Hd]. cbn [negb].
  eapply wp_post; [apply IH; [done|by eapply planning_prefix|]|].
  { intros n Hn. apply Hin. by right. }
  intros h2 [e|[|]] Hpre2 Hpost; [done| |done]. destruct Hpost as [Hl2 Hds]. split; [done|].
  intros n [->|Hn]%elem_of_cons; [by eapply stage_done_prefix|by apply Hds].
Qed.

Lemma wp_ensureVolumeJobs rs repoSecret docs cm h :
  launching rs h → stage_done h rs StFetch → stage_done h rs StPre → seen_configmap h rs cm →
  ParseAPIManifests (str_at (cm_Data cm) "api.yaml") (rs_TargetNamespace (rt_Spec rs)) = inr docs →
  wp restore_call_ok
    (ensureVolumeJobs rs (restore_spec AgentImage rs repoSecret) docs (plan_pvcs rs docs))
    (step_post rs RestorePhaseRestoringVolumes (λ h', ∃ groups, stage_ready h' rs groups StWorkload)) h.
Proof.
  intros Hl Hf Hp Hcm Hparse. unfold ensureVolumeJobs. apply wp_bind.
  eapply wp_post; [apply (wp_rreads (launching rs) _ (λ _, True));
    [|apply calls_firstNode|done|done]|].
  { intros h' c a Hc. apply launching_app; [by apply read_no_patch|by destruct c]. }
  intros h1 [e|fallback] [t ->] [Hl1 _]; [apply Hl1|].
  destruct (group_volumes docs fallback (plan_pvcs rs docs) ∅) as [e|groups] eqn:Hg; [apply Hl1|].
  assert (Hpl : planning rs groups (h ++ t)).
  { split_and!; [by apply stage_done_app..|]. exists cm, docs.
    split; [by apply seen_configmap_app|]. split; [done|]. by exists fallback. }
  assert (Hdom : ∀ node, node ∈ sort_Strings (map_to_list groups).*1 ↔ is_Some (groups !! node)).
  { intros node. rewrite elem_of_sort_Strings, list_elem_of_fmap. split.
    - intros ([n g] & -> & Hin%elem_of_map_to_list). by exists g.
    - intros [g Hin]. exists (node, g). split; [done|]. by apply elem_of_map_to_list. }
  eapply wp_post; [apply wp_ensure_volumes; [done|done|by intros ? ?%Hdom]|].
  intros h2 [e|[|]] Hpre Hpost; [done| |done]. destruct Hpost as [Hl2 Hds]. split; [done|].
  exists groups. destruct (planning_prefix _ _ _ _ Hpre Hpl) as (Hf2 & Hp2 & Hg2).
  split_and!; [done..|]. intros node Hn. by apply Hds, Hdom.
Qed.

(** ** Reconcile *)

Lemma wp_reconcile_workload rs repoSecret groups h :
  launching rs h → stage_ready h rs groups StWorkload →
  wp restore_call_ok (reconcile_workload rs (restore_spec AgentImage rs repoSecret)) settled h.
Proof using SL.
  intros Hl Hr. unfold reconcile_workload.
  eapply wp_await; [by intros []|by apply (wp_ensureJob rs repoSecret groups StWorkload)|].
  intros h' [t ->] Hl' Hd. apply wp_completeRestore; [apply Hl'|].
  exists groups. split; [by apply stage_ready_app|done].
Qed.

Lemma wp_reconcile_volumes rs repoSecret cm seen h :
  launching rs h → stage_done h rs StFetch → stage_done h rs StPre → seen_configmap h rs seen →
  cm_Data cm = cm_Data seen →
  wp restore_call_ok (reconcile_volumes rs (restore_spec AgentImage rs repoSecret) cm) settled h.
Proof using SL.
  intros Hl Hf Hp Hcm Hd. unfold reconcile_volumes. rewrite Hd. cbn [restore_spec rjsp_Namespace].
  destruct (ParseAPIManifests _ _) as [e|docs] eqn:Hparse; [apply wp_failRestore, Hl|].
  fold (plan_pvcs rs docs). destruct (plan_pvcs rs docs) as [|pvc pvcs] eqn:Hpvcs.
  - apply (wp_reconcile_workload rs repoSecret ∅); [done|]. split_and!; [done..| |].
    + exists seen, docs. split_and!; [done..|]. exists "". by rewrite Hpvcs.
    + intros node [? Hn]. by rewrite lookup_empty in Hn.
  - rewrite <- Hpvcs. eapply wp_await; [by intros []|by eapply wp_ensureVolumeJobs|].
    intros h' _ Hl' [groups Hr]. by eapply wp_reconcile_workload.
Qed.

Lemma wp_adoptConfigMap rs cm h (K : list kevent → Prop) :
  launching rs h → read_configmap h rs cm → K h → (∀ e, K (h ++ [e])) →
  wp restore_call_ok (adoptConfigMap rs cm)
    (λ h' cm', launching rs h' ∧ K h' ∧
       ∃ seen, seen_configmap h' rs seen ∧ cm_Data cm' = cm_Data seen) h.
Proof.
  intros Hl Hcm HK HKe. unfold adoptConfigMap.
  assert (Hcm' : ∃ seen, seen_configmap h rs seen ∧ cm_Data cm = cm_Data seen)
    by (exists cm; split; [by left|done]).
  case_bool_decide as Hns; cbn [negb]; [|done]. destruct (existsb _ _); [done|].
  destruct (SetControllerReference _ _ _) as [e|refs]; [done|]. apply wp_bind. split.
  - exists rs. split; [apply Hl|]. split; [apply Hl|]. done.
  - intros a. split; [by apply launching_app|]. split; [apply HKe|]. destruct a as [e|answer].
    + exists cm. split; [|done]. by apply seen_configmap_app; left.
    + exists answer. split; [|done]. right. exists cm. eexists.
      split; [by apply elem_of_grow|apply elem_of_snoc].
Qed.

Lemma wp_reconcile_stages rs repoSecret h :
  launching rs h →
  wp restore_call_ok (reconcile_stages rs (restore_spec AgentImage rs repoSecret)) settled h.
Proof using SL.
  intros Hl. unfold reconcile_stages.
  eapply wp_await; [by intros []|by apply (wp_ensureJob rs repoSecret ∅ StFetch)|].
  intros h1 _ Hl1 Hf. apply wp_bind. split; [done|]. intros a. set (h2 := h1 ++ [_]).
  assert (Hl2 : launching rs h2) by by apply launching_app.
  assert (Hf2 : stage_done h2 rs StFetch) by by apply stage_done_app.
  destruct a as [e|cm]; cbn [wp].
  { destruct (IsNotFound e); [|done]. apply wp_holdRestore, Hl2. }
  assert (Hcm : read_configmap h2 rs cm) by apply elem_of_snoc.
  apply wp_bind. eapply wp_post; [apply (wp_adoptConfigMap rs cm h2
    (λ h, stage_done h rs StFetch ∧ read_configmap h rs cm)); [done..|]|].
  { intros e. by split; [apply stage_done_app|apply elem_of_grow]. }
  intros h3 cm' _ (Hl3 & (Hf3 & Hcm3) & seen & Hseen & Hd).
  eapply wp_await; [by intros []|apply (wp_ensureJob rs repoSecret ∅ StPre); [done|]|].
  { split; [done|by exists cm]. }
  intros h4 [t ->] Hl4 Hp4. apply (wp_reconcile_volumes _ _ _ seen); [done| |done| |done].
  - by apply stage_done_app.
  - by apply seen_configmap_app.
Qed.

(** The calls that prepare the target namespace. *)
Definition setup_call (rs : PBSRestore) (c : call) : Prop :=
  match c with
  | CCreate KNamespace ns => ns = mkNamespace (newMeta (rs_TargetNamespace (rt_Spec rs)) "" ∅)
  | CCreate KServiceAccount o => o = restore_sa rs
  | CCreate KRoleBinding o => o = restore_rb rs
  | CCreate KClusterRoleBinding o => o = restore_crb rs
  | _ => is_read c = true
  end.

Lemma calls_ensureTargetNamespace rs : calls_in (setup_call rs) (ensureTargetNamespace rs).
Proof. unfold ensureTargetNamespace, Get, Create. calls_auto. Qed.
Lemma calls_ensureJobRBAC rs : calls_in (setup_call rs) (ensureJobRBAC rs).
Proof. unfold ensureJobRBAC, create_if_missing, Get, Create. calls_auto. Qed.

Lemma wp_setup {R} rs (p : kprog R) h :
  calls_in (setup_call rs) p → launching rs h →
  wp restore_call_ok p (λ h' _, launching rs h') h.
Proof.
  intros Hp Hl. eapply wp_calls_in; [exact Hp|done|]. intros h' c Hc Hl'.
  assert (Hw : ∀ P : PBSRestore → Prop, P rs → at_work h' P).
  { intros P HP. exists rs. split; [apply Hl'|]. split; [apply Hl'|done]. }
  destruct c as [| |[]|[]| | | | | | | | | | | | | |]; try done;
    (split; [first [done|by apply Hw]|]); intros a; by apply launching_app.
Qed.

(** The copy of the credentials *)
Lemma wp_restore_secret rs repo h :
  launching rs h → ev (CGet KPBSRepo (mkNN "" (rs_RepoRef (rt_Spec rs)))) (inr repo) ∈ h →
  wp restore_call_ok (ensureRepoSecret rs repo) (λ h' _, launching rs h') h.
Proof.
  intros Hl Hrepo. unfold ensureRepoSecret. set (ref := rsp_SecretRef _). set (target := rs_TargetNamespace _).
  apply wp_bind. eapply (wp_post _ _ (λ h' srcNS, launching rs h' ∧ source_key ref (mkNN srcNS (ref_Name ref)))).
  { case_bool_decide as Hns; [|done]. split; [done|]. intros ns. split; [by apply launching_app|by split]. }
  intros h1 srcNS [t ->] [Hl1 Hkey]. apply wp_bind. split; [done|]. intros [e|src]; cbn [wp].
  { by destruct (IsNotFound e); apply launching_app. }
  assert (Hl2 := Hl1). apply (launching_app _ _ (ev (CGet KSecret (mkNN srcNS (ref_Name ref))) (inr src))) in Hl2; [|done..].
  assert (Hsrc : found_secret ((h ++ t) ++ [ev (CGet KSecret (mkNN srcNS (ref_Name ref))) (inr src)])
                   (mkNN srcNS (ref_Name ref)) src) by apply elem_of_snoc.
  apply (elem_of_grow _ t), (elem_of_grow _ [ev (CGet KSecret (mkNN srcNS (ref_Name ref))) (inr src)]) in Hrepo.
  set (h2 := (h ++ t) ++ _) in *. clearbody h2. apply wp_bind. split; [done|].
  assert (Hw : ∀ (new : bool) g s, secret_scope (h2 ++ [g]) rs new s → launching rs (h2 ++ [g]) →
    at_work (h2 ++ [g]) (λ rs, secret_scope (h2 ++ [g]) rs new s)).
  { intros new g s Hs Hl3. exists rs. split; [apply Hl3|]. by split; [apply Hl3|]. }
  assert (Hd : copy_of src (contract_data (sec_Data src))) by (intros k; apply lookup_contract_data).
  intros [e|old]; cbn [wp].
  - destruct (IsNotFound e); [|by apply launching_app]. apply wp_bind. split.
    + apply Hw; [|by apply launching_app]. exists repo. split; [by apply elem_of_grow|]. split; [|done].
      exists src, (mkNN srcNS (ref_Name ref)). split; [done|]. split; [by apply elem_of_grow|].
      split; [done|]. split; [done|by left].
    + intros [e'|s]; cbn [wp]; [destruct (IsAlreadyExists e')|]; (apply launching_app; [done|done|]; by apply launching_app).
  - destruct (contractEqual _ _ && _); [by apply launching_app|]. unfold api. apply wp_bind, wp_bind. split.
    + apply Hw; [|by apply launching_app]. exists repo. split; [by apply elem_of_grow|].
      assert (Hold : found_secret (h2 ++ [ev (CGet KSecret (mkNN target ("pbsrepo-" +:+ om_Name (repo_Meta repo)))) (inr old)])
        (mkNN target ("pbsrepo-" +:+ om_Name (repo_Meta repo))) old) by apply elem_of_snoc.
      split; [|by exists old]. exists src, (mkNN srcNS (ref_Name ref)).
      split; [done|]. split; [by apply elem_of_grow|]. split; [done|]. split; [apply lookup_insert_eq|].
      right. by exists old.
    + intros [e|s]; (apply launching_app; [done|done|]; by apply launching_app).
Qed.

Lemma wp_reconcile_restore rs repo h :
  launching rs h → ev (CGet KPBSRepo (mkNN "" (rs_RepoRef (rt_Spec rs)))) (inr repo) ∈ h →
  wp restore_call_ok (reconcile_restore AgentImage rs repo) settled h.
Proof using SL.
  intros Hl Hrepo. unfold reconcile_restore. apply wp_bind.
  eapply wp_post; [by apply wp_setup; [apply calls_ensureTargetNamespace|]|].
  intros h1 [e|[problem|]] [t ->] Hl1; [done|apply wp_holdRestore, Hl1|]. apply wp_bind.
  eapply wp_post; [apply (wp_restore_secret rs repo); [done|by apply elem_of_grow]|].
  intros h2 [e|[problem|repoSecret]] _ Hl2; [done|apply wp_holdRestore, Hl2|]. apply wp_bind.
  eapply wp_post; [by apply wp_setup; [apply calls_ensureJobRBAC|]|].
  intros h3 [e|[]] _ Hl3; [done|]. by apply wp_reconcile_stages.
Qed.

(** What [Reconcile] returns. *)
Definition reconciled (h : list kevent) (res : reconcile_result) : Prop :=
  match res with
  | inl _ => True
  | inr x =>
      RequeueAfter x = requeueWait ∨
      (RequeueAfter x = 0 ∧
       (finished h ∨
        ∃ a, h = [ev (CGet KPBSRestore req) a] ∧
             match a with
             | inl e => IsNotFound e = true
             | inr rs => rterminal (rest_Phase (rt_Status rs))
             end))
  end.

Lemma wp_restore_Reconcile : wp restore_call_ok (Reconcile AgentImage req) reconciled [].
Proof using SL.
  unfold Reconcile. apply wp_bind. split; [done|]. intros [e|rs]; cbn [wp app].
  { destruct (IsNotFound e) eqn:He; cbn; [|done]. right. split; [done|]. right. by exists (inl e). }
  destruct (_ || _) eqn:Hterm.
  { cbn. right. split; [done|]. right. exists (inr rs). split; [done|].
    apply orb_true_iff in Hterm as [Ht|Ht]; apply bool_decide_eq_true in Ht; [by left|by right]. }
  assert (Hact : ¬ rterminal (rest_Phase (rt_Status rs))).
  { apply orb_false_iff in Hterm as [Hn1%bool_decide_eq_false Hn2%bool_decide_eq_false].
    by intros []. }
  assert (Hset : ∀ h' res, settled h' res → reconciled h' res).
  { intros h' [e|x]; [done|]. cbn. naive_solver. }
  assert (Hu : ∀ e, no_patch e → unwritten rs [ev (CGet KPBSRestore req) (inr rs); e]).
  { intros e He. split; [done|]. by repeat constructor. }
  clear Hterm. case_bool_decide as Hv; cbn [negb].
  2:{ eapply wp_post; [apply wp_failRestore|intros; by apply Hset].
      split; [done|]. by repeat constructor. }
  apply wp_bind. split; [done|]. intros [e|repo]; cbn [wp app].
  - destruct (IsNotFound e); cbn [negb]; [|done].
    eapply wp_post; [apply wp_holdRestore; by apply Hu|intros; by apply Hset].
  - destruct (IsStatusConditionTrue _ _) eqn:Hready; cbn [negb].
    + set (h0 := [_; _]). assert (Hin : ev (CGet KPBSRepo (mkNN "" (rs_RepoRef (rt_Spec rs)))) (inr repo : resp (CGet KPBSRepo _)) ∈ h0)
        by (right; by left).
      eapply wp_post; [apply wp_reconcile_restore; [|exact Hin]|intros; by apply Hset].
      split_and!; [by apply Hu| |done]. split; [done|]. by exists repo.
    + eapply wp_post; [apply wp_holdRestore; by apply Hu|intros; by apply Hset].
Qed.
End safety.
