(* ===== verification/RestoreProps.v ===== *)
(** * Properties of the restore reconciler

    The corollaries of [RestoreSafety.wp_restore_Reconcile], with runs on the concrete
    environment of [Cluster], and the functional behaviour of the single
    steps. *)

From S2P Require Import Prelude GoLib Sort Kube Api Doc Client Trace JobBuild RestorePlan.
From S2P Require Import Hooks SnapshotRef ControllerLib SecretCopy RestoreCtl RestoreSafety.
From S2P Require Import Cluster.
From Stdlib Require Import Ascii.
From stdpp Require Import options.

Local Open Scope Z_scope.

(** ** Concrete runs *)

Definition example_restore (jobs : option (list RestoreJobStatus)) : PBSRestore :=
  mkRestore (meta0 "backups" "r") (mkRestoreSpec "repo" "host/daily-n1/T" "apps" [] [])
    (mkRestoreStatus RestorePhaseNew [] None None jobs).
Definition restore_req : NamespacedName := mkNN "backups" "r".

Lemma run_runs {R} (p : kprog R) (s : cluster) (run : list kevent * R * cluster) :
  run = exec serve p s → runs p run.1.1 run.1.2.
Proof. intros ->. apply exec_runs. Qed.

Definition run_restore (rs : PBSRestore) (s : cluster) :=
  exec serve (Reconcile "" restore_req) (add_object KPBSRestore rs s).

(** The first reconcile prepares the namespace and launches the fetch Job. *)
Definition first_restore := run_restore (example_restore None) base_cluster.
Definition fetch_trace : list kevent := first_restore.1.1.
Definition fetch_result : reconcile_result := first_restore.1.2.
Lemma fetch_runs : runs (Reconcile "" restore_req) fetch_trace fetch_result.
Proof. by eapply (run_runs _ _ first_restore). Qed.

Definition complete_job (name : string) : Job :=
  mkJob (newMeta name "apps" {["pbsrestore" := "r"]}) None None
    (mkPodTemplate ∅ (mkPodSpec "" "" "" None [] [] "")) [mkJobCondition JobComplete ConditionTrue].
Definition manifest_cm : ConfigMap :=
  mkConfigMap (meta0 "apps" "r-api")
    {["api.yaml" := "PersistentVolumeClaim/data" +:+ String "010"%char "Deployment/web"]}.

(** A later one finds the API stages done and launches the volume Job. *)
Definition volume_restore :=
  run_restore (example_restore (Some [mkRJS "StagingAPI" "r-api-fetch" "complete"]))
    (add_object KConfigMap manifest_cm (add_object KJob (complete_job "r-api-pre") base_cluster)).
Definition volume_trace : list kevent := volume_restore.1.1.
Definition volume_result : reconcile_result := volume_restore.1.2.
Lemma volume_runs : runs (Reconcile "" restore_req) volume_trace volume_result.
Proof. by eapply (run_runs _ _ volume_restore). Qed.

(** The last one finds every Job done. *)
Definition last_restore :=
  run_restore (example_restore (Some [mkRJS "StagingAPI" "r-api-fetch" "complete"]))
    (add_object KConfigMap manifest_cm
      (add_object KJob (complete_job "r-api-pre")
        (add_object KJob (complete_job "r-vol-n1")
          (add_object KJob (complete_job "r-api-workload") base_cluster)))).
Definition last_trace : list kevent := last_restore.1.1.
Definition last_result : reconcile_result := last_restore.1.2.
Lemma last_runs : runs (Reconcile "" restore_req) last_trace last_result.
Proof. by eapply (run_runs _ _ last_restore). Qed.

Definition launched (tr : list kevent) : list string :=
  (λ j, om_Name (job_Meta j)) <$> jobs_created tr.

Example restore_runs_pipeline :
  launched fetch_trace = ["r-api-fetch"] ∧ launched volume_trace = ["r-vol-n1"] ∧
  launched last_trace = [] ∧ last_result = no_requeue.
Proof. by vm_compute. Qed.

(** ** What the reconcile may write *)

(** The writes of a restore after [h], object by object: everything lands in the target
    namespace, apart from the namespace itself and one ClusterRoleBinding to the
    narrow role; the broad role is only ever bound inside the target; a secret is the
    copy of the repo's credentials, new or over the copy that was found under its
    key in the target; an owner reference only exists when the restore lives in the
    target namespace. *)
Definition write_scope (h : list kevent) (rs : PBSRestore) (c : call) : Prop :=
  let target := rs_TargetNamespace (rt_Spec rs) in
  match c with
  | CCreate KNamespace o => om_Name (namespace_Meta o) = target
  | CCreate KServiceAccount o =>
      om_Namespace (sa_Meta o) = target ∧ om_Name (sa_Meta o) = restoreSA
  | CCreate KRoleBinding o =>
      om_Namespace (rb_Meta o) = target ∧ rr_Name (rb_RoleRef o) = restoreRoleName ∧
      rb_Subjects o = [mkSubject "ServiceAccount" restoreSA target]
  | CCreate KClusterRoleBinding o =>
      rr_Name (crb_RoleRef o) = restoreClusterRoleName ∧
      crb_Subjects o = [mkSubject "ServiceAccount" restoreSA target]
  | CCreate KJob o =>
      om_Namespace (job_Meta o) = target ∧
      ps_ServiceAccountName (job_pod o) = restoreSA ∧
      (target ≠ om_Namespace (rt_Meta rs) → om_OwnerReferences (job_Meta o) = [])
  | CPatch KConfigMap before after =>
      read_configmap h rs before ∧
      om_Namespace (cm_Meta before) = om_Namespace (rt_Meta rs) ∧ cm_Data after = cm_Data before
  | CCreate KSecret s => secret_scope h rs true s
  | CUpdate KSecret s => secret_scope h rs false s
  | CStatusPatch KPBSRestore before after =>
      before = rs ∧ rt_Meta after = rt_Meta rs ∧ rt_Spec after = rt_Spec rs
  | _ => False
  end.

Lemma stage_build_meta rs spec groups st :
  job_Meta (stage_build rs spec groups st) =
  newMeta (rjsp_Name spec) (rjsp_Namespace spec)
    (<["app.kubernetes.io/managed-by" := "pbs-operator"]>
      (<["pbsrestore" := rjsp_Restore spec]> {[ManagedLabel := "true"]})).
Proof.
  destruct st; try done. cbn [stage_build]. unfold BuildRestoreVolumeJob.
  by destruct (restore_pvc_parts _ _) as [[vs ms] args].
Qed.

Lemma stage_build_sa rs spec groups st :
  ps_ServiceAccountName (job_pod (stage_build rs spec groups st)) = rjsp_ServiceAccount spec.
Proof.
  destruct st; try done. cbn [stage_build]. unfold BuildRestoreVolumeJob.
  by destruct (restore_pvc_parts _ _) as [[vs ms] args].
Qed.

Section safety.
Context `{KL : KubeLib} `{YL : YamlLib} `{SS : SortSlice} {SL : SortSliceLaws}.
Context (AgentImage : string) (req : NamespacedName).

Lemma restore_lookup_ok tr res i c (a : resp c) :
  runs (Reconcile AgentImage req) tr res → tr !! i = Some (ev c a) →
  restore_call_ok AgentImage req (take i tr) c.
Proof using SL. intros Hr Hi. eapply wp_lookup; [apply wp_restore_Reconcile|exact Hr|exact Hi]. Qed.

Lemma owned_job_scope rs repoSecret groups st j :
  owned_job rs (stage_name rs (stage_suffix st))
    (stage_build rs (restore_spec AgentImage rs repoSecret) groups st) j →
  ∀ h, write_scope h rs (CCreate KJob j).
Proof.
  unfold owned_job. cbv zeta. rewrite !stage_build_meta. cbn [restore_spec rjsp_Namespace newMeta om_Namespace].
  pose proof (stage_build_sa rs (restore_spec AgentImage rs repoSecret) groups st) as Hsa.
  case_decide as Hns.
  - intros (refs & _ & ->) h. split_and!; [done|exact Hsa|done].
  - intros -> h. split_and!; [done|exact Hsa|done].
Qed.

(** C3: the pipeline order: a restore Job is created only for a valid, unfinished
    restore whose repo is Ready, when every earlier stage is done (the fetch and
    its ConfigMap before the pre-apply; both before the volumes; and every
    volume Job of the plan before the workloads), when the API server has just
    answered that the Job does not exist and the status has no record of it, and
    at most once per reconcile. *)
Theorem restore_job_gate tr res i j a :
  runs (Reconcile AgentImage req) tr res → tr !! i = Some (ev (CCreate KJob j) a) →
  job_create_ok AgentImage req (take i tr) j.
Proof using SL. apply (restore_lookup_ok tr res i (CCreate KJob j)). Qed.

(** C4: the status of a restore: each patch is the only one of its reconcile and
    starts from the status that was read, which is not terminal; the phase in it is
    the one that was read (on a hold; a new restore becomes StagingAPI), a terminal
    one, or that of the stage the restore waits for, whose earlier stages are done
    and whose Job was seen unfinished or has just been asked for, so that a phase in
    flight never goes back but to a stage that is open; start and completion are set
    once, the completion exactly with a terminal phase; no recorded Job is
    forgotten; and Completed is written only when every stage of the pipeline, down
    to the workload apply, is done. *)
Theorem restore_phase_machine tr res i before after a :
  runs (Reconcile AgentImage req) tr res →
  tr !! i = Some (ev (CStatusPatch KPBSRestore before after) a) →
  patch_ok req (take i tr) before after.
Proof using SL. apply (restore_lookup_ok tr res i (CStatusPatch KPBSRestore before after)). Qed.

(** C8: least privilege and reach: every write of the reconcile is within
    [write_scope] of the restore it works on: new objects land in the target
    namespace (the namespace itself and one binding to the narrow role apart), the
    broad role is bound only there, a secret that is written holds exactly the
    contract keys of the repo's source secret and is the copy in the target
    namespace, and of an existing object only that copy, the restore's own ConfigMap
    and its own status are ever changed. *)
Theorem restore_write_scope tr res i c a :
  runs (Reconcile AgentImage req) tr res → tr !! i = Some (ev c a) → is_write c = true →
  ∃ rs, working_on req (take i tr) rs ∧ write_scope (take i tr) rs c.
Proof using SL.
  intros Hr Hi Hw. pose proof (restore_lookup_ok _ _ _ _ _ Hr Hi) as Hc.
  destruct c as [| |[] o|[] o|[] o o'|[] o o'| | | | | | | | | | | |]; try done.
  - destruct Hc as (rs & Hwk & _ & Hs). by exists rs.
  - destruct Hc as (rs & sec & groups & st & Hj & Hwk & _). exists rs. split; [done|].
    by eapply owned_job_scope.
  - destruct Hc as (rs & Hwk & _ & ->). by exists rs.
  - destruct Hc as (rs & Hwk & _ & ->). by exists rs.
  - destruct Hc as (rs & Hwk & _ & ->). by exists rs.
  - destruct Hc as (rs & Hwk & _ & ->). by exists rs.
  - destruct Hc as (rs & Hwk & _ & Hs). by exists rs.
  - destruct Hc as (rs & Hwk & _ & Hcm). by exists rs.
  - destruct Hc as (Hwk & _ & Hm & Hs & _). by exists o.
Qed.

(** A reconcile launches at most one Job. *)
Theorem restore_one_job tr res :
  runs (Reconcile AgentImage req) tr res → (length (jobs_created tr) ≤ 1)%nat.
Proof using SL.
  intros Hr. apply Nat.nlt_ge. intros Hlt.
  destruct (jobs_created tr) as [|j1 [|j2 js]] eqn:Hjs; cbn in Hlt; [lia..|].
  destruct (split_second_job _ _ _ _ Hjs) as (i & a & Hi & Hne).
  apply Hne. by destruct (restore_lookup_ok _ _ _ _ _ Hr Hi) as (? & ? & ? & ? & _ & _ & _ & _ & _ & _ & ?).
Qed.

(** A restore is never forgotten: no requeue only when the object is gone,
    was already terminal, or has just reached a terminal phase that the server
    accepted. *)
Theorem restore_result tr res :
  runs (Reconcile AgentImage req) tr res → reconciled req tr res.
Proof using SL. intros Hr. apply (wp_runs _ _ _ _ _ (wp_restore_Reconcile AgentImage req) Hr). Qed.
End safety.

Lemma restore_job_gate_witness :
  ∃ j a, volume_trace !! 18%nat = Some (ev (CCreate KJob j) a) ∧
    job_create_ok "" restore_req (take 18 volume_trace) j.
Proof.
  at_index volume_trace 18%nat ltac:(fun c a => lazymatch c with CCreate KJob ?j =>
    exists j, a; assert (Hi : volume_trace !! 18%nat = Some (ev c a)) by (vm_cast_no_check (eq_refl (Some (ev (resp := resp) c a))));
    split; [exact Hi|exact (restore_job_gate _ _ _ _ _ _ _ volume_runs Hi)] end).
Defined.

Lemma restore_phase_machine_witness :
  ∃ before after a, last_trace !! 22%nat = Some (ev (CStatusPatch KPBSRestore before after) a) ∧
    rest_Phase (rt_Status after) = RestorePhaseCompleted ∧
    patch_ok restore_req (take 22 last_trace) before after.
Proof.
  at_index last_trace 22%nat ltac:(fun c a => lazymatch c with CStatusPatch KPBSRestore ?b ?b' =>
    exists b, b', a; assert (Hi : last_trace !! 22%nat = Some (ev c a)) by (vm_cast_no_check (eq_refl (Some (ev (resp := resp) c a))));
    split; [exact Hi|split; [reflexivity|
      exact (restore_phase_machine _ _ _ _ _ _ _ _ last_runs Hi)]] end).
Defined.

Lemma restore_write_scope_witness :
  ∃ o a, fetch_trace !! 12%nat = Some (ev (CCreate KClusterRoleBinding o) a) ∧
    is_write (CCreate KClusterRoleBinding o) = true ∧
    ∃ rs, working_on restore_req (take 12 fetch_trace) rs ∧
          write_scope (take 12 fetch_trace) rs (CCreate KClusterRoleBinding o).
Proof.
  at_index fetch_trace 12%nat ltac:(fun c a => lazymatch c with CCreate KClusterRoleBinding ?o =>
    exists o, a; assert (Hi : fetch_trace !! 12%nat = Some (ev c a)) by (vm_cast_no_check (eq_refl (Some (ev (resp := resp) c a))));
    split; [exact Hi|split; [reflexivity|
      exact (restore_write_scope _ _ _ _ _ _ _ fetch_runs Hi eq_refl)]] end).
Defined.

Lemma restore_one_job_witness :
  launched volume_trace = ["r-vol-n1"] ∧ (length (jobs_created volume_trace) ≤ 1)%nat.
Proof. split; [by vm_compute|exact (restore_one_job _ _ _ _ volume_runs)]. Defined.

Lemma restore_result_witness :
  last_result = no_requeue ∧ reconciled restore_req last_trace last_result ∧
  reconciled restore_req volume_trace volume_result.
Proof.
  split; [by vm_compute|].
  split; [exact (restore_result _ _ _ _ last_runs)|exact (restore_result _ _ _ _ volume_runs)].
Defined.

(** ** The copy of the repo secret *)

Section secret.
Context `{KubeLib}.

(** The restore Jobs get the credentials of the repo and nothing more:
    whatever [ensureRepoSecret] writes holds exactly the contract keys of the
    secret the repo refers to and carries the managed label, in the target
    namespace; it writes at most once; and when it succeeds without a write, the
    copy it found already agrees with the source on every contract key. *)
Theorem restore_secret_spec rs repo tr res :
  runs (ensureRepoSecret rs repo) tr res →
  secret_copied (rsp_SecretRef (repo_Spec repo)) (rs_TargetNamespace (rt_Spec rs))
    ("pbsrepo-" +:+ om_Name (repo_Meta repo)) tr res.
Proof.
  intros Hr. set (name := "pbsrepo-" +:+ om_Name (repo_Meta repo)).
  set (ns := rs_TargetNamespace (rt_Spec rs)). set (ref := rsp_SecretRef (repo_Spec repo)).
  cut (wp (λ _ _, True) (ensureRepoSecret rs repo) (secret_copied ref ns name) []).
  { intros Hwp. apply (wp_runs _ _ _ _ _ Hwp Hr). }
  clear Hr tr res. unfold ensureRepoSecret. fold name ns ref. apply wp_bind.
  apply (wp_post _ _ (λ h srcNS, secret_writes h = [] ∧ source_key ref (mkNN srcNS (ref_Name ref)))).
  { case_bool_decide; [|done]. by split. }
  intros h srcNS _ [Hh Hkey]. apply wp_bind. split; [done|]. intros [e|src]; cbn [wp].
  { destruct (IsNotFound e); by apply secret_copied_none. }
  set (key := mkNN srcNS _) in *. set (h1 := h ++ [_]).
  assert (Hh1 : secret_writes h1 = []) by (unfold h1; by rewrite secret_writes_app, Hh).
  assert (Hsrc : found_secret h1 key src) by apply elem_of_snoc.
  apply wp_bind. split; [done|]. intros [e|old]; cbn [wp].
  - destruct (IsNotFound e); [|by apply secret_copied_none].
    apply wp_bind. split; [done|].
    intros [e'|s]; cbn [wp]; [destruct (IsAlreadyExists e')|].
    all: apply (secret_copied_write _ _ _ _ _ _ Hh1 Hkey Hsrc) with
      (s := mkSecret (newMeta name ns {[ManagedLabel := "true"]}) (contract_data (sec_Data src)));
      try reflexivity; by left.
  - destruct (contractEqual _ _ && _) eqn:Heq.
    + apply andb_true_iff in Heq as [Heq _]. by eapply secret_copied_found.
    + unfold api. apply wp_bind, wp_bind. split; [done|]. intros [e|s]; cbn [wp].
      all: apply (secret_copied_write _ _ _ _ _ _ Hh1 Hkey Hsrc) with
        (s := mkSecret (set_Labels (sec_Meta old) (<[ManagedLabel := "true"]> (om_Labels (sec_Meta old))))
                (contract_data (sec_Data src))); try reflexivity;
        [apply lookup_insert_eq|right; by exists old].
Qed.
End secret.

Lemma restore_secret_spec_witness :
  let run := exec serve (ensureRepoSecret (example_restore None) example_repo) base_cluster in
  run.1.2 = inr (inr "pbsrepo-repo") ∧ length (secret_writes run.1.1) = 1%nat ∧
  secret_copied (rsp_SecretRef (repo_Spec example_repo)) "apps" "pbsrepo-repo" run.1.1 run.1.2.
Proof.
  intros run. split; [by vm_compute|]. split; [by vm_compute|].
  apply (restore_secret_spec (example_restore None) example_repo run.1.1 run.1.2). apply exec_runs.
Defined.

(** ** The spec *)

(** A restore spec is accepted exactly when the three fields are set and the
    snapshot reference has three parts, [type/id/time]; a rejection names the
    field. *)
Theorem validateSpec_spec rs :
  (validateSpec rs = "" ↔
   rs_RepoRef (rt_Spec rs) ≠ "" ∧ rs_SnapshotRef (rt_Spec rs) ≠ "" ∧
   rs_TargetNamespace (rt_Spec rs) ≠ "" ∧
   ∃ t i d, SplitByte (rs_SnapshotRef (rt_Spec rs)) "/" = [t; i; d]) ∧
  (validateSpec rs ≠ "" →
   HasPrefix (validateSpec rs) "repoRef" = true ∨ HasPrefix (validateSpec rs) "snapshotRef" = true ∨
   HasPrefix (validateSpec rs) "targetNamespace" = true).
Proof.
  unfold validateSpec. repeat case_bool_decide; cbn [negb]; (split; [|by auto]).
  - naive_solver.
  - naive_solver.
  - naive_solver.
  - split; [intros _|done]. split_and!; [done..|].
    destruct (SplitByte _ _) as [|t [|i [|d [|]]]]; try done. by exists t, i, d.
  - split; [done|]. intros (_ & _ & _ & t & i & d & Heq). rewrite Heq in *. done.
Qed.

Lemma validateSpec_spec_witness :
  validateSpec (example_restore None) = "" ∧
  let bad := mkRestore (meta0 "backups" "r") (mkRestoreSpec "repo" "host/x" "apps" [] [])
               (rt_Status (example_restore None)) in
  validateSpec bad ≠ "" ∧
  (HasPrefix (validateSpec bad) "repoRef" = true ∨ HasPrefix (validateSpec bad) "snapshotRef" = true ∨
   HasPrefix (validateSpec bad) "targetNamespace" = true).
Proof.
  split; [by vm_compute|]. intros bad. assert (Hb : validateSpec bad ≠ "") by by vm_compute.
  split; [exact Hb|exact (proj2 (validateSpec_spec bad) Hb)].
Defined.

(** What a backup records can be restored: every reference the operator
    composes for a snapshot (of a type and an id without a slash) is accepted by
    the validation of a restore that names a repo and a target. *)
Theorem composed_ref_restorable rs t i time :
  byte_in "/" t = false → byte_in "/" i = false →
  rs_SnapshotRef (rt_Spec rs) = ComposeSnapshotRef t i time →
  rs_RepoRef (rt_Spec rs) ≠ "" → rs_TargetNamespace (rt_Spec rs) ≠ "" →
  validateSpec rs = "".
Proof.
  intros Ht Hi Href Hr Hn. unfold validateSpec. rewrite Href.
  rewrite (ComposeSnapshotRef_split _ _ _ Ht Hi).
  assert (Hne : ComposeSnapshotRef t i time ≠ "").
  { unfold ComposeSnapshotRef. intros Heq. apply (f_equal String.length) in Heq.
    rewrite !length_append in Heq. cbn in Heq. lia. }
  rewrite (bool_decide_eq_false_2 (rs_RepoRef _ = "")) by done.
  rewrite (bool_decide_eq_false_2 (ComposeSnapshotRef _ _ _ = "")) by done.
  by rewrite (bool_decide_eq_false_2 (rs_TargetNamespace _ = "")) by done.
Qed.

Lemma composed_ref_restorable_witness :
  let rs := mkRestore (meta0 "backups" "r")
    (mkRestoreSpec "repo" (ComposeSnapshotRef "host" "daily-n1" (QArith_base.inject_Z 1700000000)) "apps" [] [])
    (rt_Status (example_restore None)) in
  rs_SnapshotRef (rt_Spec rs) = "host/daily-n1/2023-11-14T22:13:20Z" ∧ validateSpec rs = "".
Proof.
  intros rs. split; [by vm_compute|].
  by apply (composed_ref_restorable rs "host" "daily-n1" (QArith_base.inject_Z 1700000000)).
Defined.

(** ** The volume plan *)

(** The node of a claim: the pin of its workload, else the fallback. *)
Definition volume_node (docs : list ParsedDoc) (fallback pvc : string) : string :=
  if decide (NodeForPVC docs pvc = "") then fallback else NodeForPVC docs pvc.

Lemma group_volumes_gen docs fallback pvcs groups :
  match group_volumes docs fallback pvcs groups with
  | inr groups' =>
      Forall (λ pvc, volume_node docs fallback pvc ≠ "") pvcs ∧
      (∀ node, default [] (groups' !! node) =
         default [] (groups !! node) ++ filter (λ pvc, volume_node docs fallback pvc = node) pvcs) ∧
      (∀ node, is_Some (groups' !! node) ↔
         is_Some (groups !! node) ∨ ∃ pvc, pvc ∈ pvcs ∧ volume_node docs fallback pvc = node)
  | inl (StepHold reason _) =>
      reason = reasonUnplaceable ∧ fallback = "" ∧ ∃ pvc, pvc ∈ pvcs ∧ NodeForPVC docs pvc = ""
  | inl (StepError _) => False
  end.
Proof.
  revert groups. induction pvcs as [|pvc pvcs IH]; intros groups; cbn [group_volumes].
  { split_and!; [constructor| |].
    - intros node. by rewrite app_nil_r.
    - intros node. split; [by left|]. intros [|(pvc & Hin & _)]; [done|].
      by apply not_elem_of_nil in Hin. }
  destruct (bool_decide (NodeForPVC docs pvc = "") && bool_decide (fallback = "")) eqn:Hb.
  { apply andb_true_iff in Hb as [Hp%bool_decide_eq_true Hf%bool_decide_eq_true].
    split_and!; [done..|]. exists pvc. split; [by left|done]. }
  set (node := if bool_decide _ then fallback else _).
  assert (Hnode : volume_node docs fallback pvc = node ∧ node ≠ "").
  { unfold node, volume_node. apply andb_false_iff in Hb.
    case_decide as Hp; [rewrite bool_decide_eq_true_2 by done|by rewrite bool_decide_eq_false_2].
    split; [done|]. destruct Hb as [Hb%bool_decide_eq_false|Hb%bool_decide_eq_false]; done. }
  destruct Hnode as [Hv Hne]. clearbody node.
  specialize (IH (<[node := default [] (groups !! node) ++ [pvc]]> groups)).
  destruct (group_volumes _ _ _ _) as [[reason msg|e]|groups']; [|done|].
  - destruct IH as (-> & -> & pvc' & Hin & Hp). split_and!; [done..|]. exists pvc'. by split; [right|].
  - destruct IH as (Hall & Hg & Hd). split_and!.
    + constructor; [by rewrite Hv|done].
    + intros n. rewrite Hg, filter_cons, Hv. destruct (decide (node = n)) as [->|Hn].
      * rewrite lookup_insert_eq. cbn. by rewrite <- app_assoc.
      * by rewrite lookup_insert_ne.
    + intros n. rewrite Hd. destruct (decide (node = n)) as [->|Hn].
      * rewrite lookup_insert_eq. split; [|by left]. intros _. right. exists pvc. by split; [left|].
      * rewrite lookup_insert_ne by done. setoid_rewrite elem_of_cons. naive_solver.
Qed.

(** C37: the volume plan is a partition: each claim goes to the Job of the node its
    workload pins, or of the first node when nothing pins it; the group of a
    node lists exactly its claims, in plan order; there is a Job for exactly the
    nodes with a claim; and planning fails only for want of any node. *)
Theorem group_volumes_partition docs fallback pvcs :
  match group_volumes docs fallback pvcs ∅ with
  | inr groups =>
      (∀ node, default [] (groups !! node) = filter (λ pvc, volume_node docs fallback pvc = node) pvcs) ∧
      (∀ node, is_Some (groups !! node) ↔ ∃ pvc, pvc ∈ pvcs ∧ volume_node docs fallback pvc = node) ∧
      groups !! "" = None
  | inl (StepHold reason _) =>
      reason = reasonUnplaceable ∧ fallback = "" ∧ ∃ pvc, pvc ∈ pvcs ∧ NodeForPVC docs pvc = ""
  | inl (StepError _) => False
  end.
Proof.
  pose proof (group_volumes_gen docs fallback pvcs ∅) as Hg.
  destruct (group_volumes _ _ _ _) as [[reason msg|e]|groups]; [done|done|].
  destruct Hg as (Hall & Hg & Hd).
  assert (Hd' : ∀ node, is_Some (groups !! node) ↔ ∃ pvc, pvc ∈ pvcs ∧ volume_node docs fallback pvc = node).
  { intros node. rewrite Hd, lookup_empty. split; [|by right]. by intros [[]|]. }
  split_and!; [|done|].
  - intros node. by rewrite Hg, lookup_empty.
  - apply eq_None_not_Some. intros (pvc & Hin & Hv)%Hd'. rewrite Forall_forall in Hall. by apply (Hall pvc).
Qed.

(** The name suffix is lost when a long name is hashed: the workload Job of such
    a restore is recorded under the staging phase. *)
Example hashed_workload_phase :
  let rs := mkRestore (meta0 "backups" "restore-of-the-production-database-cluster-two-of-three")
    (mkRestoreSpec "repo" "host/daily-n1/T" "apps" [] []) (rt_Status (example_restore None)) in
  jobPhaseByName rs (stage_name rs "api-workload") = "StagingAPI".
Proof. by vm_compute. Qed.
