(* ===== verification/RestoreProgress.v ===== *)
(** * Progress of a PBSRestore

    What a reconcile that ends without an error has done: it finished the restore,
    launched the next Job, found a Job still running, or was held for a cause that
    it observed. *)

From S2P Require Import Prelude GoLib Sort Kube Api Doc Client Trace JobBuild RestorePlan.
From S2P Require Import ControllerLib RestoreCtl RestoreSafety Cluster RestoreProps.
From stdpp Require Import options.

Local Open Scope Z_scope.

Section progress.
Context `{KL : KubeLib} `{YL : YamlLib} `{SS : SortSlice} {SL : SortSliceLaws}.
Context (AgentImage : string) (req : NamespacedName).

Definition launched_job (h : list kevent) : Prop := ∃ j j', saw h (CCreate KJob j) (inr j').

(** A Job has not finished: it was read so, or another reconcile created it. *)
Definition job_pending (h : list kevent) : Prop :=
  (∃ key job, saw h (CGet KJob key) (inr job) ∧
     jobCondition job JobFailed = false ∧ jobCondition job JobComplete = false) ∨
  ∃ j e, saw h (CCreate KJob j) (inl e) ∧ IsAlreadyExists e = true.

(** The reason to hold a restore, with what was observed *)
Inductive blocked (h : list kevent) : string → Prop :=
  | blocked_repo_gone key e :
      saw h (CGet KPBSRepo key) (inl e) → IsNotFound e = true → blocked h reasonRepoNotReady
  | blocked_repo_unready key repo :
      saw h (CGet KPBSRepo key) (inr repo) →
      IsStatusConditionTrue (rst_Conditions (repo_Status repo)) condReady = false → blocked h reasonRepoNotReady
  | blocked_terminating key ns :
      saw h (CGet KNamespace key) (inr ns) → is_Some (om_DeletionTimestamp (namespace_Meta ns)) →
      blocked h reasonTerminating
  | blocked_no_secret key e :
      saw h (CGet KSecret key) (inl e) → IsNotFound e = true → blocked h reasonSecretCopy
  | blocked_no_manifests key e :
      saw h (CGet KConfigMap key) (inl e) → IsNotFound e = true → blocked h reasonStagingAbsent
  | blocked_job_deleted rs key e :
      saw h (CGet KPBSRestore req) (inr rs) → saw h (CGet KJob key) (inl e) → IsNotFound e = true →
      knownJob rs (nn_Name key) = true → recordedJobState rs (nn_Name key) ≠ "complete" → blocked h reasonJobDeleted
  | blocked_no_nodes nodes :
      saw h (CList KNode None SelAll) (inr nodes) →
      (∀ n, head (sort_Strings ((λ n, om_Name (node_Meta n)) <$> nodes)) = Some n → n = "") → blocked h reasonUnplaceable.

(** The condition says so. *)
Definition held_for (h : list kevent) (reason : string) : Prop :=
  ∃ conds c cs, saw h (CSetStatusCondition conds c) cs ∧
    c_Type c = condReady ∧ c_Status c = ConditionFalse ∧ c_Reason c = reason.
Definition held (h : list kevent) : Prop := ∃ reason, blocked h reason ∧ held_for h reason.

Definition moving (h : list kevent) : Prop := launched_job h ∨ job_pending h.

Lemma blocked_app h t reason : blocked h reason → blocked (h ++ t) reason.
Proof. destruct 1; [eapply blocked_repo_gone|eapply blocked_repo_unready|eapply blocked_terminating|
  eapply blocked_no_secret|eapply blocked_no_manifests|eapply blocked_job_deleted|eapply blocked_no_nodes];
  eauto with traces. Qed.
Lemma moving_app h t : moving h → moving (h ++ t).
Proof.
  intros [(j & j' & Hs)|[(key & job & Hs & Hj)|(j & e & Hs & He)]].
  - left. exists j, j'. by apply saw_app.
  - right. left. exists key, job. by split; [apply saw_app|].
  - right. right. exists j, e. by split; [apply saw_app|].
Qed.

(** The outcome of a reconcile so far: it moved the restore, is held for a cause, or
    takes it out of the queue. *)
Definition progressed (h : list kevent) (res : reconcile_result) : Prop :=
  match res with
  | inl _ => True
  | inr x => RequeueAfter x = 0 ∨ moving h ∨ held h
  end.
Definition step_progressed (h : list kevent) (res : step_error + bool) : Prop :=
  match res with
  | inl (StepHold reason _) => reason = reasonFailed ∨ blocked h reason
  | inr false => moving h
  | _ => True
  end.

Lemma wp_held_progress rs reason message h :
  blocked h reason → wp anything (holdRestore rs reason message requeueWait) progressed h.
Proof.
  intros Hb. unfold holdRestore, recordRestore. apply wp_bind, wp_bind. split; [done|]. intros cs.
  apply wp_anything. intros t s. apply wp_anything. intros t1 o. apply wp_anything.
  intros t2 [e|x]; [done|]. right. right. exists reason. split; [by do 4 apply blocked_app|].
  eexists _, _, cs. split; [do 3 apply saw_app; apply saw_last|done].
Qed.

Lemma wp_failed_progress rs reason message h :
  wp anything (failRestore rs reason message) progressed h.
Proof.
  unfold failRestore. apply wp_bind, wp_anything. intros t [e|[rs' tr]]; [done|].
  apply wp_bind, wp_anything. intros t' []. by left.
Qed.
Lemma wp_completed_progress rs h : wp anything (completeRestore rs) progressed h.
Proof.
  unfold completeRestore. apply wp_bind, wp_anything. intros t [e|[rs' tr]]; [done|].
  apply wp_bind, wp_anything. intros t' []. by left.
Qed.

Lemma wp_await_progress (I : list kevent → Prop) rs phase step next h :
  (∀ h e, I h → I (h ++ [e])) → I h →
  (∀ h, I h → wp anything step step_progressed h) →
  (∀ h, I h → wp anything next progressed h) →
  wp anything (await rs phase step next) progressed h.
Proof.
  intros HI Hh Hs Hn. unfold await. apply wp_bind. eapply wp_post; [by apply Hs|].
  intros h' [[reason msg|e]|[|]] [t ->] Hp; cbn [requeueOrHold]; try done.
  - case_bool_decide as Hf; [apply wp_failed_progress|].
    apply wp_held_progress. by destruct Hp.
  - apply Hn. clear Hp. revert h Hh. induction t as [|e t IH]; intros h Hh; [by rewrite app_nil_r|].
    replace (h ++ e :: t) with ((h ++ [e]) ++ t) by by rewrite <- app_assoc. by apply IH, HI.
  - apply wp_bind, wp_anything. intros t' [e|[]]; [done|]. right. left. by apply moving_app.
Qed.

Definition reading (rs : PBSRestore) (h : list kevent) : Prop := saw h (CGet KPBSRestore req) (inr rs).

Lemma wp_ensureJob_progress rs name build h :
  reading rs h → wp anything (ensureJob rs name build) step_progressed h.
Proof.
  intros Hrs. unfold ensureJob. apply wp_bind. split; [done|]. intros [e|job]; cbn [wp].
  - destruct (IsNotFound e) eqn:He; cbn [negb]; [|done]. destruct (knownJob rs name) eqn:Hk.
    { case_bool_decide as Hr; [done|]. right. eapply blocked_job_deleted; eauto with traces. }
    set (h1 := h ++ [_]). assert (Hcreate : ∀ j,
      wp anything (created ← Create KJob j;
        match created with
        | inl e => if negb (IsAlreadyExists e) then mret (inl (StepError (ErrAPI e))) else mret (inr false)
        | inr _ => mret (inr false)
        end) step_progressed h1).
    { intros j. apply wp_bind. split; [done|]. intros [e'|j']; cbn [wp].
      - destruct (IsAlreadyExists e') eqn:He'; cbn [negb]; [|done]. right. right.
        exists j, e'. split; [apply saw_last|done].
      - left. exists j, j'. apply saw_last. }
    apply wp_bind. case_bool_decide; [|apply Hcreate].
    destruct (SetControllerReference _ _ _); [done|apply Hcreate].
  - destruct (jobCondition job JobFailed) eqn:Hf; [by left|].
    destruct (jobCondition job JobComplete) eqn:Hc; [done|]. right. left.
    eexists _, job. split; [apply saw_last|done].
Qed.

Lemma wp_ensure_volumes_progress rs spec groups nodes h :
  reading rs h → wp anything (ensure_volumes rs spec groups nodes) step_progressed h.
Proof.
  revert h. induction nodes as [|node nodes IH]; intros h Hrs; [done|]. cbn [ensure_volumes].
  apply wp_bind. eapply wp_post; [by apply wp_ensureJob_progress|].
  intros h' [e|[|]] [t ->] Hp; [exact Hp| |exact Hp]. apply IH. by apply saw_app.
Qed.

Lemma group_volumes_blocked docs pvcs groups fallback reason msg :
  group_volumes docs fallback pvcs groups = inl (StepHold reason msg) →
  fallback = "" ∧ reason = reasonUnplaceable.
Proof.
  revert groups. induction pvcs as [|pvc pvcs IH]; intros groups; cbn [group_volumes]; [done|].
  destruct (bool_decide (NodeForPVC docs pvc = "") && bool_decide (fallback = "")) eqn:Hb; [|apply IH].
  apply andb_true_iff in Hb as [_ Hb%bool_decide_eq_true]. by intros [= <- _].
Qed.

Lemma wp_ensureVolumeJobs_progress rs spec docs pvcs h :
  reading rs h → wp anything (ensureVolumeJobs rs spec docs pvcs) step_progressed h.
Proof.
  intros Hrs. unfold ensureVolumeJobs, firstNode, api. apply wp_bind, wp_bind, wp_bind.
  split; [done|]. intros [e|nodes]; [done|]. set (h1 := h ++ [_]).
  do 3 apply wp_ret. cbn beta iota.
  destruct (group_volumes _ _ _ _) as [[reason msg|e]|groups] eqn:Hg; [|done|].
  - apply group_volumes_blocked in Hg as [Hg ->]. right. eapply blocked_no_nodes; [apply saw_last|].
    intros n Hn. destruct (sort_Strings _); [done|]. by injection Hn as <-.
  - apply wp_ensure_volumes_progress. by apply saw_app.
Qed.

(** ** Reconcile *)

Lemma reading_app rs h t : reading rs h → reading rs (h ++ t).
Proof. apply saw_app. Qed.
Hint Resolve reading_app wp_ensureJob_progress wp_ensureVolumeJobs_progress wp_completed_progress
  wp_failed_progress : traces.

Lemma wp_workload_progress rs spec h :
  reading rs h → wp anything (reconcile_workload rs spec) progressed h.
Proof. intros Hrs. apply (wp_await_progress (reading rs)); eauto with traces. Qed.
Hint Resolve wp_workload_progress : traces.

Lemma wp_volumes_progress rs spec cm h :
  reading rs h → wp anything (reconcile_volumes rs spec cm) progressed h.
Proof.
  intros Hrs. unfold reconcile_volumes. destruct (ParseAPIManifests _ _); [eauto with traces|].
  destruct (PVCsFromDocs _); [eauto with traces|].
  apply (wp_await_progress (reading rs)); eauto with traces.
Qed.
Hint Resolve wp_volumes_progress : traces.

Lemma wp_stages_progress rs spec h :
  reading rs h → wp anything (reconcile_stages rs spec) progressed h.
Proof.
  intros Hrs. unfold reconcile_stages. apply (wp_await_progress (reading rs)); [by eauto with traces..|].
  clear h Hrs. intros h Hrs. apply wp_bind. split; [done|]. intros [e|cm]; cbn [wp].
  - destruct (IsNotFound e) eqn:He; [|done]. apply wp_held_progress.
    eapply blocked_no_manifests; [apply saw_last|done].
  - apply wp_bind, wp_anything. intros t cm'.
    apply (wp_await_progress (reading rs)); eauto with traces.
Qed.

Lemma wp_secret_progress rs repo h :
  reading rs h →
  wp anything (RestoreCtl.ensureRepoSecret rs repo)
    (λ h' res, reading rs h' ∧ match res with inr (inl _) => blocked h' reasonSecretCopy | _ => True end) h.
Proof.
  intros Hrs. unfold RestoreCtl.ensureRepoSecret. apply wp_bind, wp_anything. intros t srcNS.
  assert (Hend : ∀ t' (r : error + (string + string)), (∀ p, r ≠ inr (inl p)) →
    reading rs ((h ++ t) ++ t') ∧ match r with inr (inl _) => blocked ((h ++ t) ++ t') reasonSecretCopy | _ => True end).
  { intros t' [e|[p|name]] Hr; (split; [by do 2 apply reading_app|]); [done|by destruct (Hr p)|done]. }
  apply wp_bind. split; [done|]. intros [e|src]; cbn [wp].
  - destruct (IsNotFound e) eqn:He; [|by apply Hend]. split; [by do 2 apply reading_app|].
    eapply blocked_no_secret; [apply saw_last|done].
  - apply wp_bind. split; [done|]. intros [e|existing]; cbn [wp].
    + rewrite <- app_assoc. destruct (IsNotFound e); [|by apply Hend]. apply wp_bind. split; [done|].
      intros [e'|s]; cbn [wp]; [destruct (negb _)|]; rewrite <- app_assoc; by apply Hend.
    + rewrite <- app_assoc. destruct (_ && _); [by apply Hend|]. unfold api. apply wp_bind, wp_bind.
      split; [done|]. intros [e'|s]; cbn [wp]; rewrite <- app_assoc; by apply Hend.
Qed.

Lemma wp_reconcile_progress rs repo h :
  reading rs h → wp anything (reconcile_restore AgentImage rs repo) progressed h.
Proof.
  intros Hrs. unfold reconcile_restore, ensureTargetNamespace.
  apply wp_bind. eapply (wp_post _ _ (λ h' res, reading rs h' ∧ match res with
    inr (Some _) => blocked h' reasonTerminating | _ => True end)).
  { apply wp_bind. split; [done|]. intros [e|ns]; cbn [wp].
    - destruct (IsNotFound e); [|by split; [apply saw_app|]].
      apply wp_bind. split; [done|]. intros [e'|ns]; cbn [wp];
        [destruct (negb _)|]; (split; [by do 2 apply saw_app|done]).
    - split; [by apply saw_app|]. destruct (om_DeletionTimestamp _) eqn:Hd; [|done].
      eapply blocked_terminating; [apply saw_last|by rewrite Hd]. }
  intros h1 [e|[problem|]] _ [Hrs1 Hb]; [done|by apply wp_held_progress|]. apply wp_bind.
  eapply (wp_post _ _ (λ h' res, reading rs h' ∧ match res with
    inr (inl _) => blocked h' reasonSecretCopy | _ => True end)).
  { by apply wp_secret_progress. }
  intros h2 [e|[problem|repoSecret]] _ [Hrs2 Hb2]; [done|by apply wp_held_progress|].
  apply wp_bind, wp_anything. intros t [e|[]]; [done|]. by apply wp_stages_progress, reading_app.
Qed.

(** What [Reconcile] returns. *)
Lemma wp_Reconcile_progress : wp anything (Reconcile AgentImage req) progressed [].
Proof.
  unfold Reconcile. apply wp_bind. split; [done|]. intros [e|rs]; cbn [wp].
  { destruct (IsNotFound e); [by left|done]. }
  set (h1 := [] ++ [_]). assert (Hrs : reading rs h1) by apply saw_last.
  destruct (_ || _); [by left|]. destruct (negb _); [apply wp_failed_progress|].
  apply wp_bind. split; [done|]. intros [e|repo]; cbn [wp].
  - destruct (IsNotFound e) eqn:He; cbn [negb]; [|done]. apply wp_held_progress.
    eapply blocked_repo_gone; [apply saw_last|done].
  - destruct (IsStatusConditionTrue _ _) eqn:Hr; cbn [negb].
    + apply wp_reconcile_progress. by apply saw_app.
    + apply wp_held_progress. eapply blocked_repo_unready; [apply saw_last|done].
Qed.
End progress.

