(* ===== verification/RestoreLife.v ===== *)
(** * The life of a PBSRestore

    Its status over any number of reconciles ([Life]): what holds of every stored
    status, how it changes, and what the memory of Jobs is for. *)

From S2P Require Import Prelude GoLib Sort Kube Api Doc Client Trace JobBuild RestorePlan.
From S2P Require Import ControllerLib RestoreCtl RestoreSafety Cluster RestoreProps Life.
From stdpp Require Import options.

Local Open Scope Z_scope.

(** ** The server *)

Definition rwire (s : PBSRestoreStatus) : PBSRestoreStatus :=
  mkRestoreStatus (rest_Phase s) (wire_condition <$> rest_Conditions s)
    (wire_time <$> rest_StartedAt s) (wire_time <$> rest_CompletedAt s) (wire_list (rest_Jobs s)).

Definition rmerge_patch (before after stored : PBSRestoreStatus) : PBSRestoreStatus :=
  let b := rwire before in
  let a := rwire after in
  mkRestoreStatus
    (patch_field (rest_Phase b) (rest_Phase a) (rest_Phase stored))
    (patch_field (rest_Conditions b) (rest_Conditions a) (rest_Conditions stored))
    (patch_field (rest_StartedAt b) (rest_StartedAt a) (rest_StartedAt stored))
    (patch_field (rest_CompletedAt b) (rest_CompletedAt a) (rest_CompletedAt stored))
    (patch_field (rest_Jobs b) (rest_Jobs a) (rest_Jobs stored)).

Lemma rwire_twice s : rwire (rwire s) = rwire s.
Proof.
  unfold rwire. cbn [rest_Phase rest_Conditions rest_StartedAt rest_CompletedAt rest_Jobs].
  by rewrite !wire_times_twice, wire_list_twice, wire_conditions_twice.
Qed.

Lemma rmerge_patch_fresh s after : rwire s = s → rmerge_patch s after s = rwire after.
Proof.
  intros Hs. unfold rmerge_patch. cbv zeta. rewrite Hs, !patch_field_fresh. by destruct after.
Qed.

(** An event as the restore [req] sees it *)
Definition restore_view (req : NamespacedName) (e : kevent) : view PBSRestoreStatus :=
  match e with
  | existT c a =>
      match c return resp c → view PBSRestoreStatus with
      | CGet KPBSRestore key => λ a,
          if bool_decide (key = req)
          then VGet (match a with inr rs => Some (rt_Status rs) | inl _ => None end) else VOther
      | CStatusPatch KPBSRestore before after => λ a,
          VPatch (rt_Status before) (rt_Status after)
            (match a with inr rs => Some (rt_Status rs) | inl _ => None end)
      | _ => λ _, VOther
      end a
  end.

Section life.
Context `{KL : KubeLib} `{YL : YamlLib} `{SS : SortSlice} {SL : SortSliceLaws}.
Context (AgentImage : string) (req : NamespacedName).

Definition restore_step_life : PBSRestoreStatus → PBSRestoreStatus → Prop :=
  life (restore_view req) rmerge_patch (Reconcile AgentImage req).

(** A restore that was just created, and the statuses it can get *)
Definition new_rstatus (p : RestorePhase) : PBSRestoreStatus := mkRestoreStatus p [] None None None.
Definition rreachable (st : PBSRestoreStatus) : Prop :=
  ∃ p, (p = RestorePhaseUnset ∨ p = RestorePhaseNew) ∧ rtc restore_step_life (new_rstatus p) st.

(** ** One reconcile *)

Lemma no_patch_rview e : no_patch e → is_patch (restore_view req e) = false.
Proof using Type.
  destruct e as [c a]. destruct c; try done; intros Hn; destruct k; try done. cbn.
  by case_bool_decide.
Qed.

Lemma rview_patch e before after answer :
  restore_view req e = VPatch before after answer →
  ∃ b b' a, e = ev (CStatusPatch KPBSRestore b b') a ∧ before = rt_Status b ∧ after = rt_Status b'.
Proof using Type.
  destruct e as [c a]. destruct c as [k key| | | | |k b b'| | | | | | | | | | | |]; try done;
    destruct k; try done; cbn.
  - by case_bool_decide.
  - intros [= <- <- _]. by exists b, b', a.
Qed.

Lemma restore_patches_read :
  patches_read (restore_view req) (Reconcile AgentImage req) legal_restore.
Proof using SL.
  intros tr res i e before after answer Hr Hi Hv.
  apply rview_patch in Hv as (b & b' & a & -> & -> & ->).
  destruct (restore_lookup_ok _ _ _ _ _ _ _ Hr Hi) as ([Hh _] & Hn & _ & _ & Hl & _).
  split_and!; [..|done].
  - eapply Forall_impl; [exact Hn|]. intros e. apply no_patch_rview.
  - eexists. split; [exact Hh|]. cbn. by rewrite bool_decide_eq_true_2.
Qed.

(** ** All reconciles *)

(** What holds of every stored status. *)
Record rstatus_ok (st : PBSRestoreStatus) : Prop := {
  rok_wire : rwire st = st;
  rok_completed : rterminal (rest_Phase st) ↔ is_Some (rest_CompletedAt st);
}.

(** How a status changes over any number of reconciles. *)
Record revolves (st st' : PBSRestoreStatus) : Prop := {
  rev_terminal : rterminal (rest_Phase st) → st' = st;
  rev_started : ∀ t, rest_StartedAt st = Some t → rest_StartedAt st' = Some t;
  rev_completed : ∀ t, rest_CompletedAt st = Some t → rest_CompletedAt st' = Some t;
  rev_memory : remembers (rest_Jobs st) (rest_Jobs st');
}.

Lemma remembers_trans js1 js2 js3 : remembers js1 js2 → remembers js2 js3 → remembers js1 js3.
Proof using Type.
  intros H1 H2 x (y & Hy & <-)%H1. apply H2 in Hy as (z & Hz & <-). by exists z.
Qed.

Lemma revolves_refl st : revolves st st.
Proof using Type. split; [done..|]. intros x Hx. by exists x. Qed.
Lemma revolves_trans st1 st2 st3 : revolves st1 st2 → revolves st2 st3 → revolves st1 st3.
Proof using Type.
  intros [T1 S1 C1 M1] [T2 S2 C2 M2]. split; [|by eauto..|by eapply remembers_trans].
  intros Ht. rewrite <- (T1 Ht). apply T2. by rewrite (T1 Ht).
Qed.

Lemma slice_wire_list {A} (l : option (list A)) : slice (wire_list l) = slice l.
Proof using Type. by destruct l as [[|]|]. Qed.

Lemma restore_life_ok st st' :
  rstatus_ok st → restore_step_life st st' → rstatus_ok st' ∧ revolves st st'.
Proof using SL.
  intros [Hw Hc] Hs. destruct (life_cases _ _ _ _ _ _ restore_patches_read Hs) as [->|(after & Hl & ->)].
  { split; [done|apply revolves_refl]. }
  rewrite rmerge_patch_fresh by done. destruct Hl as [La Ls Lc Lt Ln Lm]. split; split; cbn.
  - apply rwire_twice.
  - rewrite fmap_is_Some. split; [apply Lt|]. intros Hi.
    assert (Hdec : rterminal (rest_Phase after) ∨ ¬ rterminal (rest_Phase after)).
    { unfold rterminal. destruct (rest_Phase after); naive_solver. }
    destruct Hdec as [|Hn]; [done|]. rewrite (Ln Hn) in Hi. by apply Hc in Hi.
  - done.
  - intros t Hst. rewrite (Ls t Hst), <- Hst. by rewrite <- Hw at 2.
  - intros t Hst. rewrite (Lc t Hst), <- Hst. by rewrite <- Hw at 2.
  - intros x Hx. rewrite slice_wire_list. by apply Lm.
Qed.

Lemma rtc_restore_life_ok st st' :
  rtc restore_step_life st st' → rstatus_ok st → rstatus_ok st' ∧ revolves st st'.
Proof using SL. apply rtc_life; [apply revolves_refl|apply revolves_trans|apply restore_life_ok]. Qed.

Lemma rreachable_ok st : rreachable st → rstatus_ok st.
Proof using SL.
  intros (p & Hp & Hr). apply (rtc_restore_life_ok _ _ Hr). split; cbn; [done|].
  split; [by intros [->| ->]; destruct Hp|by intros []].
Qed.

(** ** Reads that lag *)

(** What holds of every stored status and of any two of them, whatever the reads
    of the reconciles answered. *)
Definition rtimed (st : PBSRestoreStatus) : Prop :=
  rwire st = st ∧ (rterminal (rest_Phase st) → is_Some (rest_CompletedAt st)).
Definition keeps_rtimes (later earlier : PBSRestoreStatus) : Prop :=
  (is_Some (rest_StartedAt earlier) → is_Some (rest_StartedAt later)) ∧
  (is_Some (rest_CompletedAt earlier) → is_Some (rest_CompletedAt later)).

Lemma keeps_rtimes_trans s1 s2 s3 : keeps_rtimes s1 s2 → keeps_rtimes s2 s3 → keeps_rtimes s1 s3.
Proof using Type. unfold keeps_rtimes. naive_solver. Qed.

Lemma rmerge_patch_wire before after st :
  rwire st = st → rwire (rmerge_patch before after st) = rmerge_patch before after st.
Proof using Type.
  intros Hw. pose proof (rwire_twice after) as Ha.
  unfold rmerge_patch. destruct (rwire before) as [p1 k1 s1 c1 j1], (rwire after) as [p2 k2 s2 c2 j2].
  destruct st as [p0 k0 s0 c0 j0]. unfold rwire in Hw, Ha |- *. cbn in *.
  injection Hw as Hk Hs Hc Hj. injection Ha as Hk' Hs' Hc' Hj'.
  f_equal; unfold patch_field; case_decide; assumption.
Qed.

(** A patch over [st] of a status that was stored before it *)
Lemma stale_rpatch_ok before after st :
  rtimed before ∧ keeps_rtimes st before → rtimed st → legal_restore before after →
  rtimed (rmerge_patch before after st) ∧ keeps_rtimes (rmerge_patch before after st) st.
Proof using Type.
  intros [(Hwb & _) [Hks Hkc]] (Hw & Hc) Hl.
  assert (HS : ∀ t, rest_StartedAt (rwire before) = Some t → rest_StartedAt (rwire after) = Some t).
  { intros t. rewrite Hwb. intros Hb. cbn. rewrite (lr_started _ _ Hl t Hb), <- Hb. by rewrite <- Hwb at 2. }
  assert (HC : ∀ t, rest_CompletedAt (rwire before) = Some t → rest_CompletedAt (rwire after) = Some t).
  { intros t. rewrite Hwb. intros Hb. cbn. rewrite (lr_completed _ _ Hl t Hb), <- Hb. by rewrite <- Hwb at 2. }
  split; [split; [by apply rmerge_patch_wire|]|by split; intros; apply patch_field_keeps].
  unfold rmerge_patch. cbn [rest_Phase rest_CompletedAt]. unfold patch_field at 1.
  destruct (decide (rest_Phase (rwire before) = rest_Phase (rwire after))) as [He|He].
  { intros Hp; apply patch_field_keeps; auto. }
  intros Hp; apply patch_field_sets; rewrite ?Hwb; try done; cbn; rewrite fmap_is_Some.
  by apply (lr_completed_terminal _ _ Hl).
Qed.

Lemma cached_restore_ok seen seen' :
  history rtimed keeps_rtimes seen →
  cached_life (restore_view req) rmerge_patch (Reconcile AgentImage req) seen seen' →
  history rtimed keeps_rtimes seen'.
Proof using SL.
  intros Hh Hs.
  destruct (cached_life_cases _ _ _ _ _ _ restore_patches_read Hs) as (st & old & st' & -> & -> & Hst).
  assert (Hrefl : ∀ s, keeps_rtimes s s) by by split.
  destruct (history_seen _ _ _ _ st Hrefl Hh) as [Hok _]; [by left|].
  destruct Hst as [->|(before & after & Hin & Hl & ->)];
    (apply history_cons; [apply keeps_rtimes_trans|done|..]); try done;
    eapply (stale_rpatch_ok before after st); eauto; eapply history_seen; eauto.
Qed.

(** C7: the life of a PBSRestore over any number of reconciles, interrupted ones and
    ones whose patch failed or seemed to included.  As long as every reconcile reads
    the restore as it is stored: a stored status has a completion time exactly when
    its phase is terminal; from any status on, a terminal one never changes again, the
    times are kept once set, and every recorded Job stays recorded.  When a reconcile
    may also be answered any status the restore had before (a cache that lags), it
    still holds that every stored status that is terminal has a completion time, and
    that neither time is ever erased. *)
Theorem restore_life :
  (∀ st st', rreachable st → rtc restore_step_life st st' → rstatus_ok st' ∧ revolves st st') ∧
  (∀ p seen, p = RestorePhaseUnset ∨ p = RestorePhaseNew →
     rtc (cached_life (restore_view req) rmerge_patch (Reconcile AgentImage req)) [new_rstatus p] seen →
     history rtimed keeps_rtimes seen).
Proof using SL.
  split; [intros st st' Hr Hs; by apply rtc_restore_life_ok; [|apply rreachable_ok]|].
  intros p seen Hp Hr. eapply rtc_cached; [apply cached_restore_ok|exact Hr|].
  split; [|by repeat constructor]. constructor; [|done].
  split; cbn; [done|by intros [->| ->]; destruct Hp].
Qed.

(** C6: a step of a restore runs once: after a Job was recorded, no later reconcile
    that reads the restore as it is stored creates a Job of that name, even when the
    recorded one was deleted; the reconciles in between read it as it was stored
    too. *)
Theorem restore_job_once st st' tr rest res st'' i j a :
  rtc restore_step_life st st' →
  rreachable st → runs (Reconcile AgentImage req) (tr ++ rest) res →
  served (restore_view req) rmerge_patch st' tr st'' →
  tr !! i = Some (ev (CCreate KJob j) a) →
  om_Name (job_Meta j) ∉ rjs_Job <$> slice (rest_Jobs st).
Proof using SL.
  intros Hl Hre Hr Hs Hi Hin. destruct (rtc_restore_life_ok _ _ Hl (rreachable_ok _ Hre)) as [_ [_ _ _ Hm]].
  pose proof (lookup_lt_Some _ _ _ Hi) as Hlt.
  assert (Hi' : (tr ++ rest) !! i = Some (ev (CCreate KJob j) a)) by by rewrite lookup_app_l.
  destruct (restore_lookup_ok _ _ _ _ _ _ _ Hr Hi')
    as (rs & repoSecret & groups & stg & Hown & [Hh _] & _ & _ & _ & Hk & _).
  rewrite take_app_le in Hh by lia.
  assert (Hst : rt_Status rs = st').
  { eapply served_head; [exact Hs|exact Hh|]. cbn. by rewrite bool_decide_eq_true_2. }
  apply list_elem_of_fmap in Hin as (x & Hx & Hin). apply Hm in Hin as (y & Hy & Hyx).
  apply not_true_iff_false in Hk. apply Hk. unfold knownJob, recorded.
  apply existsb_exists. exists y. rewrite Hst. split; [by apply list_elem_of_In|].
  apply bool_decide_eq_true. by rewrite Hyx, <- Hx, (owned_job_name _ _ _ _ Hown).
Qed.
End life.

(** ** Runs *)

Definition fetched_status : PBSRestoreStatus := Eval vm_compute in
  default (new_rstatus RestorePhaseNew)
    (head (omap (λ c, match c with CStatusPatch KPBSRestore _ rs => Some (rt_Status rs) | _ => None end)
             (calls fetch_trace))).

Lemma fetch_life : restore_step_life "" restore_req (new_rstatus RestorePhaseNew) fetched_status.
Proof.
  apply (life_reconcile _ _ _ _ fetch_trace [] fetch_result).
  - rewrite app_nil_r. apply fetch_runs.
  - vm_compute. by repeat split.
Qed.
Lemma fetched_reachable : rreachable "" restore_req fetched_status.
Proof. exists RestorePhaseNew. split; [by right|apply rtc_once, fetch_life]. Qed.

(** A second reconcile whose cache still has the restore as new *)
Definition stale_answer (c : call) (s : cluster) : resp c * cluster :=
  match c with
  | CStatusPatch k before after =>
      match k return obj k → obj k → (apierror + obj k) * cluster with
      | KPBSRestore => λ before after,
          (inr (mkRestore (rt_Meta after) (rt_Spec after)
             (rmerge_patch (rt_Status before) (rt_Status after) fetched_status)), s)
      | k => λ before after, serve (CStatusPatch k before after) s
      end before after
  | c => serve c s
  end.
Definition stale_fetch :=
  exec stale_answer (Reconcile "" restore_req)
    (add_object KPBSRestore (mkRestore (meta0 "backups" "r") (rt_Spec (example_restore None))
                               (new_rstatus RestorePhaseNew))
       (add_object KNode (mkNode (meta0 "" "n1")) empty_cluster)).
Definition stale_stored : PBSRestoreStatus := Eval vm_compute in
  default fetched_status
    (head (omap (λ c, match c with
       | CStatusPatch KPBSRestore before after =>
           Some (rmerge_patch (rt_Status before) (rt_Status after) fetched_status)
       | _ => None end) (calls stale_fetch.1.1))).

Lemma stale_rlife :
  rtc (cached_life (restore_view restore_req) rmerge_patch (Reconcile "" restore_req))
    [new_rstatus RestorePhaseNew] [stale_stored; fetched_status; new_rstatus RestorePhaseNew].
Proof.
  eapply rtc_l; [|apply rtc_once].
  - apply (cached_reconcile _ _ _ _ _ fetch_trace [] fetch_result).
    + rewrite app_nil_r. apply fetch_runs.
    + vm_compute. split; [by left|]. by repeat split.
  - apply (cached_reconcile _ _ _ _ _ stale_fetch.1.1 [] stale_fetch.1.2).
    + rewrite app_nil_r. apply (exec_runs stale_answer (Reconcile "" restore_req)).
    + vm_compute. split; [by right; left|]. by repeat split.
Qed.

Lemma restore_life_witness :
  (rjs_Job <$> slice (rest_Jobs fetched_status) = ["r-api-fetch"] ∧
   rstatus_ok fetched_status ∧ revolves fetched_status fetched_status) ∧
  history rtimed keeps_rtimes [stale_stored; fetched_status; new_rstatus RestorePhaseNew].
Proof.
  destruct (restore_life "" restore_req) as [Hfresh Hcached]. split.
  - split; [reflexivity|]. apply (Hfresh _ _ fetched_reachable). apply rtc_refl.
  - apply (Hcached RestorePhaseNew); [by right|exact stale_rlife].
Defined.

(** The next reconcile, with the fetch done *)
Definition next_restore :=
  run_restore
    (mkRestore (meta0 "backups" "r") (rt_Spec (example_restore None)) fetched_status)
    (add_object KConfigMap manifest_cm (add_object KJob (complete_job "r-api-fetch") base_cluster)).
Definition next_run := Eval vm_compute in next_restore.1.
Lemma next_run_eq : next_restore.1 = next_run.
Proof. vm_cast_no_check (eq_refl next_run). Qed.
Lemma next_runs : runs (Reconcile "" restore_req) (next_run.1 ++ []) next_run.2.
Proof. rewrite app_nil_r, <- next_run_eq. by eapply (run_runs _ _ next_restore). Qed.

Example next_launches : (λ j, om_Name (job_Meta j)) <$> jobs_created next_run.1 = ["r-api-pre"].
Proof. by vm_compute. Qed.

Lemma restore_job_once_witness :
  ∃ j a, next_run.1 !! 16%nat = Some (ev (CCreate KJob j) a) ∧
    om_Name (job_Meta j) ∉ rjs_Job <$> slice (rest_Jobs fetched_status).
Proof.
  assert (Hs : ∃ st, served (restore_view restore_req) rmerge_patch fetched_status next_run.1 st).
  { eexists. vm_compute. by repeat split. }
  destruct Hs as [st Hs].
  at_index next_run.1 16%nat ltac:(fun c a => lazymatch c with CCreate KJob ?j =>
    exists j, a; assert (Hi : next_run.1 !! 16%nat = Some (ev c a)) by reflexivity;
    split; [exact Hi|exact (restore_job_once "" restore_req _ _ _ _ _ _ _ _ _ (rtc_refl _ _)
      fetched_reachable next_runs Hs Hi)] end).
Defined.
