(* ===== verification/ScheduleCtl.v ===== *)
(** * The schedule reconciler: internal/controller/pbsschedule_controller.go

    Every function of the file as a [kprog].  The cron library and the time zone
    are parameters ([CronLib]).  The catch-up loop of the source has no bound of
    its own, so it takes a fuel, and a [Reconcile] whose loop is still running when
    the fuel is spent answers [None]; [ScheduleProps] shows which schedules never
    do that and which always do. *)

From S2P Require Import Prelude GoLib Kube Api Client Json JobBuild ControllerLib.
From stdpp Require Import options.

Local Open Scope Z_scope.

(** [github.com/robfig/cron/v3], and [time.Time.Format(time.RFC3339)] in the
    local zone of the process *)
Class CronLib := {
  cron_schedule : Type;
  ParseStandard : string → error + cron_schedule;
  (** [Schedule.Next]; the zero [time.Time] when it finds no activation *)
  Next : cron_schedule → Z → Z;
  FormatLocal : Z → string;
}.

Definition reasonValid : string := "Valid".
Definition reasonInvalidCron : string := "InvalidCron".
Definition reasonRepoMissing : string := "RepoMissing".
Definition reasonBackupMade : string := "BackupCreated".
Definition scheduleRequeueCap : Z := Minute.

(** ** Status updates on a copy *)

Definition set_LastScheduleTime (t : Z) (s : PBSScheduleStatus) : PBSScheduleStatus :=
  {| sst_LastScheduleTime := Some t; sst_NextScheduleTime := sst_NextScheduleTime s;
     sst_Active := sst_Active s; sst_Conditions := sst_Conditions s |}.
Definition set_NextScheduleTime (t : Z) (s : PBSScheduleStatus) : PBSScheduleStatus :=
  {| sst_LastScheduleTime := sst_LastScheduleTime s; sst_NextScheduleTime := Some t;
     sst_Active := sst_Active s; sst_Conditions := sst_Conditions s |}.
Definition set_Active (l : option (list string)) (s : PBSScheduleStatus) : PBSScheduleStatus :=
  {| sst_LastScheduleTime := sst_LastScheduleTime s;
     sst_NextScheduleTime := sst_NextScheduleTime s;
     sst_Active := l; sst_Conditions := sst_Conditions s |}.
Definition set_sConditions (c : list Condition) (s : PBSScheduleStatus) : PBSScheduleStatus :=
  {| sst_LastScheduleTime := sst_LastScheduleTime s;
     sst_NextScheduleTime := sst_NextScheduleTime s;
     sst_Active := sst_Active s; sst_Conditions := c |}.

(** [append] to a nil slice: nil when nothing is appended *)
Definition nil_slice {A} (l : list A) : option (list A) :=
  match l with [] => None | _ => Some l end.

(** ** The fire computation *)

(** The time the first due slot is searched from. *)
Definition fire_base (s : PBSSchedule) : Z :=
  match sst_LastScheduleTime (sc_Status s) with
  | Some last =>
      if om_CreationTimestamp (sc_Meta s) <? last then last else om_CreationTimestamp (sc_Meta s)
  | None => om_CreationTimestamp (sc_Meta s)
  end.

(** The name of the backup of a slot *)
Definition fire_name (schedule : PBSSchedule) (fire : Z) : string :=
  om_Name (sc_Meta schedule) +:+ "-" +:+ fmt_d (Unix fire).

Definition fire_backup (schedule : PBSSchedule) (fire : Z) : PBSBackup :=
  let tpl := ss_Template (sc_Spec schedule) in
  mkBackup
    (newMeta (fire_name schedule fire) (om_Namespace (sc_Meta schedule))
       {["pbsschedule" := om_Name (sc_Meta schedule)]})
    (mkBackupSpec (ss_RepoRef (sc_Spec schedule)) (tpl_PVCs tpl) (tpl_Selector tpl) (tpl_Notes tpl))
    (mkBackupStatus BackupPhaseUnset "" None None None 0 []).

Definition set_bk_Owners (b : PBSBackup) (refs : list OwnerReference) : PBSBackup :=
  {| bk_Meta := set_OwnerReferences (bk_Meta b) refs; bk_Spec := bk_Spec b;
     bk_Status := bk_Status b |}.

Section reconciler.
Context `{KubeLib} `{JsonLib} `{CronLib}.

(** The loop: from a due slot to the latest due one. *)
Fixpoint catch_up (fuel : nat) (sched : cron_schedule) (fire now : Z) : option Z :=
  match fuel with
  | O => None
  | S fuel' =>
      let next := Next sched fire in
      if now <? next then Some fire else catch_up fuel' sched next now
  end.

(** [Some None]: nothing is due. *)
Definition due_slot (fuel : nat) (sched : cron_schedule) (base now : Z) : option (option Z) :=
  let fire := Next sched base in
  if now <? fire then Some None else Some <$> catch_up fuel sched fire now.

Definition fireBackup (schedule : PBSSchedule) (fire : Z) : kprog (error + bool) :=
  let backup := fire_backup schedule fire in
  match SetControllerReference KPBSSchedule (sc_Meta schedule) (bk_Meta backup) with
  | inl e => mret (inl e)
  | inr refs =>
      created ← Create KPBSBackup (set_bk_Owners backup refs);
      match created with
      | inl e => mret (if IsAlreadyExists e then inr false else inl (ErrAPI e))
      | inr backup =>
          Eventf (sc_Meta schedule) EventTypeNormal reasonBackupMade
            ("created PBSBackup " +:+ om_Name (bk_Meta backup) +:+ " for fire time " +:+
             FormatLocal fire);;
          mret (inr true)
      end
  end.

(** The body of the outer [if]: the schedule with its last fire time. *)
Definition serve_slot (schedule : PBSSchedule) (slot : option Z) : kprog (error + PBSSchedule) :=
  match slot with
  | None => mret (inr schedule)
  | Some fire =>
      if ss_Suspend (sc_Spec schedule) then mret (inr schedule)
      else
        _ <-? fireBackup schedule fire;
        mret (inr (set_sc_Status schedule (set_LastScheduleTime fire (sc_Status schedule))))
  end.

(** ** Status *)

Definition activeBackups (schedule : PBSSchedule) : kprog (error + option (list string)) :=
  items <-? api (List_ KPBSBackup (Some (om_Namespace (sc_Meta schedule)))
                   (SelMatchingLabels {["pbsschedule" := om_Name (sc_Meta schedule)]}));
  mret (inr (nil_slice ((λ b, om_Name (bk_Meta b)) <$>
    filter (λ b, bst_Phase (bk_Status b) ≠ BackupPhaseCompleted ∧
                 bst_Phase (bk_Status b) ≠ BackupPhaseFailed) items))).

(** The schedule afterwards: what the server answered to a patch. *)
Definition patchStatusIfChanged (before after : PBSSchedule) : kprog (error + PBSSchedule) :=
  if bool_decide (sc_Status before = sc_Status after) then mret (inr after)
  else api (StatusPatch KPBSSchedule before after).

Definition hold (schedule : PBSSchedule) (reason message : string) (wait : Z)
  : kprog reconcile_result :=
  let before := schedule in
  cs ← SetStatusCondition (sst_Conditions (sc_Status schedule))
         (newCondition condReady ConditionFalse reason message (om_Generation (sc_Meta schedule)));
  let schedule := set_sc_Status schedule (set_sConditions cs.1 (sc_Status schedule)) in
  schedule <-? patchStatusIfChanged before schedule;
  (if cs.2 : bool then Eventf (sc_Meta schedule) EventTypeWarning reason message else mret tt);;
  mret (requeue_after wait).

Definition patchStatus (before schedule : PBSSchedule) : kprog (error + PBSSchedule) :=
  let next := FormatLocal (default 0 (sst_NextScheduleTime (sc_Status schedule))) in
  let message := if ss_Suspend (sc_Spec schedule) then "schedule is suspended; next fire " +:+ next
                 else "schedule is valid; next fire " +:+ next in
  cs ← SetStatusCondition (sst_Conditions (sc_Status schedule))
         (newCondition condReady ConditionTrue reasonValid message
            (om_Generation (sc_Meta schedule)));
  patchStatusIfChanged before
    (set_sc_Status schedule (set_sConditions cs.1 (sc_Status schedule))).

(** ** Reconcile *)

(** Steps 1 and 2: the cron and repo gates; [inl] ends the reconcile. *)
Definition gate (schedule : PBSSchedule) : kprog (reconcile_result + cron_schedule) :=
  match ParseStandard (ss_Schedule (sc_Spec schedule)) with
  | inl e =>
      res ← hold schedule reasonInvalidCron
        ("invalid cron expression " +:+ Quote (ss_Schedule (sc_Spec schedule)) +:+ ": " +:+ Error e)
        (5 * Minute);
      mret (inl res)
  | inr sched =>
      let ref := ss_RepoRef (sc_Spec schedule) in
      repo ← Get KPBSRepo (mkNN "" ref);
      match repo with
      | inl e =>
          if IsNotFound e then
            res ← hold schedule reasonRepoMissing ("PBSRepo " +:+ ref +:+ " not found") Minute;
            mret (inl res)
          else mret (inl (inl (ErrAPI e)))
      | inr repo =>
          if negb (IsStatusConditionTrue (rst_Conditions (repo_Status repo)) condReady) then
            res ← hold schedule reasonRepoMissing
              ("PBSRepo " +:+ om_Name (repo_Meta repo) +:+ " is not Ready") Minute;
            mret (inl res)
          else mret (inr sched)
      end
  end.

(** Steps 4 and 5. *)
Definition refresh (orig schedule : PBSSchedule) (sched : cron_schedule) (now : Z)
  : kprog reconcile_result :=
  let next := Next sched now in
  let schedule := set_sc_Status schedule (set_NextScheduleTime next (sc_Status schedule)) in
  active <-? activeBackups schedule;
  let schedule := set_sc_Status schedule (set_Active active (sc_Status schedule)) in
  _ <-? patchStatus orig schedule;
  now' ← Now;
  let wait := Sub next now' in
  mret (requeue_after
          (if (wait <=? 0) || (scheduleRequeueCap <? wait) then scheduleRequeueCap else wait)).

Definition Reconcile (fuel : nat) (req : NamespacedName) : kprog (option reconcile_result) :=
  got ← Get KPBSSchedule req;
  match got with
  | inl e => mret (Some (if IsNotFound e then no_requeue else inl (ErrAPI e)))
  | inr schedule =>
      gated ← gate schedule;
      match gated with
      | inl res => mret (Some res)
      | inr sched =>
          now ← Now;
          match due_slot fuel sched (fire_base schedule) now with
          | None => mret None
          | Some slot =>
              served ← serve_slot schedule slot;
              match served with
              | inl e => mret (Some (inl e))
              | inr served => res ← refresh schedule served sched now; mret (Some res)
              end
          end
      end
  end.
End reconciler.
