(* ===== verification/ScheduleProps.v ===== *)
(** * Properties of the schedule reconciler

    The specification of the fire computation by the set of slots of a cron
    expression, the invariant of every run of [ScheduleCtl.Reconcile], and the
    schedules on which the catch-up loop does and does not end. *)

From S2P Require Import Prelude GoLib Kube Api Client Trace Json JobBuild ControllerLib.
From S2P Require Import ScheduleCtl Cluster.
From Stdlib Require Import Ascii.
From stdpp Require Import options.

Local Open Scope Z_scope.

(** ** Names of slots *)

Lemma append_dash_inj s1 s2 d1 d2 :
  byte_in "-" d1 = false → byte_in "-" d2 = false →
  s1 +:+ "-" +:+ d1 = s2 +:+ "-" +:+ d2 → s1 = s2 ∧ d1 = d2.
Proof.
  intros H1 H2. revert s2. induction s1 as [|c s1 IH]; intros [|c' s2] Heq.
  - by injection Heq.
  - exfalso. injection Heq as <- Heq. change (d1 = s2 +:+ "-" +:+ d2) in Heq. subst d1.
    rewrite !byte_in_append in H1. by destruct (byte_in "-" s2).
  - exfalso. injection Heq as -> Heq. change (s1 +:+ "-" +:+ d1 = d2) in Heq. subst d2.
    rewrite !byte_in_append in H2. by destruct (byte_in "-" s1).
  - injection Heq as <- Heq. by destruct (IH s2 Heq) as [-> ->].
Qed.

Lemma Unix_whole t t' : (Second | t) → (Second | t') → Unix t = Unix t' → t = t'.
Proof. intros [k ->] [k' ->]. unfold Unix. rewrite !Z.div_mul by done. by intros ->. Qed.

Section cron.
Context `{CronLib}.

(** The cron library's contract for an expression that has a next activation at
    any time: it is at least the next whole second. *)
Definition advancing (sched : cron_schedule) : Prop := ∀ t, Unix t < Unix (Next sched t).

(** For an expression of five fields, whose activations are a fixed set of slots,
    [Next] is the first slot after its argument. *)
Record recurring (sched : cron_schedule) (slot : Z → Prop) : Prop := {
  rec_advancing : advancing sched;
  rec_slot : ∀ t, slot (Next sched t);
  rec_least : ∀ t u, slot u → t < u → Next sched t ≤ u;
}.

Definition latest_slot (slot : Z → Prop) (base now fire : Z) : Prop :=
  slot fire ∧ base < fire ≤ now ∧ ∀ u, slot u → u ≤ now → u ≤ fire.

(** What the fire computation answers about the slots in [(base, now]]. *)
Definition due_spec (slot : Z → Prop) (base now : Z) (due : option Z) : Prop :=
  match due with
  | None => ∀ u, slot u → base < u → now < u
  | Some fire => latest_slot slot base now fire
  end.

(** The last of the activations counted from [base] that are not after [now]. *)
Definition last_activation (sched : cron_schedule) (base now fire : Z) : Prop :=
  base < fire ≤ now ∧ now < Next sched fire ∧ ∃ k, fire = Nat.iter (S k) (Next sched) base.

Lemma Unix_lt t u : Unix t < Unix u → t < u.
Proof.
  intros Hlt. apply Z.nle_gt. intros Hle. apply (Z.div_le_mono _ _ Second) in Hle; [|done].
  unfold Unix in Hlt. lia.
Qed.
Lemma Unix_le t u : t ≤ u → Unix t ≤ Unix u.
Proof. intros Hle. by apply Z.div_le_mono. Qed.

Lemma catch_up_spec sched fuel base fire now :
  advancing sched → base < fire ≤ now → (∃ k, fire = Nat.iter (S k) (Next sched) base) →
  match catch_up fuel sched fire now with
  | Some f => last_activation sched base now f
  | None => Z.of_nat fuel ≤ Unix now - Unix fire
  end.
Proof.
  intros Ha. revert fire. induction fuel as [|fuel IH]; intros fire Hb Hk; cbn [catch_up].
  { pose proof (Unix_le fire now). lia. }
  pose proof (Ha fire) as Hlt. pose proof (Unix_lt _ _ Hlt).
  destruct (Z.ltb_spec now (Next sched fire)) as [Hn|Hn]; [done|].
  specialize (IH (Next sched fire) ltac:(lia)). destruct Hk as [k Hk].
  assert (Hk' : ∃ k, Next sched fire = Nat.iter (S k) (Next sched) base) by (exists (S k); by rewrite Hk).
  specialize (IH Hk'). destruct (catch_up _ _ _ _); [done|lia].
Qed.

Lemma due_slot_cases sched fuel base now :
  advancing sched →
  match due_slot fuel sched base now with
  | Some None => now < Next sched base
  | Some (Some fire) => last_activation sched base now fire
  | None => Z.of_nat fuel < Unix now - Unix base
  end.
Proof.
  intros Ha. unfold due_slot. pose proof (Ha base) as Hlt. pose proof (Unix_lt _ _ Hlt).
  destruct (Z.ltb_spec now (Next sched base)) as [Hn|Hn]; [done|].
  pose proof (catch_up_spec sched fuel base (Next sched base) now Ha ltac:(lia)
    (ex_intro _ 0%nat eq_refl)) as Hc.
  destruct (catch_up _ _ _ _); [done|]. cbn. lia.
Qed.

Lemma last_activation_latest sched slot base now fire :
  recurring sched slot → last_activation sched base now fire → latest_slot slot base now fire.
Proof.
  intros Hr (Hb & Hn & k & Hk). split; [|split; [done|]].
  - rewrite Hk. apply (rec_slot _ _ Hr).
  - intros u Hu Hun. apply Z.nlt_ge. intros Hlt. pose proof (rec_least _ _ Hr fire u Hu Hlt). lia.
Qed.

(** C24: the catch-up loop ends, within one turn per second since the last fire, on
    every cron expression with a next activation at any time; it answers the
    last activation that is due, skipping the missed ones before it, and nothing
    exactly when none is due; for an expression with fixed slots that is the
    latest slot after the last fire and not after now. *)
Theorem due_slot_spec sched fuel base now :
  advancing sched → Unix now - Unix base ≤ Z.of_nat fuel →
  ∃ due, due_slot fuel sched base now = Some due ∧
    match due with
    | None => now < Next sched base
    | Some fire => last_activation sched base now fire
    end ∧
    ∀ slot, recurring sched slot → due_spec slot base now due.
Proof.
  intros Ha Hf. pose proof (due_slot_cases sched fuel base now Ha) as Hd.
  destruct (due_slot _ _ _ _) as [due|]; [|lia]. exists due. split; [done|]. split.
  - by destruct due.
  - intros slot Hr. destruct due as [fire|]; [by eapply last_activation_latest|].
    intros u Hu Hb. pose proof (rec_least _ _ Hr base u Hu Hb). lia.
Qed.

(** The loop never ends on an expression whose next slot is never in the
    future, such as the zero time the library answers for a date that does not
    exist (the 30th of February): no fuel is enough. *)
Theorem due_slot_stuck sched fuel base now :
  (∀ t, t ≤ now → Next sched t ≤ now) → base ≤ now → due_slot fuel sched base now = None.
Proof.
  intros Hs Hb. unfold due_slot. apply Hs in Hb.
  rewrite (proj2 (Z.ltb_ge _ _) Hb). set (fire := Next sched base) in *. clearbody fire.
  replace (catch_up fuel sched fire now) with (@None Z); [done|].
  revert fire Hb. induction fuel as [|fuel IH]; intros fire Hb; cbn [catch_up]; [done|].
  apply Hs in Hb. rewrite (proj2 (Z.ltb_ge _ _) Hb). by apply IH.
Qed.
End cron.

Lemma Unix_no_dash t : 0 ≤ Unix t → byte_in "-" (fmt_d (Unix t)) = false.
Proof.
  intros Ht. unfold fmt_d. apply byte_in_pretty_nonneg; [done|].
  apply pretty_N_char_not. left. done.
Qed.

(** The backup of a slot has a name of its own: two schedules of a namespace,
    or two slots of one schedule, never ask for the same object, and the same
    slot of the same schedule always does. *)
Theorem fire_name_inj s s' fire fire' :
  0 ≤ fire → 0 ≤ fire' → (Second | fire) → (Second | fire') →
  fire_name s fire = fire_name s' fire' ↔ om_Name (sc_Meta s) = om_Name (sc_Meta s') ∧ fire = fire'.
Proof.
  intros Hp Hp' Hd Hd'. unfold fire_name. split; [|by intros [-> ->]].
  intros [Hn Hf]%append_dash_inj; [|by apply Unix_no_dash, Z.div_pos..]. split; [done|].
  apply Unix_whole; [done..|]. unfold fmt_d in Hf. by apply (inj pretty) in Hf.
Qed.

(** ** Safety *)

Section safety.
Context `{KubeLib} `{JsonLib} `{CronLib}.
Context (fuel : nat) (req : NamespacedName).

(** The reconcile works on [s], read first. *)
Definition read_schedule (h : list kevent) (s : PBSSchedule) : Prop :=
  head h = Some (ev (CGet KPBSSchedule req) (inr s)).

Definition schedule_repo_ready (h : list kevent) (s : PBSSchedule) : Prop :=
  ∃ repo, ev (CGet KPBSRepo (mkNN "" (ss_RepoRef (sc_Spec s)))) (inr repo) ∈ h ∧
    IsStatusConditionTrue (rst_Conditions (repo_Status repo)) condReady = true.

(** The clock answered [now]. *)
Definition clocked (h : list kevent) (now : Z) : Prop := ev CNow now ∈ h.

(** [fire] is the slot the fire computation answers at a time that was read. *)
Definition due (h : list kevent) (s : PBSSchedule) (fire : Z) : Prop :=
  ∃ sched now, ParseStandard (ss_Schedule (sc_Spec s)) = inr sched ∧ clocked h now ∧
    due_slot fuel sched (fire_base s) now = Some (Some fire) ∧
    (advancing sched → last_activation sched (fire_base s) now fire) ∧
    ∀ slot, recurring sched slot → latest_slot slot (fire_base s) now fire.

Definition no_backup (e : kevent) : Prop :=
  match projT1 e with CCreate KPBSBackup _ => False | _ => True end.

(** A backup may be created: the schedule is not suspended, its repo is Ready,
    the backup is the template's for the due slot, owned by the schedule, and it
    is the first of the reconcile. *)
Definition create_ok (h : list kevent) (b : PBSBackup) : Prop :=
  ∃ s fire refs, read_schedule h s ∧ schedule_repo_ready h s ∧ due h s fire ∧
    ss_Suspend (sc_Spec s) = false ∧ Forall no_backup h ∧
    SetControllerReference KPBSSchedule (sc_Meta s) (bk_Meta (fire_backup s fire)) = inr refs ∧
    b = set_bk_Owners (fire_backup s fire) refs.

(** The backup of the slot exists: this reconcile created it, or the server
    answered that it was there. *)
Definition slot_served (h : list kevent) (s : PBSSchedule) (fire : Z) : Prop :=
  ∃ refs a, ev (CCreate KPBSBackup (set_bk_Owners (fire_backup s fire) refs)) a ∈ h ∧
    match a with inr _ => True | inl e => IsAlreadyExists e = true end.

(** The names of the unfinished backups of the schedule, as listed. *)
Definition listed_active (h : list kevent) (s : PBSSchedule) (l : option (list string)) : Prop :=
  ∃ items, ev (CList KPBSBackup (Some (om_Namespace (sc_Meta s)))
                 (SelMatchingLabels {["pbsschedule" := om_Name (sc_Meta s)]})) (inr items) ∈ h ∧
    ∀ name, name ∈ slice l ↔
      ∃ b, b ∈ items ∧ om_Name (bk_Meta b) = name ∧
           bst_Phase (bk_Status b) ≠ BackupPhaseCompleted ∧ bst_Phase (bk_Status b) ≠ BackupPhaseFailed.

(** What a status patch may change: nothing but the conditions on a hold;
    otherwise the next fire time, the active backups, and the last fire time,
    which stays or becomes a due slot whose backup exists. *)
Definition schedule_step (h : list kevent) (s : PBSSchedule) (st : PBSScheduleStatus) : Prop :=
  (∃ cs, st = set_sConditions cs (sc_Status s)) ∨
  listed_active h s (sst_Active st) ∧
  (∃ sched now, ParseStandard (ss_Schedule (sc_Spec s)) = inr sched ∧ clocked h now ∧
     sst_NextScheduleTime st = Some (Next sched now)) ∧
  (sst_LastScheduleTime st = sst_LastScheduleTime (sc_Status s) ∨
   ∃ fire, sst_LastScheduleTime st = Some fire ∧ due h s fire ∧ slot_served h s fire).

Definition schedule_patch_ok (h : list kevent) (before after : PBSSchedule) : Prop :=
  read_schedule h before ∧ Forall no_patch h ∧
  sc_Meta after = sc_Meta before ∧ sc_Spec after = sc_Spec before ∧
  schedule_step h before (sc_Status after).

Definition backup_made (h : list kevent) : Prop :=
  ∃ b b', ev (CCreate KPBSBackup b) (inr b') ∈ h.

Definition schedule_call_ok (h : list kevent) (c : call) : Prop :=
  match c with
  | CCreate KPBSBackup b => create_ok h b
  | CStatusPatch KPBSSchedule before after => schedule_patch_ok h before after
  | CEvent _ t reason _ =>
      (t = EventTypeNormal ∧ reason = reasonBackupMade ∧ backup_made h) ∨
      (t = EventTypeWarning ∧ Forall patch_accepted h ∧ transitioned h reason)
  | _ => is_read c = true
  end.

(** Nothing has been written yet. *)
Definition fresh (h : list kevent) (s : PBSSchedule) : Prop :=
  read_schedule h s ∧ Forall no_patch h ∧ Forall no_backup h.

Lemma read_schedule_app h t s : read_schedule h s → read_schedule (h ++ t) s.
Proof. unfold read_schedule. by destruct h. Qed.
Lemma fresh_read h s c a : is_read c = true → fresh h s → fresh (h ++ [ev c a]) s.
Proof.
  intros Hc (Hr & Hp & Hb). split_and!; [by apply read_schedule_app|..]; apply Forall_snoc; try done;
    by destruct c.
Qed.
Lemma schedule_read_ok h c : is_read c = true → schedule_call_ok h c.
Proof. by destruct c. Qed.
Lemma due_app h t s fire : due h s fire → due (h ++ t) s fire.
Proof.
  intros (sched & now & Hp & Hc & Hd). exists sched, now.
  split; [done|]. split; [by apply elem_of_grow|done].
Qed.
Lemma slot_served_app h t s fire : slot_served h s fire → slot_served (h ++ t) s fire.
Proof. intros (refs & a & Hin & Ha). exists refs, a. by split; [apply elem_of_grow|]. Qed.

(** ** The steps *)

Definition requeued (wait : Z) (res : reconcile_result) : Prop :=
  match res with inl _ => True | inr x => RequeueAfter x = wait end.

Lemma wp_patchStatusIfChanged h before after (Q : list kevent → error + PBSSchedule → Prop) :
  schedule_patch_ok h before after →
  (∀ h' e, Q h' (inl e)) →
  (∀ t s, Forall patch_accepted t → Q (h ++ t) (inr s)) →
  wp schedule_call_ok (patchStatusIfChanged before after) Q h.
Proof.
  intros Hok He Hs. unfold patchStatusIfChanged. case_bool_decide.
  - specialize (Hs [] after). rewrite app_nil_r in Hs. by apply Hs.
  - unfold api, StatusPatch. apply wp_bind. split; [done|]. intros [e|s']; [apply He|].
    apply Hs. by repeat constructor.
Qed.

Lemma wp_schedule_hold h s reason message wait :
  fresh h s → wp schedule_call_ok (hold s reason message wait) (λ _, requeued wait) h.
Proof.
  intros (Hr & Hp & Hb). unfold hold. apply wp_bind. split; [done|]. intros [cs tr]. cbn [wp fst snd].
  set (h1 := h ++ [_]).
  assert (Hp1 : Forall no_patch h1) by by apply Forall_snoc.
  assert (Ht : tr = true → transitioned h1 reason).
  { intros ->. eexists _, _, cs. split; [apply elem_of_snoc|done]. }
  apply wp_bind. apply wp_patchStatusIfChanged; [|done|].
  - split_and!; [by apply read_schedule_app|done..|]. left. by exists cs.
  - intros t s' Hacc. destruct tr; [|done]. apply wp_bind. split; [|done].
    right. split; [done|]. split; [|by apply transitioned_app, Ht].
    apply Forall_app. split; [by apply no_patches_accepted|done].
Qed.

(** The outcome of the gates. *)
Definition gated (s : PBSSchedule) (h : list kevent) (g : reconcile_result + cron_schedule) : Prop :=
  match g with
  | inl res => ∃ wait, 0 < wait ≤ 5 * Minute ∧ requeued wait res
  | inr sched => fresh h s ∧ schedule_repo_ready h s ∧
                 ParseStandard (ss_Schedule (sc_Spec s)) = inr sched
  end.

Lemma wp_gate h s : fresh h s → wp schedule_call_ok (gate s) (gated s) h.
Proof.
  intros Hf. unfold gate.
  assert (Hhold : ∀ h reason message wait, fresh h s → 0 < wait ≤ 5 * Minute →
    wp schedule_call_ok (res ← hold s reason message wait; mret (inl res)) (gated s) h).
  { intros h' reason message wait Hf' Hw. apply wp_bind.
    eapply wp_post; [by apply wp_schedule_hold|]. intros h2 res _ Hres. by exists wait. }
  destruct (ParseStandard _) as [e|sched] eqn:Hparse; [by apply Hhold|].
  apply wp_bind. split; [done|]. intros [e|repo]; cbn [wp].
  - destruct (IsNotFound e); [by apply Hhold; [apply fresh_read|]|]. by exists 1.
  - destruct (IsStatusConditionTrue _ _) eqn:Hready; cbn [negb].
    + split_and!; [by apply fresh_read| |done]. exists repo. by split; [apply elem_of_snoc|].
    + by apply Hhold; [apply fresh_read|].
Qed.

(** The schedule in memory when the status is refreshed. *)
Definition served (h : list kevent) (s s' : PBSSchedule) : Prop :=
  read_schedule h s ∧ Forall no_patch h ∧ sc_Meta s' = sc_Meta s ∧ sc_Spec s' = sc_Spec s ∧
  (sc_Status s' = sc_Status s ∨
   ∃ fire, sc_Status s' = set_LastScheduleTime fire (sc_Status s) ∧ due h s fire ∧
           slot_served h s fire).

Lemma wp_fireBackup h s fire :
  fresh h s → schedule_repo_ready h s → due h s fire → ss_Suspend (sc_Spec s) = false →
  wp schedule_call_ok (fireBackup s fire)
    (λ h' r, match r with
             | inl _ => True
             | inr _ => read_schedule h' s ∧ Forall no_patch h' ∧ due h' s fire ∧
                        slot_served h' s fire
             end) h.
Proof.
  intros (Hr & Hp & Hb) Hrepo Hd Hsus. unfold fireBackup.
  destruct (SetControllerReference _ _ _) as [e|refs] eqn:Hset; [done|].
  apply wp_bind. split; [by exists s, fire, refs|]. intros a. set (h1 := h ++ [_]).
  assert (H1' : match a with inr _ => True | inl e => IsAlreadyExists e = true end →
    read_schedule h1 s ∧ Forall no_patch h1 ∧ due h1 s fire ∧ slot_served h1 s fire).
  { intros Ha. split_and!; [by apply read_schedule_app|by apply Forall_snoc|by apply due_app|].
    exists refs, a. split; [apply elem_of_snoc|done]. }
  destruct a as [e|b]; cbn [wp].
  - destruct (IsAlreadyExists e) eqn:He; [|done]. by apply H1'.
  - specialize (H1' I) as (H2 & H3 & H4 & H5). apply wp_bind. split.
    + left. split_and!; [done..|]. eexists _, b. apply elem_of_snoc.
    + intros []. split_and!; [by apply read_schedule_app|by apply Forall_snoc|by apply due_app|].
      by apply slot_served_app.
Qed.

Lemma wp_serve_slot h s slot :
  fresh h s → schedule_repo_ready h s → (∀ fire, slot = Some fire → due h s fire) →
  wp schedule_call_ok (serve_slot s slot)
    (λ h' r, match r with inl _ => True | inr s' => served h' s s' end) h.
Proof.
  intros Hf Hrepo Hd. unfold serve_slot.
  assert (Hs : served h s s).
  { destruct Hf as (Hr & Hp & _). split_and!; [done..|]. by left. }
  destruct slot as [fire|]; [|done]. destruct (ss_Suspend _) eqn:Hsus; [done|].
  apply wp_bind. eapply wp_post; [apply wp_fireBackup; [done..|by apply Hd|done]|].
  intros h' [e|made] _ Hpost; [done|]. destruct Hpost as (Hr & Hp & Hd' & Hs').
  split_and!; [done..|]. right. by exists fire.
Qed.

Lemma elem_of_nil_slice {A} (l : list A) x : x ∈ slice (nil_slice l) ↔ x ∈ l.
Proof. by destruct l. Qed.

Lemma wp_refresh h s s' sched now :
  served h s s' → ParseStandard (ss_Schedule (sc_Spec s)) = inr sched → clocked h now →
  wp schedule_call_ok (refresh s s' sched now)
    (λ _ res, match res with inl _ => True | inr x => 0 < RequeueAfter x ≤ Minute end) h.
Proof.
  intros (Hr & Hp & Hm & Hsp & Hst) Hparse Hnow. unfold refresh, activeBackups, patchStatus.
  apply wp_bind, wp_bind. cbn [set_sc_Status sc_Meta sc_Spec]. rewrite Hm.
  unfold api at 1. apply wp_bind. split; [done|]. intros [e|items]; [done|]. cbn [wp].
  set (h1 := h ++ [_]). apply wp_bind, wp_bind. split; [done|]. intros [cs tr]. cbn [wp fst snd].
  set (h2 := h1 ++ [_]).
  apply wp_patchStatusIfChanged; [|done|].
  - split; [by do 2 apply read_schedule_app|]. split; [by apply Forall_snoc; [apply Forall_snoc|]|].
    split; [exact Hm|]. split; [exact Hsp|].
    right. cbn [set_sc_Status set_sConditions set_Active set_NextScheduleTime sc_Status sst_Active
      sst_NextScheduleTime sst_LastScheduleTime].
    split_and!.
    + exists items. split; [apply elem_of_grow, elem_of_snoc|]. intros name.
      rewrite elem_of_nil_slice, list_elem_of_fmap. setoid_rewrite list_elem_of_filter. naive_solver.
    + exists sched, now. split_and!; [done|by do 2 apply elem_of_grow|done].
    + destruct Hst as [->|(fire & -> & Hd & Hs)]; [by left|]. right. exists fire.
      split_and!; [done|by do 2 apply due_app|by do 2 apply slot_served_app].
  - intros t s2 _. apply wp_bind. split; [done|]. intros now'. cbn [wp RequeueAfter].
    unfold requeue_after. destruct (Z.leb_spec (Sub (Next sched now) now') 0) as [Hw|Hw]; [done|].
    destruct (Z.ltb_spec scheduleRequeueCap (Sub (Next sched now) now')) as [Hc|Hc]; [done|].
    cbn. unfold scheduleRequeueCap in Hc. lia.
Qed.

(** ** Reconcile *)

(** What [Reconcile] answers; [None] only with the catch-up loop still running. *)
Definition schedule_reconciled (h : list kevent) (res : option reconcile_result) : Prop :=
  match res with
  | None =>
      ∃ s sched now, read_schedule h s ∧ ParseStandard (ss_Schedule (sc_Spec s)) = inr sched ∧
        clocked h now ∧ due_slot fuel sched (fire_base s) now = None
  | Some (inl _) => True
  | Some (inr x) =>
      (RequeueAfter x = 0 ∧ ∃ e, h = [ev (CGet KPBSSchedule req) (inl e)] ∧ IsNotFound e = true) ∨
      0 < RequeueAfter x ≤ 5 * Minute
  end.

Lemma wp_schedule_Reconcile :
  wp schedule_call_ok (Reconcile fuel req) schedule_reconciled [].
Proof.
  unfold Reconcile. apply wp_bind. split; [done|]. intros [e|s]; cbn [wp app].
  { destruct (IsNotFound e) eqn:He; cbn; [|done]. left. split; [done|]. by exists e. }
  apply wp_bind. eapply wp_post; [apply wp_gate; split_and!; [done|by repeat constructor..]|].
  intros h [res|sched] _ Hg; cbn [wp].
  { destruct Hg as (wait & Hw & Hres). destruct res as [e|x]; [done|]. right. by rewrite Hres. }
  destruct Hg as (Hf & Hrepo & Hparse). apply wp_bind. split; [done|]. intros now. cbn [wp].
  set (h1 := h ++ [_]).
  assert (Hf1 : fresh h1 s) by by apply fresh_read.
  assert (Hnow : clocked h1 now) by apply elem_of_snoc.
  assert (Hrepo1 : schedule_repo_ready h1 s).
  { destruct Hrepo as (repo & Hin & Hready). exists repo. by split; [apply elem_of_grow|]. }
  clearbody h1. destruct (due_slot _ _ _ _) as [slot|] eqn:Hdue.
  2:{ exists s, sched, now. split_and!; [apply Hf1|done..]. }
  assert (Hd : ∀ fire, slot = Some fire → due h1 s fire).
  { intros fire ->. exists sched, now.
    assert (Hl : advancing sched → last_activation sched (fire_base s) now fire).
    { intros Ha. pose proof (due_slot_cases sched fuel (fire_base s) now Ha) as Hc. by rewrite Hdue in Hc. }
    split_and!; [done..|]. intros sl Hsl.
    by eapply last_activation_latest, Hl, rec_advancing. }
  apply wp_bind. eapply wp_post; [by apply wp_serve_slot|].
  intros h2 [e|s'] [t ->] Hs; cbn [wp]; [done|]. apply wp_bind.
  eapply wp_post; [apply wp_refresh; [done|done|by apply elem_of_grow]|].
  intros h3 [e|x] _ Hx; [done|]. right. unfold Minute in *. lia.
Qed.

Lemma schedule_lookup tr res i c (a : resp c) :
  runs (Reconcile fuel req) tr res → tr !! i = Some (ev c a) → schedule_call_ok (take i tr) c.
Proof. apply (wp_lookup _ _ _ _ _ _ _ _ wp_schedule_Reconcile). Qed.

(** C23: a schedule fires only what is due: every backup it creates is the
    template's, owned by the schedule, for the last activation due since the
    previous fire, with the schedule not suspended and its repo Ready; and one
    reconcile creates at most one, however many slots were missed. *)
Theorem schedule_fire_gate tr res i b a :
  runs (Reconcile fuel req) tr res → tr !! i = Some (ev (CCreate KPBSBackup b) a) →
  create_ok (take i tr) b.
Proof. apply schedule_lookup. Qed.

(** The status of a schedule: a reconcile patches it at most once; the last
    fire time only changes to a due slot whose backup exists, which is later than
    the one before; the active list is the unfinished backups that were listed;
    and a hold touches nothing but the conditions. *)
Theorem schedule_status tr res i before after a :
  runs (Reconcile fuel req) tr res →
  tr !! i = Some (ev (CStatusPatch KPBSSchedule before after) a) →
  schedule_patch_ok (take i tr) before after ∧
  ∀ last fire sched,
    sst_LastScheduleTime (sc_Status before) = Some last →
    sst_LastScheduleTime (sc_Status after) = Some fire → fire ≠ last →
    ParseStandard (ss_Schedule (sc_Spec before)) = inr sched → advancing sched → last < fire.
Proof.
  intros Hr Hi.
  assert (Hok : schedule_patch_ok (take i tr) before after).
  { exact (schedule_lookup _ _ _ _ _ Hr Hi). }
  split; [done|]. intros last fire sched Hlast Hfire Hne Hparse Ha.
  destruct Hok as (_ & _ & _ & _ & [[cs Hst]|(_ & _ & [Hst|(fire' & Hst & Hd & _)])]).
  - rewrite Hst in Hfire. cbn in Hfire. congruence.
  - congruence.
  - assert (fire' = fire) as -> by congruence. destruct Hd as (sched' & now & Hp & _ & _ & Hl & _).
    assert (sched' = sched) as -> by congruence. destruct (Hl Ha) as [[Hb _] _].
    unfold fire_base in Hb. rewrite Hlast in Hb.
    destruct (Z.ltb_spec (om_CreationTimestamp (sc_Meta before)) last); lia.
Qed.

(** C27: a schedule is never forgotten: with a cron expression that has a next
    activation at any time, and fuel for the seconds since the last fire, the
    reconcile ends, and without an error it asks to run again within five
    minutes, unless the schedule is gone. *)
Theorem schedule_result tr res :
  runs (Reconcile fuel req) tr res →
  (∀ s sched now, read_schedule tr s → clocked tr now →
     ParseStandard (ss_Schedule (sc_Spec s)) = inr sched →
     advancing sched ∧ Unix now - Unix (fire_base s) ≤ Z.of_nat fuel) →
  ∃ r, res = Some r ∧ schedule_reconciled tr (Some r).
Proof.
  intros Hr Hadv. destruct (wp_runs _ _ _ _ _ wp_schedule_Reconcile Hr) as [_ Hres].
  destruct res as [r|]; [by exists r|]. exfalso.
  destruct Hres as (s & sched & now & Hs & Hp & Hnow & Hnone).
  destruct (Hadv s sched now Hs Hnow Hp) as [Ha Hf].
  pose proof (due_slot_cases sched fuel (fire_base s) now Ha) as Hc. rewrite Hnone in Hc. lia.
Qed.
End safety.

(** ** A concrete cron library and runs *)

(** Every minute, or a date that never comes, for which the library answers the
    zero time. *)
#[export] Instance example_CronLib : CronLib := {
  cron_schedule := option Z;
  ParseStandard s :=
    if bool_decide (s = "* * * * *") then inr (Some Minute)
    else if bool_decide (s = "0 0 30 2 *") then inr None
    else inl (ErrMsg "unrecognized");
  Next sched t := match sched with
                  | Some p => (t / p + 1) * p
                  | None => - 62135596800 * Second
                  end;
  FormatLocal t := FormatRFC3339_UTC (Unix t);
}.

Lemma every_minute_recurring : recurring (Some Minute) (λ t, (Minute | t)).
Proof.
  split.
  - intros t. cbn. unfold Unix. apply Z.lt_le_trans with ((t / Minute + 1) * 60).
    + apply Z.div_lt_upper_bound; [done|]. pose proof (Z.mul_succ_div_gt t Minute eq_refl).
      unfold Minute in *. lia.
    + replace ((t / Minute + 1) * Minute) with ((t / Minute + 1) * 60 * Second)
        by (unfold Minute; lia).
      by rewrite Z.div_mul.
  - intros t. by exists (t / Minute + 1).
  - intros t u [k ->] Hlt. cbn. apply Z.mul_le_mono_nonneg_r; [done|].
    pose proof (Z.div_lt_upper_bound t Minute k ltac:(done) ltac:(lia)). lia.
Qed.

Definition example_schedule (last : option Z) : PBSSchedule :=
  mkSchedule (meta0 "apps" "nightly")
    (mkScheduleSpec "repo" "* * * * *" (mkTemplate ["data"] None "") false)
    (mkScheduleStatus last None None []).
Definition schedule_req : NamespacedName := mkNN "apps" "nightly".

(** The cluster three minutes and five seconds after the epoch. *)
Definition late_cluster (s : PBSSchedule) : cluster :=
  let c := add_object KPBSSchedule s base_cluster in
  {| cl_objects := cl_objects c; cl_clock := 185 * Second; cl_exec := cl_exec c |}.
Definition schedule_run := exec serve (Reconcile 200 schedule_req) (late_cluster (example_schedule None)).
Definition schedule_trace : list kevent := schedule_run.1.1.
Definition schedule_res : option reconcile_result := schedule_run.1.2.
Lemma schedule_runs : runs (Reconcile 200 schedule_req) schedule_trace schedule_res.
Proof. apply exec_runs. Qed.

Definition backups_made (tr : list kevent) : list string :=
  omap (λ c, match c with
             | CCreate k o => match k return obj k → option string with
                              | KPBSBackup => λ b, Some (om_Name (bk_Meta b))
                              | _ => λ _, None
                              end o
             | _ => None
             end) (calls tr).

(** The answers of a trace, by call. *)
Definition clock_of (e : kevent) : option Z :=
  match e with
  | existT c a => match c return resp c → option Z with CNow => Some | _ => λ _, None end a
  end.
Definition schedule_of (e : kevent) : option PBSSchedule :=
  match e with
  | existT c a =>
      match c return resp c → option PBSSchedule with
      | CGet k _ =>
          match k return (apierror + obj k) → option PBSSchedule with
          | KPBSSchedule => λ a, match a with inr s => Some s | inl _ => None end
          | _ => λ _, None
          end
      | _ => λ _, None
      end a
  end.

Lemma clocked_omap h now : clocked h now → now ∈ omap clock_of h.
Proof. intros Hin. apply list_elem_of_omap. by exists (ev CNow now). Qed.
Lemma read_schedule_of req h s : read_schedule req h s → head h ≫= schedule_of = Some s.
Proof. unfold read_schedule. by intros ->. Qed.

(** Three slots were missed; one backup is made, for the last one; a second
    reconcile on the cluster the first one leaves makes none. *)
Example schedule_catches_up :
  backups_made schedule_trace = ["nightly-180"] ∧ schedule_res = Some (requeue_after (54 * Second)) ∧
  backups_made (exec serve (Reconcile 200 schedule_req) schedule_run.2).1.1 = [].
Proof. by vm_compute. Qed.

Lemma due_slot_spec_witness :
  advancing (Some Minute) ∧
  ∃ due, due_slot 200 (Some Minute) 0 (185 * Second) = Some due ∧
    match due with
    | None => 185 * Second < Next (Some Minute) 0
    | Some fire => last_activation (Some Minute) 0 (185 * Second) fire
    end ∧
    ∀ slot, recurring (Some Minute) slot → due_spec slot 0 (185 * Second) due.
Proof.
  assert (Ha : advancing (Some Minute)) by apply (rec_advancing _ _ every_minute_recurring).
  split; [exact Ha|]. apply due_slot_spec; [exact Ha|]. by vm_compute.
Defined.

Lemma due_slot_stuck_witness :
  ParseStandard "0 0 30 2 *" = inr None ∧ due_slot 200 None 0 (185 * Second) = None.
Proof.
  split; [by vm_compute|]. apply due_slot_stuck; [|done]. intros t _. by vm_compute.
Defined.

Lemma fire_name_inj_witness :
  fire_name (example_schedule None) (120 * Second) = fire_name (example_schedule None) (180 * Second) ↔
  "nightly" = "nightly" ∧ 120 * Second = 180 * Second.
Proof.
  apply (fire_name_inj (example_schedule None) (example_schedule None));
    [done|done|by exists 120|by exists 180].
Defined.

Lemma schedule_fire_gate_witness :
  ∃ b a, schedule_trace !! 3%nat = Some (ev (CCreate KPBSBackup b) a) ∧
    create_ok 200 schedule_req (take 3 schedule_trace) b.
Proof.
  at_index schedule_trace 3%nat ltac:(fun c a => lazymatch c with CCreate KPBSBackup ?b =>
    exists b, a; assert (Hi : schedule_trace !! 3%nat = Some (ev c a)) by (by vm_compute);
    split; [exact Hi|exact (schedule_fire_gate _ _ _ _ _ _ _ schedule_runs Hi)] end).
Defined.

Lemma schedule_status_witness :
  ∃ before after a, schedule_trace !! 7%nat = Some (ev (CStatusPatch KPBSSchedule before after) a) ∧
    sst_LastScheduleTime (sc_Status after) = Some (180 * Second) ∧
    schedule_patch_ok 200 schedule_req (take 7 schedule_trace) before after.
Proof.
  at_index schedule_trace 7%nat ltac:(fun c a => lazymatch c with CStatusPatch KPBSSchedule ?b ?b' =>
    exists b, b', a; assert (Hi : schedule_trace !! 7%nat = Some (ev c a)) by (by vm_compute);
    split; [exact Hi|split; [reflexivity|
      exact (proj1 (schedule_status _ _ _ _ _ _ _ _ schedule_runs Hi))]] end).
Defined.

Lemma schedule_result_witness :
  ∃ r, schedule_res = Some r ∧ schedule_reconciled 200 schedule_req schedule_trace (Some r).
Proof.
  apply (schedule_result 200 schedule_req schedule_trace schedule_res schedule_runs).
  intros s sched now Hs Hnow Hp.
  apply read_schedule_of in Hs. vm_compute in Hs. injection Hs as <-.
  assert (sched = Some Minute) as -> by (vm_compute in Hp; by injection Hp as <-).
  split; [apply (rec_advancing _ _ every_minute_recurring)|].
  apply clocked_omap in Hnow. vm_compute in Hnow.
  apply elem_of_cons in Hnow as [->|[->|Hnow%not_elem_of_nil]%elem_of_cons]; [by vm_compute..|done].
Defined.
