(* ===== verification/ScheduleLife.v ===== *)
(** * The life of a PBSSchedule

    Its cron expression and its status over any number of reconciles ([Life]) and
    edits: the last fire time never goes back, a recorded slot is never fired
    again, and a reconcile that ends has served the latest slot that is due. *)

From S2P Require Import Prelude GoLib Kube Api Client Trace Json JobBuild ControllerLib.
From S2P Require Import ScheduleCtl Cluster ScheduleProps Life.
From stdpp Require Import options.

Local Open Scope Z_scope.

(** ** The server *)

Definition swire (s : PBSScheduleStatus) : PBSScheduleStatus :=
  mkScheduleStatus (wire_time <$> sst_LastScheduleTime s) (wire_time <$> sst_NextScheduleTime s)
    (wire_list (sst_Active s)) (wire_condition <$> sst_Conditions s).

(** What is stored of a schedule: its cron expression and its status *)
Definition stored_schedule : Type := string * PBSScheduleStatus.
Definition stored (s : PBSSchedule) : stored_schedule := (ss_Schedule (sc_Spec s), sc_Status s).

Definition smerge_patch (before after st : stored_schedule) : stored_schedule :=
  let b := swire before.2 in
  let a := swire after.2 in
  (st.1, mkScheduleStatus
    (patch_field (sst_LastScheduleTime b) (sst_LastScheduleTime a) (sst_LastScheduleTime st.2))
    (patch_field (sst_NextScheduleTime b) (sst_NextScheduleTime a) (sst_NextScheduleTime st.2))
    (patch_field (sst_Active b) (sst_Active a) (sst_Active st.2))
    (patch_field (sst_Conditions b) (sst_Conditions a) (sst_Conditions st.2))).

Lemma swire_twice s : swire (swire s) = swire s.
Proof.
  unfold swire. cbn [sst_LastScheduleTime sst_NextScheduleTime sst_Active sst_Conditions].
  by rewrite !wire_times_twice, wire_list_twice, wire_conditions_twice.
Qed.

Lemma smerge_patch_fresh st after : swire st.2 = st.2 → smerge_patch st after st = (st.1, swire after.2).
Proof.
  intros Hs. unfold smerge_patch. cbv zeta. rewrite Hs, !patch_field_fresh.
  by destruct after as [? []].
Qed.

(** An event as the schedule [req] sees it *)
Definition schedule_view (req : NamespacedName) (e : kevent) : view stored_schedule :=
  match e with
  | existT c a =>
      match c return resp c → view stored_schedule with
      | CGet KPBSSchedule key => λ a,
          if bool_decide (key = req)
          then VGet (match a with inr s => Some (stored s) | inl _ => None end) else VOther
      | CStatusPatch KPBSSchedule before after => λ a,
          VPatch (stored before) (stored after)
            (match a with inr s => Some (stored s) | inl _ => None end)
      | _ => λ _, VOther
      end a
  end.

(** ** Times to the second *)

Lemma Unix_wire_time t : Unix (wire_time t) = Unix t.
Proof. unfold Unix, wire_time. by rewrite Z.div_mul. Qed.
Lemma wire_time_lt t u : Unix t < Unix u → wire_time t < wire_time u.
Proof. unfold Unix, wire_time. intros. by apply Z.mul_lt_mono_pos_r. Qed.
Lemma wire_time_whole t : (Second | t) → wire_time t = t.
Proof. intros [k ->]. unfold wire_time. by rewrite Z.div_mul. Qed.

Section cron.
Context `{CronLib}.

Lemma last_activation_Unix sched base now fire :
  advancing sched → last_activation sched base now fire → Unix base < Unix fire.
Proof.
  intros Ha (_ & _ & k & ->). induction k as [|k IH]; [apply Ha|].
  rewrite Nat.iter_succ. pose proof (Ha (Nat.iter (S k) (Next sched) base)). lia.
Qed.

Lemma fire_base_last s t :
  sst_LastScheduleTime (sc_Status s) = Some t → t ≤ fire_base s.
Proof.
  intros Ht. unfold fire_base. rewrite Ht.
  by destruct (Z.ltb_spec (om_CreationTimestamp (sc_Meta s)) t); lia.
Qed.

(** The expression is one whose activations advance. *)
Definition advances (expr : string) : Prop :=
  ∀ sched, ParseStandard expr = inr sched → advancing sched.
End cron.

Section life.
Context `{KubeLib} `{JsonLib} `{CronLib}.
Context (fuel : nat) (req : NamespacedName).

(** A reconcile, or an edit of the expression *)
Inductive schedule_life_step : stored_schedule → stored_schedule → Prop :=
  | life_reconciled st st' :
      life (schedule_view req) smerge_patch (Reconcile fuel req) st st' → schedule_life_step st st'
  | life_edited expr expr' st :
      advances expr' → schedule_life_step (expr, st) (expr', st).

Definition new_sstatus : PBSScheduleStatus := mkScheduleStatus None None None [].
Definition sreachable (st : stored_schedule) : Prop :=
  ∃ expr, advances expr ∧ rtc schedule_life_step (expr, new_sstatus) st.

(** ** One reconcile *)

Lemma no_patch_sview e : no_patch e → is_patch (schedule_view req e) = false.
Proof.
  destruct e as [c a]. destruct c; try done; intros Hn; destruct k; try done. cbn.
  by case_bool_decide.
Qed.

Lemma sview_patch e before after answer :
  schedule_view req e = VPatch before after answer →
  ∃ s s' a, e = ev (CStatusPatch KPBSSchedule s s') a ∧ before = stored s ∧ after = stored s' ∧
    answer = match a with inr s => Some (stored s) | inl _ => None end.
Proof.
  destruct e as [c a]. destruct c as [k key| | | | |k s s'| | | | | | | | | | | |]; try done;
    destruct k; try done; cbn.
  - by case_bool_decide.
  - intros [= <- <- <-]. by exists s, s', a.
Qed.

(** What a reconcile may write over what it read *)
Definition legal_schedule (st after : stored_schedule) : Prop :=
  after.1 = st.1 ∧
  (sst_LastScheduleTime after.2 = sst_LastScheduleTime st.2 ∨
   ∃ fire, sst_LastScheduleTime after.2 = Some fire ∧
     (advances st.1 → ∀ t, sst_LastScheduleTime st.2 = Some t → Unix t < Unix fire)).

Lemma due_later h s fire t :
  due fuel h s fire → advances (ss_Schedule (sc_Spec s)) →
  sst_LastScheduleTime (sc_Status s) = Some t → Unix t < Unix fire.
Proof.
  intros (sched & now & Hp & _ & _ & Hl & _) Ha Ht. specialize (Ha _ Hp).
  pose proof (last_activation_Unix _ _ _ _ Ha (Hl Ha)).
  pose proof (Unix_le _ _ (fire_base_last _ _ Ht)). lia.
Qed.

Lemma schedule_step_legal h s s' :
  sc_Spec s' = sc_Spec s → schedule_step fuel h s (sc_Status s') → legal_schedule (stored s) (stored s').
Proof.
  intros Hsp Hst. split; [by unfold stored; rewrite Hsp|]. cbn.
  destruct Hst as [[cs ->]|(_ & _ & [Heq|(fire & Hf & Hd & _)])]; [by left|by left|].
  right. exists fire. split; [done|]. intros Ha t. by apply (due_later _ _ _ _ Hd Ha).
Qed.

Lemma schedule_patches_read :
  patches_read (schedule_view req) (Reconcile fuel req) legal_schedule.
Proof.
  intros tr res i e before after answer Hr Hi Hv.
  apply sview_patch in Hv as (s & s' & a & -> & -> & -> & ->).
  destruct (schedule_lookup _ _ _ _ _ _ _ Hr Hi) as (Hh & Hn & _ & Hsp & Hst). split_and!.
  - eapply Forall_impl; [exact Hn|]. intros e. apply no_patch_sview.
  - eexists. split; [exact Hh|]. cbn. by rewrite bool_decide_eq_true_2.
  - by eapply schedule_step_legal.
Qed.

(** ** All reconciles *)

(** What holds of every stored schedule. *)
Record sstored_ok (st : stored_schedule) : Prop := {
  sok_wire : swire st.2 = st.2;
  sok_expr : advances st.1;
}.

(** The last fire time, once there, only grows. *)
Definition fires_forward (st st' : stored_schedule) : Prop :=
  ∀ t, sst_LastScheduleTime st.2 = Some t → ∃ t', sst_LastScheduleTime st'.2 = Some t' ∧ t ≤ t'.

Lemma fires_forward_refl st : fires_forward st st.
Proof. intros t Ht. by exists t. Qed.
Lemma fires_forward_trans st1 st2 st3 :
  fires_forward st1 st2 → fires_forward st2 st3 → fires_forward st1 st3.
Proof.
  intros Hf1 Hf2 t (t1 & Ht1 & Hle)%Hf1. apply Hf2 in Ht1 as (u & Hu & Hle1). exists u.
  split; [done|lia].
Qed.

Lemma wire_last st t : swire st = st → sst_LastScheduleTime st = Some t → wire_time t = t.
Proof. intros Hw Ht. rewrite <- Hw in Ht. cbn in Ht. destruct (sst_LastScheduleTime st); [|done].
  injection Ht as <-. apply wire_time_whole. eexists. reflexivity. Qed.

Lemma schedule_life_ok st st' :
  sstored_ok st → schedule_life_step st st' → sstored_ok st' ∧ fires_forward st st'.
Proof.
  intros [Hw Ha] Hstep. destruct Hstep as [st st' Hs|expr expr' s Ha'].
  2:{ split; [by split|]. intros t Ht. by exists t. }
  destruct (life_cases _ _ _ _ _ _ schedule_patches_read Hs) as [->|(after & [He Hl] & ->)].
  { split; [done|apply fires_forward_refl]. }
  rewrite smerge_patch_fresh by done. split; [split; [apply swire_twice|done]|].
  intros t Ht. cbn. destruct Hl as [->|(fire & -> & Hl)].
  - rewrite Ht. exists (wire_time t). split; [done|]. by rewrite (wire_last _ _ Hw Ht).
  - exists (wire_time fire). split; [done|]. rewrite <- (wire_last _ _ Hw Ht).
    apply Z.lt_le_incl, wire_time_lt, Hl; done.
Qed.

Lemma rtc_schedule_life_ok st st' :
  rtc schedule_life_step st st' → sstored_ok st → sstored_ok st' ∧ fires_forward st st'.
Proof. apply rtc_life; [apply fires_forward_refl|apply fires_forward_trans|apply schedule_life_ok]. Qed.

Lemma sreachable_ok st : sreachable st → sstored_ok st.
Proof. intros (expr & Ha & Hr). by apply (rtc_schedule_life_ok _ _ Hr). Qed.

(** Two slots of two schedules ask for the same name exactly when the schedules have the
    same name and the slots the same second. *)
Lemma fire_name_Unix s s' fire fire' :
  0 ≤ fire → 0 ≤ fire' →
  fire_name s fire = fire_name s' fire' ↔
  om_Name (sc_Meta s) = om_Name (sc_Meta s') ∧ Unix fire = Unix fire'.
Proof.
  intros Hp Hp'. unfold fire_name, fmt_d. split; [|by intros [-> ->]].
  intros [Hn Hf]%append_dash_inj; [|by apply Unix_no_dash, Z.div_pos..].
  split; [done|]. by apply (inj pretty) in Hf.
Qed.

Lemma fired tr res i b a :
  runs (Reconcile fuel req) tr res → tr !! i = Some (ev (CCreate KPBSBackup b) a) →
  ∃ s fire refs, read_schedule req (take i tr) s ∧ due fuel (take i tr) s fire ∧
    b = set_bk_Owners (fire_backup s fire) refs.
Proof.
  intros Hr Hi. destruct (schedule_lookup _ _ _ _ _ _ _ Hr Hi) as (s & fire & refs & Hh & _ & Hd & _ & _ & _ & ->).
  by exists s, fire, refs.
Qed.

Lemma read_schedule_take i tr s : read_schedule req (take i tr) s → read_schedule req tr s.
Proof. unfold read_schedule. by destruct tr, i. Qed.

(** C25: one backup per slot, over any number of reconciles of a PBSSchedule,
    interrupted ones and ones whose patch failed or seemed to included, and however
    its cron expression is edited between them (to one whose activations advance).
    As long as every reconcile reads the schedule as it is stored: its last fire time
    never goes back, and once it is recorded no later reconcile asks for the backup of
    that slot or an earlier one again, even when that backup was deleted.  Whatever
    the reconciles read (a cache that lags makes a reconcile enter a slot again): two
    creations ask for the same name exactly when they are for the same slot of a schedule
    of the same name, so the second one can only be answered that the backup exists,
    as long as it does. *)
Theorem schedule_slot_once :
  (∀ st st' tr rest res st'' i b a,
     sreachable st → rtc schedule_life_step st st' →
     runs (Reconcile fuel req) (tr ++ rest) res →
     Life.served (schedule_view req) smerge_patch st' tr st'' →
     tr !! i = Some (ev (CCreate KPBSBackup b) a) →
     fires_forward st st' ∧
     ∃ s fire refs, stored s = st' ∧ b = set_bk_Owners (fire_backup s fire) refs ∧
       ∀ t, sst_LastScheduleTime st.2 = Some t →
         Unix t < Unix fire ∧ (0 ≤ t → om_Name (bk_Meta b) ≠ fire_name s t)) ∧
  (∀ tr1 res1 i1 b1 a1 tr2 res2 i2 b2 a2,
     runs (Reconcile fuel req) tr1 res1 → tr1 !! i1 = Some (ev (CCreate KPBSBackup b1) a1) →
     runs (Reconcile fuel req) tr2 res2 → tr2 !! i2 = Some (ev (CCreate KPBSBackup b2) a2) →
     ∃ s1 fire1 refs1 s2 fire2 refs2,
       read_schedule req tr1 s1 ∧ due fuel (take i1 tr1) s1 fire1 ∧
       b1 = set_bk_Owners (fire_backup s1 fire1) refs1 ∧
       read_schedule req tr2 s2 ∧ due fuel (take i2 tr2) s2 fire2 ∧
       b2 = set_bk_Owners (fire_backup s2 fire2) refs2 ∧
       (0 ≤ fire1 → 0 ≤ fire2 →
        om_Name (bk_Meta b1) = om_Name (bk_Meta b2) ↔
        om_Name (sc_Meta s1) = om_Name (sc_Meta s2) ∧ Unix fire1 = Unix fire2)).
Proof.
  split.
  - intros st st' tr rest res st'' i b a Hre Hl Hr Hs Hi.
    destruct (rtc_schedule_life_ok _ _ Hl (sreachable_ok _ Hre)) as [[Hw Ha] Hf].
    split; [done|]. pose proof (lookup_lt_Some _ _ _ Hi) as Hlt.
    assert (Hi' : (tr ++ rest) !! i = Some (ev (CCreate KPBSBackup b) a)) by by rewrite lookup_app_l.
    destruct (fired _ _ _ _ _ Hr Hi') as (s & fire & refs & Hh & Hd & ->).
    rewrite take_app_le in Hh by lia. exists s, fire, refs.
    assert (Hst : stored s = st').
    { eapply served_head; [exact Hs|exact Hh|]. cbn. by rewrite bool_decide_eq_true_2. }
    split; [done|]. split; [done|]. intros t (t' & Ht' & Hle)%Hf. subst st'.
    pose proof (due_later _ _ _ _ Hd Ha Ht'). pose proof (Unix_le _ _ Hle).
    split; [lia|]. intros Hpos Heq. assert (0 ≤ Unix t) by by apply Z.div_pos.
    assert (0 ≤ fire).
    { apply Z.nlt_ge. intros Hneg. pose proof (Unix_le fire 0 ltac:(lia)) as Hle'. change (Unix 0) with 0 in Hle'. lia. }
    apply fire_name_Unix in Heq as [_ Heq]; [lia|done..].
  - intros tr1 res1 i1 b1 a1 tr2 res2 i2 b2 a2 Hr1 Hi1 Hr2 Hi2.
    destruct (fired _ _ _ _ _ Hr1 Hi1) as (s1 & fire1 & refs1 & Hh1 & Hd1 & ->).
    destruct (fired _ _ _ _ _ Hr2 Hi2) as (s2 & fire2 & refs2 & Hh2 & Hd2 & ->).
    exists s1, fire1, refs1, s2, fire2, refs2.
    split_and!; [by eapply read_schedule_take|done|done|by eapply read_schedule_take|done|done|].
    intros Hp1 Hp2. by apply fire_name_Unix.
Qed.

(** ** Catching up *)

(** The repo was there and Ready whenever it was read. *)
Definition repos_ready (h : list kevent) : Prop :=
  ∀ key a, ev (CGet KPBSRepo key) a ∈ h →
    ∃ repo, a = inr repo ∧ IsStatusConditionTrue (rst_Conditions (repo_Status repo)) condReady = true.

(** The status of [s'] was written over that of [s], once, or is the same. *)
Definition wrote (t : list kevent) (s s' : PBSSchedule) : Prop :=
  (sc_Status s' = sc_Status s ∧ Forall no_patch t) ∨
  ∃ t1 t2 a, t = t1 ++ ev (CStatusPatch KPBSSchedule s s') (inr a) :: t2 ∧
    Forall no_patch t1 ∧ Forall no_patch t2.

Lemma wrote_app t1 t t2 s s' :
  Forall no_patch t1 → Forall no_patch t2 → wrote t s s' → wrote (t1 ++ t ++ t2) s s'.
Proof.
  intros H1' H2' [[Heq Hn]|(u1 & u2 & a & -> & Hu1 & Hu2)].
  - left. split; [done|]. by rewrite !Forall_app.
  - right. exists (t1 ++ u1), (u2 ++ t2), a. rewrite !Forall_app. split_and!; try done.
    by rewrite <- !app_assoc.
Qed.

Lemma wrote_last t st' s s' :
  swire (sc_Status s) = sc_Status s → wrote t s s' →
  Life.served (schedule_view req) smerge_patch (stored s) t st' →
  sst_LastScheduleTime st'.2 = wire_time <$> sst_LastScheduleTime (sc_Status s').
Proof.
  intros Hw [[Heq Hn]|(t1 & t2 & a & -> & H1' & H2')] Hs.
  - rewrite Heq. apply served_no_patch in Hs as ->; [cbn; by rewrite <- Hw at 1|].
    eapply Forall_impl; [exact Hn|]. intros e. apply no_patch_sview.
  - eapply (served_accepted _ _ _ _ _ (length t1)) in Hs;
      [|by rewrite list_lookup_middle|reflexivity|..].
    + by rewrite Hs, smerge_patch_fresh.
    + rewrite take_app_length. eapply Forall_impl; [exact H1'|]. intros e. apply no_patch_sview.
    + rewrite <- Nat.add_1_r, <- drop_drop, drop_app_length.
      eapply Forall_impl; [exact H2'|]. intros e. apply no_patch_sview.
Qed.

Lemma calls_in_no_patch {R} (p : kprog R) t r :
  calls_in (λ c, match c with CStatusPatch _ _ _ => False | _ => True end) p → runs p t r →
  Forall no_patch t.
Proof. intros Hp Hr. exact (calls_in_runs _ _ _ _ Hp Hr). Qed.

(** The three parts of a reconcile that is not held and ends without an error *)
Lemma gate_passes s t g sched :
  runs (gate s) t g → ParseStandard (ss_Schedule (sc_Spec s)) = inr sched → repos_ready t →
  g = inr sched ∧ Forall no_patch t.
Proof.
  unfold gate. intros Hr Hp Hrepo. rewrite Hp in Hr. apply runs_bind in Hr as (t1 & a & t2 & -> & H1' & H2').
  destruct H1' as (? & ? & -> & -> & <-).
  destruct (Hrepo (mkNN "" (ss_RepoRef (sc_Spec s))) a) as (repo & -> & Hready); [by left|].
  rewrite Hready in H2'. apply runs_ret in H2' as [-> ->]. split; [done|]. by repeat constructor.
Qed.

Definition served_last (s : PBSSchedule) (due : option Z) : option Z :=
  match due with Some fire => Some fire | None => sst_LastScheduleTime (sc_Status s) end.

Lemma serve_slot_serves s due t s' :
  runs (serve_slot s due) t (inr s') → ss_Suspend (sc_Spec s) = false →
  Forall no_patch t ∧ sc_Spec s' = sc_Spec s ∧
  sst_LastScheduleTime (sc_Status s') = served_last s due ∧
  (∀ fire, due = Some fire → slot_served t s fire).
Proof.
  unfold serve_slot, fireBackup. intros Hr Hsus. rewrite Hsus in Hr.
  destruct due as [fire|]; [|by apply runs_ret in Hr as [-> [= ->]]].
  apply runs_bind in Hr as (t1 & made & t2 & -> & H1' & H2').
  destruct (SetControllerReference _ _ _) as [e|refs].
  { apply runs_ret in H1' as [-> ->]. by apply runs_ret in H2' as [_ ?]. }
  apply runs_bind in H1' as (u1 & a & u2 & -> & H1' & H3'). destruct H1' as (? & ? & -> & -> & <-).
  assert (Ha : match a with inr _ => True | inl e => IsAlreadyExists e = true end ∧ Forall no_patch u2 ∧ ∃ b, made = inr b).
  { destruct a as [e|b].
    - destruct (IsAlreadyExists e) eqn:He; apply runs_ret in H3' as [-> ->]; [by eauto|].
      by apply runs_ret in H2' as [_ ?].
    - apply runs_bind in H3' as (v1 & u & v2 & -> & H3' & H4'). destruct H3' as (? & ? & -> & -> & <-).
      apply runs_ret in H4' as [-> ->]. split; [done|]. split; [by repeat constructor|by eexists]. }
  destruct Ha as (Ha & Hn & made' & ->). apply runs_ret in H2' as [-> [= ->]].
  rewrite app_nil_r. split_and!; [by constructor|done..|].
  intros f [= <-]. exists refs, a. split; [by left|done].
Qed.

Lemma refresh_writes s s' sched now t x :
  runs (refresh s s' sched now) t (inr x) →
  ∃ s2, wrote t s s2 ∧ sst_LastScheduleTime (sc_Status s2) = sst_LastScheduleTime (sc_Status s').
Proof.
  unfold refresh, activeBackups, patchStatus, patchStatusIfChanged, api, List_, Now. intros Hr.
  apply runs_bind in Hr as (t1 & active & t2 & -> & H1' & Hr).
  assert (Hn : Forall no_patch t1) by (eapply calls_in_no_patch; [|exact H1']; calls_auto).
  destruct active as [e|active]; [by apply runs_ret in Hr as [_ ?]|]. clear H1'.
  apply runs_bind in Hr as (t3 & p & t4 & -> & H1' & Hr).
  apply runs_bind in H1' as (u1 & cs & u2 & -> & Hu1 & H1'). destruct Hu1 as (? & ? & -> & -> & <-).
  destruct p as [e|p]; [by apply runs_ret in Hr as [_ ?]|].
  assert (Hn4 : Forall no_patch t4) by (eapply calls_in_no_patch; [|exact Hr]; calls_auto). clear Hr.
  match goal with H : runs (if bool_decide (_ = sc_Status ?s2) then _ else _) _ _ |- _ =>
    exists s2; split; [|done] end.
  match goal with |- wrote (t1 ++ ([?e] ++ u2) ++ t4) _ _ =>
    replace (t1 ++ ([e] ++ u2) ++ t4) with ((t1 ++ [e]) ++ u2 ++ t4) by by rewrite <- !app_assoc end.
  apply wrote_app; [by apply Forall_snoc|done|].
  case_bool_decide as Heq; [apply runs_ret in H1' as [-> _]; by left|]. right.
  apply runs_bind in H1' as (v1 & a & v2 & -> & Hv1 & H1'). destruct Hv1 as (? & ? & -> & -> & <-).
  destruct a as [e|a]; apply runs_ret in H1' as [-> ?]; [done|]. by exists [], [], a.
Qed.

Lemma reconcile_parts tr x s sched :
  runs (Reconcile fuel req) tr (Some (inr x)) → read_schedule req tr s → repos_ready tr →
  ss_Suspend (sc_Spec s) = false → ParseStandard (ss_Schedule (sc_Spec s)) = inr sched →
  ∃ now due s2, clocked tr now ∧ due_slot fuel sched (fire_base s) now = Some due ∧ wrote tr s s2 ∧
    sst_LastScheduleTime (sc_Status s2) = served_last s due ∧
    ∀ fire, due = Some fire → slot_served tr s fire.
Proof.
  unfold Reconcile. intros Hr Hh Hrepo Hsus Hp. apply read_schedule_of in Hh.
  apply runs_bind in Hr as (t0 & got & t & -> & H0' & Hr). destruct H0' as (? & ? & -> & -> & <-).
  cbn [app head mbind option_bind schedule_of ev] in Hh. destruct got as [e|s0]; [done|]. injection Hh as ->.
  apply runs_bind in Hr as (t1 & g & t2 & -> & Hg & Hr).
  destruct (gate_passes _ _ _ _ Hg Hp) as [-> Hn1].
  { intros key a Hin. apply (Hrepo key a). rewrite !elem_of_app. by right; left. }
  apply runs_bind in Hr as (t3 & now & t4 & -> & Hc & Hr). destruct Hc as (? & ? & -> & -> & <-).
  destruct (due_slot _ _ _ _) as [due|] eqn:Hdue; [|by apply runs_ret in Hr as [_ ?]].
  apply runs_bind in Hr as (t5 & sv & t6 & -> & Hsv & Hr).
  destruct sv as [e|s1]; [by apply runs_ret in Hr as [_ ?]|].
  destruct (serve_slot_serves _ _ _ _ Hsv Hsus) as (Hn5 & _ & Hl1 & Hserved).
  apply runs_bind in Hr as (t7 & res & t8 & -> & Hrf & Hr). apply runs_ret in Hr as [-> [= <-]].
  destruct (refresh_writes _ _ _ _ _ _ Hrf) as (s2 & Hwr & Hl2).
  exists now, due, s2. split_and!.
  - unfold clocked. rewrite !elem_of_app. right; right; left. by left.
  - done.
  - match goal with |- wrote ([?e1] ++ t1 ++ [?e2] ++ t5 ++ t7 ++ []) _ _ =>
      replace ([e1] ++ t1 ++ [e2] ++ t5 ++ t7 ++ []) with (([e1] ++ t1 ++ [e2] ++ t5) ++ t7 ++ [])
        by by rewrite <- !app_assoc end.
    apply wrote_app; [|done..]. repeat apply Forall_app_2; by repeat constructor.
  - congruence.
  - intros fire Hf. destruct (Hserved fire Hf) as (refs & a & Hin & Ha). exists refs, a.
    split; [|done]. rewrite !elem_of_app. by right; right; right; left.
Qed.

(** C26: a schedule catches up: a reconcile that ends without an error, of a schedule
    that is not suspended, whose repo is Ready and whose expression has fixed slots,
    leaves no slot behind: every one since the creation of the schedule and up to
    the time of the reconcile is at most the stored last fire time, which is the
    one from before or the latest slot that is due, whose backup this reconcile
    created or found there. *)
Theorem schedule_leaves_no_slot tr x s sched slot st st' :
  runs (Reconcile fuel req) tr (Some (inr x)) →
  Life.served (schedule_view req) smerge_patch st tr st' → swire st.2 = st.2 →
  read_schedule req tr s → repos_ready tr → ss_Suspend (sc_Spec s) = false →
  ParseStandard (ss_Schedule (sc_Spec s)) = inr sched → recurring sched slot →
  ∃ now, clocked tr now ∧
    (∀ u, slot u → om_CreationTimestamp (sc_Meta s) < u ≤ now →
       ∃ t, sst_LastScheduleTime st'.2 = Some t ∧ Unix u ≤ Unix t) ∧
    (sst_LastScheduleTime st'.2 = sst_LastScheduleTime st.2 ∨
     ∃ fire, latest_slot slot (fire_base s) now fire ∧ slot_served tr s fire ∧
       sst_LastScheduleTime st'.2 = Some (wire_time fire)).
Proof.
  intros Hr Hs Hw Hh Hrepo Hsus Hp Hrec.
  assert (Hst : stored s = st).
  { eapply (served_head _ _ _ _ _ 1); [exact Hs| |].
    - destruct tr; [done|]. exact Hh.
    - cbn. by rewrite bool_decide_eq_true_2. }
  subst st. destruct (reconcile_parts _ _ _ _ Hr Hh Hrepo Hsus Hp) as (now & due & s2 & Hnow & Hdue & Hwr & Hlast & Hsv).
  exists now. split; [done|]. pose proof (wrote_last _ _ _ _ Hw Hwr Hs) as Hlast'. rewrite Hlast in Hlast'.
  pose proof (due_slot_cases sched fuel (fire_base s) now (rec_advancing _ _ Hrec)) as Hcases.
  rewrite Hdue in Hcases. destruct due as [fire|]; cbn [served_last fmap option_fmap option_map] in Hlast'.
  - pose proof (last_activation_latest _ _ _ _ _ Hrec Hcases) as Hl. split.
    + intros u Hu Hun. exists (wire_time fire). split; [done|]. rewrite Unix_wire_time.
      apply Unix_le. apply Hl; [done|lia].
    + right. exists fire. by split_and!; [|apply Hsv|].
  - assert (Hsame : sst_LastScheduleTime st'.2 = sst_LastScheduleTime (sc_Status s)).
    { rewrite Hlast'. change (sc_Status s) with (stored s).2. by rewrite <- Hw at 2. }
    split; [|by left]. intros u Hu Hun. rewrite Hsame.
    assert (Hb : u ≤ fire_base s).
    { apply Z.nlt_ge. intros Hlt. pose proof (rec_least _ _ Hrec _ _ Hu Hlt). lia. }
    unfold fire_base in Hb. destruct (sst_LastScheduleTime (sc_Status s)) as [t|]; [|lia].
    exists t. split; [done|]. apply Unix_le. destruct (Z.ltb_spec (om_CreationTimestamp (sc_Meta s)) t); lia.
Qed.
End life.

(** ** Runs *)

Lemma every_minute_advances : advances "* * * * *".
Proof.
  intros sched Hp. vm_compute in Hp. injection Hp as <-. apply (rec_advancing _ _ every_minute_recurring).
Qed.

Definition fired_schedule : stored_schedule := Eval vm_compute in
  smerge_patch (stored (example_schedule None)) (stored (example_schedule None))
    (default (stored (example_schedule None)) (head (omap (λ e, match schedule_view schedule_req e with
       VPatch _ after _ => Some (after.1, swire after.2) | _ => None end) schedule_trace))).

Lemma fired_served :
  Life.served (schedule_view schedule_req) smerge_patch (stored (example_schedule None)) schedule_trace
    fired_schedule.
Proof. vm_compute. by repeat split. Qed.

Lemma fired_reachable : sreachable 200 schedule_req fired_schedule.
Proof.
  exists "* * * * *". split; [apply every_minute_advances|]. apply rtc_once, life_reconciled.
  apply (life_reconcile _ _ _ _ schedule_trace [] schedule_res).
  - rewrite app_nil_r. apply schedule_runs.
  - exact fired_served.
Qed.

(** The next reconcile, three minutes later *)
Definition later_schedule : PBSSchedule :=
  mkSchedule (meta0 "apps" "nightly") (sc_Spec (example_schedule None)) fired_schedule.2.
Definition later_cluster : cluster :=
  let c := late_cluster later_schedule in
  {| cl_objects := cl_objects c; cl_clock := 365 * Second; cl_exec := cl_exec c |}.
Definition later_run := exec serve (Reconcile 200 schedule_req) later_cluster.
Definition later_trace : list kevent := later_run.1.1.
Lemma later_runs : runs (Reconcile 200 schedule_req) (later_trace ++ []) later_run.1.2.
Proof. rewrite app_nil_r. apply exec_runs. Qed.

Example later_fires :
  sst_LastScheduleTime fired_schedule.2 = Some (180 * Second) ∧
  backups_made later_trace = ["nightly-360"].
Proof. by vm_compute. Qed.

(** A later reconcile whose cache still has the schedule as it was before the slot was
    recorded: it enters the slot again, and is answered that its backup exists. *)
Definition reentry_cluster : cluster :=
  let c := set_objects (k := KPBSSchedule) [example_schedule None] schedule_run.2 in
  {| cl_objects := cl_objects c; cl_clock := 190 * Second; cl_exec := cl_exec c |}.
Definition reentry := exec serve (Reconcile 200 schedule_req) reentry_cluster.
Lemma reentry_runs : runs (Reconcile 200 schedule_req) reentry.1.1 reentry.1.2.
Proof. apply exec_runs. Qed.

Definition refused (e : kevent) : bool :=
  match e with
  | existT c a =>
      match c return resp c → bool with
      | CCreate k o => λ a, match a with inl e => IsAlreadyExists e | inr _ => false end
      | _ => λ _, false
      end a
  end.

Lemma schedule_slot_once_witness :
  (∃ b a, later_trace !! 3%nat = Some (ev (CCreate KPBSBackup b) a) ∧
    ∃ s fire refs, stored s = fired_schedule ∧ b = set_bk_Owners (fire_backup s fire) refs ∧
      ∀ t, sst_LastScheduleTime fired_schedule.2 = Some t →
        Unix t < Unix fire ∧ (0 ≤ t → om_Name (bk_Meta b) ≠ fire_name s t)) ∧
  (∃ b a b' a', schedule_trace !! 3%nat = Some (ev (CCreate KPBSBackup b) a) ∧
    reentry.1.1 !! 3%nat = Some (ev (CCreate KPBSBackup b') a') ∧
    refused (ev (CCreate KPBSBackup b') a') = true ∧
    ∃ s1 fire1 s2 fire2, read_schedule schedule_req schedule_trace s1 ∧
      read_schedule schedule_req reentry.1.1 s2 ∧
      (0 ≤ fire1 → 0 ≤ fire2 → om_Name (bk_Meta b) = om_Name (bk_Meta b') ↔
       om_Name (sc_Meta s1) = om_Name (sc_Meta s2) ∧ Unix fire1 = Unix fire2)).
Proof.
  destruct (schedule_slot_once 200 schedule_req) as [Hfresh Hany].
  assert (Hs : ∃ st, Life.served (schedule_view schedule_req) smerge_patch fired_schedule later_trace st).
  { eexists. vm_compute. by repeat split. }
  destruct Hs as [st Hs]. split.
  - at_index later_trace 3%nat ltac:(fun c a => lazymatch c with CCreate KPBSBackup ?b =>
      exists b, a; assert (Hi : later_trace !! 3%nat = Some (ev c a)) by (by vm_compute);
      split; [exact Hi|exact (proj2 (Hfresh _ _ _ _ _ _ _ _ _
        fired_reachable (rtc_refl _ _) later_runs Hs Hi))] end).
  - at_index schedule_trace 3%nat ltac:(fun c a => lazymatch c with CCreate KPBSBackup ?b =>
      assert (Hi : schedule_trace !! 3%nat = Some (ev c a)) by (by vm_compute); exists b, a end).
    at_index reentry.1.1 3%nat ltac:(fun c a => lazymatch c with CCreate KPBSBackup ?b =>
      assert (Hj : reentry.1.1 !! 3%nat = Some (ev c a)) by (by vm_compute); exists b, a end).
    split; [exact Hi|split; [exact Hj|split; [reflexivity|]]].
    destruct (Hany _ _ _ _ _ _ _ _ _ _ schedule_runs Hi reentry_runs Hj)
      as (s1 & fire1 & refs1 & s2 & fire2 & refs2 & Hh1 & _ & _ & Hh2 & _ & _ & Hn).
    exists s1, fire1, s2, fire2. split; [exact Hh1|split; [exact Hh2|exact Hn]].
Defined.

Definition repo_of (e : kevent) : option (apierror + PBSRepo) :=
  match e with
  | existT c a =>
      match c return resp c → option (apierror + PBSRepo) with
      | CGet k _ =>
          match k return (apierror + obj k) → option (apierror + PBSRepo) with
          | KPBSRepo => Some
          | _ => λ _, None
          end
      | _ => λ _, None
      end a
  end.
Lemma repo_reads (h : list kevent) key (a : apierror + PBSRepo) :
  ev (CGet KPBSRepo key) a ∈ h → a ∈ omap repo_of h.
Proof. intros Hin. apply list_elem_of_omap. by eexists. Qed.

Lemma schedule_leaves_no_slot_witness :
  ∃ now, clocked schedule_trace now ∧
    (∀ u, (Minute | u) → 0 < u ≤ now →
       ∃ t, sst_LastScheduleTime fired_schedule.2 = Some t ∧ Unix u ≤ Unix t) ∧
    (sst_LastScheduleTime fired_schedule.2 = None ∨
     ∃ fire, latest_slot (λ t, (Minute | t)) 0 now fire ∧
       slot_served schedule_trace (example_schedule None) fire ∧
       sst_LastScheduleTime fired_schedule.2 = Some (wire_time fire)).
Proof.
  eapply (schedule_leaves_no_slot 200 schedule_req schedule_trace _ (example_schedule None) _ _ _ _
    schedule_runs fired_served).
  - reflexivity.
  - vm_compute. reflexivity.
  - intros key a Hin. apply repo_reads in Hin. vm_compute in Hin. 
    apply list_elem_of_singleton in Hin as ->. eexists. by split.
  - reflexivity.
  - vm_compute. reflexivity.
  - exact every_minute_recurring.
Defined.
