(* ===== verification/PbsClient.v ===== *)
(** * The PBS API client: internal/pbs

    client.go, namespace.go, snapshots.go and tasks.go.  An exchange is a TLS
    connection ([CDial], which answers the certificates the server presented)
    followed, if the pinning check accepts them, by the request ([CHttp]).  A
    context is its timeout, if it has a deadline. *)

From S2P Require Import Prelude GoLib GoNet Kube Api Client SnapshotRef Json.
From Stdlib Require Import Ascii.
From stdpp Require Import options.

Local Open Scope Z_scope.

Definition defaultTimeout : Z := 30 * Second.

(** [baseURL], [authToken], and the fingerprint the transport's verifier holds *)
Record PbsClient := mkPbsClient {
  pc_baseURL : string; pc_authToken : string; pc_fingerprint : string }.

Definition NewClient (host : string) (port : Z) (tokenID tokenSecret fingerprint : string)
  : PbsClient :=
  mkPbsClient ("https://" +:+ host +:+ ":" +:+ fmt_d port)
    ("PBSAPIToken=" +:+ tokenID +:+ ":" +:+ tokenSecret) fingerprint.

(** ** Certificate pinning *)

Definition substring_ (s : string) (i j : nat) : string := stake (j - i) (sdrop i s).

Definition colonHex (b : list Z) : string :=
  let hexed := ToUpper (hex_EncodeToString b) in
  Join ((λ i, substring_ hexed (2 * i) (2 * i + 2)) <$> seq 0 (String.length hexed / 2)) ":".

Definition fingerprintKey (fp : string) : string := remove_bytes [":"; " "]%char (ToUpper fp).

(** [None] is acceptance. *)
Definition verifyFingerprint (rawCerts : list string) (want : string) : option error :=
  match rawCerts with
  | [] => Some (ErrMsg "pbs: server presented no certificate")
  | cert :: _ =>
      let got := colonHex (Sum256 (bytes_of cert)) in
      if negb (bool_decide (fingerprintKey got = fingerprintKey want)) then
        Some (ErrMsg ("pbs: certificate fingerprint mismatch: server cert is " +:+ got +:+
                      ", configured fingerprint is " +:+ want))
      else None
  end.

(** ** Requests *)

(** [*apiError], or any other error *)
Inductive pbs_error :=
  | PbsAPI (status : Z) (body : string)
  | PbsErr (e : error).
Definition pbs_Error (e : pbs_error) : error :=
  match e with
  | PbsAPI status body => ErrMsg ("pbs: HTTP " +:+ fmt_d status +:+ ": " +:+ body)
  | PbsErr e => e
  end.

(** [http.NewRequest]: the error for a URL that does not parse *)
Class HttpLib := { NewRequest_error : string → option error }.

Section client.
Context `{JsonLib} `{HttpLib}.

(** The prefix of [*url.Error]: the method in title case, and the URL. *)
Definition url_Error (method url : string) (e : error) : error :=
  let title := match method with
               | String c t => String c (ToLower t)
               | EmptyString => EmptyString
               end in
  ErrWrap (title +:+ " " +:+ Quote url +:+ ": ") e.

(** [http.Client.Do] over the pinning transport *)
Definition http_Do (c : PbsClient) (timeout : Z) (r : http_request)
  : kprog (error + (Z * (error + string))) :=
  certs ← do_call (CDial timeout (pc_baseURL c));
  match certs with
  | inl e => mret (inl (url_Error (rq_Method r) (rq_URL r) e))
  | inr certs =>
      match verifyFingerprint certs (pc_fingerprint c) with
      | Some e => mret (inl (url_Error (rq_Method r) (rq_URL r) e))
      | None =>
          resp ← do_call (CHttp timeout r);
          mret (match resp with
                | inl e => inl (url_Error (rq_Method r) (rq_URL r) e)
                | inr x => inr x
                end)
      end
  end.

(** [do]; [body] is already encoded, and [out] decodes the data if it is wanted. *)
Definition do_ {A} (c : PbsClient) (ctx : option Z) (method path : string)
    (body : option string) (out : option (string → error + A)) : kprog (pbs_error + option A) :=
  let timeout := default defaultTimeout ctx in
  let url := pc_baseURL c +:+ path in
  match NewRequest_error url with
  | Some e => mret (inl (PbsErr (ErrWrap "pbs: build request: " e)))
  | None =>
      let headers := [("Authorization", pc_authToken c)] ++
        match body with Some _ => [("Content-Type", "application/json")] | None => [] end in
      resp ← http_Do c timeout (mkRequest method url headers body);
      mret match resp with
           | inl e => inl (PbsErr (ErrWrap ("pbs: " +:+ method +:+ " " +:+ path +:+ ": ") e))
           | inr (_, inl e) => inl (PbsErr (ErrWrap "pbs: read response: " e))
           | inr (status, inr buf) =>
               if 400 <=? status then inl (PbsAPI status buf)
               else
                 match out with
                 | None => inr None
                 | Some decode =>
                     match json_envelope buf with
                     | inl e => inl (PbsErr (ErrWrap "pbs: decode response envelope: " e))
                     | inr data =>
                         match decode data with
                         | inl e => inl (PbsErr (ErrWrap "pbs: decode response data: " e))
                         | inr x => inr (Some x)
                         end
                     end
                 end
           end
  end.

(** ** Operations *)

Definition datastore_path (store : string) : string :=
  "/api2/json/admin/datastore/" +:+ PathEscape store.

Definition ListSnapshots (c : PbsClient) (ctx : option Z) (store ns : string)
  : kprog (error + list Snapshot) :=
  res ← do_ c ctx "GET" (datastore_path store +:+ "/snapshots?" +:+ "ns=" +:+ QueryEscape ns)
          None (Some json_snapshots);
  mret match res with
       | inl e =>
           inl (ErrWrap ("pbs: list snapshots in " +:+ Quote store +:+ " ns " +:+ Quote ns +:+ ": ")
                  (pbs_Error e))
       | inr snaps => inr (default [] snaps)
       end.

Definition already_exists (e : pbs_error) : bool :=
  match e with
  | PbsAPI status body => bool_decide (status = 400) && Contains (ToLower body) "already exist"
  | PbsErr _ => false
  end.

(** [Some] is the error. *)
Definition EnsureNamespace (c : PbsClient) (ctx : option Z) (store ns : string)
  : kprog (option error) :=
  res ← do_ (A := unit) c ctx "POST" (datastore_path store +:+ "/namespace")
          (Some (json_object "name" ns)) None;
  mret match res with
       | inl e =>
           if already_exists e then None
           else Some (ErrWrap ("pbs: ensure namespace " +:+ Quote ns +:+ " in store " +:+
                               Quote store +:+ ": ") (pbs_Error e))
       | inr _ => None
       end.

Definition pollInterval : Z := Second.
Definition task_path (upid : string) : string :=
  "/api2/json/nodes/localhost/tasks/" +:+ PathEscape upid +:+ "/status".

(** The exit status and the error.  The loop polls until the task ends or the
    context is done; [None] is a loop still polling after [fuel] turns. *)
Fixpoint WaitTask (fuel : nat) (c : PbsClient) (ctx : option Z) (upid : string)
  : kprog (option (string * option error)) :=
  match fuel with
  | O => mret None
  | S fuel' =>
      res ← do_ c ctx "GET" (task_path upid) None (Some json_task);
      match res with
      | inl e => mret (Some ("", Some (pbs_Error e)))
      | inr ts =>
          let '(status, exit) := default ("", "") ts in
          if negb (bool_decide (status = "running")) then
            if bool_decide (exit = "OK") then mret (Some ("OK", None))
            else mret (Some (exit, Some (ErrMsg ("pbs: task " +:+ upid +:+ " failed: " +:+ exit))))
          else
            done ← do_call (CSelect pollInterval);
            match done with
            | Some e => mret (Some ("", Some e))
            | None => WaitTask fuel' c ctx upid
            end
      end
  end.
End client.
