(* ===== verification/PbsProps.v ===== *)
(** * Properties of the PBS client

    Certificate pinning, the paths, and the outcomes of the three operations. *)

From S2P Require Import Prelude GoLib GoNet Kube Api Client Trace SnapshotRef Json PbsClient.
From S2P Require Import RestorePlan Serialize Cluster.
From Stdlib Require Import Ascii.
From stdpp Require Import options.

Local Open Scope Z_scope.

(** ** Fingerprints *)

Lemma smap_app f s t : smap f (s +:+ t) = smap f s +:+ smap f t.
Proof.
  induction s as [|c s IH]; [done|]. rewrite append_cons. cbn [smap]. by rewrite IH, append_assoc.
Qed.

Definition is_byte (b : Z) : Prop := 0 ≤ b < 256.

(** A fact about every byte, by evaluation. *)
Lemma byte_check (P : Z → bool) : forallb P (seqZ 0 256) = true → ∀ b, is_byte b → P b = true.
Proof.
  rewrite forallb_forall. intros HP b Hb. apply HP, list_elem_of_In, elem_of_seqZ. exact Hb.
Qed.

(** Two upper-case digits *)
Definition HEX_byte (b : Z) : string := ToUpper (hex_byte b).
Definition HEX (bs : list Z) : string := foldr (λ b s, HEX_byte b +:+ s) "" bs.

Lemma ToUpper_hex bs : ToUpper (hex_EncodeToString bs) = HEX bs.
Proof.
  induction bs as [|b bs IH]; [done|]. cbn [hex_EncodeToString HEX foldr].
  fold (hex_EncodeToString bs) (HEX bs). rewrite <- IH. apply smap_app.
Qed.

Lemma HEX_byte_cases b : ∃ x y, HEX_byte b = String x (String y EmptyString).
Proof. unfold HEX_byte, hex_byte, ToUpper. rewrite smap_app. by do 2 eexists. Qed.
Lemma HEX_length bs : String.length (HEX bs) = (2 * length bs)%nat.
Proof.
  induction bs as [|b bs IH]; [done|]. cbn [HEX foldr length]. fold (HEX bs).
  destruct (HEX_byte_cases b) as (x & y & ->). rewrite length_append, IH. cbn. lia.
Qed.

(** Decoding two digits gives the byte back. *)
Definition unhex (s : string) : Z :=
  match s with String x (String y _) => 16 * hex_val x + hex_val y | _ => 0 end.
Lemma unhex_HEX b s : is_byte b → unhex (HEX_byte b +:+ s) = b.
Proof.
  intros Hb. pose proof (byte_check (λ b, bool_decide (unhex (HEX_byte b) = b)) eq_refl b Hb) as Hu.
  apply bool_decide_eq_true in Hu. by destruct (HEX_byte_cases b) as (x & y & Heq); rewrite Heq in *.
Qed.
Lemma HEX_inj bs bs' : Forall is_byte bs → Forall is_byte bs' → HEX bs = HEX bs' → bs = bs'.
Proof.
  intros Hb. revert bs'. induction Hb as [|b bs Hb _ IH]; intros [|b' bs'] Hb' Heq.
  - done.
  - exfalso. cbn in Heq. by destruct (HEX_byte_cases b') as (x & y & Hx); rewrite Hx in Heq.
  - exfalso. cbn in Heq. by destruct (HEX_byte_cases b) as (x & y & Hx); rewrite Hx in Heq.
  - apply Forall_cons in Hb' as [Hb1 Hb2]. cbn in Heq.
    assert (Hu : unhex (HEX_byte b +:+ HEX bs) = unhex (HEX_byte b' +:+ HEX bs')) by (f_equal; exact Heq).
    rewrite !unhex_HEX in Hu by done. subst b'. f_equal. apply IH; [done|]. by apply append_inj_l in Heq.
Qed.

Lemma colonHex_parts bs :
  (λ i, substring_ (HEX bs) (2 * i) (2 * i + 2)) <$> seq 0 (length bs) = HEX_byte <$> bs.
Proof.
  induction bs as [|b bs IH]; [done|]. cbn [length seq fmap list_fmap]. f_equal.
  rewrite <- IH, <- seq_shift, <- list_fmap_compose. apply list_fmap_ext. intros _ i _. cbn [compose].
  unfold substring_. replace (2 * S i + 2 - 2 * S i)%nat with (2 * i + 2 - 2 * i)%nat by lia.
  f_equal. cbn [HEX foldr]. fold (HEX bs). destruct (HEX_byte_cases b) as (x & y & ->).
  by replace (2 * S i)%nat with (S (S (2 * i))) by lia.
Qed.

Lemma remove_bytes_app cs s t : remove_bytes cs (s +:+ t) = remove_bytes cs s +:+ remove_bytes cs t.
Proof. apply smap_app. Qed.

Lemma fingerprintKey_app s t : fingerprintKey (s +:+ t) = fingerprintKey s +:+ fingerprintKey t.
Proof. unfold fingerprintKey, ToUpper. by rewrite smap_app, remove_bytes_app. Qed.

Lemma fingerprintKey_colonHex bs :
  Forall is_byte bs → fingerprintKey (colonHex bs) = HEX bs.
Proof.
  intros Hb. unfold colonHex. rewrite ToUpper_hex, HEX_length.
  replace (2 * length bs / 2)%nat with (length bs) by (rewrite Nat.mul_comm, Nat.div_mul; done).
  rewrite colonHex_parts. induction Hb as [|b bs Hb Hbs IH]; [done|].
  assert (Hk : fingerprintKey (HEX_byte b) = HEX_byte b).
  { pose proof (byte_check (λ b, bool_decide (fingerprintKey (HEX_byte b) = HEX_byte b)) eq_refl b Hb)
      as Hc. by apply bool_decide_eq_true in Hc. }
  cbn [HEX foldr]. fold (HEX bs). cbn [fmap list_fmap Join] in *.
  destruct bs as [|b' bs]; cbn [fmap list_fmap] in *.
  - rewrite Hk. symmetry. apply append_nil_r.
  - rewrite !fingerprintKey_app, Hk. cbn [fmap list_fmap] in IH. rewrite IH. done.
Qed.

Lemma Sum256_bytes msg : Forall is_byte (Sum256 msg).
Proof.
  unfold Sum256. apply Forall_bind. apply Forall_true. intros z.
  generalize 4%nat as n. intros n. revert z. induction n as [|n IH]; intros z; cbn; [done|].
  apply Forall_app. split; [apply IH|]. apply Forall_singleton. apply Z.mod_pos_bound. done.
Qed.

(** C36: certificate pinning: a server is accepted exactly when the SHA-256 of the
    first certificate it presents is the configured fingerprint, up to case,
    colons and blanks; no two certificates of different digest are accepted for
    one fingerprint, and without a certificate none is. *)
Theorem verifyFingerprint_spec certs want :
  (verifyFingerprint certs want = None ↔
   ∃ cert rest, certs = cert :: rest ∧
     fingerprintKey want = ToUpper (hex_EncodeToString (Sum256 (bytes_of cert)))) ∧
  ∀ cert cert' rest rest',
    verifyFingerprint (cert :: rest) want = None → verifyFingerprint (cert' :: rest') want = None →
    Sum256 (bytes_of cert) = Sum256 (bytes_of cert').
Proof.
  assert (Hv : ∀ cert rest, verifyFingerprint (cert :: rest) want = None ↔
    fingerprintKey want = HEX (Sum256 (bytes_of cert))).
  { intros cert rest. unfold verifyFingerprint.
    rewrite fingerprintKey_colonHex by apply Sum256_bytes. case_bool_decide as Hk; cbn [negb].
    - split; [by symmetry|done].
    - split; [done|]. intros Heq. by destruct Hk. }
  split.
  - setoid_rewrite ToUpper_hex. destruct certs as [|cert rest].
    + split; [done|]. by intros (cert & rest & ? & _).
    + rewrite Hv. split; [intros Hk; by exists cert, rest|].
      intros (cert' & rest' & Heq & Hk). injection Heq as <- _. exact Hk.
  - intros cert cert' rest rest' H1 H2. apply Hv in H1, H2.
    apply HEX_inj; [apply Sum256_bytes..|]. by rewrite <- H1, <- H2.
Qed.

(** An accepted certificate: any bytes, with their own digest as fingerprint. *)
Lemma verifyFingerprint_spec_witness :
  let fp := colonHex (Sum256 (bytes_of "cert")) in
  verifyFingerprint ["cert"] fp = None ∧
  Sum256 (bytes_of "cert") = Sum256 (bytes_of "cert") ∧
  verifyFingerprint ["other"] fp ≠ None.
Proof.
  intros fp. assert (Hv : verifyFingerprint ["cert"] fp = None) by by vm_compute.
  split; [exact Hv|]. split; [exact (proj2 (verifyFingerprint_spec ["cert"] fp) _ _ _ _ Hv Hv)|].
  by vm_compute.
Defined.

(** ** Paths *)

(** A datastore name or task id reaches the server as one path segment, from
    which it can be read back, whatever characters it has: it cannot change the
    endpoint or add a query. *)
Theorem datastore_path_segment store :
  SplitByte (datastore_path store +:+ "/namespace") "/" =
    [""; "api2"; "json"; "admin"; "datastore"; PathEscape store; "namespace"] ∧
  PathUnescape (PathEscape store) = store ∧
  byte_in "?" (PathEscape store) = false ∧ byte_in "#" (PathEscape store) = false.
Proof.
  split; [|split; [apply PathUnescape_PathEscape|]].
  - unfold datastore_path. rewrite append_assoc.
    change (SplitByte ("" +:+ String "/" ("api2" +:+ String "/" ("json" +:+ String "/" ("admin" +:+
      String "/" ("datastore" +:+ String "/" (PathEscape store +:+ String "/" "namespace")))))) "/" =
      [""; "api2"; "json"; "admin"; "datastore"; PathEscape store; "namespace"]).
    rewrite !SplitByte_app by (done || (apply PathEscape_segment; by left)). done.
  - split; apply PathEscape_segment, (bool_decide_unpack _); by vm_compute.
Qed.

(** ** Exchanges *)

Section exchange.
Context `{JsonLib} `{HttpLib}.

Definition request (c : PbsClient) (method path : string) (body : option string) : http_request :=
  mkRequest method (pc_baseURL c +:+ path)
    ([("Authorization", pc_authToken c)] ++
     match body with Some _ => [("Content-Type", "application/json")] | None => [] end) body.

(** The last event is a connection to the client's server whose certificate is
    the pinned one. *)
Definition on_pinned (c : PbsClient) (h : list kevent) : Prop :=
  ∃ h' t certs, h = h' ++ [ev (CDial t (pc_baseURL c)) (inr certs)] ∧
    verifyFingerprint certs (pc_fingerprint c) = None.

Definition decoded {A} (out : option (string → error + A)) (buf : string) (x : option A) : Prop :=
  match out with
  | None => x = None
  | Some decode => ∃ data y, json_envelope buf = inr data ∧ decode data = inr y ∧ x = Some y
  end.

(** The answer to the request of an event. *)
Definition http_of (e : kevent) : option (error + (Z * (error + string))) :=
  match e with
  | existT c a =>
      match c return resp c → option (error + (Z * (error + string))) with
      | CHttp _ _ => Some
      | _ => λ _, None
      end a
  end.

(** The events of an exchange that the server answered. *)
Definition exchanged (c : PbsClient) (ctx : option Z) (r : http_request) (status : Z) (buf : string)
    (t : list kevent) : Prop :=
  ∃ certs, verifyFingerprint certs (pc_fingerprint c) = None ∧
    t = [ev (CDial (default defaultTimeout ctx) (pc_baseURL c)) (inr certs);
         ev (CHttp (default defaultTimeout ctx) r) (inr (status, inr buf))].

(** What [do_] answers, by the events [t] of the exchange. *)
Definition do_spec {A} (c : PbsClient) (ctx : option Z) (r : http_request)
    (out : option (string → error + A)) (t : list kevent) (res : pbs_error + option A) : Prop :=
  match res with
  | inr x => ∃ status buf, exchanged c ctx r status buf t ∧ status < 400 ∧ decoded out buf x
  | inl (PbsAPI status buf) => exchanged c ctx r status buf t ∧ 400 ≤ status
  | inl (PbsErr _) => ∀ status buf, exchanged c ctx r status buf t →
      status < 400 ∧ ∀ x, ¬ decoded out buf x
  end.

Lemma exchanged_answer c ctx r status buf t :
  exchanged c ctx r status buf t → omap http_of t = [inr (status, inr buf)].
Proof. by intros (certs & _ & ->). Qed.

(** A predicate on calls that lets the client connect, and send what it sends to
    a pinned server. *)
Definition lets_through (P : list kevent → call → Prop) (c : PbsClient) (ctx : option Z) : Prop :=
  (∀ h, P h (CDial (default defaultTimeout ctx) (pc_baseURL c))) ∧
  ∀ h method path body, on_pinned c h →
    P h (CHttp (default defaultTimeout ctx) (request c method path body)).

Lemma wp_do {A} P c ctx method path body (out : option (string → error + A)) h :
  lets_through P c ctx →
  wp P (do_ c ctx method path body out)
    (λ h' res, ∃ t, h' = h ++ t ∧ do_spec c ctx (request c method path body) out t res) h.
Proof.
  intros [Hd Hh]. unfold do_, http_Do.
  assert (Hno : ∀ t e, (∀ status buf, omap http_of t ≠ [inr (status, inr buf)]) →
    do_spec c ctx (request c method path body) out t (inl (PbsErr e))).
  { intros t e Ht status buf Hex. by apply exchanged_answer, Ht in Hex. }
  destruct (NewRequest_error _) as [e|].
  { exists []. rewrite app_nil_r. split; [done|]. by apply Hno. }
  apply wp_bind, wp_bind. split; [apply Hd|]. intros [e|certs]; cbn [wp].
  { eexists. split; [done|]. by apply Hno. }
  destruct (verifyFingerprint _ _) as [e|] eqn:Hv; cbn [wp].
  { eexists. split; [done|]. by apply Hno. }
  apply wp_bind. split.
  { apply Hh. by exists h, (default defaultTimeout ctx), certs. }
  intros [e|[status [e|buf]]]; cbn [wp]; eexists; (split; [by rewrite <- app_assoc|]);
    [by apply Hno..|]. fold (request c method path body).
  assert (Hex : exchanged c ctx (request c method path body) status buf
    [ev (CDial (default defaultTimeout ctx) (pc_baseURL c)) (inr certs);
     ev (CHttp (default defaultTimeout ctx) (request c method path body)) (inr (status, inr buf))])
    by by exists certs.
  destruct (Z.leb_spec 400 status) as [Hs|Hs]; [by split|].
  assert (Hdec : ∀ e, (∀ x, ¬ decoded out buf x) →
    do_spec c ctx (request c method path body) out
      [ev (CDial (default defaultTimeout ctx) (pc_baseURL c)) (inr certs);
       ev (CHttp (default defaultTimeout ctx) (request c method path body)) (inr (status, inr buf))]
      (inl (PbsErr e))).
  { intros e Hn status' buf' Hex'. apply exchanged_answer in Hex'. cbn in Hex'.
    injection Hex' as <- <-. by split. }
  destruct out as [decode|]; [|by exists status, buf].
  destruct (json_envelope buf) as [e|data] eqn:He.
  { apply Hdec. intros x (data & y & Hd' & _). congruence. }
  destruct (decode data) as [e|y] eqn:Hy.
  { apply Hdec. intros x (data' & y & Hd' & Hy' & _). congruence. }
  exists status, buf. split_and!; [done..|]. by exists data, y.
Qed.
Lemma exchanged_unique c ctx r status buf status' buf' t :
  exchanged c ctx r status buf t → exchanged c ctx r status' buf' t → status = status' ∧ buf = buf'.
Proof.
  intros H1%exchanged_answer H2%exchanged_answer. rewrite H1 in H2. by injection H2 as <- <-.
Qed.

(** ** Operations *)

Definition snapshots_request (c : PbsClient) (store ns : string) : http_request :=
  request c "GET" (datastore_path store +:+ "/snapshots?" +:+ "ns=" +:+ QueryEscape ns) None.

(** The server listed the snapshots of the namespace. *)
Definition listed_snapshots (c : PbsClient) (ctx : option Z) (store ns : string) (t : list kevent)
    (snaps : list Snapshot) : Prop :=
  ∃ status buf data, exchanged c ctx (snapshots_request c store ns) status buf t ∧ status < 400 ∧
    json_envelope buf = inr data ∧ json_snapshots data = inr snaps.

Lemma wp_ListSnapshots P c ctx store ns h :
  lets_through P c ctx →
  wp P (ListSnapshots c ctx store ns)
    (λ h' res, ∃ t, h' = h ++ t ∧ ∀ snaps, res = inr snaps → listed_snapshots c ctx store ns t snaps) h.
Proof.
  intros HP. unfold ListSnapshots. apply wp_bind.
  eapply wp_post; [by apply wp_do|]. intros h' res _ (t & -> & Hs). cbn [wp]. exists t. split; [done|].
  destruct res as [e|x]; [done|]. intros snaps [= <-].
  destruct Hs as (status & buf & Hex & Hst & data & y & Hd & Hy & ->).
  by exists status, buf, data.
Qed.

Definition namespace_request (c : PbsClient) (store ns : string) : http_request :=
  request c "POST" (datastore_path store +:+ "/namespace") (Some (json_object "name" ns)).

(** The server created the namespace, or answered that it was there. *)
Definition namespace_there (c : PbsClient) (ctx : option Z) (store ns : string) (t : list kevent) : Prop :=
  ∃ status buf, exchanged c ctx (namespace_request c store ns) status buf t ∧
    (status < 400 ∨ (status = 400 ∧ Contains (ToLower buf) "already exist" = true)).

Lemma wp_EnsureNamespace P c ctx store ns h :
  lets_through P c ctx →
  wp P (EnsureNamespace c ctx store ns)
    (λ h' res, ∃ t, h' = h ++ t ∧ (res = None ↔ namespace_there c ctx store ns t)) h.
Proof.
  intros HP. unfold EnsureNamespace. apply wp_bind.
  eapply wp_post; [by apply wp_do|]. intros h' res _ (t & -> & Hs). cbn [wp]. exists t. split; [done|].
  unfold namespace_there. fold (namespace_request c store ns) in Hs.
  destruct res as [[status buf|e]|x]; cbn [do_spec already_exists] in *.
  - destruct Hs as [Hex Hst]. split.
    + intros Hn. exists status, buf. split; [done|]. right.
      destruct (bool_decide (status = 400)) eqn:Hb; cbn [andb] in Hn; [|done].
      split; [by apply bool_decide_eq_true in Hb|]. by destruct (Contains _ _).
    + intros (status' & buf' & Hex' & Hor). destruct (exchanged_unique _ _ _ _ _ _ _ _ Hex Hex') as [<- <-].
      destruct Hor as [|[-> ->]]; [lia|done].
  - split; [done|]. intros (status & buf & Hex & _). apply Hs in Hex as [_ Hex]. by destruct (Hex None).
  - destruct Hs as (status & buf & Hex & Hst & _). split; [|done]. intros _. exists status, buf. by split; [|left].
Qed.

(** Bootstrapping a namespace is idempotent: it succeeds exactly when the
    server accepted the creation or refused it because the namespace was there;
    every other refusal and every failure to reach the server is an error. *)
Theorem EnsureNamespace_spec c ctx store ns tr res :
  runs (EnsureNamespace c ctx store ns) tr res →
  res = None ↔ namespace_there c ctx store ns tr.
Proof.
  intros Hr. assert (HP : lets_through (λ _ _, True) c ctx) by done.
  by destruct (wp_runs _ _ _ _ _ (wp_EnsureNamespace _ c ctx store ns [] HP) Hr) as [_ (t & -> & Hs)].
Qed.

(** The context was still alive at this many turns. *)
Definition select_of (e : kevent) : option (option error) :=
  match e with
  | existT c a =>
      match c return resp c → option (option error) with CSelect _ => Some | _ => λ _, None end a
  end.
Definition polls (tr : list kevent) : list (option error) := omap select_of tr.

Definition task_request (c : PbsClient) (upid : string) : http_request :=
  request c "GET" (task_path upid) None.

(** The last exchange of [tr] said that the task ended with exit status OK. *)
Definition task_ok (c : PbsClient) (ctx : option Z) (upid : string) (tr : list kevent) : Prop :=
  ∃ t1 t2 status buf data st, tr = t1 ++ t2 ∧
    exchanged c ctx (task_request c upid) status buf t2 ∧ status < 400 ∧
    json_envelope buf = inr data ∧ json_task data = inr (st, "OK") ∧ st ≠ "running".

Lemma runs_do {A} c ctx method path body (out : option (string → error + A)) tr res :
  runs (do_ c ctx method path body out) tr res →
  do_spec c ctx (request c method path body) out tr res.
Proof.
  intros Hr. assert (HP : lets_through (λ _ _, True) c ctx) by done.
  by destruct (wp_runs _ _ _ _ _ (wp_do _ c ctx method path body out [] HP) Hr) as [_ (t & -> & Hs)].
Qed.

(** A task is reported successful only if the server said, in the last answer,
    that it is no longer running and exited with OK; and the wait goes on only as
    long as the context is alive: a loop still polling after [fuel] turns found it
    alive at each of them. *)
Theorem WaitTask_spec fuel c ctx upid tr res :
  runs (WaitTask fuel c ctx upid) tr res →
  match res with
  | Some (exit, None) => exit = "OK" ∧ task_ok c ctx upid tr
  | Some (_, Some _) => True
  | None => polls tr = replicate fuel None
  end.
Proof.
  revert tr. induction fuel as [|fuel IH]; intros tr Hr; cbn [WaitTask] in Hr.
  { by destruct Hr as [-> ->]. }
  apply runs_bind in Hr as (t1 & x & t2 & -> & Hd & Hr). apply runs_do in Hd.
  destruct x as [e|x]; [by destruct Hr as [_ ->]|].
  destruct Hd as (status & buf & Hex & Hst & data & y & Henv & Htask & ->). cbn [default] in Hr.
  destruct y as [st exit]. revert Hr. cbn [id].
  case_bool_decide as Hst'; cbn [negb].
  - intros Hr. apply runs_bind in Hr as (t3 & a & t4 & -> & Ha & Hr).
    destruct Ha as (a' & t5 & -> & -> & ->). destruct a' as [e|]; [by destruct Hr as [_ ->]|].
    specialize (IH _ Hr). destruct res as [[exit' [e|]]|]; [done| |].
    + destruct IH as [-> (u1 & u2 & status' & buf' & data' & st' & -> & Hrest)]. split; [done|].
      exists (t1 ++ [ev (CSelect pollInterval) None] ++ u1), u2, status', buf', data', st'.
      split; [by rewrite <- !app_assoc|done].
    + unfold polls in *. rewrite omap_app. destruct Hex as (certs & _ & ->).
      cbn. f_equal. exact IH.
  - case_bool_decide as Hexit; intros [-> ->]; [|done]. split; [done|]. subst exit.
    exists [], t1, status, buf, data, st. by rewrite app_nil_r.
Qed.

(** Every request of a trace goes out on a pinned connection, with the token of
    the client and a deadline. *)
Definition pinned_requests (c : PbsClient) (tr : list kevent) : Prop :=
  ∀ i timeout r (a : resp (CHttp timeout r)), tr !! i = Some (ev (CHttp timeout r) a) →
    on_pinned c (take i tr) ∧ ∃ method path body, r = request c method path body.

Definition client_call (c : PbsClient) (h : list kevent) (k : call) : Prop :=
  match k with
  | CHttp timeout r => on_pinned c h ∧ ∃ method path body, r = request c method path body
  | CDial _ base => base = pc_baseURL c
  | CSelect _ => True
  | _ => False
  end.

Lemma client_lets_through c ctx : lets_through (client_call c) c ctx.
Proof. split; [done|]. intros h method path body Hp. split; [done|]. by exists method, path, body. Qed.

Lemma wp_WaitTask fuel c ctx upid h :
  wp (client_call c) (WaitTask fuel c ctx upid) (λ _ _, True) h.
Proof.
  revert h. induction fuel as [|fuel IH]; intros h; cbn [WaitTask]; [done|].
  apply wp_bind. eapply wp_post; [apply wp_do, client_lets_through|].
  intros h' [e|x] _ _; [done|]. destruct (default ("", "") x) as [st exit].
  case_bool_decide; cbn [negb]; [|by case_bool_decide]. apply wp_bind. split; [done|].
  intros [e|]; [done|]. apply IH.
Qed.

Lemma pinned_of_wp {R} c (p : kprog R) Q tr res :
  wp (client_call c) p Q [] → runs p tr res → pinned_requests c tr.
Proof. intros Hp Hr i timeout r a Hi. exact (wp_lookup _ _ _ _ _ _ _ _ Hp Hr Hi). Qed.

(** The API token is never sent to a server that has not shown the pinned
    certificate: in every operation each request goes out right after a
    connection to the client's own base URL whose certificate was accepted, under
    that URL, and with the client's token. *)
Theorem client_requests_pinned c ctx tr :
  (∀ store ns res, runs (ListSnapshots c ctx store ns) tr res → pinned_requests c tr) ∧
  (∀ store ns res, runs (EnsureNamespace c ctx store ns) tr res → pinned_requests c tr) ∧
  (∀ fuel upid res, runs (WaitTask fuel c ctx upid) tr res → pinned_requests c tr).
Proof.
  split_and!; intros ??? Hr; (eapply pinned_of_wp; [|exact Hr]).
  - apply wp_ListSnapshots, client_lets_through.
  - apply wp_EnsureNamespace, client_lets_through.
  - apply wp_WaitTask.
Qed.
End exchange.

(** ** Runs on a concrete server *)

#[export] Instance cluster_HttpLib : HttpLib := { NewRequest_error _ := None }.

Definition example_client : PbsClient :=
  NewClient "pbs" 8007 "root@pam!t" "s3cret" (colonHex (Sum256 (bytes_of "cert"))).

Lemma EnsureNamespace_spec_witness :
  let run := exec serve (EnsureNamespace example_client None "store" "ns") base_cluster in
  run.1.2 = None ∧ namespace_there example_client None "store" "ns" run.1.1.
Proof.
  intros run. assert (Hn : run.1.2 = None) by by vm_compute. split; [exact Hn|].
  apply (EnsureNamespace_spec example_client None "store" "ns" run.1.1 run.1.2); [apply exec_runs|exact Hn].
Defined.

Lemma WaitTask_spec_witness :
  let run := exec serve (WaitTask 3 example_client None "UPID:1") base_cluster in
  run.1.2 = Some ("OK", None) ∧ "OK" = "OK" ∧ task_ok example_client None "UPID:1" run.1.1.
Proof.
  intros run. assert (Ho : run.1.2 = Some ("OK", None)) by by vm_compute. split; [exact Ho|].
  pose proof (WaitTask_spec 3 example_client None "UPID:1" run.1.1 run.1.2 (exec_runs _ _ _)) as Hw.
  rewrite Ho in Hw. exact Hw.
Defined.

Lemma client_requests_pinned_witness :
  let run := exec serve (EnsureNamespace example_client None "store" "ns") base_cluster in
  length run.1.1 = 2%nat ∧ pinned_requests example_client run.1.1.
Proof.
  intros run. split; [by vm_compute|].
  apply (proj1 (proj2 (client_requests_pinned example_client None run.1.1)) "store" "ns" run.1.2).
  apply exec_runs.
Defined.

(** A server with another certificate is not sent a request. *)
Example wrong_certificate :
  let c := NewClient "pbs" 8007 "root@pam!t" "s3cret" (colonHex (Sum256 (bytes_of "other"))) in
  let run := exec serve (EnsureNamespace c None "store" "ns") base_cluster in
  length run.1.1 = 1%nat ∧ run.1.2 ≠ None.
Proof. by vm_compute. Qed.
