(* ===== verification/RepoCtl.v ===== *)
(** * The repo reconciler: internal/controller/pbsrepo_controller.go

    Every function of the file as a [kprog].  A (value, problem, error) answer is
    a sum: the error, then the user-facing problem, then the value. *)

From S2P Require Import Prelude GoLib GoNet Kube Api Client SnapshotRef Json PbsClient.
From S2P Require Import JobBuild Hooks ControllerLib.
From stdpp Require Import options.

Local Open Scope Z_scope.

Definition reasonReachable : string := "Reachable".
Definition reasonUnreachable : string := "Unreachable".
Definition reasonSecretMissing : string := "SecretMissing".
Definition reasonBootstrapFailed : string := "BootstrapFailed".
Definition requeueFailure : Z := 2 * Minute.
Definition requeueSteady : Z := 5 * Minute.
Definition pingTimeout : Z := 15 * Second.
Definition lastProbeFreshFor : Z := Minute.
Definition defaultPort : Z := 8007.

Record repoCreds := mkRepoCreds {
  rc_tokenID : string; rc_tokenSecret : string; rc_fingerprint : string;
  rc_host : string; rc_port : Z; rc_datastore : string; rc_namespace : string }.

Definition pick (crValue secretValue : string) : string :=
  if negb (bool_decide (crValue = "")) then crValue else secretValue.

Definition set_repo_Status (r : PBSRepo) (s : PBSRepoStatus) : PBSRepo :=
  {| repo_Meta := repo_Meta r; repo_Spec := repo_Spec r; repo_Status := s |}.

(** [secret ns/name], as the problems name it *)
Definition secret_label (ns name : string) : string := "secret " +:+ ns +:+ "/" +:+ name.

Section reconciler.
Context `{KubeLib} `{JsonLib} `{HttpLib}.

(** ** Credentials *)

Definition fetchSecret (ref : NamespacedSecretRef) : kprog (error + (string + Secret)) :=
  if bool_decide (ref_Name ref = "") then mret (inr (inl "secretRef.name is empty"))
  else
    ns ← (if bool_decide (ref_Namespace ref = "") then operatorNamespace
          else mret (ref_Namespace ref));
    got ← Get KSecret (mkNN ns (ref_Name ref));
    mret (match got with
          | inl e => if IsNotFound e then inr (inl (secret_label ns (ref_Name ref) +:+ " not found"))
                     else inl (ErrAPI e)
          | inr secret => inr (inr secret)
          end).

(** The closure [get] of [producerCreds] *)
Definition secret_value (s : Secret) (k : string) : string := default "" (sec_Data s !! k).

(** The credentials [producerCreds] returns. *)
Definition merge_creds (spec : PBSRepoSpec) (s : Secret) (fingerprint : string) (port : Z)
  : repoCreds :=
  mkRepoCreds (secret_value s "tokenID") (secret_value s "tokenSecret") fingerprint
    (pick (rsp_Host spec) (secret_value s "host")) port
    (pick (rsp_Datastore spec) (secret_value s "datastore"))
    (pick (rsp_Namespace spec) (secret_value s "namespace")).

(** What [producerCreds] makes of the secret; [inl] is the problem. *)
Definition resolve_creds (repo : PBSRepo) (s : Secret) : string + repoCreds :=
  let spec := repo_Spec repo in
  let label := secret_label (om_Namespace (sec_Meta s)) (om_Name (sec_Meta s)) in
  let missing := filter (λ k, secret_value s k = "") ["tokenID"; "tokenSecret"] in
  let fingerprint := if bool_decide (rsp_Fingerprint spec = "") then secret_value s "fingerprint"
                     else rsp_Fingerprint spec in
  let missing := if bool_decide (fingerprint = "")
                 then missing ++ ["fingerprint (or spec.fingerprint)"] else missing in
  if negb (bool_decide (missing = [])) then
    inl (label +:+ " missing keys: " +:+ Join missing ", ")
  else if negb (bool_decide (rsp_Port spec = 0)) then
    inr (merge_creds spec s fingerprint (rsp_Port spec))
  else if negb (bool_decide (secret_value s "port" = "")) then
    match Atoi (secret_value s "port") with
    | None => inl (label +:+ ": invalid port " +:+ Quote (secret_value s "port"))
    | Some port => inr (merge_creds spec s fingerprint port)
    end
  else inr (merge_creds spec s fingerprint defaultPort).

Definition producerCreds (repo : PBSRepo) : kprog (error + (string + repoCreds)) :=
  got <-? fetchSecret (rsp_SecretRef (repo_Spec repo));
  mret (inr (match got with
             | inl problem => inl problem
             | inr secret => resolve_creds repo secret
             end)).

Definition bootstrapToken (ref : NamespacedSecretRef) : kprog (error + (string + string * string)) :=
  got <-? fetchSecret ref;
  mret (inr (match got with
             | inl problem => inl problem
             | inr secret =>
                 match filter (λ k, secret_value secret k = "") ["tokenID"; "tokenSecret"] with
                 | k :: _ => inl ("missing key " +:+ k)
                 | [] => inr (secret_value secret "tokenID", secret_value secret "tokenSecret")
                 end
             end)).

(** ** Conditions *)

(** [now - t > lastProbeFreshFor], with the clock read only when [t] is set *)
Definition probe_stale (t : option Z) : kprog bool :=
  match t with
  | None => mret true
  | Some t => now ← Now; mret (lastProbeFreshFor <? Sub now t)
  end.

(** The repo as the server left it, and whether the condition transitioned. *)
Definition setCondition (repo : PBSRepo) (status : ConditionStatus) (reason message : string)
    (stampProbe : bool) : kprog (PBSRepo * bool * option error) :=
  let before := repo in
  cs ← SetStatusCondition (rst_Conditions (repo_Status repo))
         (newCondition condReady status reason message (om_Generation (repo_Meta repo)));
  let st := mkRepoStatus cs.1 (rst_LastProbeTime (repo_Status repo)) in
  stale ← (if stampProbe then probe_stale (rst_LastProbeTime st) else mret false);
  st ← (if stale : bool then now ← Now; mret (mkRepoStatus (rst_Conditions st) (Some now))
        else mret st);
  let repo := set_repo_Status repo st in
  if negb (cs.2 || stale) then mret (repo, false, None)
  else
    patched ← StatusPatch KPBSRepo before repo;
    mret (match patched with
          | inl e => (repo, false, Some (ErrAPI e))
          | inr repo => (repo, cs.2, None)
          end).

Definition finish (t : event_type) (reason message : string)
    (res : PBSRepo * bool * option error) (requeue : Z) : kprog reconcile_result :=
  let '(repo, transitioned, err) := res in
  (if transitioned : bool then Eventf (repo_Meta repo) t reason message else mret tt);;
  mret (match err with Some e => inl e | None => requeue_after requeue end).

Definition fail_ (repo : PBSRepo) (reason message : string) (requeue : Z) : kprog reconcile_result :=
  res ← setCondition repo ConditionFalse reason message false;
  finish EventTypeWarning reason message res requeue.

Definition succeed (repo : PBSRepo) : kprog reconcile_result :=
  res ← setCondition repo ConditionTrue reasonReachable "PBS server reachable" true;
  finish EventTypeNormal reasonReachable "PBS server is reachable" res requeueSteady.

(** ** Reconcile *)

Definition bootstrap (repo : PBSRepo) (creds : repoCreds) : kprog reconcile_result :=
  let ref := rsp_BootstrapTokenRef (repo_Spec repo) in
  if negb (bool_decide (ref_Name ref = "")) then
    got <-? bootstrapToken ref;
    match got with
    | inl problem =>
        fail_ repo reasonSecretMissing ("bootstrap secret " +:+ ref_Name ref +:+ ": " +:+ problem)
          requeueFailure
    | inr (id, secret) =>
        let bootstrapper :=
          NewClient (rc_host creds) (rc_port creds) id secret (rc_fingerprint creds) in
        err ← EnsureNamespace bootstrapper (Some pingTimeout) (rc_datastore creds) (rc_namespace creds);
        match err with
        | Some e => fail_ repo reasonBootstrapFailed (Error e) requeueSteady
        | None => succeed repo
        end
    end
  else succeed repo.

Definition Reconcile (req : NamespacedName) : kprog reconcile_result :=
  got ← Get KPBSRepo req;
  match got with
  | inl e => mret (if IsNotFound e then no_requeue else inl (ErrAPI e))
  | inr repo =>
      got <-? producerCreds repo;
      match got with
      | inl problem => fail_ repo reasonSecretMissing problem requeueFailure
      | inr creds =>
          let producer := NewClient (rc_host creds) (rc_port creds) (rc_tokenID creds)
                            (rc_tokenSecret creds) (rc_fingerprint creds) in
          snaps ← ListSnapshots producer (Some pingTimeout) (rc_datastore creds) (rc_namespace creds);
          match snaps with
          | inl e => fail_ repo reasonUnreachable (Error e) requeueFailure
          | inr _ => bootstrap repo creds
          end
      end
  end.
End reconciler.
