(* ===== verification/RepoProps.v ===== *)
(** * Properties of the repo reconciler

    The resolution of credentials, and the invariant of every run of
    [RepoCtl.Reconcile]. *)

From S2P Require Import Prelude GoLib GoNet Kube Api Client Trace SnapshotRef Json PbsClient.
From S2P Require Import PbsProps JobBuild RestorePlan Hooks Serialize ControllerLib SecretCopy.
From S2P Require Import RepoCtl Cluster.
From stdpp Require Import options.

Local Open Scope Z_scope.

(** ** Credentials *)

(** The CR's field wins; the secret's key fills the gap. *)
Definition cr_first (cr : string) (s : Secret) (k : string) (v : string) : Prop :=
  (cr ≠ "" ∧ v = cr) ∨ (cr = "" ∧ v = secret_value s k).

Definition port_first (cr : Z) (s : Secret) (port : Z) : Prop :=
  (cr ≠ 0 ∧ port = cr) ∨
  (cr = 0 ∧ secret_value s "port" ≠ "" ∧ Atoi (secret_value s "port") = Some port) ∨
  (cr = 0 ∧ secret_value s "port" = "" ∧ port = defaultPort).

Definition creds_spec (repo : PBSRepo) (s : Secret) (c : repoCreds) : Prop :=
  let spec := repo_Spec repo in
  rc_tokenID c = secret_value s "tokenID" ∧ rc_tokenID c ≠ "" ∧
  rc_tokenSecret c = secret_value s "tokenSecret" ∧ rc_tokenSecret c ≠ "" ∧
  cr_first (rsp_Fingerprint spec) s "fingerprint" (rc_fingerprint c) ∧ rc_fingerprint c ≠ "" ∧
  cr_first (rsp_Host spec) s "host" (rc_host c) ∧
  cr_first (rsp_Datastore spec) s "datastore" (rc_datastore c) ∧
  cr_first (rsp_Namespace spec) s "namespace" (rc_namespace c) ∧
  port_first (rsp_Port spec) s (rc_port c).

Lemma pick_spec cr s k : cr_first cr s k (pick cr (secret_value s k)).
Proof. unfold cr_first, pick. case_bool_decide; cbn; naive_solver. Qed.

Section creds.
Context `{JsonLib}.

Lemma creds_spec_eq repo s c :
  creds_spec repo s c →
  c = merge_creds (repo_Spec repo) s (pick (rsp_Fingerprint (repo_Spec repo)) (secret_value s "fingerprint"))
        (rc_port c) ∧ port_first (rsp_Port (repo_Spec repo)) s (rc_port c).
Proof.
  assert (Hp : ∀ cr k v, cr_first cr s k v → v = pick cr (secret_value s k)).
  { unfold cr_first, pick. intros. case_bool_decide; cbn; naive_solver. }
  intros (H1 & _ & H2 & _ & H3 & _ & H4 & H5 & H6 & H7). split; [|done].
  apply Hp in H3, H4, H5, H6. destruct c. cbn in *. unfold merge_creds. by subst.
Qed.

(** What is missing, by the cases of the source. *)
Lemma missing_keys s :
  (filter (λ k, secret_value s k = "") ["tokenID"; "tokenSecret"] = [] ↔
   secret_value s "tokenID" ≠ "" ∧ secret_value s "tokenSecret" ≠ "").
Proof.
  rewrite !filter_cons, filter_nil. repeat case_decide; naive_solver.
Qed.

(** The credentials of a repo: the token comes from the secret, every other
    setting from the CR and only where the CR leaves it empty from the secret
    (the port at last from the default); they are refused exactly when there is
    no such choice, because the token or the fingerprint is missing or the port
    of the secret is not a number. *)
Theorem resolve_creds_spec repo s :
  match resolve_creds repo s with
  | inr c => creds_spec repo s c ∧ ∀ c', creds_spec repo s c' → c' = c
  | inl _ => ∀ c, ¬ creds_spec repo s c
  end.
Proof.
  set (fp := pick (rsp_Fingerprint (repo_Spec repo)) (secret_value s "fingerprint")).
  assert (Hfp : (if bool_decide (rsp_Fingerprint (repo_Spec repo) = "") then secret_value s "fingerprint"
                 else rsp_Fingerprint (repo_Spec repo)) = fp).
  { unfold fp, pick. by case_bool_decide. }
  unfold resolve_creds. cbv zeta. rewrite Hfp. clear Hfp.
  pose proof (missing_keys s) as Hm. set (missing := filter _ _) in *.
  destruct (decide (missing = [] ∧ fp ≠ "")) as [[Hmn Hf]|Hno].
  - rewrite (bool_decide_eq_false_2 (fp = "")), (bool_decide_eq_true_2 (missing = [])) by done.
    apply Hm in Hmn as [Hid Hsec]. cbn [negb].
    assert (Hgood : ∀ port, port_first (rsp_Port (repo_Spec repo)) s port →
      (∀ port', port_first (rsp_Port (repo_Spec repo)) s port' → port' = port) →
      creds_spec repo s (merge_creds (repo_Spec repo) s fp port) ∧
      ∀ c', creds_spec repo s c' → c' = merge_creds (repo_Spec repo) s fp port).
    { intros port Hp Hu. split; [by split_and!; (done || apply pick_spec)|].
      intros c' Hc'. apply creds_spec_eq in Hc' as [Heq Hp'].
      by rewrite (Hu _ Hp') in Heq. }
    clear missing Hm. case_bool_decide as Hport; cbn [negb].
    2:{ apply Hgood; [by left|]. intros port' [[_ ->]|[[? _]|[? _]]]; done. }
    case_bool_decide as Hsp; cbn [negb].
    { apply Hgood; [by right; right|]. intros port' [[? _]|[(_ & ? & _)|(_ & _ & ->)]]; done. }
    destruct (Atoi _) as [port|] eqn:Ha.
    { apply Hgood; [by right; left|].
      intros port' [[? _]|[(_ & _ & Hp)|(_ & ? & _)]]; [done|congruence|done]. }
    intros c (_ & _ & _ & _ & _ & _ & _ & _ & _ & [[? _]|[(_ & _ & ?)|(_ & ? & _)]]); [done|congruence|done].
  - rewrite bool_decide_eq_false_2; cbn [negb].
    + intros c Hc. pose proof Hc as (H1 & H2 & H3 & H4 & _ & H6 & _). apply creds_spec_eq in Hc as [Hc _].
      apply Hno. split; [apply Hm; by rewrite <- H1, <- H3|].
      intros Hf. apply H6. rewrite Hc. exact Hf.
    + case_bool_decide as Hf; [by intros [_ ?]%app_eq_nil|]. intros Hmn. by apply Hno.
Qed.
End creds.

(** ** Safety *)

Section safety.
Context `{KL : KubeLib} `{JL : JsonLib} `{HL : HttpLib}.
Context (req : NamespacedName).

Definition read_repo (h : list kevent) (repo : PBSRepo) : Prop :=
  head h = Some (ev (CGet KPBSRepo req) (inr repo)).

(** [s] was read under the key [ref] names. *)
Definition got_secret (h : list kevent) (ref : NamespacedSecretRef) (s : Secret) : Prop :=
  ∃ key, ref_Name ref ≠ "" ∧ source_key ref key ∧ found_secret h key s.

Definition has_creds (h : list kevent) (repo : PBSRepo) (creds : repoCreds) : Prop :=
  ∃ s, got_secret h (rsp_SecretRef (repo_Spec repo)) s ∧ resolve_creds repo s = inr creds.

(** The clients of a reconcile: with the token of the repo's secret, or with the
    one of the bootstrap secret, for the same server and fingerprint. *)
Definition producer_of (creds : repoCreds) : PbsClient :=
  NewClient (rc_host creds) (rc_port creds) (rc_tokenID creds) (rc_tokenSecret creds)
    (rc_fingerprint creds).
Definition bootstrapper_of (creds : repoCreds) (s : Secret) : PbsClient :=
  NewClient (rc_host creds) (rc_port creds) (secret_value s "tokenID") (secret_value s "tokenSecret")
    (rc_fingerprint creds).

Definition repo_client (h : list kevent) (repo : PBSRepo) (c : PbsClient) : Prop :=
  ∃ creds, has_creds h repo creds ∧
    (c = producer_of creds ∨
     ∃ s, got_secret h (rsp_BootstrapTokenRef (repo_Spec repo)) s ∧ c = bootstrapper_of creds s).

(** A stretch of the history *)
Definition during (h : list kevent) (P : list kevent → Prop) : Prop :=
  ∃ h1 t h2, h = h1 ++ t ++ h2 ∧ P t.

(** The server answered the listing of the repo's namespace with the repo's
    credentials and, where a bootstrap token is configured, has the namespace. *)
Definition healthy (h : list kevent) (repo : PBSRepo) : Prop :=
  ∃ creds, has_creds h repo creds ∧
    during h (λ t, ∃ snaps, listed_snapshots (producer_of creds) (Some pingTimeout)
                              (rc_datastore creds) (rc_namespace creds) t snaps) ∧
    (ref_Name (rsp_BootstrapTokenRef (repo_Spec repo)) ≠ "" →
     ∃ s, got_secret h (rsp_BootstrapTokenRef (repo_Spec repo)) s ∧
       during h (namespace_there (bootstrapper_of creds s) (Some pingTimeout)
                   (rc_datastore creds) (rc_namespace creds))).

(** The last probe time of a status patch: kept with a condition that changed, or
    stamped with a healthy condition when the old one was no longer fresh. *)
Definition probe_step (h : list kevent) (c : Condition) (changed : bool) (old new : option Z) : Prop :=
  (new = old ∧ changed = true) ∨
  (c_Status c = ConditionTrue ∧ (∃ now, ev CNow now ∈ h ∧ new = Some now) ∧
   ∀ t, old = Some t → ∃ now, ev CNow now ∈ h ∧ lastProbeFreshFor < Sub now t).

Definition repo_patch_ok (h : list kevent) (before after : PBSRepo) : Prop :=
  read_repo h before ∧ Forall no_patch h ∧
  repo_Meta after = repo_Meta before ∧ repo_Spec after = repo_Spec before ∧
  ∃ c cs changed,
    ev (CSetStatusCondition (rst_Conditions (repo_Status before)) c) (cs, changed) ∈ h ∧
    c_Type c = condReady ∧ rst_Conditions (repo_Status after) = cs ∧
    (c_Status c = ConditionTrue → healthy h before) ∧
    probe_step h c changed (rst_LastProbeTime (repo_Status before))
      (rst_LastProbeTime (repo_Status after)).

Definition repo_call_ok (h : list kevent) (k : call) : Prop :=
  match k with
  | CDial timeout _ => timeout = pingTimeout
  | CHttp timeout r =>
      timeout = pingTimeout ∧
      ∃ repo c, read_repo h repo ∧ repo_client h repo c ∧ on_pinned c h ∧
        ∃ method path body, r = request c method path body
  | CStatusPatch KPBSRepo before after => repo_patch_ok h before after
  | CEvent _ _ reason _ => Forall patch_accepted h ∧ transitioned h reason
  | _ => is_read k = true
  end.

(** Nothing has been written yet. *)
Definition unpatched (h : list kevent) (repo : PBSRepo) : Prop :=
  read_repo h repo ∧ Forall no_patch h.

Lemma unpatched_app h t repo : Forall no_patch t → unpatched h repo → unpatched (h ++ t) repo.
Proof.
  intros Ht [Hr Hn]. split; [|by apply Forall_app]. unfold read_repo in *. by destruct h.
Qed.
Lemma got_secret_app h t ref s : got_secret h ref s → got_secret (h ++ t) ref s.
Proof. intros (key & Hn & Hk & Hf). exists key. by split_and!; [..|apply elem_of_grow]. Qed.
Lemma has_creds_app h t repo creds : has_creds h repo creds → has_creds (h ++ t) repo creds.
Proof. intros (s & Hs & Hr). exists s. by split; [apply got_secret_app|]. Qed.
Lemma during_app h t P : during h P → during (h ++ t) P.
Proof. intros (h1 & u & h2 & -> & HP). exists h1, u, (h2 ++ t). by rewrite <- !app_assoc. Qed.
Lemma healthy_app h t repo : healthy h repo → healthy (h ++ t) repo.
Proof.
  intros (creds & Hc & Hl & Hb). exists creds.
  split; [by apply has_creds_app|]. split; [by apply during_app|].
  intros Hn. destruct (Hb Hn) as (s & Hs & Hd). exists s.
  by split; [apply got_secret_app|apply during_app].
Qed.
Lemma repo_read_ok h k : is_read k = true → repo_call_ok h k.
Proof. by destruct k. Qed.
(** ** The steps *)

Definition grown (h h' : list kevent) : Prop := ∃ t, h' = h ++ t ∧ Forall no_patch t.

Lemma grown_snoc h e : no_patch e → grown h (h ++ [e]).
Proof. intros He. exists [e]. by split; [|apply Forall_singleton]. Qed.
Lemma grown_trans h h1 h2 : grown h h1 → grown h1 h2 → grown h h2.
Proof.
  intros (t1 & -> & H1) (t2 & -> & H2). exists (t1 ++ t2). by rewrite app_assoc; split; [|apply Forall_app].
Qed.
Lemma grown_unpatched h h' repo : grown h h' → unpatched h repo → unpatched h' repo.
Proof. intros (t & -> & Ht). by apply unpatched_app. Qed.

Lemma wp_fetchSecret h ref :
  wp repo_call_ok (fetchSecret ref)
    (λ h' res, grown h h' ∧ ∀ s, res = inr (inr s) → got_secret h' ref s) h.
Proof.
  unfold fetchSecret. case_bool_decide as Hn.
  { split; [|done]. exists []. by rewrite app_nil_r. }
  apply wp_bind.
  apply (wp_post _ _ (λ h' ns, grown h h' ∧ source_key ref (mkNN ns (ref_Name ref)))).
  { case_bool_decide.
    - split; [done|]. intros a. cbn. split; [by apply grown_snoc|by split].
    - split; [|by split]. exists []. by rewrite app_nil_r. }
  intros h1 ns _ [Hg Hk]. apply wp_bind. split; [done|]. intros a. cbn [wp].
  split; [by eapply grown_trans; [|apply grown_snoc]|].
  intros s Hs. destruct a as [e|s']; [by destruct (IsNotFound e)|]. injection Hs as ->.
  exists (mkNN ns (ref_Name ref)). split_and!; [done..|apply elem_of_snoc].
Qed.

Definition condition_set (reason : string) (h : list kevent) (res : PBSRepo * bool * option error)
    : Prop :=
  match res with
  | (_, changed, Some _) => changed = false
  | (_, changed, None) => Forall patch_accepted h ∧ (changed = true → transitioned h reason)
  end.

Lemma wp_setCondition h repo status reason message stamp :
  unpatched h repo → (status = ConditionTrue → healthy h repo) →
  (stamp = true → status = ConditionTrue) →
  wp repo_call_ok (setCondition repo status reason message stamp) (condition_set reason) h.
Proof.
  intros Hu Hh Hst. unfold setCondition. apply wp_bind. split; [done|].
  intros [cs changed]. cbn [wp fst snd]. set (c := newCondition _ _ _ _ _). set (h1 := h ++ [_]).
  assert (Hset : ev (CSetStatusCondition (rst_Conditions (repo_Status repo)) c) (cs, changed) ∈ h1)
    by apply elem_of_snoc.
  assert (Hu1 : unpatched h1 repo) by by apply unpatched_app; [apply Forall_singleton|].
  assert (Hh1 : status = ConditionTrue → healthy h1 repo) by (intros Ht; by apply healthy_app, Hh).
  clearbody h1. apply wp_bind. eapply (wp_post _ _ (λ h' stale, grown h1 h' ∧ (stale = true →
    stamp = true ∧ ∀ t, rst_LastProbeTime (repo_Status repo) = Some t →
      ∃ now, ev CNow now ∈ h' ∧ lastProbeFreshFor < Sub now t))).
  { destruct stamp; [|by split; [exists []; rewrite app_nil_r|]]. unfold probe_stale.
    cbn [rst_LastProbeTime]. destruct (rst_LastProbeTime (repo_Status repo)) as [t|].
    - apply wp_bind. split; [done|]. intros now. cbn [wp]. split; [by apply grown_snoc|].
      intros Hs%Z.ltb_lt. split; [done|]. intros t' [= <-]. exists now. by split; [apply elem_of_snoc|].
    - by split; [exists []; rewrite app_nil_r|]. }
  intros h2 stale _ [Hg2 Hstale]. apply wp_bind.
  eapply (wp_post _ _ (λ h' st, grown h2 h' ∧ rst_Conditions st = cs ∧
    (stale = false → rst_LastProbeTime st = rst_LastProbeTime (repo_Status repo)) ∧
    (stale = true → ∃ now, ev CNow now ∈ h' ∧ rst_LastProbeTime st = Some now))).
  { destruct stale.
    - apply wp_bind. split; [done|]. intros now. cbn [wp].
      split_and!; [by apply grown_snoc|done..|]. intros _. exists now. by split; [apply elem_of_snoc|].
    - by split_and!; [exists []; rewrite app_nil_r|..]. }
  intros h3 st _ (Hg3 & Hcs & Hkeep & Hstamp).
  assert (Hg : grown h1 h3) by by eapply grown_trans.
  destruct (grown_unpatched _ _ _ Hg Hu1) as [Hr Hn].
  destruct (negb (changed || stale)) eqn:Hdirty; cbn [wp].
  { split; [by apply no_patches_accepted|done]. }
  apply negb_false_iff in Hdirty. destruct Hg as (t & -> & Ht). destruct Hg3 as (t3 & Heq & _).
  apply wp_bind. split.
  - split; [done|]. split; [done|]. split; [done|]. split; [done|].
    exists c, cs, changed. split; [by apply elem_of_grow|]. split; [done|]. split; [done|].
    split; [intros Hc; by apply healthy_app, Hh1|].
    destruct stale; [right|left; split; [by apply Hkeep|by rewrite orb_false_r in Hdirty]].
    destruct (Hstale eq_refl) as [Hs Hold]. split; [by apply Hst|]. split; [by apply Hstamp|].
    intros t' Ht'. destruct (Hold t' Ht') as (now & Hin & Hlt). exists now. split; [|done].
    rewrite Heq. by apply elem_of_grow.
  - intros [e|repo']; cbn [wp]; [done|]. split.
    + apply Forall_app. split; [by apply no_patches_accepted|by repeat constructor].
    + intros ->. apply transitioned_app, transitioned_app. by exists (rst_Conditions (repo_Status repo)), c, cs.
Qed.

Definition repo_requeued (wait : Z) (res : reconcile_result) : Prop :=
  match res with inl _ => True | inr x => RequeueAfter x = wait end.

Lemma wp_repo_finish h t reason message res requeue :
  condition_set reason h res →
  wp repo_call_ok (finish t reason message res requeue) (λ _, repo_requeued requeue) h.
Proof.
  destruct res as [[repo' changed] [e|]]; cbn [condition_set]; unfold finish.
  - by intros ->.
  - intros [Ha Ht]. destruct changed; [|done]. apply wp_bind. split; [|done]. split; [done|by apply Ht].
Qed.

Lemma wp_repo_fail h repo reason message requeue :
  unpatched h repo →
  wp repo_call_ok (fail_ repo reason message requeue) (λ _, repo_requeued requeue) h.
Proof.
  intros Hu. unfold fail_. apply wp_bind.
  eapply wp_post; [by apply wp_setCondition|]. intros h' res _ Hc. by apply wp_repo_finish.
Qed.

Lemma wp_succeed h repo :
  unpatched h repo → healthy h repo →
  wp repo_call_ok (succeed repo) (λ _, repo_requeued requeueSteady) h.
Proof.
  intros Hu Hh. unfold succeed. apply wp_bind.
  eapply wp_post; [by apply wp_setCondition|]. intros h' res _ Hc. by apply wp_repo_finish.
Qed.

(** What a client does within the ping timeout. *)
Definition ping_call (c : PbsClient) (h : list kevent) (k : call) : Prop :=
  match k with
  | CDial timeout _ => timeout = pingTimeout
  | CHttp timeout r => timeout = pingTimeout ∧ on_pinned c h ∧
                       ∃ method path body, r = request c method path body
  | _ => False
  end.

Lemma ping_lets_through c : lets_through (ping_call c) c (Some pingTimeout).
Proof. split; [done|]. intros h method path body Hp. split_and!; [done..|]. by exists method, path, body. Qed.

Lemma wp_grown {R} c (p : kprog R) Q h :
  wp (ping_call c) p Q h → wp (ping_call c) p (λ h' r, grown h h' ∧ Q h' r) h.
Proof.
  revert h. induction p as [r|k f IH]; intros h; cbn [wp].
  - intros HQ. split; [|done]. exists []. by rewrite app_nil_r.
  - intros [Hk Hf]. split; [done|]. intros a. eapply wp_post; [by apply IH|].
    intros h' r _ [Hg HQ]. split; [|done]. eapply grown_trans; [|exact Hg]. apply grown_snoc. by destruct k.
Qed.

(** An operation of a client of the repo. *)
Lemma wp_client {R} h repo c (p : kprog R) Q :
  unpatched h repo → repo_client h repo c → wp (ping_call c) p Q h →
  wp repo_call_ok p (λ h' r, grown h h' ∧ Q h' r) h.
Proof.
  intros [Hr _] (creds & Hc & Hor) Hp. eapply wp_mono; [by apply wp_grown| |done].
  intros h' k [t ->] Hk. destruct k; try done. destruct Hk as (Ht & Hpin & Hrq).
  split; [done|]. exists repo, c. split; [unfold read_repo in *; by destruct h|].
  split; [|by split]. exists creds. split; [by apply has_creds_app|].
  destruct Hor as [->|(s & Hs & ->)]; [by left|]. right. exists s. by split; [apply got_secret_app|].
Qed.

Lemma wp_bootstrap h repo creds snaps t h0 :
  h = h0 ++ t → unpatched h repo → has_creds h repo creds →
  listed_snapshots (producer_of creds) (Some pingTimeout) (rc_datastore creds) (rc_namespace creds)
    t snaps →
  wp repo_call_ok (bootstrap repo creds)
    (λ _ res, repo_requeued requeueFailure res ∨ repo_requeued requeueSteady res) h.
Proof.
  intros -> Hu Hc Hl. unfold bootstrap.
  assert (Hlist : during (h0 ++ t) (λ t, ∃ snaps, listed_snapshots (producer_of creds)
    (Some pingTimeout) (rc_datastore creds) (rc_namespace creds) t snaps)).
  { exists h0, t, []. split; [by rewrite app_nil_r|]. by exists snaps. }
  set (ref := rsp_BootstrapTokenRef (repo_Spec repo)). clear Hl.
  set (h := h0 ++ t) in *. clearbody h. clear h0 t snaps.
  case_bool_decide as Hn; cbn [negb].
  { eapply wp_post; [apply wp_succeed; [done|]|intros; by right].
    exists creds. split_and!; [done..|]. intros Hne. by destruct Hne. }
  unfold bootstrapToken. apply wp_bind, wp_bind. eapply wp_post; [apply wp_fetchSecret|].
  intros h1 [e|got] _ [Hg Hs]; cbn [wp]; [by left|].
  pose proof (grown_unpatched _ _ _ Hg Hu) as Hu1. destruct Hg as (t1 & -> & _).
  destruct got as [problem|s]; apply wp_ret.
  { eapply wp_post; [by apply wp_repo_fail|intros; by left]. }
  pose proof (Hs s eq_refl) as Hgot. destruct (filter _ _) as [|k ks].
  2:{ eapply wp_post; [by apply wp_repo_fail|intros; by left]. }
  fold (bootstrapper_of creds s). apply wp_bind.
  eapply wp_post; [eapply wp_client; [exact Hu1| |apply wp_EnsureNamespace, ping_lets_through]|].
  { exists creds. split; [by apply has_creds_app|]. right. by exists s. }
  intros h2 [e|] _ (Hg2 & t2 & -> & Hns).
  { eapply wp_post; [by apply wp_repo_fail; eapply grown_unpatched|by right]. }
  eapply wp_post; [apply wp_succeed; [by eapply grown_unpatched|]|intros; by right].
  exists creds. split; [by do 2 apply has_creds_app|]. split; [by do 2 apply during_app|].
  intros _. exists s. split; [by apply got_secret_app|].
  exists (h ++ t1), t2, []. split; [by rewrite app_nil_r|]. by apply Hns.
Qed.

(** What [Reconcile] answers: it looks again in two or five minutes. *)
Definition repo_reconciled (h : list kevent) (res : reconcile_result) : Prop :=
  match res with
  | inl _ => True
  | inr x =>
      RequeueAfter x = requeueFailure ∨ RequeueAfter x = requeueSteady ∨
      (RequeueAfter x = 0 ∧ ∃ e, h = [ev (CGet KPBSRepo req) (inl e)] ∧ IsNotFound e = true)
  end.

Lemma wp_repo_Reconcile : wp repo_call_ok (Reconcile req) repo_reconciled [].
Proof.
  unfold Reconcile. apply wp_bind. split; [done|]. intros [e|repo]; cbn [wp app].
  { destruct (IsNotFound e) eqn:He; cbn; [|done]. right. right. split; [done|]. by exists e. }
  assert (Hu : unpatched [ev (CGet KPBSRepo req) (inr repo)] repo).
  { split; [done|]. by apply Forall_singleton. }
  assert (Hres : ∀ h res, repo_requeued requeueFailure res ∨ repo_requeued requeueSteady res →
                          repo_reconciled h res).
  { intros h [e|x]; [done|]. cbn. naive_solver. }
  set (h := [_]) in *. clearbody h. unfold producerCreds. apply wp_bind, wp_bind.
  eapply wp_post; [apply wp_fetchSecret|]. intros h1 [e|got] _ [Hg Hs]; cbn [wp]; [done|].
  pose proof (grown_unpatched _ _ _ Hg Hu) as Hu1.
  assert (Hfail : ∀ h repo reason message, unpatched h repo →
    wp repo_call_ok (fail_ repo reason message requeueFailure) repo_reconciled h).
  { intros h2 repo' reason message Hu2. eapply wp_post; [by apply wp_repo_fail|]. intros. apply Hres. by left. }
  destruct got as [problem|s]; apply wp_ret; [by apply Hfail|]. pose proof (Hs s eq_refl) as Hgot.
  destruct (resolve_creds repo s) as [problem|creds] eqn:Hc; [by apply Hfail|].
  assert (Hcreds : has_creds h1 repo creds) by by exists s.
  fold (producer_of creds). apply wp_bind.
  eapply wp_post; [eapply wp_client; [exact Hu1| |apply wp_ListSnapshots, ping_lets_through]|].
  { exists creds. split; [done|]. by left. }
  intros h2 [e|snaps] _ (Hg2 & t & -> & Hl); cbn [wp].
  { apply Hfail. by eapply grown_unpatched. }
  eapply wp_post; [eapply wp_bootstrap; [done|by eapply grown_unpatched|by apply has_creds_app|by apply Hl]|].
  intros h3 res _. apply Hres.
Qed.

(** C34: the token of a repo goes only to its server: every request of a reconcile
    is made within the ping timeout, with the token of the repo's own secret (or
    of the configured bootstrap secret), to the host and port resolved for the
    repo, right after that server showed the certificate of the resolved
    fingerprint. *)
Theorem repo_requests_pinned tr res i timeout r a :
  runs (Reconcile req) tr res → tr !! i = Some (ev (CHttp timeout r) a) →
  repo_call_ok (take i tr) (CHttp timeout r).
Proof. intros Hr Hi. exact (wp_lookup _ _ _ _ _ _ _ _ wp_repo_Reconcile Hr Hi). Qed.

(** C35: Ready means reachable: a reconcile patches the status at most once, only
    the Ready condition and the last probe time; it sets Ready to true only after
    the server listed the snapshots of the repo's namespace to the repo's token
    and, with a bootstrap token configured, has the namespace; and without a
    change of the condition it patches only to refresh a probe time older than a
    minute, so that it does not trigger itself. *)
Theorem repo_ready_reachable tr res i before after a :
  runs (Reconcile req) tr res →
  tr !! i = Some (ev (CStatusPatch KPBSRepo before after) a) →
  repo_patch_ok (take i tr) before after.
Proof. intros Hr Hi. exact (wp_lookup _ _ _ _ _ _ _ _ wp_repo_Reconcile Hr Hi). Qed.

(** A repo is probed forever: without an error every reconcile asks to run
    again in two or five minutes, unless the repo is gone; and it writes nothing
    but its own status. *)
Theorem repo_result tr res :
  runs (Reconcile req) tr res →
  repo_reconciled tr res ∧
  Forall (λ e, is_write (projT1 e) = true →
               ∃ before after, projT1 e = CStatusPatch KPBSRepo before after) tr.
Proof.
  intros Hr. destruct (wp_runs _ _ _ _ _ wp_repo_Reconcile Hr) as [Hc Hres]. split; [done|].
  apply Forall_lookup. intros i [c a] Hi Hw.
  pose proof (wp_lookup _ _ _ _ _ _ _ _ wp_repo_Reconcile Hr Hi) as Hok. cbn [projT1] in *.
  destruct c as [| | | | |[] before after| | | | | | | | | | | |]; try done. by exists before, after.
Qed.
End safety.

(** ** A concrete run

    A repo whose fingerprint is the one of the cluster's PBS server, with a
    producer and a bootstrap token. *)

Definition pinned_repo : PBSRepo :=
  mkRepo (meta0 "" "repo")
    (mkRepoSpec "pbs" 0 "store" "" (colonHex (Sum256 (bytes_of "cert")))
       (mkSecretRef "creds" "ops") (mkSecretRef "boot" "ops"))
    (mkRepoStatus [] None).
Definition token_secret (name id : string) : Secret :=
  mkSecret (meta0 "ops" name)
    {["tokenID" := id; "tokenSecret" := "s3cret"; "namespace" := "k8s"; "port" := "8008"]}.
Definition repo_cluster : cluster :=
  add_object KPBSRepo pinned_repo
    (add_object KSecret (token_secret "creds" "producer@pbs!t")
       (add_object KSecret (token_secret "boot" "admin@pbs!t") empty_cluster)).

Definition repo_req : NamespacedName := mkNN "" "repo".
Definition repo_run := Eval vm_compute in (exec serve (Reconcile repo_req) repo_cluster).1.
Definition repo_trace : list kevent := repo_run.1.
Definition repo_res : reconcile_result := repo_run.2.
Lemma repo_run_eq : (exec serve (Reconcile repo_req) repo_cluster).1 = repo_run.
Proof. by vm_compute. Qed.
Lemma repo_runs : runs (Reconcile repo_req) repo_trace repo_res.
Proof. unfold repo_trace, repo_res. rewrite <- repo_run_eq. apply exec_runs. Qed.

(** The listing and the namespace are asked for with the two tokens. *)
Example repo_reconciles :
  omap (λ c, match c with CHttp _ r => Some (rq_Method r, rq_URL r) | _ => None end) (calls repo_trace)
    = [("GET", "https://pbs:8008/api2/json/admin/datastore/store/snapshots?ns=k8s");
       ("POST", "https://pbs:8008/api2/json/admin/datastore/store/namespace")] ∧
  repo_res = requeue_after requeueSteady.
Proof. by vm_compute. Qed.

Lemma repo_requests_pinned_witness :
  ∃ timeout r a, repo_trace !! 6%nat = Some (ev (CHttp timeout r) a) ∧
    rq_Method r = "POST" ∧ repo_call_ok repo_req (take 6 repo_trace) (CHttp timeout r).
Proof.
  at_index repo_trace 6%nat ltac:(fun c a => lazymatch c with CHttp ?t ?r =>
    exists t, r, a; assert (Hi : repo_trace !! 6%nat = Some (ev c a)) by (by vm_compute);
    split; [exact Hi|split; [reflexivity|exact (repo_requests_pinned _ _ _ _ _ _ _ repo_runs Hi)]] end).
Defined.

Lemma repo_ready_reachable_witness :
  ∃ before after a, repo_trace !! 9%nat = Some (ev (CStatusPatch KPBSRepo before after) a) ∧
    IsStatusConditionTrue (rst_Conditions (repo_Status after)) condReady = true ∧
    repo_patch_ok repo_req (take 9 repo_trace) before after.
Proof.
  at_index repo_trace 9%nat ltac:(fun c a => lazymatch c with CStatusPatch KPBSRepo ?b ?b' =>
    exists b, b', a; assert (Hi : repo_trace !! 9%nat = Some (ev c a)) by (by vm_compute);
    split; [exact Hi|split; [reflexivity|exact (repo_ready_reachable _ _ _ _ _ _ _ repo_runs Hi)]] end).
Defined.

Lemma repo_result_witness :
  repo_res = requeue_after requeueSteady ∧ repo_reconciled repo_req repo_trace repo_res ∧
  Forall (λ e, is_write (projT1 e) = true →
               ∃ before after, projT1 e = CStatusPatch KPBSRepo before after) repo_trace.
Proof.
  split; [by vm_compute|]. apply (repo_result _ _ _ repo_runs).
Defined.
