(* ===== verification/GoPath.v ===== *)
(** * path/filepath, as the agent uses it

    The lexical cleaning of a slash-separated path and the join of two
    elements. *)

From S2P Require Import Prelude GoLib.
From Stdlib Require Import Ascii.
From stdpp Require Import options.

(** The elements kept, last one first; [rooted]: a [..] at the root is dropped. *)
Fixpoint clean_parts (rooted : bool) (parts stack : list string) : list string :=
  match parts with
  | [] => stack
  | p :: parts' =>
      if bool_decide (p = "") || bool_decide (p = ".") then clean_parts rooted parts' stack
      else if bool_decide (p = "..") then
        match stack with
        | q :: stack' =>
            if bool_decide (q = "..") then clean_parts rooted parts' (p :: stack)
            else clean_parts rooted parts' stack'
        | [] => if rooted then clean_parts rooted parts' [] else clean_parts rooted parts' [p]
        end
      else clean_parts rooted parts' (p :: stack)
  end.

(** [filepath.Clean] *)
Definition path_Clean (path : string) : string :=
  let rooted := HasPrefix path "/" in
  let kept := Join (reverse (clean_parts rooted (SplitByte path "/") [])) "/" in
  if rooted then "/" +:+ kept else if bool_decide (kept = "") then "." else kept.

(** [filepath.Join] of two elements; empty ones are left out. *)
Definition path_Join (a b : string) : string :=
  match filter (λ e, e ≠ "") [a; b] with
  | [] => ""
  | es => path_Clean (Join es "/")
  end.

Example path_Join_ex :
  path_Join "/restore/" "api.yaml" = "/restore/api.yaml" ∧ path_Join "/a/../.." "x" = "/x" ∧
  path_Join "a/.." "." = "." ∧ path_Join "" "../x" = "../x".
Proof. by vm_compute. Qed.
