(* ===== verification/AgentEnv.v ===== *)
(** * What the agent calls

    The process the agent runs in, as the calls of a [Prog.prog]: the environment,
    the file system, the commands it executes ([exec.Command] with the child's
    stderr copied to ours), its output streams; and the steps that the three runs
    of internal/agent share.  A deferred removal of a file is written after the
    body it guards. *)

From S2P Require Import Prelude GoLib Kube Json.
From S2P Require Export Prog.
From Stdlib Require Import Ascii.
From stdpp Require Import options.

Local Open Scope Z_scope.

(** An error of a command: its text, and its [ExitCode()] if it has one (an
    [*exec.ExitError]; -1 when a signal ended the child). *)
Record cmd_error := mkCmdError { ce_Text : string; ce_ExitCode : option Z }.

(** Where the stdout of a child goes. *)
Inductive sink := ToStdout | ToBuffer | Discard.

(** What a command did: what it wrote to a buffered stdout and to stderr, and the
    error of [Run]. *)
Record run_result := mkRun { run_out : string; run_err : string; run_error : option cmd_error }.

(** One call of the function given to [filepath.WalkDir]: whether it is given an
    error, [e.IsDir()], and the size [e.Info()] reports. *)
Record walk_entry := mkWalk { we_Err : bool; we_IsDir : bool; we_Size : option Z }.

Inductive acall :=
  | AGetenv (name : string)
  | AHostname
  | AEnviron
  | ACreateTemp (pattern : string)
  | AWrite (file content : string)
  | AClose (file : string)
  | ARemove (file : string)
  | AWriteFile (path content : string)
  | AReadFile (path : string)
  | AReadDir (dir : string)
  | ARemoveAll (path : string)
  | AWalkDir (dir : string)
  (* argv, the child's environment (nil is ours), its stdout *)
  | ARun (argv : list string) (env : option (list string)) (out : sink)
  | AStdout (s : string)
  | AStderr (s : string).

Definition aresp (c : acall) : Type :=
  match c with
  | AGetenv _ => string
  | AHostname => (error + string)
  | AEnviron => list string
  | ACreateTemp _ => (error + string)         (* the name of the file *)
  | AWrite _ _ | AClose _ | ARemove _ | AWriteFile _ _ | ARemoveAll _ => option error
  | AReadFile _ => (error + string)
  | AReadDir _ => (error + list string)       (* the names of the entries *)
  | AWalkDir _ => list walk_entry
  | ARun _ _ _ => run_result
  | AStdout _ | AStderr _ => unit
  end.

Abbreviation aprog := (@prog acall aresp).
Abbreviation aevent := (@event acall aresp).

(** [fmt.Fprintln] to the two streams *)
Definition Println (s : string) : aprog unit := do_call (AStdout (s +:+ newline)).
Definition Eprintln (s : string) : aprog unit := do_call (AStderr (s +:+ newline)).

(** [err != nil] of an operating-system call *)
Definition os_error (e : error) : cmd_error := mkCmdError (Error e) None.

(** ** The contract variables *)

Definition clientBinary : string := "proxmox-backup-client".
Definition kubectl : string := "kubectl".

Definition envKeys : list string :=
  ["PBS_HOST"; "PBS_PORT"; "PBS_DATASTORE"; "PBS_NS";
   "PBS_TOKEN_ID"; "PBS_TOKEN_SECRET"; "PBS_FINGERPRINT"; "PBS_KEYFILE"].

Record config := mkConfig {
  cfg_Host : string; cfg_Port : string; cfg_Datastore : string; cfg_NS : string;
  cfg_TokenID : string; cfg_TokenSecret : string; cfg_Fingerprint : string;
  cfg_Keyfile : string }.

(** The loop of [loadConfig]: the trimmed values and the keys without one. *)
Fixpoint load_keys (keys : list string) : aprog (list string * list string) :=
  match keys with
  | [] => mret ([], [])
  | k :: keys' =>
      v ← do_call (AGetenv k);
      let v := TrimSpace v in
      rest ← load_keys keys';
      mret (v :: rest.1, if bool_decide (v = "") then k :: rest.2 else rest.2)
  end.

Definition config_of (vals : list string) : config :=
  let v := λ i, nth i vals "" in
  mkConfig (v 0%nat) (v 1%nat) (v 2%nat) (v 3%nat) (v 4%nat) (v 5%nat) (v 6%nat) (v 7%nat).

Definition loadConfig : aprog (config * list string) :=
  r ← load_keys envKeys; mret (config_of r.1, r.2).

Definition clientEnv (c : config) : list string :=
  ["PBS_REPOSITORY=" +:+ cfg_TokenID c +:+ "@" +:+ cfg_Host c +:+ ":" +:+ cfg_Port c +:+ ":" +:+
     cfg_Datastore c;
   "PBS_PASSWORD=" +:+ cfg_TokenSecret c;
   "PBS_FINGERPRINT=" +:+ cfg_Fingerprint c].

(** ** Files and reports *)

Definition exitCode (e : cmd_error) : Z :=
  match ce_ExitCode e with
  | Some code => if 0 <=? code then code else 1
  | None => 1
  end.

Definition firstLine (s : string) : string :=
  let s := TrimSpace s in
  match IndexByte s "010" with Some i => stake i s | None => s end.

(** Writes to an open file, which is closed at the first one that fails. *)
Fixpoint write_all (file : string) (chunks : list string) : aprog (option error) :=
  match chunks with
  | [] => mret None
  | s :: chunks' =>
      err ← do_call (AWrite file s);
      match err with
      | Some e => do_call (AClose file);; mret (Some e)
      | None => write_all file chunks'
      end
  end.

(** The path of the key file. *)
Definition materializeKeyfile (content : string) : aprog (error + string) :=
  f <-? do_call (ACreateTemp "pbs-agent-keyfile-*.json");
  err ← write_all f [content];
  match err with
  | Some e => do_call (ARemove f);; mret (inl e)
  | None =>
      err ← do_call (AClose f);
      match err with
      | Some e => do_call (ARemove f);; mret (inl e)
      | None => mret (inr f)
      end
  end.

Definition writeTermlog (path jsonLine : string) : aprog unit :=
  err ← do_call (AWriteFile path (jsonLine +:+ newline));
  match err with
  | Some e => Eprintln ("pbs-agent: write termination log: " +:+ Error e)
  | None => mret tt
  end.

Section reports.
Context `{JsonLib}.

Definition errorJSON (msg : string) : string := json_error_text msg.

(** The closure [fail] of the three runs *)
Definition fail (termlog : string) (code : Z) (msg : string) : aprog Z :=
  writeTermlog termlog (errorJSON msg);;
  Eprintln ("pbs-agent: " +:+ msg);;
  mret code.

(** The end of a successful run *)
Definition report (termlog out : string) : aprog Z :=
  writeTermlog termlog out;; Println out;; mret 0.

End reports.

Definition missing_env (missing : list string) : string :=
  "missing required env: " +:+ Join missing ", ".
