(* ===== verification/AgentBackup.v ===== *)
(** * The backup run of the agent: internal/agent/backup.go

    The commands and [RunBackup]. *)

From S2P Require Import Prelude GoLib Kube Json SnapshotRef AgentEnv.
From stdpp Require Import options.

Local Open Scope Z_scope.

(** ** Commands *)

Definition backupArgv (ns keyfilePath : string) (pvcs : list string) (apiDir : string)
  : list string :=
  [clientBinary; "backup"; "--ns"; ns; "--keyfile"; keyfilePath] ++
  ((λ pvc, "pvc-" +:+ pvc +:+ ".pxar:/backup/" +:+ pvc) <$> pvcs) ++
  (if negb (bool_decide (apiDir = "")) then ["api.pxar:" +:+ apiDir] else []).

Definition notesArgv (ns ref notes : string) : list string :=
  [clientBinary; "snapshot"; "notes"; "update"; "--ns"; ns; ref; notes].

Definition listArgv (ns : string) : list string :=
  [clientBinary; "snapshot"; "list"; "--ns"; ns; "--output-format"; "json"].

(** ** Snapshots *)

Definition latestHostSnapshot (snaps : list Snapshot) (backupID : string) : string + Snapshot :=
  LatestSnapshot snaps "host" backupID.

Definition snapshotRef (snap : Snapshot) : string :=
  ComposeSnapshotRef (sn_BackupType snap) (sn_BackupID snap) (sn_BackupTime snap).

Section run.
Context `{JsonLib}.

Definition parseSnapshotList (data : string) : error + list Snapshot :=
  match json_snapshot_data data with
  | inr snaps => inr snaps
  | inl _ =>
      match json_snapshots data with
      | inl e => inl (ErrWrap "decode: not an envelope or bare array: " e)
      | inr snaps => inr snaps
      end
  end.

Definition successJSON (snap : Snapshot) : string := json_result_text (snapshotRef snap) (sn_Size snap).

(** Step 5: the newest snapshot of the host, or the exit code and the message. *)
Definition find_snapshot (env : list string) (ns host : string) : aprog ((Z * string) + Snapshot) :=
  r ← do_call (ARun (listArgv ns) (Some env) ToBuffer);
  mret match run_error r with
       | Some e => inl (exitCode e, firstLine (run_err r))
       | None =>
           match parseSnapshotList (run_out r) with
           | inl e => inl (1, "snapshot list: " +:+ Error e)
           | inr snaps =>
               match latestHostSnapshot snaps host with
               | inl e => inl (1, "snapshot list: " +:+ e)
               | inr snap => inr snap
               end
           end
       end.

(** Step 5.5: a failure is only a warning. *)
Definition set_notes (env : list string) (ns ref notes : string) : aprog unit :=
  if bool_decide (notes = "") then mret tt
  else
    r ← do_call (ARun (notesArgv ns ref notes) (Some env) Discard);
    match run_error r with
    | None => mret tt
    | Some _ =>
        Eprintln ("pbs-agent: WARNING: snapshot " +:+ ref +:+
                  " uploaded, but setting notes failed: " +:+ firstLine (run_err r))
    end.

(** What runs while the key file exists. *)
Definition backup_with_key (c : config) (host keyPath : string) (pvcs : list string)
    (apiDir notes termlog : string) : aprog Z :=
  environ ← do_call AEnviron;
  let env := environ ++ clientEnv c in
  r ← do_call (ARun (backupArgv (cfg_NS c) keyPath pvcs apiDir) (Some env) ToStdout);
  match run_error r with
  | Some e => fail termlog (exitCode e) (firstLine (run_err r))
  | None =>
      found ← find_snapshot env (cfg_NS c) host;
      match found with
      | inl (code, msg) => fail termlog code msg
      | inr snap =>
          set_notes env (cfg_NS c) (snapshotRef snap) notes;;
          report termlog (successJSON snap)
      end
  end.

Definition RunBackup (pvcs : list string) (apiDir notes termlog : string) : aprog Z :=
  '(c, missing) ← loadConfig;
  if negb (bool_decide (missing = [])) then fail termlog 2 (missing_env missing)
  else
    host ← do_call AHostname;
    match host with
    | inl e => fail termlog 1 ("hostname: " +:+ Error e)
    | inr host =>
        key ← materializeKeyfile (cfg_Keyfile c);
        match key with
        | inl e => fail termlog 1 ("keyfile: " +:+ Error e)
        | inr keyPath =>
            code ← backup_with_key c host keyPath pvcs apiDir notes termlog;
            do_call (ARemove keyPath);;
            mret code
        end
    end.
End run.
