(* ===== verification/AgentRestore.v ===== *)
(** * The restore runs of the agent: internal/agent/restore.go

    The commands, [RunRestoreVolume] and [RunApplyManifests]. *)

From S2P Require Import Prelude GoLib GoPath Kube Doc Json AgentArgs RestorePlan AgentEnv.
From Stdlib Require Import Ascii.
From stdpp Require Import options.

Local Open Scope Z_scope.

(** ** Volumes *)

Definition restoreArgv (ns keyfilePath ref archive target : string) : list string :=
  [clientBinary; "restore"; ref; archive; target;
   "--ns"; ns; "--keyfile"; keyfilePath; "--overwrite"].

(** The loop of [emptyDir] *)
Fixpoint remove_entries (dir : string) (names : list string) : aprog (option error) :=
  match names with
  | [] => mret None
  | n :: names' =>
      err ← do_call (ARemoveAll (path_Join dir n));
      match err with
      | Some e => mret (Some e)
      | None => remove_entries dir names'
      end
  end.

Definition emptyDir (dir : string) : aprog (option error) :=
  entries ← do_call (AReadDir dir);
  match entries with
  | inl e => mret (Some e)
  | inr names => remove_entries dir names
  end.

(** What one entry of the walk adds. *)
Definition entry_size (total : Z) (e : walk_entry) : Z :=
  match we_Size e with
  | Some size => if negb (we_Err e) && negb (we_IsDir e) then add_int64 total size else total
  | None => total
  end.

Definition dirSize (dir : string) : aprog Z :=
  entries ← do_call (AWalkDir dir); mret (foldl entry_size 0 entries).

(** [s] between double quotes *)
Definition dq (s : string) : string := String "034" s +:+ String "034" EmptyString.

(** A temp file that holds [chunks]: its name, or the error after which the code
    no longer touches it.  Both callers defer its removal once it is created. *)
Definition with_temp (pattern : string) (chunks : list string)
    (body : string → aprog (option cmd_error)) : aprog (option cmd_error) :=
  f ← do_call (ACreateTemp pattern);
  match f with
  | inl e => mret (Some (os_error e))
  | inr f =>
      werr ← write_all f chunks;
      err ← (match werr with
             | Some e => mret (Some (os_error e))
             | None =>
                 cerr ← do_call (AClose f);
                 match cerr with
                 | Some e => mret (Some (os_error e))
                 | None => body f
                 end
             end);
      do_call (ARemove f);;
      mret err
  end.

Definition createArgv (name src : string) : list string :=
  [kubectl; "create"; "configmap"; name; "--from-file=api.yaml=" +:+ src;
   "--dry-run=client"; "-o"; "yaml"].
Definition applyArgv (file : string) : list string := [kubectl; "apply"; "-f"; file].

Definition uploadConfigMap (name src : string) : aprog (option cmd_error) :=
  environ ← do_call AEnviron;
  r ← do_call (ARun (createArgv name src) (Some environ) ToBuffer);
  match run_error r with
  | Some e => mret (Some e)
  | None =>
      with_temp "pbs-agent-cm-*.yaml" [run_out r] (λ f,
        environ ← do_call AEnviron;
        r ← do_call (ARun (applyArgv f) (Some environ) ToStdout);
        mret (run_error r))
  end.

Section runs.
Context `{JsonLib} `{YamlLib}.

Definition renderRestoreJSON (restored : list string) (bytes : Z) : string :=
  "{" +:+ dq "restored" +:+ ":" +:+ Quote (Join restored ",") +:+ "," +:+ dq "bytes" +:+ ":" +:+
  fmt_d bytes +:+ "}".

(** The loop over the pairs, from what is restored and counted already; [inl] is
    the exit code of a failure, reported. *)
Fixpoint restore_pairs (env : list string) (ns keyPath ref termlog : string)
    (pairs : list RestorePair) (restored : list string) (total : Z)
    : aprog (Z + list string * Z) :=
  match pairs with
  | [] => mret (inr (restored, total))
  | p :: pairs' =>
      err ← emptyDir (rp_Target p);
      match err with
      | Some e =>
          code ← fail termlog 1 ("empty " +:+ rp_Target p +:+ ": " +:+ Error e); mret (inl code)
      | None =>
          r ← do_call (ARun (restoreArgv ns keyPath ref (rp_Archive p) (rp_Target p)) (Some env)
                         ToStdout);
          match run_error r with
          | Some e =>
              code ← fail termlog (exitCode e) (firstLine (run_err r)); mret (inl code)
          | None =>
              size ← dirSize (rp_Target p);
              restore_pairs env ns keyPath ref termlog pairs' (restored ++ [rp_Archive p])
                (add_int64 total size)
          end
      end
  end.

(** The optional upload; [Some] is the exit code of a failure, reported. *)
Definition upload_restored (pairs : list RestorePair) (configMap termlog : string)
    : aprog (option Z) :=
  if bool_decide (configMap = "") then mret None
  else
    match pairs with
    | [p] =>
        err ← uploadConfigMap configMap (path_Join (rp_Target p) "api.yaml");
        match err with
        | None => mret None
        | Some e =>
            code ← fail termlog (exitCode e) ("configmap upload: " +:+ ce_Text e); mret (Some code)
        end
    | _ =>
        code ← fail termlog 2 ("configmap upload needs exactly one archive/target pair, got " +:+
                               fmt_d (Z.of_nat (length pairs)));
        mret (Some code)
    end.

(** What runs while the key file exists. *)
Definition restore_with_key (c : config) (keyPath ref : string) (pairs : list RestorePair)
    (configMap termlog : string) : aprog Z :=
  environ ← do_call AEnviron;
  let env := environ ++ clientEnv c in
  done ← restore_pairs env (cfg_NS c) keyPath ref termlog pairs [] 0;
  match done with
  | inl code => mret code
  | inr (restored, total) =>
      up ← upload_restored pairs configMap termlog;
      match up with
      | Some code => mret code
      | None => report termlog (renderRestoreJSON restored total)
      end
  end.

Definition RunRestoreVolume (ref : string) (pairs : list RestorePair) (configMap termlog : string)
    : aprog Z :=
  '(c, missing) ← loadConfig;
  if negb (bool_decide (missing = [])) then fail termlog 2 (missing_env missing)
  else
    key ← materializeKeyfile (cfg_Keyfile c);
    match key with
    | inl e => fail termlog 1 ("keyfile: " +:+ Error e)
    | inr keyPath =>
        code ← restore_with_key c keyPath ref pairs configMap termlog;
        do_call (ARemove keyPath);;
        mret code
    end.

(** ** Manifests *)

Definition saNamespaceFile : string := "/var/run/secrets/kubernetes.io/serviceaccount/namespace".

Definition DefaultPodNS : aprog (error + string) :=
  b ← do_call (AReadFile saNamespaceFile);
  mret match b with
       | inl e => inl (ErrWrap ("read " +:+ saNamespaceFile +:+ ": ") e)
       | inr b => inr (TrimSpace b)
       end.

Definition doc_separator_line : string := "---" +:+ newline.

Definition kubectlApply (docs : list PlannedDoc) : aprog (option cmd_error) :=
  with_temp "pbs-agent-apply-*.yaml" ((λ doc, pd_YAML doc +:+ doc_separator_line) <$> docs) (λ f,
    r ← do_call (ARun (applyArgv f) None ToStdout);
    mret (match run_error r with
          | Some e => Some (mkCmdError (ce_Text e +:+ ": " +:+ firstLine (run_err r)) (ce_ExitCode e))
          | None => None
          end)).

(** The closure [apply]: the number of documents applied so far, or [None] after a
    reported failure. *)
Definition apply_bucket (termlog : string) (applied : Z) (bucket : list PlannedDoc)
    : aprog (option Z) :=
  match bucket with
  | [] => mret (Some applied)
  | _ =>
      err ← kubectlApply bucket;
      match err with
      | Some e => fail termlog (exitCode e) ("kubectl apply: " +:+ ce_Text e);; mret None
      | None => mret (Some (applied + Z.of_nat (length bucket)))
      end
  end.

Definition waitArgv (name : string) : list string :=
  [kubectl; "wait"; "--for=condition=Established"; "crd/" +:+ name; "--timeout=60s"].

(** The loop over the closure [waitCRD] *)
Fixpoint wait_crds (termlog : string) (crds : list PlannedDoc) : aprog bool :=
  match crds with
  | [] => mret true
  | doc :: crds' =>
      r ← do_call (ARun (waitArgv (pd_Name doc)) None ToStdout);
      match run_error r with
      | Some e =>
          fail termlog (exitCode e) ("crd " +:+ pd_Name doc +:+ " not Established: " +:+ ce_Text e);;
          mret false
      | None => wait_crds termlog crds'
      end
  end.

(** The steps of a phase: the number of documents applied, or [None]. *)
Definition apply_pre (termlog : string) (b : buckets) : aprog (option Z) :=
  applied ← apply_bucket termlog 0 (b_ns b);
  match applied with
  | None => mret None
  | Some applied =>
      applied ← apply_bucket termlog applied (b_crds b);
      match applied with
      | None => mret None
      | Some applied =>
          ok ← wait_crds termlog (b_crds b);
          if ok : bool then apply_bucket termlog applied (b_pre b) else mret None
      end
  end.

Definition applied_json (applied : Z) : string := "{" +:+ dq "applied" +:+ ":" +:+ fmt_d applied +:+ "}".

Definition apply_phase (phase termlog : string) (b : buckets) : aprog Z :=
  let finish := λ applied, match applied with
                           | None => mret 1
                           | Some applied => report termlog (applied_json applied)
                           end in
  if bool_decide (phase = "pre") then apply_pre termlog b ≫= finish
  else if bool_decide (phase = "workload") then apply_bucket termlog 0 (b_work b) ≫= finish
  else fail termlog 2 ("unknown phase " +:+ Quote phase).

Definition RunApplyManifests (phase file : string) (drop keep : list string) (termlog : string)
    : aprog Z :=
  ns ← DefaultPodNS;
  match ns with
  | inl e => fail termlog 1 ("target namespace: " +:+ Error e)
  | inr ns =>
      data ← do_call (AReadFile file);
      match data with
      | inl e => fail termlog 1 ("read " +:+ file +:+ ": " +:+ Error e)
      | inr data =>
          match ParseAPIManifests data ns with
          | inl e => fail termlog 1 ("parse " +:+ file +:+ ": " +:+ Error e)
          | inr docs => apply_phase phase termlog (BucketDocs docs drop keep)
          end
      end
  end.
End runs.
