(* ===== verification/AgentMain.v ===== *)
(** * The agent process: cmd/agent/main.go

    [AgentArgs.main] selects a run from the command line; here it is run, to the
    exit code of the process. *)

From S2P Require Import Prelude GoLib Kube Doc Json RestorePlan AgentArgs AgentEnv AgentBackup AgentRestore.
From stdpp Require Import options.

Local Open Scope Z_scope.

Section process.
Context `{JsonLib} `{YamlLib}.

Definition start (r : agent_run) : aprog Z :=
  match r with
  | RunBackup_args a => RunBackup (ba_pvcs a) (ba_apiDir a) (ba_notes a) (ba_termlog a)
  | RunRestoreVolume_args a =>
      RunRestoreVolume (ra_ref a) (ra_pairs a) (ra_configMap a) (ra_termlog a)
  | RunApplyManifests_args a =>
      RunApplyManifests (aa_phase a) (aa_file a) (aa_drop a) (aa_keep a) (aa_termlog a)
  | ExitUsage msg => Eprintln msg;; mret 2
  end.

(** The parsers of the three subcommands read [TERMLOG]. *)
Definition subcommands : list string := ["backup"; "restore-volume"; "apply-manifests"].

Definition agent_process (argv : list string) : aprog Z :=
  termlog ← (if bool_decide (nth 1 argv "" ∈ subcommands) then do_call (AGetenv "TERMLOG")
             else mret "");
  start (main Quote argv (λ _, termlog)).
End process.
