(* ===== verification/AgentTrace.v ===== *)
(** * Reasoning on the history of an agent run

    What a history shows of the commands that ran, the reports written and the
    temp files that are still to be removed; and the rules of [Prog.wp] for the steps the three runs
    share. *)

From S2P Require Import Prelude GoLib Kube Json Trace AgentEnv.
From stdpp Require Import options.

Local Open Scope Z_scope.

(** ** Views of a history *)

(** The commands that ran, with what they did. *)
Definition command_of (e : aevent) : option (list string * run_result) :=
  match e with
  | existT c a => match c return aresp c → option (list string * run_result) with
                  | ARun argv _ _ => λ r, Some (argv, r)
                  | _ => λ _, None
                  end a
  end.
Definition commands (h : list aevent) : list (list string * run_result) := omap command_of h.

(** The files written with [os.WriteFile]. *)
Definition log_of (e : aevent) : option (string * string) :=
  match projT1 e with AWriteFile path s => Some (path, s) | _ => None end.
Definition logged (h : list aevent) : list (string * string) := omap log_of h.

(** The temp files that were created and that nothing has asked to remove since.  (The
    code ignores what [os.Remove] answers.) *)
Definition pending_step (l : list string) (e : aevent) : list string :=
  match e with
  | existT c a =>
      match c return aresp c → list string with
      | ACreateTemp _ => λ r, match r with inr f => f :: l | inl _ => l end
      | ARemove f => λ _, filter (λ f', f' ≠ f) l
      | _ => λ _, l
      end a
  end.
Definition pending (h : list aevent) : list string := foldl pending_step [] h.

Lemma commands_app h t : commands (h ++ t) = commands h ++ commands t.
Proof. apply omap_app. Qed.
Lemma logged_app h t : logged (h ++ t) = logged h ++ logged t.
Proof. apply omap_app. Qed.
Lemma pending_snoc h e : pending (h ++ [e]) = pending_step (pending h) e.
Proof. unfold pending. by rewrite foldl_app. Qed.

(** No command runs after a file was written. *)
Definition written_last (h : list aevent) : Prop :=
  ∀ h1 e h2, h = h1 ++ e :: h2 → is_Some (log_of e) → commands h2 = [].

Lemma written_last_intro h :
  (∀ i argv env out r, h !! i = Some (ev (resp := aresp) (ARun argv env out) r) → logged (take i h) = []) →
  written_last h.
Proof.
  intros Hall h1 e h2 -> [w Hw]. unfold commands. destruct (omap command_of h2) as [|x xs] eqn:Hc; [done|].
  assert (Hx : x ∈ omap command_of h2) by (rewrite Hc; by left).
  apply list_elem_of_omap in Hx as ([k a] & [j Hj]%list_elem_of_lookup & Hk).
  destruct k; try done. specialize (Hall (length h1 + S j)%nat _ _ _ a).
  rewrite lookup_app_r, Nat.add_comm, Nat.add_sub in Hall by lia. specialize (Hall Hj).
  rewrite take_app_ge, logged_app, Nat.add_sub in Hall by lia. cbn [take] in Hall.
  apply app_eq_nil in Hall as [_ Hall]. unfold logged in Hall. cbn [omap list_omap] in Hall. by rewrite Hw in Hall.
Qed.

(** ** Stretches of a history *)

(** [h'] is [h] and later events that satisfy [ok]. *)
Definition grows (ok : aevent → Prop) (h h' : list aevent) : Prop :=
  ∃ t, h' = h ++ t ∧ Forall ok t.

Section grows.
Context (ok : aevent → Prop).
Lemma grows_refl h : grows ok h h.
Proof. exists []. by rewrite app_nil_r. Qed.
Lemma grows_snoc h h' e : grows ok h h' → ok e → grows ok h (h' ++ [e]).
Proof.
  intros (t & -> & Ht) He. exists (t ++ [e]). rewrite app_assoc.
  split; [done|]. apply Forall_app; split; [done|by apply Forall_singleton].
Qed.
Lemma grows_trans h h1 h2 : grows ok h h1 → grows ok h1 h2 → grows ok h h2.
Proof.
  intros (t1 & -> & H1) (t2 & -> & H2). exists (t1 ++ t2). by rewrite app_assoc; split; [|apply Forall_app].
Qed.
Lemma grows_elem h h' e : grows ok h h' → e ∈ h → e ∈ h'.
Proof. intros (t & -> & _). apply elem_of_grow. Qed.
End grows.

(** Neither a command nor a file written nor a temp file *)
Definition quiet (e : aevent) : Prop :=
  match projT1 e with
  | ARun _ _ _ | AWriteFile _ _ | ACreateTemp _ | ARemove _ => False
  | _ => True
  end.

Lemma quiet_views h h' :
  grows quiet h h' → commands h' = commands h ∧ logged h' = logged h ∧ pending h' = pending h.
Proof.
  intros (t & -> & Ht). revert h. induction Ht as [|e t He _ IH]; intros h.
  { by rewrite app_nil_r. }
  replace (h ++ e :: t) with ((h ++ [e]) ++ t) by by rewrite <- app_assoc.
  destruct (IH (h ++ [e])) as (-> & -> & ->). rewrite commands_app, logged_app, pending_snoc.
  destruct e as [[] a]; try done; cbn; by rewrite !app_nil_r.
Qed.

(** ** The shared steps *)

(** The environment has a value for [k] that is not blank. *)
Definition env_set (h : list aevent) (k raw : string) : Prop :=
  ev (resp := aresp) (AGetenv k) raw ∈ h ∧ TrimSpace raw ≠ "".

(** [c] holds the trimmed values of the contract variables, none of them empty. *)
Definition configured (h : list aevent) (c : config) : Prop :=
  ∃ raws, Forall2 (env_set h) envKeys raws ∧
          c = config_of (TrimSpace <$> raws).

(** The environment a client command is given. *)
Definition client_env (h : list aevent) (c : config) (env : list string) : Prop :=
  ∃ environ, ev (resp := aresp) AEnviron environ ∈ h ∧ env = environ ++ clientEnv c.

Lemma configured_prefix h h' c : configured h c → h `prefix_of` h' → configured h' c.
Proof.
  intros (raws & Hr & ->) Hp. exists raws. split; [|done].
  eapply Forall2_impl; [exact Hr|]. intros k raw [Hin Hne]. split; [by eapply elem_of_prefix|done].
Qed.

Lemma wp_load_keys P keys h :
  (∀ h' k, P h' (AGetenv k)) →
  wp P (load_keys keys) (λ h' r, grows quiet h h' ∧
    (r.2 = [] → ∃ raws, Forall2 (env_set h') keys raws ∧
                        r.1 = TrimSpace <$> raws)) h.
Proof.
  intros HP. revert h. induction keys as [|k keys IH]; intros h.
  { split; [apply grows_refl|]. intros _. by exists []. }
  cbn [load_keys]. apply wp_bind. split; [done|]. intros raw. cbn [wp]. apply wp_bind.
  eapply wp_post; [apply IH|]. intros h' [vals missing] _ [Hg Hm]. cbn [wp fst snd] in *.
  split.
  - eapply grows_trans; [|exact Hg]. by apply grows_snoc; [apply grows_refl|].
  - case_bool_decide as Hv; [done|]. intros Hn. destruct (Hm Hn) as (raws & Hr & ->).
    exists (raw :: raws). split; [|done]. constructor; [|done]. split; [|done].
    eapply grows_elem; [exact Hg|]. apply elem_of_snoc.
Qed.

Lemma wp_loadConfig P h :
  (∀ h' k, P h' (AGetenv k)) →
  wp P loadConfig (λ h' r, grows quiet h h' ∧ (r.2 = [] → configured h' r.1)) h.
Proof.
  intros HP. unfold loadConfig. apply wp_bind.
  eapply wp_post; [by apply wp_load_keys|]. intros h' [vals missing] _ [Hg Hm]. cbn [wp fst snd] in *.
  split; [done|]. intros Hn. destruct (Hm Hn) as (raws & Hr & ->). by exists raws.
Qed.

Definition wrote (f s : string) : aevent := ev (resp := aresp) (AWrite f s) None.
Definition closed (f : string) : aevent := ev (resp := aresp) (AClose f) None.

(** A temp file is created, written in these chunks and closed, with nothing in
    between. *)
Definition file_events (pattern f : string) (chunks : list string) : list aevent :=
  ev (resp := aresp) (ACreateTemp pattern) (inr f) :: (wrote f <$> chunks) ++ [closed f].

(** There is a temp file of these chunks, not removed yet. *)
Definition temp_file (h : list aevent) (f : string) (chunks : list string) : Prop :=
  (∃ pattern h1 h2, h = h1 ++ file_events pattern f chunks ++ h2) ∧ f ∈ pending h.

Lemma temp_file_snoc h e f chunks :
  projT1 e ≠ ARemove f → temp_file h f chunks → temp_file (h ++ [e]) f chunks.
Proof.
  intros Hne ((pattern & h1 & h2 & ->) & Hp). split.
  { exists pattern, h1, (h2 ++ [e]). by rewrite <- !app_assoc. }
  rewrite pending_snoc. destruct e as [[] a]; cbn in *; try done.
  - by destruct a; [|apply elem_of_cons; right].
  - apply list_elem_of_filter. split; [congruence|done].
Qed.

(** What a step that only works on files it leaves closed does to the views. *)
Definition same_views (h h' : list aevent) : Prop :=
  commands h' = commands h ∧ logged h' = logged h ∧ pending h' = pending h.

Lemma same_views_refl h : same_views h h.
Proof. done. Qed.
Lemma same_views_trans h h1 h2 : same_views h h1 → same_views h1 h2 → same_views h h2.
Proof. unfold same_views. intuition congruence. Qed.
Lemma same_views_snoc h h' e : same_views h h' → quiet e → same_views h (h' ++ [e]).
Proof.
  intros Hs He. eapply same_views_trans; [exact Hs|]. apply quiet_views.
  apply grows_snoc; [apply grows_refl|done].
Qed.

Lemma wp_write_all P f chunks h :
  (∀ h' c, (∃ s, s ∈ chunks ∧ c = AWrite f s) ∨ c = AClose f → P h' c) →
  wp P (write_all f chunks) (λ h' r, same_views h h' ∧
    (r = None → h' = h ++ (wrote f <$> chunks))) h.
Proof.
  revert h. induction chunks as [|s chunks IH]; intros h HP; [by rewrite app_nil_r|].
  cbn [write_all]. apply wp_bind. split; [apply HP; left; exists s; split; [left|]; done|].
  intros err. cbn [wp]. destruct err as [e|].
  { apply wp_bind. split; [apply HP; by right|]. intros r. cbn [wp].
    split; [|done]. by do 2 (apply same_views_snoc; [|done]). }
  eapply wp_post; [apply IH|].
  { intros h' c [(s' & Hs & ->)| ->]; apply HP; [left; exists s'; split; [by right|done]|by right]. }
  intros h' r Hpre [Hs Hw]. split.
  - eapply same_views_trans; [|exact Hs]. by apply same_views_snoc.
  - intros Hr. rewrite (Hw Hr). by rewrite <- app_assoc.
Qed.

(** The file operations on a temp file [f] with this content *)
Definition temp_call (pattern : string) (content : list string) (c : acall) : Prop :=
  match c with
  | ACreateTemp p => p = pattern
  | AWrite _ s => s ∈ content
  | AClose _ | ARemove _ => True
  | _ => False
  end.

Lemma pending_remove h f a :
  pending (h ++ [ev (resp := aresp) (ARemove f) a]) = filter (λ f', f' ≠ f) (pending h).
Proof. by rewrite pending_snoc. Qed.

Lemma pending_create h p f :
  pending (h ++ [ev (resp := aresp) (ACreateTemp p) (inr f)]) = f :: pending h.
Proof. by rewrite pending_snoc. Qed.

Lemma filter_ne_cons f (l : list string) : filter (λ f', f' ≠ f) (f :: l) ⊆ l.
Proof. intros x [Hx Hin]%list_elem_of_filter. by apply elem_of_cons in Hin as [?|]. Qed.

(** What is left after a run of the agent, from before it *)
Definition cleaned (h h' : list aevent) : Prop :=
  commands h' = commands h ∧ logged h' = logged h ∧ pending h' ⊆ pending h.

(** The steps that create a file of [chunks]: the history when it is closed, or one
    that only lacks the removal. *)
Lemma wp_create_write P pattern chunks h f :
  (∀ h' c, temp_call pattern chunks c → P h' c) →
  let h1 := h ++ [ev (resp := aresp) (ACreateTemp pattern) (inr f)] in
  wp P (write_all f chunks) (λ h' werr,
    (∀ e, werr = Some e → same_views h1 h') ∧
    (werr = None → P h' (AClose f) ∧ ∀ a, same_views h1 (h' ++ [ev (resp := aresp) (AClose f) a]) ∧
                  (a = None → h' ++ [ev (resp := aresp) (AClose f) a] = h ++ file_events pattern f chunks))) h1.
Proof.
  intros HP h1. eapply wp_post; [apply wp_write_all|].
  { intros h' c [(s & Hs & ->)| ->]; by apply HP. }
  intros h' r _ [Hs Hw]. split; [done|]. intros Hr. split; [by apply HP|]. intros a.
  split; [by apply same_views_snoc|]. intros ->. rewrite (Hw Hr). unfold h1, file_events.
  by rewrite <- !app_assoc.
Qed.

Lemma file_events_views h pattern f chunks :
  commands (h ++ file_events pattern f chunks) = commands h ∧
  logged (h ++ file_events pattern f chunks) = logged h ∧
  pending (h ++ file_events pattern f chunks) = f :: pending h.
Proof.
  assert (Hg : grows quiet (h ++ [ev (resp := aresp) (ACreateTemp pattern) (inr f)]) (h ++ file_events pattern f chunks)).
  { exists ((wrote f <$> chunks) ++ [closed f]).
    split; [by rewrite <- app_assoc|]. apply Forall_app; split; [|by apply Forall_singleton].
    apply Forall_fmap, Forall_true. done. }
  destruct (quiet_views _ _ Hg) as (-> & -> & ->).
  by rewrite commands_app, logged_app, pending_create, !app_nil_r.
Qed.

Lemma temp_file_written h pattern f chunks : temp_file (h ++ file_events pattern f chunks) f chunks.
Proof.
  split; [exists pattern, h, []; by rewrite app_nil_r|].
  destruct (file_events_views h pattern f chunks) as (_ & _ & ->). by left.
Qed.

(** Created and removed again *)
Lemma cleaned_remove h pattern f h2 a :
  same_views (h ++ [ev (resp := aresp) (ACreateTemp pattern) (inr f)]) h2 →
  cleaned h (h2 ++ [ev (resp := aresp) (ARemove f) a]).
Proof.
  intros (Hc & Hl & Hp). unfold cleaned.
  rewrite commands_app, logged_app, pending_remove, Hc, Hl, Hp, pending_create.
  rewrite commands_app, logged_app, !app_nil_r. split_and!; [done..|apply filter_ne_cons].
Qed.

Lemma wp_materializeKeyfile P content h :
  (∀ h' c, temp_call "pbs-agent-keyfile-*.json" [content] c → P h' c) →
  wp P (materializeKeyfile content) (λ h' r,
    match r with
    | inl _ => cleaned h h'
    | inr f => h' = h ++ file_events "pbs-agent-keyfile-*.json" f [content]
    end) h.
Proof.
  intros HP. unfold materializeKeyfile. apply wp_bind. split; [by apply HP|].
  intros [e|f]; cbn [wp].
  { apply wp_ret. unfold cleaned. by rewrite commands_app, logged_app, pending_snoc, !app_nil_r. }
  apply wp_bind. eapply wp_post; [by apply wp_create_write|].
  intros h2 [e|] _ [He Hn].
  { apply wp_bind. split; [by apply HP|]. intros a. cbn [wp]. by eapply cleaned_remove, He. }
  destruct (Hn eq_refl) as [HPc Hc]. apply wp_bind. split; [done|]. intros [e|]; cbn [wp].
  { apply wp_bind. split; [by apply HP|]. intros a. cbn [wp]. eapply cleaned_remove, Hc. }
  apply wp_ret. by apply Hc.
Qed.

(** ** While the key file exists *)

Definition keyed (h : list aevent) (c : config) (keyPath : string) : Prop :=
  configured h c ∧ temp_file h keyPath [cfg_Keyfile c] ∧ pending h = [keyPath] ∧ logged h = [].

(** A command, or a call that the views do not show *)
Definition plain (e : aevent) : Prop :=
  match projT1 e with AWriteFile _ _ | ACreateTemp _ | ARemove _ => False | _ => True end.

Lemma keyed_snoc h e c keyPath : plain e → keyed h c keyPath → keyed (h ++ [e]) c keyPath.
Proof.
  intros He (Hc & Ht & Hp & Hl). split_and!.
  - eapply configured_prefix; [exact Hc|by exists [e]].
  - apply temp_file_snoc; [by destruct e as [[] ?]|done].
  - rewrite pending_snoc, Hp. by destruct e as [[] ?].
  - rewrite logged_app, Hl. by destruct e as [[] ?].
Qed.

Lemma keyed_grows h h' c keyPath : grows quiet h h' → keyed h c keyPath → keyed h' c keyPath.
Proof.
  intros (t & -> & Ht). revert h. induction Ht as [|e t He _ IH]; intros h Hk.
  { by rewrite app_nil_r. }
  replace (h ++ e :: t) with ((h ++ [e]) ++ t) by by rewrite <- app_assoc.
  apply IH, keyed_snoc; [|done]. by destruct e as [[] ?].
Qed.

Lemma keyed_start h c f pattern :
  configured h c → pending h = [] → logged h = [] →
  keyed (h ++ file_events pattern f [cfg_Keyfile c]) c f.
Proof.
  intros Hc Hp Hl. destruct (file_events_views h pattern f [cfg_Keyfile c]) as (_ & Hl' & Hp').
  split_and!; [|apply temp_file_written|by rewrite Hp', Hp|by rewrite Hl'].
  eapply configured_prefix; [exact Hc|by eexists].
Qed.

(** The deferred removal of the key file *)
Lemma pending_end h keyPath a :
  pending h ⊆ [keyPath] → pending (h ++ [ev (resp := aresp) (ARemove keyPath) a]) = [].
Proof.
  intros Hp. rewrite pending_remove. apply elem_of_nil_inv. intros x [Hx Hin]%list_elem_of_filter.
  apply Hp, list_elem_of_singleton in Hin. congruence.
Qed.

(** Output is always allowed. *)
Definition talks (P : list aevent → acall → Prop) : Prop :=
  ∀ h m, P h (AStdout m) ∧ P h (AStderr m).

Lemma wp_writeTermlog P path s h :
  talks P → P h (AWriteFile path (s +:+ newline)) →
  wp P (writeTermlog path s) (λ h' _, commands h' = commands h ∧ pending h' = pending h ∧
    logged h' = logged h ++ [(path, s +:+ newline)]) h.
Proof.
  intros HT HP. unfold writeTermlog. apply wp_bind. split; [done|]. intros err.
  set (h1 := h ++ _). assert (Hv : commands h1 = commands h ∧ pending h1 = pending h ∧
    logged h1 = logged h ++ [(path, s +:+ newline)]).
  { unfold h1. by rewrite commands_app, logged_app, pending_snoc, !app_nil_r. }
  clearbody h1. destruct err as [e|]; [|done].
  split; [apply HT|]. intros a. cbn [wp].
  rewrite commands_app, logged_app, pending_snoc, !app_nil_r. done.
Qed.

Section reports.
Context `{JsonLib}.

(** A run that ended with [code] and wrote [line] to the termination log. *)
Definition ended (termlog : string) (h : list aevent) (line : string) (h' : list aevent) : Prop :=
  commands h' = commands h ∧ pending h' = pending h ∧
  logged h' = logged h ++ [(termlog, line +:+ newline)].

Lemma wp_fail P termlog code msg h :
  talks P → P h (AWriteFile termlog (errorJSON msg +:+ newline)) →
  wp P (fail termlog code msg) (λ h' r, r = code ∧ ended termlog h (errorJSON msg) h') h.
Proof.
  intros HT HP. unfold fail. apply wp_bind. eapply wp_post; [by apply wp_writeTermlog|].
  intros h' _ _ (Hc & Hp & Hl). apply wp_bind. split; [apply HT|]. intros a. cbn [wp].
  split; [done|]. unfold ended. by rewrite commands_app, logged_app, pending_snoc, !app_nil_r.
Qed.

Lemma wp_report P termlog out h :
  talks P → P h (AWriteFile termlog (out +:+ newline)) →
  wp P (report termlog out) (λ h' r, r = 0 ∧ ended termlog h out h') h.
Proof.
  intros HT HP. unfold report. apply wp_bind. eapply wp_post; [by apply wp_writeTermlog|].
  intros h' _ _ (Hc & Hp & Hl). apply wp_bind. split; [apply HT|]. intros a. cbn [wp].
  split; [done|]. unfold ended. by rewrite commands_app, logged_app, pending_snoc, !app_nil_r.
Qed.
End reports.

(** Some command failed with exit code 0, which [os/exec] never reports. *)
Definition zero_exit (h : list aevent) : Prop :=
  ∃ argv r e, (argv, r) ∈ commands h ∧ run_error r = Some e ∧ ce_ExitCode e = Some 0.

Lemma exitCode_nonzero h argv r e :
  (argv, r) ∈ commands h → run_error r = Some e → exitCode e ≠ 0 ∨ zero_exit h.
Proof.
  intros Hin He. unfold exitCode. destruct (ce_ExitCode e) as [code|] eqn:Hc; [|by left].
  destruct (0 <=? code) eqn:Hle; [|by left].
  destruct (decide (code = 0)) as [->|]; [|by left]. right. by exists argv, r, e.
Qed.

Lemma exitCode_os_error e : exitCode (os_error e) ≠ 0.
Proof. done. Qed.
Lemma zero_exit_app h t : zero_exit h → zero_exit (h ++ t).
Proof.
  intros (argv & r & e & Hin & Hr). exists argv, r, e. rewrite commands_app.
  split; [by apply elem_of_grow|done].
Qed.

(** A run that reported an error. *)
Definition failed `{JsonLib} (termlog : string) (h : list aevent) (code : Z) : Prop :=
  ∃ msg, logged h = [(termlog, errorJSON msg +:+ newline)] ∧ (code ≠ 0 ∨ zero_exit h).

Lemma wp_failed `{JsonLib} P termlog code msg h :
  talks P → P h (AWriteFile termlog (errorJSON msg +:+ newline)) → logged h = [] →
  code ≠ 0 ∨ zero_exit h →
  wp P (fail termlog code msg) (λ h' r, r = code ∧ pending h' = pending h ∧ failed termlog h' r) h.
Proof.
  intros HT HP Hl Hz. eapply wp_post; [by apply wp_fail|].
  intros h' r _ [-> (Hc & Hp & Hl')]. split_and!; [done..|]. exists msg. rewrite Hl', Hl.
  split; [done|]. destruct Hz as [|Hz]; [by left|right]. unfold zero_exit. by rewrite Hc.
Qed.

Lemma failed_snoc `{JsonLib} termlog h code e :
  plain e ∨ (∃ f, projT1 e = ARemove f) → failed termlog h code → failed termlog (h ++ [e]) code.
Proof.
  intros He (msg & Hl & Hz). exists msg. rewrite logged_app, Hl. split.
  - by destruct He as [He|[f He]]; destruct e as [[] ?].
  - destruct Hz as [|(argv & r & er & Hin & Hr)]; [by left|right]. exists argv, r, er.
    rewrite commands_app. split; [by apply elem_of_grow|done].
Qed.

(** ** Runs in which nothing goes wrong *)

(** A call that did not answer with an error.  Those of the termination log, of the
    removal of a temp file and of a command whose output is discarded are only
    reported. *)
Definition smooth (e : aevent) : Prop :=
  match e with
  | existT c a =>
      match c return aresp c → Prop with
      | AHostname => λ a, match a with inl _ => False | inr _ => True end
      | ACreateTemp _ => λ a, match a with inl _ => False | inr _ => True end
      | AReadFile _ => λ a, match a with inl _ => False | inr _ => True end
      | AReadDir _ => λ a, match a with inl _ => False | inr _ => True end
      | AWrite _ _ => λ a, a = None
      | AClose _ => λ a, a = None
      | ARemoveAll _ => λ a, a = None
      | ARun _ _ out => λ r, match out with Discard => True | _ => run_error r = None end
      | _ => λ _, True
      end a
  end.

Lemma smooth_load_keys keys tr r :
  runs (load_keys keys) tr r →
  (∀ k raw, ev (resp := aresp) (AGetenv k) raw ∈ tr → TrimSpace raw ≠ "") → r.2 = [].
Proof.
  revert tr r. induction keys as [|k keys IH]; intros tr r; cbn [load_keys]; intros Hr Hall; runs_inv; [done|].
  cbn [snd]. rewrite bool_decide_eq_false_2.
  - eapply IH; [done|]. intros k' raw Hin. apply (Hall k' raw). rewrite !elem_of_app. auto.
  - apply (Hall k). by left.
Qed.

Lemma smooth_loadConfig tr r :
  runs loadConfig tr r →
  (∀ k raw, ev (resp := aresp) (AGetenv k) raw ∈ tr → TrimSpace raw ≠ "") → r.2 = [].
Proof.
  unfold loadConfig. intros Hr Hall. runs_inv. cbn [snd]. rewrite app_nil_r in Hall. by eapply smooth_load_keys.
Qed.

Lemma smooth_write_all f chunks tr r : runs (write_all f chunks) tr r → Forall smooth tr → r = None.
Proof.
  revert tr. induction chunks as [|s chunks IH]; intros tr; cbn [write_all]; intros Hr Hs.
  { by runs_inv. }
  runs_step. runs_step. apply Forall_app in Hs as [Hw Hs]. apply Forall_cons in Hw as [Hw _]. cbn in Hw. subst.
  by eapply IH.
Qed.

Lemma smooth_materializeKeyfile content tr r :
  runs (materializeKeyfile content) tr r → Forall smooth tr → ∃ f, r = inr f.
Proof.
  unfold materializeKeyfile. intros Hr Hs. runs_step. runs_step.
  apply Forall_app in Hs as [Hc Hs]. apply Forall_cons in Hc as [Hc _]. destruct a as [e|f]; [done|].
  runs_step. apply Forall_app in Hs as [Hw Hs]. lazymatch goal with Hr : runs (write_all _ _) _ _ |- _ =>
    apply smooth_write_all in Hr; [subst|done] end.
  runs_step. runs_step. apply Forall_app in Hs as [Hc' _]. apply Forall_cons in Hc' as [Hc' _]. cbn in Hc'.
  subst. runs_inv. by eexists.
Qed.

Lemma runs_fail `{JsonLib} termlog code msg tr r : runs (fail termlog code msg) tr r → r = code.
Proof. unfold fail. intros Hr. runs_step. runs_step. by runs_step. Qed.
Lemma runs_report `{JsonLib} termlog out tr r : runs (report termlog out) tr r → r = 0.
Proof. unfold report. intros Hr. runs_step. runs_step. by runs_step. Qed.
