(* ===== verification/AgentHost.v ===== *)
(** * A concrete host of the agent

    An executable environment: contract variables, files, a directory tree and a
    script of what the commands do, to run the agent on concrete inputs
    ([Prog.exec]), with the fixtures of internal/agent/backup_test.go. *)

From S2P Require Import Prelude GoLib GoNet GoUtf8 Kube Doc Json JsonText SnapshotRef RestorePlan Cluster.
From S2P Require Import AgentArgs AgentEnv AgentTrace AgentBackup AgentRestore AgentMain.
From Stdlib Require Import QArith_base.
From stdpp Require Import options.

Local Open Scope Z_scope.

Record host := mkHost {
  ho_env : gmap string string;
  ho_files : gmap string string;
  ho_tree : gmap string (list string);      (* the entries of a directory *)
  ho_script : list run_result;              (* what the next commands do *)
}.

Definition set_files (m : gmap string string) (s : host) : host :=
  mkHost (ho_env s) m (ho_tree s) (ho_script s).

(** The name of a new temp file *)
Definition temp_name (pattern : string) (s : host) : string :=
  "/tmp/" +:+ pattern +:+ fmt_d (Z.of_nat (size (ho_files s))).

Definition no_entry (path : string) : error := ErrMsg ("open " +:+ path +:+ ": no such file or directory").

Definition serve_host (c : acall) (s : host) : aresp c * host :=
  match c return aresp c * host with
  | AGetenv k => (default "" (ho_env s !! k), s)
  | AHostname => (inr "bk-1", s)
  | AEnviron => (["PATH=/usr/bin"], s)
  | ACreateTemp p => (inr (temp_name p s), set_files (<[temp_name p s := ""]> (ho_files s)) s)
  | AWrite f t => (None, set_files (<[f := default "" (ho_files s !! f) +:+ t]> (ho_files s)) s)
  | AClose _ => (None, s)
  | ARemove f => (None, set_files (delete f (ho_files s)) s)
  | AWriteFile f t => (None, set_files (<[f := t]> (ho_files s)) s)
  | AReadFile f => (match ho_files s !! f with Some t => inr t | None => inl (no_entry f) end, s)
  | AReadDir d => (match ho_tree s !! d with Some l => inr l | None => inl (no_entry d) end, s)
  | ARemoveAll _ => (None, s)
  | AWalkDir d =>
      (mkWalk false true (Some 0) ::
         ((λ _, mkWalk false false (Some 10)) <$> default [] (ho_tree s !! d)), s)
  | ARun _ _ _ =>
      match ho_script s with
      | [] => (mkRun "" "unexpected" (Some (mkCmdError "exit status 1" (Some 1))), s)
      | r :: script => (r, mkHost (ho_env s) (ho_files s) (ho_tree s) script)
      end
  | AStdout _ => (tt, s)
  | AStderr _ => (tt, s)
  end.

(** ** The fixtures of the tests *)

Definition test_env : gmap string string := {[
  "PBS_HOST" := "pbs.example.com"; "PBS_PORT" := "8007"; "PBS_DATASTORE" := "main";
  "PBS_NS" := "tenant1"; "PBS_TOKEN_ID" := "operator@pbs!producer";
  "PBS_TOKEN_SECRET" := "s3cret-token"; "PBS_FINGERPRINT" := "AA:BB:CC";
  "PBS_KEYFILE" := "KEY" ]}.

Definition snapshotRecords : string := js
  "[{'backup-type':'host','backup-id':'bk-1','backup-time':1747315200.0,'size':1234},
    {'backup-type':'host','backup-id':'bk-1','backup-time':1747401600.0,'size':4096},
    {'backup-type':'host','backup-id':'other','backup-time':1747488000.0,'size':99},
    {'backup-type':'ct','backup-id':'bk-1','backup-time':1750000000.0,'size':7}]".
Definition snapshotListFixture : string := js "{'data':" +:+ snapshotRecords +:+ "}".

Definition ran (out : string) : run_result := mkRun out "" None.
Definition broken (err : string) (code : Z) : run_result :=
  mkRun "" err (Some (mkCmdError ("exit status " +:+ fmt_d code) (Some code))).

Definition test_host (script : list run_result) : host :=
  mkHost test_env
    {[saNamespaceFile := "apps" +:+ newline; "/staging/api/api.yaml" := "Namespace/n" +:+ newline +:+ "Secret/s"]}
    {["/restore/data-a" := ["lost+found"; "old"]]} script.

Example pick_snapshot :
  (parseSnapshotList snapshotRecords = parseSnapshotList snapshotListFixture) ∧
  match parseSnapshotList snapshotListFixture with
  | inl _ => False
  | inr snaps =>
      length snaps = 4%nat ∧
      match latestHostSnapshot snaps "bk-1" with
      | inl _ => False
      | inr snap => successJSON snap =
                    js "{'snapshotRef':'host/bk-1/2025-05-16T13:20:00Z','bytes':4096}"
      end
  end.
Proof. by vm_compute. Qed.

Definition backup_run (script : list run_result) :=
  exec serve_host (RunBackup ["data-a"; "zdata"] "" "note" "/dev/termination-log") (test_host script).

(** A backup that succeeds, one that cannot set the notes, one that fails. *)
Definition good_script : list run_result := [ran "uploaded"; ran snapshotRecords; ran ""].

Example good_backup :
  (backup_run good_script).1.2 = 0 ∧
  logged (backup_run good_script).1.1 =
    [("/dev/termination-log", js "{'snapshotRef':'host/bk-1/2025-05-16T13:20:00Z','bytes':4096}" +:+ newline)] ∧
  (commands (backup_run good_script).1.1).*1 =
    [["proxmox-backup-client"; "backup"; "--ns"; "tenant1"; "--keyfile"; "/tmp/pbs-agent-keyfile-*.json2";
      "pvc-data-a.pxar:/backup/data-a"; "pvc-zdata.pxar:/backup/zdata"];
     ["proxmox-backup-client"; "snapshot"; "list"; "--ns"; "tenant1"; "--output-format"; "json"];
     ["proxmox-backup-client"; "snapshot"; "notes"; "update"; "--ns"; "tenant1";
      "host/bk-1/2025-05-16T13:20:00Z"; "note"]].
Proof. by vm_compute. Qed.

Example notes_fail : (backup_run [ran "uploaded"; ran snapshotRecords; broken "denied" 255]).1.2 = 0.
Proof. by vm_compute. Qed.

Example failed_backup :
  let run := backup_run [broken ("Error: no such key" +:+ newline +:+ "more") 255] in
  run.1.2 = 255 ∧
  logged run.1.1 = [("/dev/termination-log", js "{'error':'Error: no such key'}" +:+ newline)].
Proof. by vm_compute. Qed.

(** A client that cannot be started leaves an empty message. *)
Example silent_failure :
  let run := backup_run [mkRun "" "" (Some (mkCmdError "exec: not found" None))] in
  run.1.2 = 1 ∧ logged run.1.1 = [("/dev/termination-log", js "{'error':''}" +:+ newline)].
Proof. by vm_compute. Qed.

Definition restore_run (script : list run_result) :=
  exec serve_host (RunRestoreVolume "host/bk-1/T" [mkPair "data-a.pxar" "/restore/data-a"] "cm"
                     "/dev/termination-log") (test_host script).

Definition restore_script : list run_result := [ran "done"; ran "kind: ConfigMap"; ran "applied"].

Example good_restore :
  (restore_run restore_script).1.2 = 0 ∧
  logged (restore_run restore_script).1.1 =
    [("/dev/termination-log", js "{'restored':'data-a.pxar','bytes':20}" +:+ newline)] ∧
  (commands (restore_run restore_script).1.1).*1 =
    [["proxmox-backup-client"; "restore"; "host/bk-1/T"; "data-a.pxar"; "/restore/data-a";
      "--ns"; "tenant1"; "--keyfile"; "/tmp/pbs-agent-keyfile-*.json2"; "--overwrite"];
     ["kubectl"; "create"; "configmap"; "cm"; "--from-file=api.yaml=/restore/data-a/api.yaml";
      "--dry-run=client"; "-o"; "yaml"];
     ["kubectl"; "apply"; "-f"; "/tmp/pbs-agent-cm-*.yaml3"]].
Proof. by vm_compute. Qed.

(** Namespaces and definitions go first, workloads in the other phase. *)
Definition manifests : string :=
  Join ["ConfigMap/c"; "CustomResourceDefinition/x"; "Deployment/d"] newline.
Definition apply_run (phase : string) (script : list run_result) :=
  exec serve_host (RunApplyManifests phase "/f" [] [] "/dev/termination-log")
    (mkHost test_env {[saNamespaceFile := "apps" +:+ newline; "/f" := manifests]} ∅ script).

Example good_apply :
  let pre := apply_run "pre" [ran ""; ran ""; ran ""] in
  pre.1.2 = 0 ∧
  logged pre.1.1 = [("/dev/termination-log", js "{'applied':2}" +:+ newline)] ∧
  (commands pre.1.1).*1 =
    [["kubectl"; "apply"; "-f"; "/tmp/pbs-agent-apply-*.yaml2"];
     ["kubectl"; "wait"; "--for=condition=Established"; "crd/x"; "--timeout=60s"];
     ["kubectl"; "apply"; "-f"; "/tmp/pbs-agent-apply-*.yaml2"]] ∧
  logged (apply_run "workload" [ran ""]).1.1 =
    [("/dev/termination-log", js "{'applied':1}" +:+ newline)].
Proof. by vm_compute. Qed.

(** Every failure of [kubectl] ends the run with exit code 1. *)
Example failed_apply : (apply_run "workload" [broken "forbidden" 3]).1.2 = 1.
Proof. by vm_compute. Qed.

(** ** The process *)

Definition process_run (argv : list string) (script : list run_result) :=
  exec serve_host (agent_process argv) (test_host script).

Example process_of_backup :
  let run := process_run ["/agent"; "backup"; "--pvc"; "data-a"; "--pvc"; "zdata"; "--termlog=/log"]
               good_script in
  run.1.2 = 0 ∧
  logged run.1.1 =
    [("/log", js "{'snapshotRef':'host/bk-1/2025-05-16T13:20:00Z','bytes':4096}" +:+ newline)].
Proof. by vm_compute. Qed.

Example process_of_bad_usage :
  (process_run ["/agent"] []).1.2 = 2 ∧ (process_run ["/agent"; "backup"; "--bad"] []).1.2 = 2.
Proof. by vm_compute. Qed.
