(* ===== verification/AgentBackupProps.v ===== *)
(** * Properties of the backup run

    The commands of [RunBackup], its report and its temp file, for every history. *)

From S2P Require Import Prelude GoLib Kube Json SnapshotRef Trace AgentEnv AgentTrace AgentBackup.
From S2P Require Import Cluster AgentHost.
From stdpp Require Import options.

Local Open Scope Z_scope.

Section backup.
Context {JL : JsonLib}.
Context (pvcs : list string) (apiDir notes termlog : string).

(** The backup and the listing succeeded, and [snap] is the newest snapshot the
    listing has of this host. *)
Definition found_snapshot (h : list aevent) (c : config) (snap : Snapshot) : Prop :=
  ∃ keyPath r1 r2 host snaps,
    take 2 (commands h) = [(backupArgv (cfg_NS c) keyPath pvcs apiDir, r1); (listArgv (cfg_NS c), r2)] ∧
    run_error r1 = None ∧ run_error r2 = None ∧ parseSnapshotList (run_out r2) = inr snaps ∧
    ev (resp := aresp) AHostname (inr host) ∈ h ∧
    first_newest (filter (in_group "host" host) snaps) snap.

(** A client command: everything it needs is configured and in place, nothing is
    reported yet, and it is the next of the backup, the listing and the notes. *)
Definition backup_command_ok (h : list aevent) (argv : list string) (env : option (list string))
    (out : sink) : Prop :=
  ∃ c keyPath e,
    configured h c ∧ temp_file h keyPath [cfg_Keyfile c] ∧ client_env h c e ∧ env = Some e ∧
    logged h = [] ∧
    match commands h with
    | [] => argv = backupArgv (cfg_NS c) keyPath pvcs apiDir ∧ out = ToStdout
    | [(_, r)] => run_error r = None ∧ argv = listArgv (cfg_NS c) ∧ out = ToBuffer
    | [_; _] => notes ≠ "" ∧ out = Discard ∧
                ∃ snap, found_snapshot h c snap ∧ argv = notesArgv (cfg_NS c) (snapshotRef snap) notes
    | _ => False
    end.

Definition backup_call_ok (h : list aevent) (k : acall) : Prop :=
  match k with
  | ARun argv env out => backup_command_ok h argv env out
  | AWriteFile path _ => path = termlog ∧ logged h = []
  | AWrite _ s => ∃ c, configured h c ∧ s = cfg_Keyfile c
  | AReadFile _ | AReadDir _ | ARemoveAll _ | AWalkDir _ => False
  | _ => True
  end.

(** How the run ends: the removal of every temp file was asked for, and the termination log was written
    once, with the result if the exit code is 0 and with an error otherwise. *)
Definition backup_done (h : list aevent) (code : Z) : Prop :=
  pending h = [] ∧
  ∃ line, logged h = [(termlog, line +:+ newline)] ∧
    ((code = 0 ∧ ∃ c snap, configured h c ∧ found_snapshot h c snap ∧ line = successJSON snap) ∨
     (∃ msg, line = errorJSON msg ∧ (code ≠ 0 ∨ zero_exit h))).

Lemma backup_talks : talks backup_call_ok.
Proof. done. Qed.

(** ** The run *)

(** What is known while the key file exists. *)
Definition started (h : list aevent) (c : config) (host keyPath : string) : Prop :=
  keyed h c keyPath ∧ ev (resp := aresp) AHostname (inr host) ∈ h.

Definition outcome (h : list aevent) (code : Z) : Prop :=
  ∃ line, logged h = [(termlog, line +:+ newline)] ∧
    ((code = 0 ∧ ∃ c snap, configured h c ∧ found_snapshot h c snap ∧ line = successJSON snap) ∨
     (∃ msg, line = errorJSON msg ∧ (code ≠ 0 ∨ zero_exit h))).

Lemma started_snoc h e c host keyPath :
  plain e → started h c host keyPath → started (h ++ [e]) c host keyPath.
Proof. intros He [Hk Hh]. split; [by apply keyed_snoc|by apply elem_of_grow]. Qed.

(** A report ends the run; what was known of the history before stays known. *)
Lemma wp_end_fail h c host keyPath code msg :
  started h c host keyPath → code ≠ 0 ∨ zero_exit h →
  wp backup_call_ok (fail termlog code msg) (λ h' code', pending h' = [keyPath] ∧ outcome h' code') h.
Proof.
  intros [(_ & _ & Hp & Hl) _] Hz. eapply wp_post; [by apply wp_fail|].
  intros h' r _ [-> (Hc' & Hp' & Hl')]. split; [by rewrite Hp'|].
  exists (errorJSON msg). split; [by rewrite Hl', Hl|]. right. exists msg. split; [done|].
  destruct Hz as [|Hz]; [by left|right]. unfold zero_exit. by rewrite Hc'.
Qed.

Lemma found_snapshot_app h t c snap :
  found_snapshot h c snap → found_snapshot (h ++ t) c snap.
Proof.
  intros (keyPath & r1 & r2 & host & snaps & Hc & H1 & H2 & Hs & Hh & Hn).
  exists keyPath, r1, r2, host, snaps. split_and!; try done; [|by apply elem_of_grow].
  rewrite commands_app. by destruct (commands h) as [|? [|]].
Qed.

Lemma wp_end_report h c host keyPath snap :
  started h c host keyPath → found_snapshot h c snap →
  wp backup_call_ok (report termlog (successJSON snap))
    (λ h' code', pending h' = [keyPath] ∧ outcome h' code') h.
Proof.
  intros [(Hcfg & _ & Hp & Hl) _] Hf. eapply wp_post; [by apply wp_report|].
  intros h' r [t ->] [-> (Hc' & Hp' & Hl')]. split; [by rewrite Hp'|].
  exists (successJSON snap). split; [by rewrite Hl', Hl|]. left. split; [done|]. exists c, snap.
  split_and!; [|by apply found_snapshot_app|done].
  eapply configured_prefix; [exact Hcfg|by exists t].
Qed.

(** The history after the backup command. *)
Lemma wp_find_snapshot h c host keyPath env r1 :
  started h c host keyPath → client_env h c env → run_error r1 = None →
  commands h = [(backupArgv (cfg_NS c) keyPath pvcs apiDir, r1)] →
  wp backup_call_ok (find_snapshot env (cfg_NS c) host) (λ h' r,
    started h' c host keyPath ∧ length (commands h') = 2%nat ∧
    match r with
    | inl (code, _) => code ≠ 0 ∨ zero_exit h'
    | inr snap => found_snapshot h' c snap ∧ client_env h' c env
    end) h.
Proof.
  intros Hst He Hr1 Hcmd. unfold find_snapshot. apply wp_bind. split.
  { destruct Hst as [(Hc & Ht & _ & Hl) _]. exists c, keyPath, env. rewrite Hcmd. by split_and!. }
  intros r. apply wp_ret.
  assert (Hcmd' : commands (h ++ [ev (resp := aresp) (ARun (listArgv (cfg_NS c)) (Some env) ToBuffer) r]) =
    [(backupArgv (cfg_NS c) keyPath pvcs apiDir, r1); (listArgv (cfg_NS c), r)]).
  { by rewrite commands_app, Hcmd. }
  split; [by apply started_snoc|]. split; [by rewrite Hcmd'|].
  destruct (run_error r) as [e|] eqn:Hr.
  { eapply exitCode_nonzero; [|exact Hr]. rewrite Hcmd'. right. by left. }
  destruct (parseSnapshotList (run_out r)) as [e|snaps] eqn:Hs; [by left|].
  destruct (latestHostSnapshot snaps host) as [e|snap] eqn:Hn; [by left|].
  split.
  - exists keyPath, r1, r, host, snaps. rewrite Hcmd'. split_and!; try done.
    + apply elem_of_grow, Hst.
    + pose proof (LatestSnapshot_spec snaps "host" host) as Hl. unfold latestHostSnapshot in Hn.
      rewrite Hn in Hl. apply Hl.
  - destruct He as (environ & Hin & ->). exists environ. split; [by apply elem_of_grow|done].
Qed.

Lemma wp_set_notes h c host keyPath env snap :
  started h c host keyPath → client_env h c env → length (commands h) = 2%nat →
  found_snapshot h c snap →
  wp backup_call_ok (set_notes env (cfg_NS c) (snapshotRef snap) notes) (λ h' _,
    started h' c host keyPath ∧ found_snapshot h' c snap) h.
Proof.
  intros Hst He Hlen Hf. unfold set_notes. case_bool_decide as Hn; [done|].
  apply wp_bind. split.
  { pose proof Hst as [(Hc & Ht & _ & Hl) _]. exists c, keyPath, env. do 5 (split; [done|]).
    destruct (commands h) as [|[? ?] [|? [|]]]; try done. split; [done|]. split; [done|by exists snap]. }
  intros r. assert (Hst' : started (h ++ [ev (resp := aresp)
    (ARun (notesArgv (cfg_NS c) (snapshotRef snap) notes) (Some env) Discard) r]) c host keyPath).
  { by apply started_snoc. }
  cbn [wp]. destruct (run_error r); [|apply wp_ret; split; [done|by apply found_snapshot_app]].
  split; [done|]. intros []. cbn [wp]. split; [by apply started_snoc|].
  by do 2 apply found_snapshot_app.
Qed.

Lemma wp_backup_with_key h c host keyPath :
  started h c host keyPath → commands h = [] →
  wp backup_call_ok (backup_with_key c host keyPath pvcs apiDir notes termlog)
    (λ h' code, pending h' = [keyPath] ∧ outcome h' code) h.
Proof.
  intros Hst Hcmd. unfold backup_with_key. apply wp_bind. split; [done|]. intros environ. cbn [wp].
  set (h1 := h ++ [_]). assert (Hst1 : started h1 c host keyPath) by by apply started_snoc.
  assert (He1 : client_env h1 c (environ ++ clientEnv c)).
  { exists environ. split; [apply elem_of_snoc|done]. }
  assert (Hcmd1 : commands h1 = []) by by unfold h1; rewrite commands_app, Hcmd.
  clearbody h1. set (env := environ ++ clientEnv c) in *. apply wp_bind. split.
  { pose proof Hst1 as [(Hc & Ht & _ & Hl) _]. exists c, keyPath, env. by rewrite Hcmd1. }
  intros r. cbn [wp]. set (h2 := h1 ++ [_]).
  assert (Hst2 : started h2 c host keyPath) by by apply started_snoc.
  assert (Hcmd2 : commands h2 = [(backupArgv (cfg_NS c) keyPath pvcs apiDir, r)]).
  { unfold h2. by rewrite commands_app, Hcmd1. }
  assert (He2 : client_env h2 c env).
  { destruct He1 as (en & Hin & Heq). exists en. split; [by apply elem_of_grow|done]. }
  clearbody h2. destruct (run_error r) as [e|] eqn:Hr.
  { eapply wp_end_fail; [exact Hst2|]. eapply exitCode_nonzero; [|exact Hr]. rewrite Hcmd2. by left. }
  apply wp_bind. eapply wp_post; [by eapply wp_find_snapshot|].
  intros h3 [[code msg]|snap] _ (Hst3 & Hlen & Hf); [by eapply wp_end_fail|].
  destruct Hf as [Hf He3]. apply wp_bind. eapply wp_post; [by eapply wp_set_notes|].
  intros h4 _ _ [Hst4 Hf4]. by eapply wp_end_report.
Qed.

Lemma wp_RunBackup : wp backup_call_ok (RunBackup pvcs apiDir notes termlog) backup_done [].
Proof.
  assert (Hfail : ∀ h msg code, code ≠ 0 → logged h = [] → pending h = [] →
    wp backup_call_ok (fail termlog code msg) backup_done h).
  { intros h msg code Hz Hl Hp. eapply wp_post; [by apply wp_fail|].
    intros h' r _ [-> (Hc' & Hp' & Hl')]. split; [by rewrite Hp'|].
    exists (errorJSON msg). split; [by rewrite Hl', Hl|]. right. exists msg. by split; [|left]. }
  unfold RunBackup. apply wp_bind. eapply wp_post; [by apply wp_loadConfig|].
  intros h1 [c missing] _ [Hg Hc]. destruct (quiet_views _ _ Hg) as (Hcmd & Hl & Hp).
  cbn [fst snd] in Hc. case_bool_decide as Hm; cbn [negb]; [|by apply Hfail].
  specialize (Hc Hm). apply wp_bind. split; [done|]. intros host. cbn [wp].
  set (h2 := h1 ++ [_]).
  assert (Hv : configured h2 c ∧ commands h2 = [] ∧ logged h2 = [] ∧ pending h2 = []).
  { unfold h2. rewrite commands_app, logged_app, pending_snoc, Hcmd, Hl, Hp. split; [|done].
    eapply configured_prefix; [exact Hc|by eexists]. }
  destruct Hv as (Hc2 & Hcmd2 & Hl2 & Hp2). destruct host as [e|host]; [by apply Hfail|].
  assert (Hh : ev (resp := aresp) AHostname (inr host) ∈ h2) by apply elem_of_snoc.
  clearbody h2. apply wp_bind. eapply wp_mono.
  { by apply (wp_materializeKeyfile (λ _, temp_call "pbs-agent-keyfile-*.json" [cfg_Keyfile c])). }
  { intros h' k Hpre Hk. destruct k; try done. exists c.
    split; [by eapply configured_prefix|by apply list_elem_of_singleton in Hk]. }
  intros h3 [e|keyPath] Hpre; cbv beta iota.
  { intros (Hcmd3 & Hl3 & Hp3). apply Hfail; [done|by rewrite Hl3|].
    rewrite Hp2 in Hp3. by apply list_nil_subseteq in Hp3. }
  intros ->. destruct (file_events_views h2 "pbs-agent-keyfile-*.json" keyPath [cfg_Keyfile c])
    as (Hcmd3 & _ & _).
  apply wp_bind. eapply wp_post; [apply (wp_backup_with_key _ c host keyPath)|].
  { split; [by apply keyed_start|by apply elem_of_grow]. }
  { by rewrite Hcmd3. }
  intros h4 code _ [Hp4 (line & Hl4 & Ho)]. apply wp_bind. split; [done|]. intros a. cbn [wp].
  split; [by apply pending_end; rewrite Hp4|].
  exists line. split; [by rewrite logged_app, Hl4|].
  destruct Ho as [(-> & c' & snap & Hc4 & Hf & ->)|(msg & -> & Hz)].
  - left. split; [done|]. exists c', snap. split_and!; [|by apply found_snapshot_app|done].
    eapply configured_prefix; [exact Hc4|]. by exists [ev (ARemove keyPath) a].
  - right. exists msg. split; [done|]. destruct Hz as [|Hz]; [by left|right].
    unfold zero_exit. by rewrite commands_app, app_nil_r.
Qed.

(** C18: The commands of a backup: none runs before all eight contract variables
    are set and the key file holds the key; they are the backup of the claims the
    agent was given, then, if it succeeded, the listing, then, if it names a
    snapshot of this host and notes were given, the update of its notes; all with
    the repository, the token and the fingerprint of the configuration in their
    environment. *)
Theorem backup_commands tr code i argv env out r :
  runs (RunBackup pvcs apiDir notes termlog) tr code →
  tr !! i = Some (ev (ARun argv env out) r) →
  backup_command_ok (take i tr) argv env out.
Proof. intros Hr Hi. exact (wp_lookup _ _ _ _ _ _ _ _ wp_RunBackup Hr Hi). Qed.

(** Nothing went wrong: every variable is set, every call that matters succeeded, and the
    listing can be read and has a snapshot of this host. *)
Definition backup_smooth (h : list aevent) : Prop :=
  Forall smooth h ∧
  (∀ k raw, ev (resp := aresp) (AGetenv k) raw ∈ h → TrimSpace raw ≠ "") ∧
  (∀ argv env r, ev (resp := aresp) (ARun argv env ToBuffer) r ∈ h →
     ∃ snaps, parseSnapshotList (run_out r) = inr snaps ∧
       ∀ host, ev (resp := aresp) AHostname (inr host) ∈ h → ∃ s, s ∈ snaps ∧ in_group "host" host s).

Lemma latestHostSnapshot_some snaps host s :
  s ∈ snaps → in_group "host" host s → ∃ snap, latestHostSnapshot snaps host = inr snap.
Proof.
  intros Hin Hg. pose proof (LatestSnapshot_spec snaps "host" host) as Hl. unfold latestHostSnapshot.
  destruct (LatestSnapshot _ _ _) as [e|snap]; [|by eexists].
  by destruct (proj1 (Forall_forall _ _) Hl _ Hin).
Qed.

Lemma smooth_backup_with_key c host keyPath tr code :
  runs (backup_with_key c host keyPath pvcs apiDir notes termlog) tr code →
  Forall smooth tr →
  (∀ argv env r, ev (resp := aresp) (ARun argv env ToBuffer) r ∈ tr →
     ∃ snaps s, parseSnapshotList (run_out r) = inr snaps ∧ s ∈ snaps ∧ in_group "host" host s) →
  code = 0.
Proof.
  unfold backup_with_key, find_snapshot. intros Hr Hs Hlist. do 4 runs_step.
  apply Forall_app in Hs as [_ Hs]. apply Forall_app in Hs as [Hb Hs].
  apply Forall_cons in Hb as [Hb _]. cbn in Hb. rewrite Hb in *. do 4 runs_step.
  apply Forall_app in Hs as [Hl Hs]. apply Forall_app in Hl as [Hl _].
  apply Forall_cons in Hl as [Hl _]. cbn in Hl.
  edestruct Hlist as (snaps & s & Hp & Hin & Hg).
  { rewrite !elem_of_app. right; right; left; left. by left. }
  destruct (latestHostSnapshot_some _ _ _ Hin Hg) as [snap Hsnap].
  rewrite Hl, Hp, Hsnap in *. runs_step. by eapply runs_report.
Qed.

Lemma smooth_RunBackup tr code :
  runs (RunBackup pvcs apiDir notes termlog) tr code → backup_smooth tr → code = 0.
Proof.
  unfold RunBackup. intros Hr (Hs & Henv & Hlist). runs_step. destruct x as [c missing].
  lazymatch goal with Hl : runs loadConfig _ _ |- _ => apply smooth_loadConfig in Hl as Hm end.
  2:{ intros k raw Hin. apply (Henv k raw). apply elem_of_app. by left. }
  cbn [snd] in Hm. subst missing. rewrite bool_decide_eq_true_2 in * by done. cbn [negb] in *.
  runs_step. runs_step. apply Forall_app in Hs as [_ Hs]. apply Forall_app in Hs as [Hh Hs].
  apply Forall_cons in Hh as [Hh _]. destruct a as [e|host]; [done|].
  runs_step. apply Forall_app in Hs as [Hk Hs].
  lazymatch goal with Hl : runs (materializeKeyfile _) _ _ |- _ =>
    destruct (smooth_materializeKeyfile _ _ _ Hl Hk) as [keyPath ->] end.
  runs_step. apply Forall_app in Hs as [Hb _].
  lazymatch goal with Hl : runs (backup_with_key _ _ _ _ _ _ _) _ _ |- _ =>
    apply smooth_backup_with_key in Hl; [subst|done|] end.
  - by runs_inv.
  - intros argv env r Hin. edestruct Hlist as (snaps & Hp & Hsnap).
    { rewrite !elem_of_app. right; right; right; left. exact Hin. }
    destruct (Hsnap host) as (s & Hs' & Hg); [|by exists snaps, s].
    rewrite !elem_of_app. right; left. by left.
Qed.

(** C15: The report of a backup: every run asks for the removal of the temp file it
    made, whatever happened, and writes the termination log once, with no command
    after that; the exit code is 0 only with the result of the newest snapshot of this
    host in the listing that followed a successful backup, and any other end writes an
    error and has another exit code, unless a command failed with exit code 0, which
    [os/exec] never reports.  And it is 0 when nothing went wrong, whatever became of the
    notes. *)
Theorem backup_report tr code :
  runs (RunBackup pvcs apiDir notes termlog) tr code →
  backup_done tr code ∧ written_last tr ∧ (backup_smooth tr → code = 0).
Proof.
  intros Hr. split; [apply (wp_runs _ _ _ _ _ wp_RunBackup Hr)|].
  split; [|by apply smooth_RunBackup].
  apply written_last_intro. intros i argv env out r Hi.
  destruct (wp_lookup _ _ _ _ _ _ _ _ wp_RunBackup Hr Hi) as (c & keyPath & e & _ & _ & _ & _ & Hl & _).
  exact Hl.
Qed.
End backup.

(** The run of [AgentHost.good_script] *)
Definition backup_trace : list aevent := Eval vm_compute in (backup_run good_script).1.1.
Lemma backup_run_runs :
  runs (RunBackup ["data-a"; "zdata"] "" "note" "/dev/termination-log") backup_trace 0.
Proof. exact (exec_runs serve_host (RunBackup _ _ _ _) (test_host good_script)). Qed.

Lemma backup_commands_witness :
  ∃ argv env out r, backup_trace !! 15%nat = Some (ev (ARun argv env out) r) ∧
    backup_command_ok ["data-a"; "zdata"] "" "note" (take 15 backup_trace) argv env out.
Proof.
  at_index backup_trace 15%nat ltac:(fun c a => lazymatch c with ARun ?argv ?env ?out =>
    exists argv, env, out, a; assert (Hi : backup_trace !! 15%nat = Some (ev c a)) by (by vm_compute);
    split; [exact Hi|exact (backup_commands _ _ _ _ _ _ _ _ _ _ _ backup_run_runs Hi)] end).
Defined.

Definition getenv_of (e : aevent) : option string :=
  match e with
  | existT c a => match c return aresp c → option string with AGetenv _ => Some | _ => λ _, None end a
  end.
Definition hostname_of (e : aevent) : option (error + string) :=
  match e with
  | existT c a => match c return aresp c → option (error + string) with AHostname => Some | _ => λ _, None end a
  end.
Definition buffered_of (e : aevent) : option run_result :=
  match e with
  | existT c a =>
      match c return aresp c → option run_result with
      | ARun _ _ ToBuffer => Some
      | _ => λ _, None
      end a
  end.

Lemma backup_trace_smooth : backup_smooth backup_trace.
Proof.
  split; [unfold backup_trace; by repeat constructor|]. split.
  - intros k raw Hin. assert (Hr : raw ∈ omap getenv_of backup_trace)
      by (apply list_elem_of_omap; by eexists).
    clear Hin. revert raw Hr. apply Forall_forall. by apply (bool_decide_unpack _).
  - intros argv env r Hin. assert (Hr : r ∈ omap buffered_of backup_trace)
      by (apply list_elem_of_omap; by eexists).
    vm_compute in Hr. apply list_elem_of_singleton in Hr as ->.
    eexists. split; [by vm_compute|]. intros host Hh.
    assert (Hr : inr host ∈ omap hostname_of backup_trace) by (apply list_elem_of_omap; by eexists).
    vm_compute in Hr. apply list_elem_of_singleton in Hr as [= ->].
    eexists. split; [by left|]. by split.
Qed.

Lemma backup_report_witness :
  backup_done ["data-a"; "zdata"] "" "/dev/termination-log" backup_trace 0 ∧
  written_last backup_trace ∧ backup_smooth backup_trace.
Proof.
  destruct (backup_report _ _ _ _ _ _ backup_run_runs) as (Hd & Hl & _).
  split; [exact Hd|]. split; [exact Hl|exact backup_trace_smooth].
Defined.
