(* ===== verification/AgentRestoreProps.v ===== *)
(** * Properties of the restore runs

    The commands, the reports and the temp files of [RunRestoreVolume] and
    [RunApplyManifests], for every history. *)

From S2P Require Import Prelude GoLib GoPath Kube Doc Json Trace AgentArgs RestorePlan AgentEnv AgentTrace AgentRestore.
From S2P Require Import Cluster AgentHost.
From stdpp Require Import options.

Local Open Scope Z_scope.

(** ** Temp files *)

Lemma wp_with_temp P pattern chunks body (Q : list aevent → option cmd_error → Prop) h :
  (∀ h' c, temp_call pattern chunks c → P h' c) →
  (∀ f, wp P (body f) (λ h' r, pending h' ⊆ f :: pending h ∧ Q h' r)
          (h ++ file_events pattern f chunks)) →
  wp P (with_temp pattern chunks body) (λ h' r, pending h' ⊆ pending h ∧
    ((cleaned h h' ∧ ∃ e, r = Some (os_error e)) ∨
     ∃ h2 f a, h' = h2 ++ [ev (resp := aresp) (ARemove f) a] ∧ Q h2 r)) h.
Proof.
  intros HP Hbody. unfold with_temp. apply wp_bind. split; [by apply HP|].
  assert (Hclean : ∀ h' e, cleaned h h' → pending h' ⊆ pending h ∧
    ((cleaned h h' ∧ ∃ e', Some (os_error e) = Some (os_error e')) ∨
     ∃ h2 f a, h' = h2 ++ [ev (resp := aresp) (ARemove f) a] ∧ Q h2 (Some (os_error e)))).
  { intros h' e Hc. split; [apply Hc|]. left. split; [done|by exists e]. }
  intros [e|f]; cbn [wp].
  { apply wp_ret, Hclean. unfold cleaned. by rewrite commands_app, logged_app, pending_snoc, !app_nil_r. }
  apply wp_bind. eapply wp_post; [by apply wp_create_write|]. intros h2 [e|] _ [He Hn].
  { apply wp_bind, wp_ret, wp_bind. split; [by apply HP|]. intros a. cbn [wp].
    by eapply Hclean, cleaned_remove, He. }
  destruct (Hn eq_refl) as [HPc Hc]. apply wp_bind, wp_bind. split; [done|]. intros [e|]; cbn [wp].
  { apply wp_ret, wp_bind. split; [by apply HP|]. intros a. cbn [wp]. eapply Hclean, cleaned_remove, Hc. }
  destruct (Hc None) as [_ ->]; [|done]. eapply wp_post; [apply Hbody|].
  intros h3 r _ [Hp HQ]. apply wp_bind. split; [by apply HP|]. intros a. cbn [wp]. split.
  - rewrite pending_remove. intros x [Hx Hin]%list_elem_of_filter. apply Hp in Hin.
    by apply elem_of_cons in Hin as [?|].
  - right. by exists h3, f, a.
Qed.

Lemma smooth_with_temp pattern chunks body tr r :
  (∀ f t r', runs (body f) t r' → Forall smooth t → r' = None) →
  runs (with_temp pattern chunks body) tr r → Forall smooth tr → r = None.
Proof.
  unfold with_temp. intros Hbody Hr Hs. runs_step. runs_step.
  apply Forall_app in Hs as [Hc Hs]. apply Forall_cons in Hc as [Hc _]. destruct a as [e|f]; [done|].
  runs_step. apply Forall_app in Hs as [Hw Hs].
  lazymatch goal with Hr : runs (write_all _ _) _ _ |- _ =>
    apply smooth_write_all in Hr; [subst|done] end.
  runs_step. apply Forall_app in Hs as [Hs _].
  lazymatch goal with Hr : runs (do_call (ARemove f) ≫= _) _ _ |- _ => do 2 runs_step; runs_step end.
  runs_step. runs_step. apply Forall_app in Hs as [Hc' Hs]. apply Forall_cons in Hc' as [Hc' _].
  cbn in Hc'. subst. by eapply Hbody.
Qed.

(** ** Volumes *)

(** The directory was just listed and each of its entries removed. *)
Definition removed (dir n : string) : aevent := ev (resp := aresp) (ARemoveAll (path_Join dir n)) None.
Definition emptied_last (h : list aevent) (dir : string) : Prop :=
  ∃ h0 names, h = h0 ++ ev (resp := aresp) (AReadDir dir) (inr names) :: (removed dir <$> names).

(** [path] is an entry of a directory that was listed. *)
Definition listed_entry (h : list aevent) (dir path : string) : Prop :=
  ∃ names n, ev (resp := aresp) (AReadDir dir) (inr names) ∈ h ∧ n ∈ names ∧ path = path_Join dir n.

Lemma wp_remove_entries P dir names h :
  (∀ h' n, h `prefix_of` h' → n ∈ names → P h' (ARemoveAll (path_Join dir n))) →
  wp P (remove_entries dir names) (λ h' r, grows quiet h h' ∧
    (r = None → h' = h ++ (removed dir <$> names))) h.
Proof.
  revert h. induction names as [|n names IH]; intros h HP.
  { split; [apply grows_refl|]. by rewrite app_nil_r. }
  cbn [remove_entries]. apply wp_bind. split; [by apply HP; [|left]|]. intros [e|]; cbn [wp].
  { apply wp_ret. split; [by apply grows_snoc; [apply grows_refl|]|done]. }
  eapply wp_post; [apply IH|].
  { intros h' n' Hpre Hn. apply HP; [|by right]. etrans; [by eexists|exact Hpre]. }
  intros h' r _ [Hg Hr]. split.
  - eapply grows_trans; [|exact Hg]. by apply grows_snoc; [apply grows_refl|].
  - intros Hn. rewrite (Hr Hn). by rewrite <- app_assoc.
Qed.

Lemma wp_emptyDir P dir h :
  P h (AReadDir dir) → (∀ h' path, h `prefix_of` h' → listed_entry h' dir path → P h' (ARemoveAll path)) →
  wp P (emptyDir dir) (λ h' r, grows quiet h h' ∧ (r = None → emptied_last h' dir)) h.
Proof.
  intros HP HR. unfold emptyDir. apply wp_bind. split; [done|]. intros [e|names]; cbn [wp].
  { apply wp_ret. split; [by apply grows_snoc; [apply grows_refl|]|done]. }
  eapply wp_post; [apply wp_remove_entries|].
  { intros h' n Hpre Hn. apply HR; [etrans; [by eexists|exact Hpre]|].
    exists names, n. split_and!; try done. eapply elem_of_prefix; [|exact Hpre]. apply elem_of_snoc. }
  intros h' r _ [Hg Hr]. split.
  - eapply grows_trans; [|exact Hg]. by apply grows_snoc; [apply grows_refl|].
  - intros Hn. exists h, names. rewrite (Hr Hn). by rewrite <- app_assoc.
Qed.

Section volumes.
Context {JL : JsonLib}.
Context (ref : string) (pairs : list RestorePair) (configMap termlog : string).

(** The command that restored a pair. *)
Definition restored_pair (c : config) (keyPath : string) (p : RestorePair)
    (cmd : list string * run_result) : Prop :=
  cmd.1 = restoreArgv (cfg_NS c) keyPath ref (rp_Archive p) (rp_Target p) ∧ run_error cmd.2 = None.

(** The two commands of the upload of the one pair restored. *)
Definition upload_command_ok (h : list aevent) (p : RestorePair) (argv : list string)
    (env : option (list string)) (out : sink) : Prop :=
  let create := createArgv configMap (path_Join (rp_Target p) "api.yaml") in
  (length (commands h) = 1%nat ∧ argv = create ∧ out = ToBuffer) ∨
  (∃ h0 created f environ,
     last (commands h) = Some (create, created) ∧ run_error created = None ∧
     h = h0 ++ file_events "pbs-agent-cm-*.yaml" f [run_out created] ++
           [ev (resp := aresp) AEnviron environ] ∧
     argv = applyArgv f ∧ env = Some environ ∧ out = ToStdout).

Definition restore_command_ok (h : list aevent) (argv : list string) (env : option (list string))
    (out : sink) : Prop :=
  ∃ c keyPath,
    configured h c ∧ temp_file h keyPath [cfg_Keyfile c] ∧ logged h = [] ∧
    Forall2 (restored_pair c keyPath) (take (length (commands h)) pairs)
      (take (length pairs) (commands h)) ∧
    match pairs !! length (commands h) with
    | Some p =>
        argv = restoreArgv (cfg_NS c) keyPath ref (rp_Archive p) (rp_Target p) ∧
        (∃ e, client_env h c e ∧ env = Some e) ∧ out = ToStdout ∧ emptied_last h (rp_Target p)
    | None => configMap ≠ "" ∧ ∃ p, pairs = [p] ∧ upload_command_ok h p argv env out
    end.

Definition restore_call_ok (h : list aevent) (k : acall) : Prop :=
  match k with
  | ARun argv env out => restore_command_ok h argv env out
  | AWriteFile path _ => path = termlog ∧ logged h = []
  | ARemoveAll path => ∃ p, p ∈ pairs ∧ listed_entry h (rp_Target p) path
  | AReadDir dir | AWalkDir dir => ∃ p, p ∈ pairs ∧ dir = rp_Target p
  | AReadFile _ | AHostname => False
  | _ => True
  end.

(** Every pair was restored, in order, and [sizes] are the sizes their targets had
    right afterwards. *)
Definition all_restored (h : list aevent) (sizes : list Z) : Prop :=
  ∃ c keyPath, configured h c ∧
    Forall2 (restored_pair c keyPath) pairs (take (length pairs) (commands h)) ∧
    Forall2 (λ p size, ∃ entries, ev (resp := aresp) (AWalkDir (rp_Target p)) entries ∈ h ∧
                                  size = foldl entry_size 0 entries) pairs sizes ∧
    Forall (λ cmd, run_error cmd.2 = None) (commands h) ∧
    length (commands h) = (length pairs + if bool_decide (configMap = "") then 0 else 2)%nat.

Definition restore_done (h : list aevent) (code : Z) : Prop :=
  pending h = [] ∧
  ∃ line, logged h = [(termlog, line +:+ newline)] ∧
    ((code = 0 ∧ ∃ sizes, all_restored h sizes ∧
                line = renderRestoreJSON (rp_Archive <$> pairs) (foldl add_int64 0 sizes)) ∨
     (∃ msg, line = errorJSON msg ∧ (code ≠ 0 ∨ zero_exit h))).

(** ** The run *)

Definition restoring (h : list aevent) (c : config) (keyPath : string) (env : list string)
    (done_ : list RestorePair) (sizes : list Z) : Prop :=
  keyed h c keyPath ∧ client_env h c env ∧
  Forall2 (restored_pair c keyPath) done_ (commands h) ∧
  Forall2 (λ p size, ∃ entries, ev (resp := aresp) (AWalkDir (rp_Target p)) entries ∈ h ∧
                                size = foldl entry_size 0 entries) done_ sizes.

Lemma restoring_grows h h' c keyPath env done_ sizes :
  grows quiet h h' → restoring h c keyPath env done_ sizes → restoring h' c keyPath env done_ sizes.
Proof.
  intros Hg (Hk & (e & He & ->) & Hc & Hs). split_and!.
  - by eapply keyed_grows.
  - exists e. split; [by eapply grows_elem|done].
  - by destruct (quiet_views _ _ Hg) as (-> & _ & _).
  - eapply Forall2_impl; [exact Hs|]. intros p size (entries & Hin & ->). exists entries.
    split; [by eapply grows_elem|done].
Qed.

Lemma restore_talks : talks restore_call_ok.
Proof. done. Qed.

Lemma wp_restore_pairs h c keyPath env done_ todo sizes :
  pairs = done_ ++ todo → restoring h c keyPath env done_ sizes →
  wp restore_call_ok
    (restore_pairs env (cfg_NS c) keyPath ref termlog todo (rp_Archive <$> done_) (foldl add_int64 0 sizes))
    (λ h' r, match r with
             | inl code => pending h' = [keyPath] ∧ failed termlog h' code
             | inr (restored, total) =>
                 ∃ sizes, restoring h' c keyPath env pairs sizes ∧
                          restored = rp_Archive <$> pairs ∧ total = foldl add_int64 0 sizes
             end) h.
Proof.
  revert h done_ sizes. induction todo as [|p todo IH]; intros h done_ sizes Hp Hst; cbn [restore_pairs].
  { rewrite app_nil_r in Hp. subst. by exists sizes. }
  assert (Hin : p ∈ pairs) by (rewrite Hp; apply elem_of_app; right; by left).
  assert (Hfail : ∀ h' code msg, pending h' = [keyPath] → logged h' = [] → code ≠ 0 ∨ zero_exit h' →
    wp restore_call_ok (code ← fail termlog code msg; mret (inl code)) (λ h' r, match r with
             | inl code => pending h' = [keyPath] ∧ failed termlog h' code
             | inr (restored, total) =>
                 ∃ sizes, restoring h' c keyPath env pairs sizes ∧
                          restored = rp_Archive <$> pairs ∧ total = foldl add_int64 0 sizes
             end) h').
  { intros h' code msg Hp' Hl' Hz. apply wp_bind. eapply wp_post; [by apply wp_failed|].
    intros h2 r _ (-> & Hp2 & Hf). apply wp_ret. by rewrite Hp2. }
  apply wp_bind. eapply wp_post; [apply wp_emptyDir|].
  { by exists p. }
  { intros h' path _ Hl. by exists p. }
  intros h1 err _ [Hg1 He1]. pose proof (restoring_grows _ _ _ _ _ _ _ Hg1 Hst) as Hst1.
  pose proof Hst1 as ((Hc & Ht & Hpend & Hl) & Henv & Hcmd & Hsz).
  destruct err as [e|]; [by apply Hfail; [..|left]|]. apply wp_bind. split.
  { exists c, keyPath. do 3 (split; [done|]).
    pose proof (Forall2_length _ _ _ Hcmd) as Hlen. rewrite <- Hlen, Hp.
    rewrite take_app_length, lookup_app_r by lia. rewrite Nat.sub_diag. cbn.
    rewrite take_ge by (rewrite length_app; lia). split; [done|]. split; [done|].
    split; [by exists env|]. split; [done|by apply He1]. }
  intros r. cbn [wp]. set (h2 := h1 ++ [_]).
  assert (Hcmd2 : commands h2 =
    commands h1 ++ [(restoreArgv (cfg_NS c) keyPath ref (rp_Archive p) (rp_Target p), r)]).
  { unfold h2. by rewrite commands_app. }
  assert (Hk2 : keyed h2 c keyPath) by by apply keyed_snoc.
  assert (Hpre2 : h1 `prefix_of` h2) by by eexists. clearbody h2.
  destruct (run_error r) as [e|] eqn:Hr.
  { apply Hfail; [apply Hk2..|]. eapply exitCode_nonzero; [|exact Hr]. rewrite Hcmd2. apply elem_of_snoc. }
  apply wp_bind. unfold dirSize. apply wp_bind. split; [by exists p|]. intros entries. do 2 apply wp_ret.
  replace ((rp_Archive <$> done_) ++ [rp_Archive p]) with (rp_Archive <$> done_ ++ [p])
    by by rewrite fmap_app.
  replace (add_int64 (foldl add_int64 0 sizes) (foldl entry_size 0 entries))
    with (foldl add_int64 0 (sizes ++ [foldl entry_size 0 entries])) by by rewrite foldl_app.
  apply IH; [by rewrite <- app_assoc|]. split_and!.
  - by apply keyed_snoc.
  - destruct Henv as (e & Hine & ->). exists e. split; [|done].
    apply elem_of_grow. by eapply elem_of_prefix.
  - rewrite commands_app, app_nil_r, Hcmd2. apply Forall2_app; [done|]. by repeat constructor.
  - apply Forall2_app.
    + eapply Forall2_impl; [exact Hsz|]. intros q size (en & Hine & ->). exists en.
      split; [|done]. apply elem_of_grow. by eapply elem_of_prefix.
    + constructor; [|constructor]. exists entries. split; [apply elem_of_snoc|done].
Qed.

Definition uploaded (h : list aevent) (r : option cmd_error) (h' : list aevent) : Prop :=
  match r with
  | Some e => exitCode e ≠ 0 ∨ zero_exit h'
  | None => ∃ c1 c2, commands h' = commands h ++ [c1; c2] ∧
                     run_error c1.2 = None ∧ run_error c2.2 = None
  end.

(** The second command, once the first has made the manifest. *)
Lemma wp_apply_created h c keyPath p r :
  let create := createArgv configMap (path_Join (rp_Target p) "api.yaml") in
  keyed h c keyPath → pairs = [p] → configMap ≠ "" → run_error r = None →
  (∃ cmd, restored_pair c keyPath p cmd ∧ commands h = [cmd; (create, r)]) →
  wp restore_call_ok
    (with_temp "pbs-agent-cm-*.yaml" [run_out r] (λ f,
       environ ← do_call AEnviron;
       r ← do_call (ARun (applyArgv f) (Some environ) ToStdout); mret (run_error r)))
    (λ h' res, pending h' ⊆ [keyPath] ∧ logged h' = [] ∧
       match res with
       | Some e => exitCode e ≠ 0 ∨ zero_exit h'
       | None => ∃ c2, commands h' = commands h ++ [c2] ∧ run_error c2.2 = None
       end) h.
Proof.
  intros create (Hc & Ht & Hpe & Hl) Hp Hm Hr (cmd & Hcmd & Hcmds). eapply wp_post.
  { apply (wp_with_temp _ _ _ _ (λ h' res, logged h' = [] ∧ match res with
      | Some e => exitCode e ≠ 0 ∨ zero_exit h'
      | None => ∃ c2, commands h' = commands h ++ [c2] ∧ run_error c2.2 = None end)); [by intros h' []|].
    intros f. destruct (file_events_views h "pbs-agent-cm-*.yaml" f [run_out r]) as (Hc3 & Hl3 & Hp3).
    apply wp_bind. split; [done|]. intros environ. cbn [wp].
    set (h3 := h ++ file_events _ _ _) in *. set (h4 := h3 ++ [_]).
    assert (Hv : commands h4 = commands h ∧ logged h4 = [] ∧ pending h4 = f :: pending h).
    { unfold h4. by rewrite commands_app, logged_app, pending_snoc, Hc3, Hl3, Hl, Hp3, app_nil_r. }
    assert (Hk4 : configured h4 c ∧ temp_file h4 keyPath [cfg_Keyfile c]).
    { split; [eapply configured_prefix; [exact Hc|unfold h4, h3; rewrite <- app_assoc; by eexists]|].
      apply temp_file_snoc; [done|]. split; [|rewrite Hp3, Hpe; right; by left].
      destruct Ht as [(pat & ha & hb & ->) _]. exists pat, ha. eexists. unfold h3. by rewrite <- !app_assoc. }
    assert (Heq4 : h4 = h ++ file_events "pbs-agent-cm-*.yaml" f [run_out r] ++
      [ev (resp := aresp) AEnviron environ]) by (unfold h4, h3; by rewrite <- app_assoc).
    clearbody h4. clear h3 Hc3 Hl3 Hp3. destruct Hv as (Hc4 & Hl4 & Hp4), Hk4 as [Hcf Htf].
    apply wp_bind. split.
    { exists c, keyPath. do 3 (split; [done|]). rewrite Hc4, Hcmds, Hp. cbn.
      split; [by repeat constructor; apply Hcmd|]. split; [done|]. exists p.
      split; [done|]. right. exists h, r, f, environ. by rewrite Hc4, Hcmds. }
    intros r'. cbn [wp]. split; [by rewrite pending_snoc, Hp4|]. split; [by rewrite logged_app, Hl4|].
    destruct (run_error r') as [e|] eqn:Hr'.
    - eapply exitCode_nonzero; [|exact Hr']. rewrite commands_app. apply elem_of_snoc.
    - exists (applyArgv f, r'). by rewrite commands_app, Hc4. }
  intros h' res _ [Hp' [((Hc' & Hl' & _) & e & ->)|(h5 & f & a & -> & Hl5 & Hu)]].
  { split; [by rewrite Hp', Hpe|]. split; [by rewrite Hl'|by left]. }
  split; [by rewrite Hp', Hpe|]. rewrite logged_app, Hl5. split; [done|].
  rewrite commands_app, app_nil_r. destruct res; [|done]. destruct Hu; [by left|right; by apply zero_exit_app].
Qed.

Lemma wp_uploadConfigMap h c keyPath env sizes p :
  restoring h c keyPath env pairs sizes → pairs = [p] → configMap ≠ "" →
  wp restore_call_ok (uploadConfigMap configMap (path_Join (rp_Target p) "api.yaml"))
    (λ h' r, pending h' ⊆ [keyPath] ∧ logged h' = [] ∧ uploaded h r h') h.
Proof.
  intros Hst Hp Hm. pose proof Hst as (Hk & _ & Hcmd & _).
  assert (Hone : ∃ cmd, restored_pair c keyPath p cmd ∧ commands h = [cmd]).
  { rewrite Hp in Hcmd. apply Forall2_cons_inv_l in Hcmd as (cmd & l & Hc & Hl & ->).
    apply Forall2_nil_inv_l in Hl as ->. by exists cmd. }
  destruct Hone as (cmd & Hc1 & Hcmds).
  unfold uploadConfigMap. apply wp_bind. split; [done|]. intros environ. cbn [wp].
  set (h1 := h ++ [_]). assert (Hk1 : keyed h1 c keyPath) by by apply keyed_snoc.
  assert (Hcmd1 : commands h1 = [cmd]) by (unfold h1; by rewrite commands_app, Hcmds).
  clearbody h1. apply wp_bind. split.
  { destruct Hk1 as (Hc & Ht & Hpe & Hl). exists c, keyPath. do 3 (split; [done|]).
    rewrite Hcmd1, Hp. cbn. split; [by repeat constructor; apply Hc1|]. split; [done|]. exists p.
    split; [done|]. left. by rewrite Hcmd1. }
  intros r. cbn [wp]. set (create := createArgv _ _). set (h2 := h1 ++ [_]).
  assert (Hk2 : keyed h2 c keyPath) by by apply keyed_snoc.
  assert (Hcmd2 : commands h2 = [cmd; (create, r)]) by (unfold h2; by rewrite commands_app, Hcmd1).
  clearbody h2. destruct (run_error r) as [e|] eqn:Hr.
  { apply wp_ret. destruct Hk2 as (_ & _ & Hpe & Hl). split; [by rewrite Hpe|]. split; [done|].
    eapply exitCode_nonzero; [|exact Hr]. rewrite Hcmd2. right. by left. }
  eapply wp_post; [apply (wp_apply_created _ c keyPath p); try done; by exists cmd|].
  intros h' [e|] _ (Hp' & Hl' & Hu); [done|]. split; [done|]. split; [done|].
  destruct Hu as (c2 & Hu & H2). exists (create, r), c2. by rewrite Hu, Hcmd2, Hcmds.
Qed.

Lemma all_restored_prefix h h' sizes :
  h `prefix_of` h' → commands h' = commands h → all_restored h sizes → all_restored h' sizes.
Proof.
  intros Hpre Hcmd (c & key & Hc & Hr & Hs & Hok & Hlen). exists c, key. rewrite Hcmd.
  split_and!; try done; [by eapply configured_prefix|].
  eapply Forall2_impl; [exact Hs|]. intros p size (en & Hin & ->). exists en.
  split; [by eapply elem_of_prefix|done].
Qed.

Lemma restored_all h h' c keyPath env sizes :
  restoring h c keyPath env pairs sizes → h `prefix_of` h' →
  (configMap = "" ∧ commands h' = commands h) ∨ (configMap ≠ "" ∧ uploaded h None h') →
  all_restored h' sizes.
Proof.
  intros ((Hc & _) & _ & Hcmd & Hs) Hpre Hup. exists c, keyPath.
  pose proof (Forall2_length _ _ _ Hcmd) as Hlen.
  assert (Hok : Forall (λ cmd, run_error cmd.2 = None) (commands h)).
  { clear -Hcmd. induction Hcmd as [|? ? ? ? [_ ?]]; by constructor. }
  assert (Hws : Forall2 (λ p size, ∃ entries, ev (resp := aresp) (AWalkDir (rp_Target p)) entries ∈ h' ∧
                                  size = foldl entry_size 0 entries) pairs sizes).
  { eapply Forall2_impl; [exact Hs|]. intros p size (en & Hin & ->). exists en.
    split; [by eapply elem_of_prefix|done]. }
  split; [by eapply configured_prefix|].
  destruct Hup as [[Hm Hu]|[Hm (c1 & c2 & Hu & H1 & H2)]]; rewrite Hu, Hlen.
  - rewrite (bool_decide_eq_true_2 (configMap = "")) by done. rewrite take_ge by done.
    split_and!; (done || lia).
  - rewrite (bool_decide_eq_false_2 (configMap = "")) by done. rewrite take_app_length.
    split_and!; [done|done|by apply Forall_app; repeat constructor|rewrite length_app; cbn; lia].
Qed.

Lemma wp_upload_restored h c keyPath env sizes :
  restoring h c keyPath env pairs sizes →
  wp restore_call_ok (upload_restored pairs configMap termlog) (λ h' r, pending h' ⊆ [keyPath] ∧
    match r with
    | Some code => failed termlog h' code
    | None => logged h' = [] ∧ all_restored h' sizes
    end) h.
Proof.
  intros Hst. pose proof Hst as ((_ & _ & Hpe & Hl) & _). unfold upload_restored.
  case_bool_decide as Hm.
  { apply wp_ret. rewrite Hpe. split; [done|]. split; [done|]. eapply restored_all; [exact Hst|done|by left]. }
  assert (Hfail : ∀ h' msg code, logged h' = [] → pending h' ⊆ [keyPath] → code ≠ 0 ∨ zero_exit h' →
    wp restore_call_ok (code ← fail termlog code msg; mret (Some code)) (λ h' r, pending h' ⊆ [keyPath] ∧
      match r with
      | Some code => failed termlog h' code
      | None => logged h' = [] ∧ all_restored h' sizes
      end) h').
  { intros h' msg code Hl' Hp' Hz. apply wp_bind. eapply wp_post; [by apply wp_failed|].
    intros h2 r _ (-> & Hp2 & Hf). apply wp_ret. by rewrite Hp2. }
  assert (Hp : (∃ p, pairs = [p]) ∨ upload_restored pairs configMap termlog =
    (code ← fail termlog 2 ("configmap upload needs exactly one archive/target pair, got " +:+
                               fmt_d (Z.of_nat (length pairs))); mret (Some code))).
  { unfold upload_restored. rewrite bool_decide_eq_false_2 by done.
    destruct pairs as [|p [|]]; [by right|left; by exists p|by right]. }
  destruct Hp as [[p Hp]|Hp].
  - rewrite Hp. apply wp_bind. eapply wp_post; [by eapply wp_uploadConfigMap|].
    intros h' [e|] Hpre (Hp' & Hl' & Hu); [by apply Hfail|]. apply wp_ret.
    split; [done|]. split; [done|]. eapply restored_all; [exact Hst|done|by right].
  - unfold upload_restored in Hp. rewrite bool_decide_eq_false_2 in Hp by done. rewrite Hp.
    apply Hfail; [done|by rewrite Hpe|by left].
Qed.

Lemma restore_outcome h0 h code keyPath a :
  pending h0 ⊆ [keyPath] → h = h0 ++ [ev (resp := aresp) (ARemove keyPath) a] →
  (failed termlog h0 code ∨
   ∃ sizes, all_restored h0 sizes ∧ code = 0 ∧
     logged h0 = [(termlog, renderRestoreJSON (rp_Archive <$> pairs) (foldl add_int64 0 sizes) +:+ newline)]) →
  restore_done h code.
Proof.
  intros Hp -> Ho. split; [by apply pending_end|].
  destruct Ho as [Hf|(sizes & Hall & -> & Hl)].
  - apply (failed_snoc _ _ _ (ev (ARemove keyPath) a)) in Hf; [|right; by eexists].
    destruct Hf as (msg & Hl & Hz). exists (errorJSON msg). split; [done|]. right. by exists msg.
  - eexists. split; [by rewrite logged_app, Hl|]. left. split; [done|]. exists sizes. split; [|done].
    eapply all_restored_prefix; [by eexists|by rewrite commands_app, app_nil_r|done].
Qed.

Lemma wp_restore_with_key h c keyPath :
  keyed h c keyPath → commands h = [] →
  wp restore_call_ok (restore_with_key c keyPath ref pairs configMap termlog) (λ h' code,
    pending h' ⊆ [keyPath] ∧
    (failed termlog h' code ∨
     ∃ sizes, all_restored h' sizes ∧ code = 0 ∧
       logged h' = [(termlog, renderRestoreJSON (rp_Archive <$> pairs) (foldl add_int64 0 sizes) +:+ newline)])) h.
Proof.
  intros Hk Hcmd. unfold restore_with_key. apply wp_bind. split; [done|]. intros environ. cbn [wp].
  set (h1 := h ++ [_]). assert (Hst : restoring h1 c keyPath (environ ++ clientEnv c) [] []).
  { split_and!; [by apply keyed_snoc| |unfold h1; by rewrite commands_app, Hcmd|done].
    exists environ. split; [apply elem_of_snoc|done]. }
  clearbody h1. apply wp_bind.
  eapply wp_post; [by apply (wp_restore_pairs h1 c keyPath _ [] pairs [])|].
  intros h2 [code|[restored total]] _; cbv beta iota.
  { intros [Hp Hf]. apply wp_ret. rewrite Hp. split; [done|by left]. }
  intros (sizes & Hst2 & -> & ->). apply wp_bind. eapply wp_post; [by eapply wp_upload_restored|].
  intros h3 [code|] _ [Hp3 Hr]; [apply wp_ret; split; [done|by left]|]. destruct Hr as [Hl3 Hall].
  eapply wp_post; [by apply wp_report|]. intros h4 code Hpre [-> (Hc4 & Hp4 & Hl4)].
  split; [by rewrite Hp4|]. right. exists sizes. rewrite Hl4, Hl3. split; [|done].
  by eapply all_restored_prefix.
Qed.

Lemma wp_RunRestoreVolume :
  wp restore_call_ok (RunRestoreVolume ref pairs configMap termlog) restore_done [].
Proof.
  assert (Hfail : ∀ h msg code, code ≠ 0 → logged h = [] → pending h = [] →
    wp restore_call_ok (fail termlog code msg) restore_done h).
  { intros h msg code Hz Hl Hp. eapply wp_post; [by apply wp_failed; [..|left]|].
    intros h' r _ (-> & Hp' & (msg' & Hl' & Hz')). split; [by rewrite Hp'|].
    exists (errorJSON msg'). split; [done|]. right. by exists msg'. }
  unfold RunRestoreVolume. apply wp_bind. eapply wp_post; [by apply wp_loadConfig|].
  intros h1 [c missing] _ [Hg Hc]. destruct (quiet_views _ _ Hg) as (Hcmd & Hl & Hp).
  cbn [fst snd] in Hc. case_bool_decide as Hm; cbn [negb]; [|by apply Hfail].
  specialize (Hc Hm). apply wp_bind. eapply wp_mono.
  { by apply (wp_materializeKeyfile (λ _, temp_call "pbs-agent-keyfile-*.json" [cfg_Keyfile c])). }
  { intros h' k _ Hk. by destruct k. }
  intros h2 [e|keyPath] _; cbv beta iota.
  { intros (_ & Hl2 & Hp2). apply Hfail; [done|by rewrite Hl2|].
    rewrite Hp in Hp2. by apply list_nil_subseteq in Hp2. }
  intros ->. destruct (file_events_views h1 "pbs-agent-keyfile-*.json" keyPath [cfg_Keyfile c])
    as (Hcmd2 & _ & _).
  apply wp_bind. eapply wp_post; [apply (wp_restore_with_key _ c keyPath)|].
  { by apply keyed_start. }
  { by rewrite Hcmd2. }
  intros h3 code _ [Hp3 Ho]. apply wp_bind. split; [done|]. intros a. cbn [wp].
  by eapply restore_outcome.
Qed.

(** C17: The calls of a volume restore: no client command runs before the eight
    variables are set and the key file holds the key; the commands restore the
    pairs in order, each once all before it succeeded and right after its target
    was listed and every entry removed; then, for a single pair and with a config
    map, the manifest is created from the restored file and what was created is
    applied; nothing is removed but the listed entries of a target, and nothing
    runs once the result is reported. *)
Theorem restore_volume_calls tr code i k a :
  runs (RunRestoreVolume ref pairs configMap termlog) tr code →
  tr !! i = Some (ev k a) → restore_call_ok (take i tr) k.
Proof. intros Hr Hi. exact (wp_lookup _ _ _ _ _ _ _ _ wp_RunRestoreVolume Hr Hi). Qed.

(** C20: The report of a volume restore: every run asks for the removal of every temp
    file it made and writes the termination log once; the exit code is 0 only when every pair was restored (and
    the config map uploaded), and the report then lists the archives and the sum of
    the sizes of the targets; any other end writes an error and has another exit
    code, unless a command failed with exit code 0, which [os/exec] never reports. *)
Theorem restore_volume_report tr code :
  runs (RunRestoreVolume ref pairs configMap termlog) tr code → restore_done tr code.
Proof. intros Hr. apply (wp_runs _ _ _ _ _ wp_RunRestoreVolume Hr). Qed.
End volumes.

(** The run of [AgentHost.restore_script] *)
Definition restore_trace : list aevent := Eval vm_compute in (restore_run restore_script).1.1.
Definition restore_pair0 : RestorePair := mkPair "data-a.pxar" "/restore/data-a".
Lemma restore_run_runs :
  runs (RunRestoreVolume "host/bk-1/T" [restore_pair0] "cm" "/dev/termination-log") restore_trace 0.
Proof. exact (exec_runs serve_host (RunRestoreVolume _ _ _ _) (test_host restore_script)). Qed.

Lemma restore_volume_calls_witness :
  ∃ c a, restore_trace !! 15%nat = Some (ev c a) ∧
    restore_call_ok "host/bk-1/T" [restore_pair0] "cm" "/dev/termination-log"
      (take 15 restore_trace) c.
Proof.
  at_index restore_trace 15%nat ltac:(fun c a =>
    exists c, a; assert (Hi : restore_trace !! 15%nat = Some (ev c a)) by (by vm_compute);
    split; [exact Hi|exact (restore_volume_calls _ _ _ _ _ _ _ _ _ restore_run_runs Hi)]).
Defined.

Lemma restore_volume_report_witness :
  restore_done "host/bk-1/T" [restore_pair0] "cm" "/dev/termination-log" restore_trace 0.
Proof. exact (restore_volume_report _ _ _ _ _ _ restore_run_runs). Defined.
