(* ===== verification/AgentApplyProps.v ===== *)
(** * Properties of the apply run

    The commands, the report and the temp files of [RunApplyManifests], for every
    history. *)

From S2P Require Import Prelude GoLib Kube Doc Json Trace RestorePlan AgentEnv AgentTrace AgentRestore AgentRestoreProps.
From S2P Require Import Cluster AgentHost.
From stdpp Require Import options.

Local Open Scope Z_scope.

(** ** The plan of a phase *)

Inductive apply_step :=
  | SApply (docs : list PlannedDoc)
  | SWait (crd : PlannedDoc).

Definition apply_steps (bucket : list PlannedDoc) : list apply_step :=
  match bucket with [] => [] | _ => [SApply bucket] end.

(** In the pre phase the namespaces, the definitions, a wait for each definition,
    the rest that volumes may need; in the workload phase the workloads. *)
Definition plan_steps (phase : string) (b : buckets) : list apply_step :=
  if bool_decide (phase = "pre") then
    apply_steps (b_ns b) ++ apply_steps (b_crds b) ++ (SWait <$> b_crds b) ++ apply_steps (b_pre b)
  else if bool_decide (phase = "workload") then apply_steps (b_work b)
  else [].

Definition plan_docs (phase : string) (b : buckets) : list PlannedDoc :=
  if bool_decide (phase = "pre") then b_ns b ++ b_crds b ++ b_pre b
  else if bool_decide (phase = "workload") then b_work b else [].

Section manifests.
Context {JL : JsonLib} {YL : YamlLib}.
Context (phase file : string) (drop keep : list string) (termlog : string).

(** [b] holds the documents of the file, rewritten to the namespace of the pod. *)
Definition parsed (h : list aevent) (b : buckets) : Prop :=
  ∃ ns data docs,
    ev (resp := aresp) (AReadFile saNamespaceFile) (inr ns) ∈ h ∧
    ev (resp := aresp) (AReadFile file) (inr data) ∈ h ∧
    ParseAPIManifests data (TrimSpace ns) = inr docs ∧ b = BucketDocs docs drop keep.

(** The command of a step: an apply reads a file of the documents of the step, just
    written. *)
Definition step_command (h : list aevent) (s : apply_step) (argv : list string) : Prop :=
  match s with
  | SApply docs =>
      ∃ h0 f, h = h0 ++ file_events "pbs-agent-apply-*.yaml" f
                          ((λ doc, pd_YAML doc +:+ doc_separator_line) <$> docs) ∧
              argv = applyArgv f
  | SWait crd => argv = waitArgv (pd_Name crd)
  end.

Definition all_succeeded (h : list aevent) : Prop :=
  Forall (λ cmd, run_error cmd.2 = None) (commands h).

Definition apply_command_ok (h : list aevent) (argv : list string) (env : option (list string))
    (out : sink) : Prop :=
  env = None ∧ out = ToStdout ∧ logged h = [] ∧ all_succeeded h ∧
  ∃ b s, parsed h b ∧ plan_steps phase b !! length (commands h) = Some s ∧ step_command h s argv.

Definition apply_call_ok (h : list aevent) (k : acall) : Prop :=
  match k with
  | ARun argv env out => apply_command_ok h argv env out
  | AWriteFile path _ => path = termlog ∧ logged h = []
  | AReadFile path => path = saNamespaceFile ∨ path = file
  | AGetenv _ | AHostname | AEnviron | AReadDir _ | ARemoveAll _ | AWalkDir _ => False
  | _ => True
  end.

(** How the run ends: the removal of every temp file was asked for, and the
    termination log was written once, with the number of documents if the exit code
    is 0 and with an error otherwise. *)
Definition apply_done (h : list aevent) (code : Z) : Prop :=
  pending h = [] ∧
  ∃ line, logged h = [(termlog, line +:+ newline)] ∧
    ((code = 0 ∧ ∃ b, parsed h b ∧ all_succeeded h ∧
                   length (commands h) = length (plan_steps phase b) ∧
                   line = applied_json (Z.of_nat (length (plan_docs phase b)))) ∨
     (∃ msg, line = errorJSON msg ∧ code ≠ 0)).

Lemma apply_talks : talks apply_call_ok.
Proof. done. Qed.

(** ** The run *)

(** The first [n] steps are done. *)
Definition applying (h : list aevent) (b : buckets) (n : nat) : Prop :=
  parsed h b ∧ all_succeeded h ∧ length (commands h) = n ∧ logged h = [] ∧ pending h = [].

Definition reported (h : list aevent) : Prop :=
  pending h = [] ∧ ∃ msg, logged h = [(termlog, errorJSON msg +:+ newline)].

Lemma parsed_prefix h h' b : h `prefix_of` h' → parsed h b → parsed h' b.
Proof.
  intros Hp (ns & data & docs & H1 & H2 & H3). exists ns, data, docs.
  by split_and!; [eapply elem_of_prefix..|apply H3|apply H3].
Qed.

Lemma wp_reported h code msg :
  logged h = [] → pending h = [] →
  wp apply_call_ok (fail termlog code msg) (λ h' _, reported h') h.
Proof.
  intros Hl Hp. eapply wp_post; [by apply wp_fail|]. intros h' r _ [_ (_ & Hp' & Hl')].
  split; [by rewrite Hp'|]. exists msg. by rewrite Hl', Hl.
Qed.

Lemma wp_kubectlApply h b docs n :
  applying h b n → plan_steps phase b !! n = Some (SApply docs) →
  wp apply_call_ok (kubectlApply docs) (λ h' err,
    match err with
    | Some _ => logged h' = [] ∧ pending h' = []
    | None => applying h' b (S n)
    end) h.
Proof.
  intros (Hb & Hok & Hn & Hl & Hp) Hs. eapply wp_post.
  { apply (wp_with_temp _ _ _ _ (λ h' err, logged h' = [] ∧ match err with
      | Some _ => True
      | None => parsed h' b ∧ all_succeeded h' ∧ length (commands h') = S n end)); [by intros h' []|].
    intros f. set (chunks := _ <$> docs).
    destruct (file_events_views h "pbs-agent-apply-*.yaml" f chunks) as (Hc1 & Hl1 & Hp1).
    apply wp_bind. split.
    { split; [done|]. split; [done|]. split; [by rewrite Hl1|].
      split; [unfold all_succeeded; by rewrite Hc1|]. exists b, (SApply docs).
      split; [by eapply parsed_prefix; [eexists|]|]. rewrite Hc1, Hn. split; [done|]. by exists h, f. }
    intros r. cbn [wp]. set (h1 := h ++ _) in *. split; [by rewrite pending_snoc, Hp1|].
    rewrite logged_app, Hl1, Hl. split; [done|]. destruct (run_error r) as [e|] eqn:Hr; [done|].
    unfold all_succeeded. rewrite commands_app, Hc1. split_and!.
    - eapply parsed_prefix; [|exact Hb]. unfold h1. rewrite <- app_assoc. by eexists.
    - apply Forall_app; split; [done|by repeat constructor].
    - rewrite length_app, Hn. cbn. lia. }
  intros h' err _ [Hp' Hr]. rewrite Hp in Hp'. apply list_nil_subseteq in Hp'.
  destruct Hr as [((_ & Hl' & _) & e & ->)|(h2 & f & a & -> & Hl2 & Hr)]; [by rewrite Hl'|].
  rewrite logged_app, Hl2. destruct err as [e|]; [done|]. destruct Hr as (Hb2 & Hok2 & Hn2).
  unfold applying, all_succeeded. rewrite logged_app, commands_app, Hl2, !app_nil_r.
  split_and!; try done. by eapply parsed_prefix; [eexists|].
Qed.

Lemma wp_apply_bucket h b s1 bucket s2 applied :
  plan_steps phase b = s1 ++ apply_steps bucket ++ s2 → applying h b (length s1) →
  wp apply_call_ok (apply_bucket termlog applied bucket) (λ h' r,
    match r with
    | None => reported h'
    | Some n => applying h' b (length (s1 ++ apply_steps bucket)) ∧
                n = applied + Z.of_nat (length bucket)
    end) h.
Proof.
  intros Hplan Hst. destruct bucket as [|d ds]; cbn [apply_bucket].
  { apply wp_ret. cbn. rewrite app_nil_r. split; [done|lia]. }
  set (bucket := d :: ds) in *. apply wp_bind.
  eapply wp_post; [apply (wp_kubectlApply _ b bucket (length s1)); [done|]|].
  { rewrite Hplan, lookup_app_r, Nat.sub_diag by done. done. }
  intros h' [e|] _.
  - intros [Hl Hp]. apply wp_bind. eapply wp_post; [by apply wp_reported|]. intros h2 ? _ Hr. by apply wp_ret.
  - intros Ha. apply wp_ret. split; [|done]. rewrite length_app. cbn. by rewrite Nat.add_1_r.
Qed.

Lemma wp_wait_crds h b s1 crds s2 :
  plan_steps phase b = s1 ++ (SWait <$> crds) ++ s2 → applying h b (length s1) →
  wp apply_call_ok (wait_crds termlog crds) (λ h' (ok : bool),
    if ok then applying h' b (length (s1 ++ (SWait <$> crds))) else reported h') h.
Proof.
  revert h s1. induction crds as [|crd crds IH]; intros h s1 Hplan Hst; cbn [wait_crds].
  { apply wp_ret. by rewrite app_nil_r. }
  pose proof Hst as (Hb & Hok & Hn & Hl & Hp). apply wp_bind. split.
  { split_and!; [done..|]. exists b, (SWait crd). split; [done|]. rewrite Hn, Hplan.
    split; [|done]. by rewrite lookup_app_r, Nat.sub_diag by done. }
  intros r. cbn [wp]. destruct (run_error r) as [e|] eqn:Hr.
  { apply wp_bind. eapply wp_post; [apply wp_reported; [by rewrite logged_app, Hl|by rewrite pending_snoc, Hp]|].
    intros h2 ? _ Hrep. by apply wp_ret. }
  replace (s1 ++ (SWait <$> crd :: crds)) with ((s1 ++ [SWait crd]) ++ (SWait <$> crds))
    by by rewrite <- app_assoc.
  apply IH; [by rewrite Hplan, <- app_assoc|]. unfold applying, all_succeeded.
  rewrite commands_app, logged_app, pending_snoc, Hl, Hp, !length_app, Hn. split_and!; try done.
  - by eapply parsed_prefix; [eexists|].
  - apply Forall_app; split; [done|by repeat constructor].
Qed.

(** The outcome of a phase *)
Definition phase_result (h : list aevent) (b : buckets) (r : option Z) : Prop :=
  match r with
  | None => reported h
  | Some n => applying h b (length (plan_steps phase b)) ∧ n = Z.of_nat (length (plan_docs phase b))
  end.

Lemma wp_apply_pre h b :
  phase = "pre" → applying h b 0 →
  wp apply_call_ok (apply_pre termlog b) (λ h' r, phase_result h' b r) h.
Proof.
  intros Hph Hst. assert (Hplan : plan_steps phase b =
    apply_steps (b_ns b) ++ apply_steps (b_crds b) ++ (SWait <$> b_crds b) ++ apply_steps (b_pre b))
    by by rewrite Hph.
  assert (Hdocs : plan_docs phase b = b_ns b ++ b_crds b ++ b_pre b) by by rewrite Hph.
  unfold apply_pre. apply wp_bind. eapply wp_post; [eapply (wp_apply_bucket h b []); [exact Hplan|done]|].
  intros h1 [n1|] _; [intros [H1 ->]|by intros; apply wp_ret]. apply wp_bind.
  eapply wp_post; [eapply (wp_apply_bucket h1 b (apply_steps (b_ns b))); [exact Hplan|done]|].
  intros h2 [n2|] _; [intros [H2 ->]|by intros; apply wp_ret]. apply wp_bind.
  eapply wp_post; [eapply (wp_wait_crds h2 b (apply_steps (b_ns b) ++ apply_steps (b_crds b)));
                   [by rewrite Hplan, <- app_assoc|done]|].
  intros h3 [|] _ H3; [|by apply wp_ret]. eapply wp_post.
  { apply (wp_apply_bucket h3 b ((apply_steps (b_ns b) ++ apply_steps (b_crds b)) ++ (SWait <$> b_crds b))
      _ []); [by rewrite Hplan, app_nil_r, <- !app_assoc|done]. }
  intros h4 [n4|] _; [intros [H4 ->]|done]. unfold phase_result. rewrite Hdocs, !length_app.
  split; [|lia]. by rewrite Hplan, !app_assoc.
Qed.

Lemma wp_apply_phase h b :
  applying h b 0 → wp apply_call_ok (apply_phase phase termlog b) apply_done h.
Proof.
  intros Hst. unfold apply_phase.
  set (finish := λ applied : option Z, _). assert (Hfin : ∀ h' r, phase_result h' b r →
    wp apply_call_ok (finish r) apply_done h').
  { intros h' [n|]; unfold phase_result, finish.
    - intros [(Hb & Hok & Hn & Hl & Hp) ->]. eapply wp_post; [by apply wp_report|].
      intros h2 code Hpre [-> (Hc2 & Hp2 & Hl2)]. split; [by rewrite Hp2|]. eexists.
      rewrite Hl2, Hl. split; [done|]. left. split; [done|]. exists b.
      unfold all_succeeded. rewrite Hc2. by split_and!; [eapply parsed_prefix| | |].
    - intros [Hp (msg & Hl)]. split; [done|]. exists (errorJSON msg). split; [done|].
      right. by exists msg. }
  case_bool_decide as Hpre.
  { apply wp_bind. eapply wp_post; [by apply wp_apply_pre|]. intros h' r _. apply Hfin. }
  case_bool_decide as Hwork.
  { apply wp_bind. eapply wp_post; [apply (wp_apply_bucket h b [] (b_work b) []); [|done]|].
    { by rewrite Hwork, app_nil_r. }
    intros h' [n|] _; [intros [Ha ->]|by intros; apply Hfin]. apply Hfin. cbn.
    rewrite Hwork. done. }
  destruct Hst as (_ & _ & _ & Hl & Hp). eapply wp_post; [by apply wp_fail|].
  intros h' r _ [-> (_ & Hp' & Hl')]. split; [by rewrite Hp'|]. eexists. rewrite Hl', Hl.
  split; [done|]. right. by eexists.
Qed.

Lemma wp_RunApplyManifests :
  wp apply_call_ok (RunApplyManifests phase file drop keep termlog) apply_done [].
Proof.
  assert (Hfail : ∀ h msg, logged h = [] → pending h = [] →
    wp apply_call_ok (fail termlog 1 msg) apply_done h).
  { intros h msg Hl Hp. eapply wp_post; [by apply wp_fail|]. intros h' r _ [-> (_ & Hp' & Hl')].
    split; [by rewrite Hp'|]. exists (errorJSON msg). rewrite Hl', Hl. split; [done|]. right. by exists msg. }
  unfold RunApplyManifests, DefaultPodNS. apply wp_bind, wp_bind. split; [by left|].
  intros ns. cbn [wp]. apply wp_ret. destruct ns as [e|ns]; [by apply Hfail|].
  apply wp_bind. split; [by right|]. intros data. cbn [wp].
  destruct data as [e|data]; [by apply Hfail|].
  destruct (ParseAPIManifests data (TrimSpace ns)) as [e|docs] eqn:Hd; [by apply Hfail|].
  apply wp_apply_phase. split_and!; [|by constructor|done..]. exists ns, data, docs. split_and!; try done.
  - cbn. left.
  - cbn. right. by left.
Qed.

(** C16: The commands of an apply: they are the steps of the phase in order, each once
    all before it succeeded: in the pre phase the namespaces, the resource
    definitions, a wait until each is established, then the rest that volumes may
    need; in the workload phase the workloads.  An apply reads a file, just written,
    of exactly the documents of its step, rewritten to the namespace of the pod. *)
Theorem apply_commands tr code i argv env out r :
  runs (RunApplyManifests phase file drop keep termlog) tr code →
  tr !! i = Some (ev (resp := aresp) (ARun argv env out) r) →
  apply_command_ok (take i tr) argv env out.
Proof. intros Hr Hi. exact (wp_lookup _ _ _ _ _ _ _ _ wp_RunApplyManifests Hr Hi). Qed.

(** ** When nothing goes wrong *)

Ltac smooth_app := lazymatch goal with H : Forall smooth (_ ++ _) |- _ => apply Forall_app in H as [? ?] end.
Ltac smooth_by lem :=
  match goal with H : runs _ ?t _, Hs : Forall smooth ?t |- _ => 
    first [destruct (lem _ _ _ H Hs) as [? ->]|destruct (lem _ _ _ _ H Hs) as [? ->]] end.

Lemma smooth_kubectlApply docs tr r : runs (kubectlApply docs) tr r → Forall smooth tr → r = None.
Proof.
  unfold kubectlApply. apply smooth_with_temp. intros f t r' Hr Hs. runs_step. runs_step. smooth_app.
  lazymatch goal with H : Forall smooth [_] |- _ => apply Forall_cons in H as [H _]; cbn in H; rewrite H in * end.
  by runs_inv.
Qed.

Lemma smooth_apply_bucket applied bucket tr r :
  runs (apply_bucket termlog applied bucket) tr r → Forall smooth tr → ∃ n, r = Some n.
Proof.
  destruct bucket as [|d ds]; cbn [apply_bucket]; intros Hr Hs; [runs_inv; by eexists|].
  runs_step. smooth_app. lazymatch goal with H : runs (kubectlApply _) _ _ |- _ =>
    apply smooth_kubectlApply in H; [subst|done] end. runs_inv. by eexists.
Qed.

Lemma smooth_wait_crds crds tr r : runs (wait_crds termlog crds) tr r → Forall smooth tr → r = true.
Proof.
  revert tr. induction crds as [|crd crds IH]; intros tr; cbn [wait_crds]; intros Hr Hs; [by runs_inv|].
  runs_step. runs_step. smooth_app.
  lazymatch goal with H : Forall smooth [_] |- _ => apply Forall_cons in H as [H _]; cbn in H; rewrite H in * end.
  by eapply IH.
Qed.

Lemma smooth_apply_pre b tr r : runs (apply_pre termlog b) tr r → Forall smooth tr → ∃ n, r = Some n.
Proof.
  unfold apply_pre. intros Hr Hs. runs_step. smooth_app.
  smooth_by smooth_apply_bucket. runs_step. smooth_app.
  smooth_by smooth_apply_bucket. runs_step. smooth_app.
  lazymatch goal with H : runs (wait_crds _ _) _ _ |- _ => apply smooth_wait_crds in H; [subst|done] end.
  by eapply smooth_apply_bucket.
Qed.

Lemma smooth_apply_phase b tr code :
  phase = "pre" ∨ phase = "workload" →
  runs (apply_phase phase termlog b) tr code → Forall smooth tr → code = 0.
Proof.
  intros Hph. unfold apply_phase. cbv zeta. intros Hr Hs. case_bool_decide as Hpre.
  { runs_step. smooth_app. smooth_by smooth_apply_pre. by eapply runs_report. }
  case_bool_decide as Hwork; [|by destruct Hph].
  runs_step. smooth_app. smooth_by smooth_apply_bucket. by eapply runs_report.
Qed.

(** The manifests that were read can be parsed. *)
Definition parsable (h : list aevent) : Prop :=
  ∀ ns data, ev (resp := aresp) (AReadFile saNamespaceFile) (inr ns) ∈ h →
    ev (resp := aresp) (AReadFile file) (inr data) ∈ h →
    ∃ docs, ParseAPIManifests data (TrimSpace ns) = inr docs.

Lemma smooth_RunApplyManifests tr code :
  runs (RunApplyManifests phase file drop keep termlog) tr code →
  phase = "pre" ∨ phase = "workload" → Forall smooth tr → parsable tr → code = 0.
Proof.
  unfold RunApplyManifests, DefaultPodNS. intros Hr Hph Hs Hparse. do 4 runs_step. smooth_app. smooth_app.
  lazymatch goal with H : Forall smooth [_] |- _ => apply Forall_cons in H as [H _] end.
  destruct a as [e|ns]; [done|]. runs_step. runs_step. smooth_app.
  lazymatch goal with H : Forall smooth [_] |- _ => apply Forall_cons in H as [H _] end.
  destruct a as [e|data]; [done|]. destruct (Hparse ns data) as [docs Hd].
  { rewrite !elem_of_app. left; left. by left. }
  { rewrite !elem_of_app. right; left. by left. }
  rewrite Hd in *. by eapply smooth_apply_phase.
Qed.

(** C21: The report of an apply: every run asks for the removal of every temp file it
    made and writes the termination log once, with no command after that; the exit
    code is 0 only when every step of the phase ran and succeeded, and the report then
    counts the documents; any other end writes an error and has another exit code.
    And it is 0 when nothing went wrong: the phase is a known one, every call succeeded
    and the manifests that were read can be parsed. *)
Theorem apply_report tr code :
  runs (RunApplyManifests phase file drop keep termlog) tr code →
  apply_done tr code ∧ written_last tr ∧
  (phase = "pre" ∨ phase = "workload" → Forall smooth tr → parsable tr → code = 0).
Proof.
  intros Hr. split; [apply (wp_runs _ _ _ _ _ wp_RunApplyManifests Hr)|].
  split; [|intros; by eapply smooth_RunApplyManifests].
  apply written_last_intro. intros i argv env out r Hi.
  destruct (wp_lookup _ _ _ _ _ _ _ _ wp_RunApplyManifests Hr Hi) as (_ & _ & Hl & _). exact Hl.
Qed.
End manifests.

(** The pre phase of [AgentHost.manifests] *)
Definition apply_script : list run_result := [ran ""; ran ""; ran ""].
Definition apply_trace : list aevent := Eval vm_compute in (apply_run "pre" apply_script).1.1.
Lemma apply_run_runs :
  runs (RunApplyManifests "pre" "/f" [] [] "/dev/termination-log") apply_trace 0.
Proof.
  exact (exec_runs serve_host (RunApplyManifests "pre" "/f" [] [] "/dev/termination-log")
    (mkHost test_env {[saNamespaceFile := "apps" +:+ newline; "/f" := manifests]} ∅ apply_script)).
Qed.

Lemma apply_commands_witness :
  ∃ argv env out r, apply_trace !! 11%nat = Some (ev (resp := aresp) (ARun argv env out) r) ∧
    apply_command_ok "pre" "/f" [] [] (take 11 apply_trace) argv env out.
Proof.
  at_index apply_trace 11%nat ltac:(fun c a => lazymatch c with ARun ?argv ?env ?out =>
    exists argv, env, out, a;
    assert (Hi : apply_trace !! 11%nat = Some (ev (resp := aresp) c a)) by (by vm_compute);
    split; [exact Hi|exact (apply_commands _ _ _ _ _ _ _ _ _ _ _ _ apply_run_runs Hi)] end).
Defined.

Definition read_of (e : aevent) : option (string * (error + string)) :=
  match e with
  | existT c a =>
      match c return aresp c → option (string * (error + string)) with
      | AReadFile path => λ a, Some (path, a)
      | _ => λ _, None
      end a
  end.

Lemma apply_trace_parsable : parsable "/f" apply_trace.
Proof.
  intros ns data Hns Hdata.
  assert (H1 : (saNamespaceFile, inr ns) ∈ omap read_of apply_trace)
    by (apply list_elem_of_omap; eexists; split; [exact Hns|done]).
  assert (H2 : ("/f", inr data) ∈ omap read_of apply_trace)
    by (apply list_elem_of_omap; eexists; split; [exact Hdata|done]).
  clear Hns Hdata. vm_compute in H1, H2.
  apply elem_of_cons in H1 as [[= ->]|[[=]|[]%not_elem_of_nil]%elem_of_cons].
  apply elem_of_cons in H2 as [[=]|[[= ->]|[]%not_elem_of_nil]%elem_of_cons].
  vm_compute. by eexists.
Qed.

Lemma apply_report_witness :
  apply_done "pre" "/f" [] [] "/dev/termination-log" apply_trace 0 ∧ written_last apply_trace ∧
  Forall smooth apply_trace ∧ parsable "/f" apply_trace.
Proof.
  destruct (apply_report _ _ _ _ _ _ _ apply_run_runs) as (Hd & Hl & _).
  split; [exact Hd|]. split; [exact Hl|].
  split; [unfold apply_trace; by repeat constructor|exact apply_trace_parsable].
Defined.
