(* ===== verification/AgentJobs.v ===== *)
(** * The Jobs and the agent's process

    What the process in the container of a Job does, from its command line to the
    commands it runs: the builders of [JobBuild], the parsers of [AgentArgs]
    and the runs of the agent together. *)

From S2P Require Import Prelude GoLib Kube Placement JobBuild Doc Json Trace RestorePlan AgentArgs.
From S2P Require Import AgentEnv AgentTrace AgentBackup AgentRestore AgentMain.
From S2P Require Import AgentBackupProps AgentRestoreProps Cluster AgentHost.
From stdpp Require Import options.

Local Open Scope Z_scope.

(** The termination log: [TERMLOG], or the default path *)
Definition log_path (env : string) : string := default_termlog (λ _, env).

Section jobs.
Context {JL : JsonLib} {YL : YamlLib}.

(** A process of a subcommand reads [TERMLOG] and then is its run. *)
Definition process_is (argv : list string) (body : string → aprog Z) : Prop :=
  ∀ tr code, runs (agent_process argv) tr code ↔
    ∃ env tr', tr = ev (resp := aresp) (AGetenv "TERMLOG") env :: tr' ∧
               runs (body (log_path env)) tr' code.

Lemma process_subcommand sub args body :
  sub ∈ subcommands →
  (∀ env, start (main Quote ("pbs-agent" :: sub :: args) (λ _, env)) = body (log_path env)) →
  process_is ("pbs-agent" :: sub :: args) body.
Proof.
  intros Hs Hb tr code. unfold agent_process. cbn [nth]. rewrite bool_decide_eq_true_2 by done.
  cbn [mbind prog_bind do_call runs]. split; intros (env & tr' & -> & Hr); exists env, tr'; split; try done.
  - rewrite <- Hb. exact Hr.
  - rewrite <- Hb in Hr. exact Hr.
Qed.

Lemma process_of_command sub args cmd body :
  cmd = ["pbs-agent"; sub] ++ args → sub ∈ subcommands →
  (∀ env, start (main Quote cmd (λ _, env)) = body (log_path env)) →
  process_is cmd body.
Proof. intros -> Hs Hb. by apply process_subcommand. Qed.

Lemma process_backup spec :
  bjsp_PVCs spec ≠ [] ∨ bjsp_StagingConfigMap spec ≠ "" →
  process_is (job_command (BuildBackupJob spec))
    (RunBackup (bjsp_PVCs spec)
       (if bool_decide (bjsp_StagingConfigMap spec = "") then "" else "/staging/api")
       (bjsp_Notes spec)).
Proof.
  intros Hs. eapply process_of_command; [apply BuildBackupJob_command|by left|].
  intros env. by rewrite backup_command_roundtrip.
Qed.

Lemma process_restore spec node pvcs :
  rjsp_Ref spec ≠ "" → pvcs ≠ [] →
  process_is (job_command (BuildRestoreVolumeJob spec node pvcs))
    (RunRestoreVolume (rjsp_Ref spec)
       ((λ p, mkPair ("pvc-" +:+ p +:+ ".pxar.didx") ("/backup/" +:+ p)) <$> pvcs) "").
Proof.
  intros Hr Hp. eapply process_of_command; [apply BuildRestoreVolumeJob_command|right; by left|].
  intros env. by rewrite restore_volume_command_roundtrip.
Qed.

Lemma process_fetch spec configMap :
  rjsp_Ref spec ≠ "" →
  process_is (job_command (BuildAPIFetchJob spec configMap))
    (RunRestoreVolume (rjsp_Ref spec) [mkPair "api.pxar.didx" "/staging/api"] configMap).
Proof.
  intros Hr. eapply (process_of_command "restore-volume");
    [unfold BuildAPIFetchJob; autorewrite with jobs; reflexivity|right; by left|].
  intros env. by rewrite fetch_command_roundtrip.
Qed.

Lemma process_apply spec phase configMap drop keep :
  phase = "pre" ∨ phase = "workload" →
  forallb kind_name drop = true → forallb kind_name keep = true →
  process_is (job_command (BuildApplyJob spec phase configMap drop keep))
    (RunApplyManifests phase "/staging/api/api.yaml" drop keep).
Proof.
  intros Hph Hd Hk. eapply process_of_command; [apply BuildApplyJob_command|right; right; by left|].
  intros env. by rewrite apply_command_roundtrip.
Qed.

(** C19: The process of a backup Job is the backup of the Job's claims, staged
    manifests and notes; that of a volume restore Job restores each claim's
    archive into the claim's mount, and that of a fetch Job the manifests' archive
    into the staging directory and the ConfigMap; that of an apply Job applies its
    phase with the filters of the restore. *)
Theorem job_processes bspec rspec node pvcs phase configMap drop keep :
  bjsp_PVCs bspec ≠ [] ∨ bjsp_StagingConfigMap bspec ≠ "" →
  rjsp_Ref rspec ≠ "" → pvcs ≠ [] →
  phase = "pre" ∨ phase = "workload" →
  forallb kind_name drop = true → forallb kind_name keep = true →
  process_is (job_command (BuildBackupJob bspec))
    (RunBackup (bjsp_PVCs bspec)
       (if bool_decide (bjsp_StagingConfigMap bspec = "") then "" else "/staging/api")
       (bjsp_Notes bspec)) ∧
  process_is (job_command (BuildRestoreVolumeJob rspec node pvcs))
    (RunRestoreVolume (rjsp_Ref rspec)
       ((λ p, mkPair ("pvc-" +:+ p +:+ ".pxar.didx") ("/backup/" +:+ p)) <$> pvcs) "") ∧
  process_is (job_command (BuildAPIFetchJob rspec configMap))
    (RunRestoreVolume (rjsp_Ref rspec) [mkPair "api.pxar.didx" "/staging/api"] configMap) ∧
  process_is (job_command (BuildApplyJob rspec phase configMap drop keep))
    (RunApplyManifests phase "/staging/api/api.yaml" drop keep).
Proof.
  intros Hb Hr Hp Hph Hd Hk. split_and!.
  - by apply process_backup.
  - by apply process_restore.
  - by apply process_fetch.
  - by apply process_apply.
Qed.

(** ** Archives and mounts *)

(** The pod mounts the claim at the path. *)
Definition mounts_claim (p : PodSpec) (claim : string) (ro : bool) (path : string) : Prop :=
  ∃ v m c, v ∈ ps_Volumes p ∧
    (λ s, (pvs_ClaimName s, pvs_ReadOnly s)) <$> vol_PersistentVolumeClaim v = Some (claim, ro) ∧
    c ∈ ps_Containers p ∧ m ∈ ct_VolumeMounts c ∧ vm_Name m = vol_Name v ∧ vm_MountPath m = path.

Lemma elem_zip_names (pvcs : list string) claim :
  claim ∈ pvcs → ∃ n, ∀ B (f : string → string → B),
    f n claim ∈ zip_with f (pvc_volume_name <$> seq 0 (length pvcs)) pvcs.
Proof.
  intros [i Hi]%list_elem_of_lookup. exists (pvc_volume_name i). intros B f.
  apply list_elem_of_lookup. exists i. rewrite lookup_zip_with, list_lookup_fmap, lookup_seq_lt, Hi.
  - done.
  - by eapply lookup_lt_Some.
Qed.

Lemma backup_mounts spec claim :
  claim ∈ bjsp_PVCs spec → mounts_claim (job_pod (BuildBackupJob spec)) claim true ("/backup/" +:+ claim).
Proof.
  intros Hc. destruct (elem_zip_names _ _ Hc) as [n Hn]. unfold BuildBackupJob, job_pod, mounts_claim.
  rewrite backup_pvc_parts_eq. cbn [job_Template pt_Spec ps_Containers ps_Volumes].
  eexists _, _, _. split; [apply elem_of_app; left; apply Hn|]. split; [done|]. split; [by left|].
  cbn [ct_VolumeMounts]. split; [apply elem_of_app; left; apply Hn|]. done.
Qed.

Lemma restore_mounts spec node pvcs claim :
  claim ∈ pvcs →
  mounts_claim (job_pod (BuildRestoreVolumeJob spec node pvcs)) claim false ("/backup/" +:+ claim).
Proof.
  intros Hc. destruct (elem_zip_names _ _ Hc) as [n Hn]. unfold BuildRestoreVolumeJob, mounts_claim.
  rewrite restore_pvc_parts_eq. erewrite volume_job_pod by reflexivity.
  cbn [ps_Containers ps_Volumes].
  eexists _, _, _. split; [apply elem_of_app; left; apply Hn|]. split; [done|]. split; [by left|].
  cbn [ct_VolumeMounts]. split; [apply elem_of_app; left; apply Hn|]. done.
Qed.

Lemma commands_getenv k env (t : list aevent) :
  commands (ev (resp := aresp) (AGetenv k) env :: t) = commands t.
Proof. done. Qed.

Lemma first_command (tr : list aevent) argv r :
  head (commands tr) = Some (argv, r) →
  ∃ i env out, tr !! i = Some (ev (resp := aresp) (ARun argv env out) r) ∧ commands (take i tr) = [].
Proof.
  induction tr as [|[c a] tr IH]; [done|]. intros Hh.
  assert (Hskip : command_of (existT c a) = None → head (commands tr) = Some (argv, r) →
    ∃ i env out, (existT c a :: tr) !! i = Some (ev (resp := aresp) (ARun argv env out) r) ∧
                 commands (take i (existT c a :: tr)) = []).
  { intros Hn Ht. destruct (IH Ht) as (i & env & out & Hi & Hc). exists (S i), env, out.
    split; [done|]. unfold commands. cbn [take omap list_omap]. by rewrite Hn. }
  destruct c; try by apply Hskip. injection Hh as -> ->. by exists 0%nat, env, out.
Qed.

Lemma archive_argv ns key pvcs api claim :
  claim ∈ pvcs → "pvc-" +:+ claim +:+ ".pxar:/backup/" +:+ claim ∈ backupArgv ns key pvcs api.
Proof.
  intros Hc. unfold backupArgv. apply elem_of_app. right. apply elem_of_app. left.
  apply list_elem_of_fmap. by exists claim.
Qed.

(** The first command of a backup Job's process stores every claim of the Job. *)
Lemma claim_stored bspec claim tr code argv r :
  claim ∈ bjsp_PVCs bspec →
  runs (agent_process (job_command (BuildBackupJob bspec))) tr code →
  head (commands tr) = Some (argv, r) →
  ∃ path, mounts_claim (job_pod (BuildBackupJob bspec)) claim true path ∧
          "pvc-" +:+ claim +:+ ".pxar" +:+ ":" +:+ path ∈ argv.
Proof.
  intros Hb Hr Hh. apply process_backup in Hr as (env & tr' & -> & Hr);
    [|by left; intros Hn; rewrite Hn in Hb; apply not_elem_of_nil in Hb].
  rewrite commands_getenv in Hh. apply first_command in Hh as (i & e & out & Hi & Hc).
  destruct (wp_lookup _ _ _ _ _ _ _ _ (wp_RunBackup _ _ _ _) Hr Hi)
    as (c & keyPath & ? & _ & _ & _ & _ & _ & Hcmd). rewrite Hc in Hcmd. destruct Hcmd as [-> _].
  exists ("/backup/" +:+ claim). split; [by apply backup_mounts|]. by apply archive_argv.
Qed.

(** A restore Job's process that succeeds has extracted the archive of every claim. *)
Lemma claim_restored rspec node pvcs claim tr :
  claim ∈ pvcs → rjsp_Ref rspec ≠ "" →
  runs (agent_process (job_command (BuildRestoreVolumeJob rspec node pvcs))) tr 0 →
  zero_exit tr ∨
  ∃ path ns key r, mounts_claim (job_pod (BuildRestoreVolumeJob rspec node pvcs)) claim false path ∧
    (restoreArgv ns key (rjsp_Ref rspec) ("pvc-" +:+ claim +:+ ".pxar" +:+ ".didx") path, r) ∈ commands tr ∧
    run_error r = None.
Proof.
  intros Hp Href Hr. apply process_restore in Hr as (env & tr' & -> & Hr);
    [|done|by intros ->; apply not_elem_of_nil in Hp].
  destruct (wp_runs _ _ _ _ _ (wp_RunRestoreVolume _ _ _ _) Hr) as [_ (_ & line & _ & Hend)].
  destruct Hend as [(_ & sizes & (c & keyPath & _ & Hall & _) & _)|(msg & _ & [Hz|Hz])];
    [|done|by left]. right.
  apply list_elem_of_lookup in Hp as [i Hi].
  destruct (Forall2_lookup_l _ _ _ i (mkPair ("pvc-" +:+ claim +:+ ".pxar.didx") ("/backup/" +:+ claim)) Hall)
    as ([argv r] & Hcmd & Hargv & Hok).
  { by rewrite list_lookup_fmap, Hi. }
  exists ("/backup/" +:+ claim), (cfg_NS c), keyPath, r. cbn in Hargv, Hok. subst argv.
  split; [apply restore_mounts; by eapply list_elem_of_lookup_2|]. split; [|done].
  rewrite commands_getenv. apply lookup_take_Some in Hcmd as [Hcmd _]. by eapply list_elem_of_lookup_2.
Qed.

(** A claim's archive is the same on both sides: the first command of a backup
    Job's process stores the claim, from the path where the pod mounts it
    read-only, as [pvc-<claim>.pxar]; and a restore Job's process that ends with
    exit code 0 has restored that archive, by its index name, to the path where
    its pod mounts the claim for writing. *)
Theorem claim_archives bspec rspec node pvcs claim :
  claim ∈ bjsp_PVCs bspec → claim ∈ pvcs → rjsp_Ref rspec ≠ "" →
  let archive := "pvc-" +:+ claim +:+ ".pxar" in
  (∀ tr code argv r, runs (agent_process (job_command (BuildBackupJob bspec))) tr code →
     head (commands tr) = Some (argv, r) →
     ∃ path, mounts_claim (job_pod (BuildBackupJob bspec)) claim true path ∧
             archive +:+ ":" +:+ path ∈ argv) ∧
  (∀ tr, runs (agent_process (job_command (BuildRestoreVolumeJob rspec node pvcs))) tr 0 →
     zero_exit tr ∨
     ∃ path ns key r, mounts_claim (job_pod (BuildRestoreVolumeJob rspec node pvcs)) claim false path ∧
       (restoreArgv ns key (rjsp_Ref rspec) (archive +:+ ".didx") path, r) ∈ commands tr ∧
       run_error r = None).
Proof.
  intros Hb Hp Href archive. unfold archive. split.
  - intros tr code argv r Hr Hh. destruct (claim_stored _ _ _ _ _ _ Hb Hr Hh) as (path & Hm & Hin).
    exists path. split; [done|]. by rewrite !append_assoc.
  - intros tr Hr. destruct (claim_restored _ _ _ _ _ Hp Href Hr) as [Hz|(path & ns & key & r & Hx)]; [by left|].
    right. exists path, ns, key, r. by rewrite !append_assoc.
Qed.
End jobs.

(** ** Two Jobs *)

Definition job_spec : BackupJobSpec :=
  mkBackupJobSpec "daily-n1" "apps" "n1" "daily-repo" ["data-a"; "zdata"] "" "note" "agent:1" "".
Definition volume_spec : RestoreJobSpec :=
  mkRestoreJobSpec "r-vol-n1" "r" "apps" "r-repo" "host/bk-1/T" "agent:1" "".

Definition job_run := process_run (job_command (BuildBackupJob job_spec)) good_script.

Example job_run_succeeds : job_run.1.2 = 0 ∧ length (commands job_run.1.1) = 3%nat.
Proof. by vm_compute. Qed.

Lemma claim_archives_witness :
  ∃ argv path, head (commands job_run.1.1).*1 = Some argv ∧
    mounts_claim (job_pod (BuildBackupJob job_spec)) "data-a" true path ∧
    "pvc-data-a.pxar" +:+ ":" +:+ path ∈ argv.
Proof.
  assert (Hh : ∃ argv r, head (commands job_run.1.1) = Some (argv, r) ∧
                         head (commands job_run.1.1).*1 = Some argv).
  { vm_compute. by eexists _, _. }
  destruct Hh as (argv & r & Hh & Ha).
  destruct (proj1 (claim_archives job_spec volume_spec "n1" ["data-a"] "data-a"
    ltac:(by left) ltac:(by left) ltac:(done)) job_run.1.1 job_run.1.2 argv r
    (exec_runs serve_host _ _) Hh) as (path & Hm & Hin).
  exists argv, path. split; [exact Ha|]. by split.
Defined.

Lemma job_processes_witness :
  process_is (job_command (BuildBackupJob job_spec)) (RunBackup ["data-a"; "zdata"] "" "note").
Proof.
  refine (proj1 (job_processes job_spec volume_spec "n1" ["data-a"] "pre" "cm" ["Secret"] []
    _ _ _ _ _ _)); first [by left|done].
Defined.
