(* ===== verification/Handoff.v ===== *)
(** * From the agent's report to the backup's status

    The agent ends with a line in the termination log of its container, which
    the controller reads back from the pod: the two sides together, over the
    interface of [Json]. *)

From S2P Require Import Prelude GoLib GoNet Kube Api Client Json SnapshotRef Trace BackupCtl.
From S2P Require Import AgentEnv AgentTrace AgentBackup Cluster BackupProps JsonText JsonProps AgentHost AgentBackupProps.
From Stdlib Require Import Ascii.
From stdpp Require Import options.

Local Open Scope Z_scope.

(** ** References are ASCII *)

Lemma all_digits_ascii s : all_digits s = true → is_ascii s = true.
Proof.
  induction s as [|c t IH]; [done|]. cbn. unfold is_digit. rewrite !andb_true_iff. intros [[_ Hc] Ht].
  split; [lia|by apply IH].
Qed.

Lemma ascii_pretty n : is_ascii (pretty (n : N)) = true.
Proof.
  destruct n as [|p]; [done|]. apply all_digits_ascii.
  destruct (decimal_fmt_d (Z.pos p)) as (_ & Hd & _); [lia|exact Hd].
Qed.

Lemma ascii_zpad w z : is_ascii (zpad w z) = true.
Proof.
  unfold zpad. rewrite !is_ascii_app, ascii_pretty.
  assert (Hr : ∀ n, is_ascii (String.string_of_list_ascii (repeat "0"%char n)) = true).
  { intros n. by induction n as [|n IH]. }
  rewrite Hr. by destruct (z <? 0).
Qed.

Lemma ascii_FormatRFC3339 sec : is_ascii (FormatRFC3339_UTC sec) = true.
Proof.
  unfold FormatRFC3339_UTC. cbv zeta. destruct (civil_of_days (sec / 86400)) as [[y m] d].
  by rewrite !is_ascii_app, !ascii_zpad.
Qed.

Lemma ascii_snapshotRef snap :
  is_ascii (sn_BackupType snap) = true → is_ascii (sn_BackupID snap) = true →
  is_ascii (snapshotRef snap) = true.
Proof.
  intros Ht Hi. unfold snapshotRef, ComposeSnapshotRef.
  by rewrite !is_ascii_app, Ht, Hi, ascii_FormatRFC3339.
Qed.

Lemma snapshotRef_nonempty snap : snapshotRef snap ≠ "".
Proof.
  unfold snapshotRef, ComposeSnapshotRef.
  destruct (sn_BackupType snap); rewrite ?append_cons; [|done]. by cbn.
Qed.

Section handoff.
Context {JL : JsonLib} {JW : JsonLaws}.

Lemma parseSnapshotList_size s l :
  parseSnapshotList s = inr l → Forall (λ x, - 2 ^ 63 ≤ sn_Size x < 2 ^ 63) l.
Proof using JW.
  unfold parseSnapshotList. destruct (json_snapshot_data s) as [e|l'] eqn:Hd.
  - destruct (json_snapshots s) as [e'|l'] eqn:Hs; [done|]. intros [= <-].
    by eapply json_snapshots_size.
  - intros [= <-]. by eapply json_snapshot_data_size.
Qed.

(** What the backup run found, as the controller reads it *)
Lemma success_read pvcs apiDir h c snap :
  found_snapshot pvcs apiDir h c snap →
  (∀ host, ev (resp := aresp) AHostname (inr host) ∈ h → is_ascii host = true) →
  json_result (successJSON snap +:+ newline) = inr (snapshotRef snap, sn_Size snap).
Proof using JW.
  intros (keyPath & r1 & r2 & host & snaps & _ & _ & _ & Hs & Hh & Hn) Ha.
  apply parseSnapshotList_size in Hs.
  destruct Hn as (l1 & l2 & Hf & _).
  assert (Hin : snap ∈ filter (in_group "host" host) snaps).
  { rewrite Hf. apply elem_of_app. right. by left. }
  apply list_elem_of_filter in Hin as [[Ht Hi] Hin].
  apply json_result_back.
  - apply ascii_snapshotRef; [by rewrite Ht|rewrite Hi; by apply Ha].
  - by eapply Forall_forall in Hs.
Qed.

Lemma jobResult_read ns job tr res :
  runs (jobResult ns job) tr (inr res) →
  ∃ pods, ev (CList KPod (Some ns) (SelMatchingLabels {["pbsbackup" := om_Name (job_Meta job)]}))
            (inr pods) ∈ tr ∧
    ∀ msg, pods_message pods = Some msg →
      res = match json_result msg with
            | inr (ref, bytes) =>
                if bool_decide (ref = "")
                then inl ("job " +:+ om_Name (job_Meta job) +:+ ": unreadable termination log " +:+ Quote msg)
                else inr (ref, bytes)
            | inl _ => inl ("job " +:+ om_Name (job_Meta job) +:+ ": unreadable termination log " +:+ Quote msg)
            end.
Proof using Type.
  unfold jobResult, api. intros Hr.
  apply runs_bind in Hr as (t1 & pods & t2 & -> & Hl & Hr).
  apply runs_bind in Hl as (t3 & a & t4 & -> & (a' & t5 & -> & -> & ->) & Hl).
  destruct Hl as [-> ->]. destruct a' as [e|pods]; destruct Hr as [-> Hr]; [done|].
  exists pods. split; [rewrite !elem_of_app; left; left; left|].
  intros msg Hm. injection Hr as ->. rewrite Hm. destruct (json_result msg) as [e|[ref bytes]]; [done|].
  by case_bool_decide.
Qed.

(** What the controller reads of a report that the agent wrote *)
Lemma handoff_result pvcs apiDir notes termlog tr code ns job ctr res :
  runs (RunBackup pvcs apiDir notes termlog) tr code →
  (∀ host, ev (resp := aresp) AHostname (inr host) ∈ tr → is_ascii host = true) →
  runs (jobResult ns job) ctr (inr res) →
  (∀ sel (pods : list Pod), ev (CList KPod (Some ns) sel) (inr pods) ∈ ctr →
     ∃ line, logged tr = [(termlog, line)] ∧ pods_message pods = Some line) →
  match res with
  | inr (ref, bytes) =>
      code = 0 ∧ ∃ c snap, configured tr c ∧ found_snapshot pvcs apiDir tr c snap ∧
                           ref = snapshotRef snap ∧ bytes = sn_Size snap
  | inl problem =>
      (code ≠ 0 ∨ zero_exit tr) ∧
      ∃ msg, problem = "job " +:+ om_Name (job_Meta job) +:+ ": unreadable termination log " +:+
                       Quote (errorJSON msg +:+ newline)
  end.
Proof using JW.
  intros Hr Ha Hc Hpods. apply (wp_runs _ _ _ _ _ (wp_RunBackup pvcs apiDir notes termlog)) in Hr as Hd.
  destruct Hd as (_ & _ & line & Hlog & Hend).
  apply jobResult_read in Hc as (pods & Hin & Hres). destruct (Hpods _ _ Hin) as (line' & Hlog' & Hm).
  rewrite Hlog in Hlog'. injection Hlog' as <-. rewrite (Hres _ Hm).
  destruct Hend as [(-> & c & snap & Hcfg & Hf & ->)|(msg & -> & Hz)].
  - rewrite (success_read _ _ _ _ _ Hf Ha), bool_decide_eq_false_2 by apply snapshotRef_nonempty.
    split; [done|]. by exists c, snap.
  - unfold errorJSON. rewrite json_error_no_result, bool_decide_eq_true_2 by done. cbv beta iota.
    split; [done|]. by exists msg.
Qed.

(** C14: The handoff: when the pod of a Job carries what the agent wrote to its
    termination log, the controller reads the reference and the size of exactly
    the snapshot the agent found (and the agent ended with code 0), or reports
    the Job's log as unreadable, and then the agent's run had failed. *)
Theorem agent_handoff pvcs apiDir notes termlog tr code ns job ctr res :
  runs (RunBackup pvcs apiDir notes termlog) tr code →
  (∀ host, ev (resp := aresp) AHostname (inr host) ∈ tr → is_ascii host = true) →
  runs (jobResult ns job) ctr (inr res) →
  (∀ sel (pods : list Pod), ev (CList KPod (Some ns) sel) (inr pods) ∈ ctr →
     ∃ line, logged tr = [(termlog, line)] ∧ pods_message pods = Some line) →
  match res with
  | inr (ref, bytes) =>
      code = 0 ∧ ∃ c snap, configured tr c ∧ found_snapshot pvcs apiDir tr c snap ∧
                           ref = snapshotRef snap ∧ bytes = sn_Size snap
  | inl problem =>
      (code ≠ 0 ∨ zero_exit tr) ∧
      ∃ msg, problem = "job " +:+ om_Name (job_Meta job) +:+ ": unreadable termination log " +:+
                       Quote (errorJSON msg +:+ newline)
  end.
Proof using JW. apply handoff_result. Qed.
End handoff.

(** ** A backup and the reconcile that reads its report *)

Definition reported_line : string :=
  js "{'snapshotRef':'host/bk-1/2025-05-16T13:20:00Z','bytes':4096}" +:+ newline.
Definition reported_pod : Pod :=
  mkPod (newMeta "daily-n1-x" "apps" {["pbsbackup" := "daily-n1"]})
    (mkPodSpec "" "Never" "" None [] [] "n1")
    [mkCS (Some reported_line) None].

Definition read_run := exec serve (jobResult "apps" done_job) (add_object KPod reported_pod base_cluster).

Definition host_ascii (e : aevent) : Prop :=
  match e with
  | existT c a => match c return aresp c → Prop with
                  | AHostname => λ r, match r with inr host => is_ascii host = true | inl _ => True end
                  | _ => λ _, True
                  end a
  end.
Definition pods_carry (termlog : string) (tr : list aevent) (e : kevent) : Prop :=
  match e with
  | existT c a => match c return resp c → Prop with
                  | CList KPod _ _ => λ r, match r with
                      | inr pods => ∃ line, logged tr = [(termlog, line)] ∧ pods_message pods = Some line
                      | inl _ => True
                      end
                  | _ => λ _, True
                  end a
  end.

Lemma agent_handoff_witness :
  read_run.1.2 = inr (inr ("host/bk-1/2025-05-16T13:20:00Z", 4096)) ∧
  ∃ c snap, configured backup_trace c ∧ found_snapshot ["data-a"; "zdata"] "" backup_trace c snap ∧
            "host/bk-1/2025-05-16T13:20:00Z" = snapshotRef snap ∧ 4096 = sn_Size snap.
Proof.
  assert (Hres : read_run.1.2 = inr (inr ("host/bk-1/2025-05-16T13:20:00Z", 4096))) by (by vm_compute).
  split; [exact Hres|].
  assert (Hrun : runs (jobResult "apps" done_job) read_run.1.1
                   (inr (inr ("host/bk-1/2025-05-16T13:20:00Z", 4096)))).
  { rewrite <- Hres. apply exec_runs. }
  assert (Hhost : Forall host_ascii backup_trace).
  { vm_compute. repeat constructor. }
  assert (Hpods : Forall (pods_carry "/dev/termination-log" backup_trace) read_run.1.1).
  { assert (Htr : read_run.1.1 =
      [ev (CList KPod (Some "apps") (SelMatchingLabels {["pbsbackup" := "daily-n1"]})) (inr [reported_pod])])
      by (by vm_compute).
    rewrite Htr. constructor; [|constructor]. exists reported_line. by split; vm_compute. }
  rewrite Forall_forall in Hhost. rewrite Forall_forall in Hpods.
  apply (agent_handoff (JW := go_JsonLaws _ _) ["data-a"; "zdata"] "" "note" "/dev/termination-log"
           backup_trace 0 "apps" done_job read_run.1.1
           (inr ("host/bk-1/2025-05-16T13:20:00Z", 4096)) backup_run_runs).
  - intros host Hin. exact (Hhost _ Hin).
  - exact Hrun.
  - intros sel pods Hin. exact (Hpods _ Hin).
Defined.
