(* ===== verification/Rbac.v ===== *)
(** * The permissions of the operator: the rbac markers of internal/controller

    Each controller declares, in the [+kubebuilder:rbac] markers above its
    [Reconcile], the rules it asks for; the manager's ClusterRole
    (config/rbac/role.yaml) is their union.  [needs] is what the API server checks
    when a call of a reconciler reaches it: the client is the manager's, so a read
    goes through an informer, which lists and watches; an event goes to the API
    group events.k8s.io, where a repetition is a patch; an exec is a POST on the
    subresource; creating a binding needs [bind] on the role it refers to. *)

From S2P Require Import Prelude GoLib Sort Kube Api Doc Client Json JobBuild RestorePlan Hooks.
From S2P Require Import Serialize ControllerLib.
From stdpp Require Import options.

(** A marker; the group of the core API is the empty string, and no resource names
    are all names. *)
Record PolicyRule := mkRule {
  pr_APIGroups : list string; pr_Resources : list string; pr_ResourceNames : list string;
  pr_Verbs : list string }.

Definition rule (group resource : string) (verbs : list string) : PolicyRule :=
  mkRule [group] [resource] [] verbs.

Definition pbs_group : string := "pbs.sharifmind.ir".
Definition rbac_group : string := "rbac.authorization.k8s.io".

(** pbsrepo_controller.go *)
Definition repo_rules : list PolicyRule :=
  [ rule pbs_group "pbsrepos" ["get"; "list"; "watch"];
    rule pbs_group "pbsrepos/status" ["get"; "update"; "patch"];
    rule "" "secrets" ["get"; "list"; "watch"];
    rule "" "events" ["create"; "patch"];
    rule "events.k8s.io" "events" ["create"; "patch"] ].

(** pbsbackup_controller.go *)
Definition backup_rules : list PolicyRule :=
  [ rule pbs_group "pbsbackups" ["get"; "list"; "watch"; "create"; "update"; "patch"];
    rule pbs_group "pbsbackups/status" ["get"; "update"; "patch"];
    rule "batch" "jobs" ["get"; "list"; "watch"; "create"];
    rule "" "pods" ["get"; "list"; "watch"];
    rule "" "pods/exec" ["create"];
    rule "" "persistentvolumeclaims" ["get"; "list"; "watch"];
    rule "" "persistentvolumes" ["get"; "list"; "watch"];
    rule "" "secrets" ["create"; "update"];
    rule "" "events" ["create"; "patch"];
    rule "events.k8s.io" "events" ["create"; "patch"];
    rule pbs_group "pbsrepos" ["get"; "list"; "watch"];
    rule "*" "*" ["get"; "list"];
    rule "" "nodes" ["get"; "list"; "watch"];
    rule "" "configmaps" ["get"; "create"; "update"; "watch"] ].

(** pbsschedule_controller.go *)
Definition schedule_rules : list PolicyRule :=
  [ rule pbs_group "pbsschedules" ["get"; "list"; "watch"; "create"; "update"; "patch"; "delete"];
    rule pbs_group "pbsschedules/status" ["get"; "update"; "patch"];
    rule pbs_group "pbsschedules/finalizers" ["update"];
    rule pbs_group "pbsbackups" ["get"; "list"; "watch"; "create"] ].

(** pbsrestore_controller.go *)
Definition restore_rules : list PolicyRule :=
  [ rule pbs_group "pbsrestores" ["get"; "list"; "watch"; "create"; "update"; "patch"; "delete"];
    rule pbs_group "pbsrestores/status" ["get"; "update"; "patch"];
    rule pbs_group "pbsrestores/finalizers" ["update"];
    rule "batch" "jobs" ["get"; "list"; "watch"; "create"];
    rule "" "namespaces" ["get"; "list"; "watch"; "create"];
    rule "" "secrets" ["get"; "list"; "watch"; "create"; "update"];
    rule "" "configmaps" ["get"; "list"; "watch"];
    rule "" "events" ["create"; "patch"];
    rule "events.k8s.io" "events" ["create"; "patch"];
    rule "" "nodes" ["get"; "list"; "watch"];
    rule "" "serviceaccounts" ["get"; "list"; "watch"; "create"];
    rule rbac_group "rolebindings" ["get"; "list"; "watch"; "create"];
    rule rbac_group "clusterrolebindings" ["get"; "list"; "watch"; "create"];
    mkRule [rbac_group] ["clusterroles"] ["pbs-operator-pbs-restore"] ["bind"];
    mkRule [rbac_group] ["clusterroles"] ["pbs-operator-pbs-restore-cluster"] ["bind"] ].

Definition manager_role : list PolicyRule :=
  repo_rules ++ backup_rules ++ schedule_rules ++ restore_rules.

(** config/rbac/role.yaml, which is generated from the markers, and its copy in
    charts/pbs-operator/templates/clusterrole-manager.yaml *)
Definition role_yaml : list PolicyRule :=
  [ mkRule [""] ["configmaps"; "secrets"] [] ["create"; "get"; "list"; "update"; "watch"];
    mkRule [""] ["namespaces"; "serviceaccounts"] [] ["create"; "get"; "list"; "watch"];
    mkRule [""] ["nodes"; "persistentvolumeclaims"; "persistentvolumes"; "pods"] []
      ["get"; "list"; "watch"];
    mkRule [""] ["pods/exec"] [] ["create"];
    mkRule [""; "events.k8s.io"] ["events"] [] ["create"; "patch"];
    mkRule ["*"] ["*"] [] ["get"; "list"];
    mkRule ["batch"] ["jobs"] [] ["create"; "get"; "list"; "watch"];
    mkRule [pbs_group] ["pbsbackups"] [] ["create"; "get"; "list"; "patch"; "update"; "watch"];
    mkRule [pbs_group]
      ["pbsbackups/status"; "pbsrepos/status"; "pbsrestores/status"; "pbsschedules/status"] []
      ["get"; "patch"; "update"];
    mkRule [pbs_group] ["pbsrepos"] [] ["get"; "list"; "watch"];
    mkRule [pbs_group] ["pbsrestores"; "pbsschedules"] []
      ["create"; "delete"; "get"; "list"; "patch"; "update"; "watch"];
    mkRule [pbs_group] ["pbsrestores/finalizers"; "pbsschedules/finalizers"] [] ["update"];
    mkRule [rbac_group] ["clusterrolebindings"; "rolebindings"] []
      ["create"; "get"; "list"; "watch"];
    mkRule [rbac_group] ["clusterroles"] ["pbs-operator-pbs-restore"] ["bind"];
    mkRule [rbac_group] ["clusterroles"] ["pbs-operator-pbs-restore-cluster"] ["bind"] ].

(** ** What a call needs *)

Record access := mkAccess {
  ac_Group : string; ac_Resource : string; ac_Name : string; ac_Verb : string }.

Definition one_of (l : list string) (x : string) : bool :=
  bool_decide ("*" ∈ l) || bool_decide (x ∈ l).
Definition grants (r : PolicyRule) (a : access) : bool :=
  one_of (pr_APIGroups r) (ac_Group a) && one_of (pr_Resources r) (ac_Resource a) &&
  one_of (pr_Verbs r) (ac_Verb a) &&
  (bool_decide (pr_ResourceNames r = []) || bool_decide (ac_Name a ∈ pr_ResourceNames r)).
Definition permitted (role : list PolicyRule) (a : access) : bool :=
  existsb (λ r, grants r a) role.

Definition resource_of (k : kind) : string * string :=
  match k with
  | KPBSBackup => (pbs_group, "pbsbackups") | KPBSRepo => (pbs_group, "pbsrepos")
  | KPBSRestore => (pbs_group, "pbsrestores") | KPBSSchedule => (pbs_group, "pbsschedules")
  | KSecret => ("", "secrets") | KConfigMap => ("", "configmaps")
  | KPVC => ("", "persistentvolumeclaims") | KPV => ("", "persistentvolumes")
  | KPod => ("", "pods") | KNode => ("", "nodes") | KJob => ("batch", "jobs")
  | KNamespace => ("", "namespaces") | KServiceAccount => ("", "serviceaccounts")
  | KRoleBinding => (rbac_group, "rolebindings")
  | KClusterRoleBinding => (rbac_group, "clusterrolebindings")
  end.

Definition on_kind (k : kind) (sub verb : string) (name : string) : access :=
  mkAccess (resource_of k).1 ((resource_of k).2 +:+ sub) name verb.

(** The role a binding refers to *)
Definition bound_role (k : kind) : obj k → option RoleRef :=
  match k with
  | KRoleBinding => λ o, Some (rb_RoleRef o)
  | KClusterRoleBinding => λ o, Some (crb_RoleRef o)
  | _ => λ _, None
  end.

Definition role_resource (r : RoleRef) : string :=
  if bool_decide (rr_Kind r = "ClusterRole") then "clusterroles" else "roles".

Section needs.
Context `{GroupLib}.

(** Discovery, the PBS server, the clock and the process are not guarded by the
    role. *)
Definition needs (c : call) : list access :=
  match c with
  | CGet k key => on_kind k "" "get" (nn_Name key) :: ((λ v, on_kind k "" v "") <$> ["list"; "watch"])
  | CList k _ _ => (λ v, on_kind k "" v "") <$> ["list"; "watch"]
  | CCreate k o =>
      on_kind k "" "create" (om_Name (obj_meta k o)) ::
      match bound_role k o with
      | Some r => [mkAccess (rr_APIGroup r) (role_resource r) (rr_Name r) "bind"]
      | None => []
      end
  | CUpdate k o => [on_kind k "" "update" (om_Name (obj_meta k o))]
  | CPatch k _ o => [on_kind k "" "patch" (om_Name (obj_meta k o))]
  | CStatusPatch k _ o => [on_kind k "/status" "patch" (om_Name (obj_meta k o))]
  | CEvent _ _ _ _ => (λ v, mkAccess "events.k8s.io" "events" "" v) <$> ["create"; "patch"]
  | CExec _ pod _ _ => [mkAccess "" "pods/exec" pod "create"]
  | CListDynamic (gv, name) _ =>
      match ParseGroupVersion gv with
      | inr (g, _) => [mkAccess g name "" "list"]
      | inl _ => []
      end
  | _ => []
  end.
End needs.
