(* ===== verification/RbacProps.v ===== *)
(** * The manager's role is enough, but for one call

    What the reconcilers call, against what their markers grant. *)

From S2P Require Import Prelude GoLib Sort Kube Api Doc Client Json SnapshotRef JobBuild RestorePlan.
From S2P Require Import Hooks Serialize ControllerLib BackupCtl BackupSafety RestoreCtl ScheduleCtl.
From S2P Require Import PbsClient RepoCtl Cluster PbsProps Rbac.
From stdpp Require Import options.

Local Open Scope Z_scope.

Section covered.
Context `{GroupLib}.

Definition covered (c : call) : Prop := forallb (permitted manager_role) (needs c) = true.

(** The patch with which [adoptConfigMap] takes over the fetched ConfigMap *)
Definition adoption (c : call) : Prop :=
  match c with CPatch KConfigMap _ _ => True | _ => False end.

Lemma permitted_in role r a : r ∈ role → grants r a = true → permitted role a = true.
Proof. intros Hr Ha. apply existsb_exists. exists r. by rewrite <- list_elem_of_In. Qed.

(** The wildcard of the backup controller *)
Lemma listing_permitted g resource name : permitted manager_role (mkAccess g resource name "list") = true.
Proof.
  apply (permitted_in _ (rule "*" "*" ["get"; "list"])); [|done].
  unfold manager_role, backup_rules. rewrite !elem_of_app, !elem_of_cons. tauto.
Qed.

Lemma read_covered c : is_read c = true → covered c.
Proof.
  unfold covered. destruct c as [k key|k ns sel| | | | | | | | | | | | |[gv name] ns| | |]; try done;
    intros _; [by destruct k..|]. cbn [needs].
  destruct (ParseGroupVersion gv) as [e|[g v]]; [done|]. cbn [forallb]. by rewrite listing_permitted.
Qed.

Lemma covered_reads {R} (p : kprog R) : calls_in is_read p → calls_in covered p.
Proof. apply calls_in_mono. intros c Hc. apply read_covered, Is_true_true, Hc. Qed.

(** The writes of the reconcilers, by kind *)
Definition writes_covered (c : call) : Prop :=
  match c with
  | CCreate (KSecret | KConfigMap | KJob | KPBSBackup | KNamespace | KServiceAccount) _
  | CUpdate (KSecret | KConfigMap) _
  | CStatusPatch (KPBSBackup | KPBSRepo | KPBSRestore | KPBSSchedule) _ _
  | CEvent _ _ _ _ | CExec _ _ _ _ | CMetricSet _ _ _ | CMetricInc _ _
  | CDial _ _ | CHttp _ _ | CSelect _ => True
  | _ => is_read c = true
  end.

Lemma write_covered c : writes_covered c → covered c.
Proof.
  destruct c as [| |[]|[]|[]|[]| | | | | | | | | | | |]; intros Hc;
    first [by apply read_covered | done].
Qed.
End covered.

(** ** Which calls a reconciler makes *)

Section calls.
Context `{KubeLib} `{JsonLib} `{GroupLib} `{YamlLib} `{SortSlice} `{CronLib} `{HttpLib}.

Lemma calls_read_mono {R} (p : kprog R) : calls_in is_read p → calls_in writes_covered p.
Proof. apply calls_in_mono. by intros [| |[]|[]|[]|[]| | | | | | | | | | | |]. Qed.

Lemma calls_http c ctx {A} method path body (out : option (string → error + A)) :
  calls_in writes_covered (do_ c ctx method path body out).
Proof. unfold do_, http_Do. calls_auto. Qed.

Lemma calls_repo req : calls_in writes_covered (RepoCtl.Reconcile req).
Proof.
  pose proof (@calls_http).
  unfold RepoCtl.Reconcile, producerCreds, bootstrap, bootstrapToken, fetchSecret, succeed, fail_,
    finish, setCondition, probe_stale, ListSnapshots, EnsureNamespace, operatorNamespace.
  calls_auto.
Qed.

Lemma calls_schedule fuel req : calls_in writes_covered (ScheduleCtl.Reconcile fuel req).
Proof.
  unfold ScheduleCtl.Reconcile, gate, ScheduleCtl.hold, patchStatusIfChanged, serve_slot, fireBackup,
    refresh, activeBackups, patchStatus, patchStatusIfChanged.
  calls_auto.
Qed.

Lemma writes_recordOutcome b phase status reason message extra :
  (∀ s, calls_in writes_covered (extra s)) →
  calls_in writes_covered (recordOutcome b phase status reason message extra).
Proof. intros He. unfold recordOutcome. calls_auto. Qed.
#[local] Hint Resolve writes_recordOutcome : traces.

Lemma calls_stamps s :
  calls_in writes_covered (stamp_StartedAt s) ∧ calls_in writes_covered (stamp_CompletedAt s).
Proof. split; apply calls_read_mono; [apply calls_stamp_StartedAt|apply calls_stamp_CompletedAt]. Qed.

Section backup.
Context (r : PBSBackupReconciler).

Lemma calls_outcomes b :
  (∀ reason message wait, calls_in writes_covered (BackupCtl.hold b reason message wait)) ∧
  (∀ placed, calls_in writes_covered (runBackup b placed)) ∧
  (∀ reason message placed, calls_in writes_covered (failBackup r b reason message placed)).
Proof.
  pose proof (λ s, proj1 (calls_stamps s)). pose proof (λ s, proj2 (calls_stamps s)).
  unfold BackupCtl.hold, runBackup, failBackup, BackupCtl.emit, observeFailed, Eventf. split_and!; intros; calls_auto.
Qed.

Lemma calls_conclude b placed : calls_in writes_covered (conclude r b placed).
Proof.
  destruct (calls_outcomes b) as (_ & ? & ?). pose proof (λ s, proj2 (calls_stamps s)).
  assert (∀ ns pl st t ref, calls_in writes_covered (collect_results ns pl st t ref)).
  { intros. apply calls_read_mono, calls_collect_results. }
  unfold conclude, completeBackup, BackupCtl.emit, observeCompleted, Eventf. calls_auto.
Qed.

Lemma calls_ensure_jobs b repoSecret staging groups nodes placed :
  calls_in writes_covered (ensure_jobs r b repoSecret staging groups nodes placed).
Proof.
  destruct (calls_outcomes b) as (? & _ & _). revert placed.
  induction nodes as [|node nodes IH]; intros placed; cbn [ensure_jobs]; [done|].
  unfold ensure_job, Get, Create. calls_auto.
Qed.

Lemma calls_runPreHooks pvcs pods : calls_in writes_covered (runPreHooks r pvcs pods).
Proof.
  unfold runPreHooks. generalize (foldl (λ m p, <[pod_name p := p]> m) (∅ : gmap string Pod) (hooked_pods pvcs pods)).
  intros byName. induction (sort_Strings _) as [|name names IH]; cbn [run_hooks]; [done|].
  unfold Exec. calls_auto.
Qed.

Lemma calls_backup req : calls_in writes_covered (BackupCtl.Reconcile r req).
Proof.
  assert (∀ b, (∀ reason message wait, calls_in writes_covered (BackupCtl.hold b reason message wait)) ∧
    (∀ reason message placed, calls_in writes_covered (failBackup r b reason message placed)))
    as Ho by (intros b; destruct (calls_outcomes b); tauto).
  pose proof (λ b, proj1 (Ho b)). pose proof (λ b, proj2 (Ho b)). pose proof calls_conclude.
  pose proof calls_ensure_jobs. pose proof calls_runPreHooks.
  assert (calls_in writes_covered firstNode) by apply calls_read_mono, calls_firstNode.
  assert (∀ b, calls_in writes_covered (selectPVCs b)) by (intros; apply calls_read_mono, calls_selectPVCs).
  assert (∀ pvcs pods groups, calls_in writes_covered (place_all pvcs pods groups))
    by (intros; apply calls_read_mono, calls_place_all).
  assert (∀ b repo, calls_in writes_covered (BackupCtl.ensureRepoSecret b repo)).
  { intros. eapply calls_in_mono; [|apply calls_ensureRepoSecret]. by intros [| |[]|[]|[]|[]| | | | | | | | | | | |]. }
  assert (∀ b, calls_in writes_covered (stage_api r b)).
  { intros. eapply calls_in_mono; [|apply calls_stage_api]. by intros [| |[]|[]|[]|[]| | | | | | | | | | | |]. }
  unfold BackupCtl.Reconcile, reconcile_backup, reconcile_place, reconcile_jobs, Get, List_. calls_auto.
Qed.
End backup.

(** A restore also creates bindings, of the two roles it may bind, and adopts. *)
Definition restore_call (c : call) : Prop :=
  match c with
  | CCreate KRoleBinding o => ∃ rs, o = restore_rb rs
  | CCreate KClusterRoleBinding o => ∃ rs, o = restore_crb rs
  | CPatch KConfigMap _ _ => True
  | _ => writes_covered c
  end.

Lemma restore_call_covered c : restore_call c → covered c ∨ adoption c.
Proof.
  destruct c as [| |[]|[]|[]|[]| | | | | | | | | | | |]; intros Hc; try (by right);
    left; try (by apply write_covered); by destruct Hc as [rs ->].
Qed.

Section restore.
Context (AgentImage : string).

Lemma calls_restore_outcomes rs :
  (∀ reason message wait, calls_in restore_call (holdRestore rs reason message wait)) ∧
  (∀ reason message, calls_in restore_call (failRestore rs reason message)) ∧
  calls_in restore_call (completeRestore rs) ∧
  (∀ phase err, calls_in restore_call (requeueOrHold rs phase err)).
Proof.
  unfold requeueOrHold, holdRestore, failRestore, completeRestore, recordRestore, refresh_jobs,
    liveJobs, rstamp_StartedAt, rstamp_CompletedAt, RestoreCtl.emit, Eventf.
  split_and!; intros; calls_auto.
Qed.

Lemma calls_ensureJob rs name build : calls_in restore_call (ensureJob rs name build).
Proof. unfold ensureJob, Get, Create. calls_auto. Qed.

Lemma calls_await rs phase step next :
  calls_in restore_call step → calls_in restore_call next →
  calls_in restore_call (await rs phase step next).
Proof.
  intros Hs Hn. unfold await. destruct (calls_restore_outcomes rs) as (_ & _ & _ & ?). calls_auto.
Qed.

Lemma calls_ensureVolumeJobs rs spec docs pvcs :
  calls_in restore_call (ensureVolumeJobs rs spec docs pvcs).
Proof.
  assert (∀ groups nodes, calls_in restore_call (ensure_volumes rs spec groups nodes)).
  { intros groups nodes. pose proof calls_ensureJob.
    induction nodes as [|node nodes IH]; cbn [ensure_volumes]; [done|]. calls_auto. }
  unfold ensureVolumeJobs, firstNode, List_, api. calls_auto.
Qed.

Lemma calls_reconcile_volumes rs spec cm :
  calls_in restore_call (reconcile_volumes rs spec cm).
Proof.
  destruct (calls_restore_outcomes rs) as (_ & ? & ? & _).
  assert (calls_in restore_call (reconcile_workload rs spec)) by (by apply calls_await; [apply calls_ensureJob|]).
  unfold reconcile_volumes. calls_auto. by apply calls_await; [apply calls_ensureVolumeJobs|].
Qed.

Lemma calls_reconcile_stages rs spec : calls_in restore_call (reconcile_stages rs spec).
Proof.
  destruct (calls_restore_outcomes rs) as (? & _ & _ & _).
  unfold reconcile_stages. apply calls_await; [apply calls_ensureJob|]. unfold adoptConfigMap, Get, Patch.
  calls_auto; (apply calls_await; [apply calls_ensureJob|apply calls_reconcile_volumes]).
Qed.

Lemma calls_restore req : calls_in restore_call (RestoreCtl.Reconcile AgentImage req).
Proof.
  pose proof (λ rs, proj1 (calls_restore_outcomes rs)).
  pose proof (λ rs, proj1 (proj2 (calls_restore_outcomes rs))). pose proof calls_reconcile_stages.
  unfold RestoreCtl.Reconcile, reconcile_restore, ensureTargetNamespace, RestoreCtl.ensureRepoSecret,
    operatorNamespace, ensureJobRBAC, create_if_missing, Getenv, Get, Create, Update, api.
  calls_auto; by eexists.
Qed.
End restore.

(** C30: The role of the manager is enough for the four reconcilers, with one
    exception: whatever the API server and the PBS server answer, every call of a
    reconcile needs only what some marker grants (a read the list and the watch of
    the informer behind it, a binding the right to bind its role), except the patch
    by which a restore adopts the ConfigMap its fetch Job uploaded: no marker
    grants [patch] on ConfigMaps. *)
Theorem manager_role_suffices r image fuel req :
  calls_in covered (RepoCtl.Reconcile req) ∧
  calls_in covered (BackupCtl.Reconcile r req) ∧
  calls_in covered (ScheduleCtl.Reconcile fuel req) ∧
  calls_in (λ c, covered c ∨ adoption c) (RestoreCtl.Reconcile image req) ∧
  ∀ before after, ¬ covered (CPatch KConfigMap before after).
Proof.
  split_and!; [..|by vm_compute].
  1-3: eapply calls_in_mono; [apply write_covered|].
  - apply calls_repo.
  - apply calls_backup.
  - apply calls_schedule.
  - eapply calls_in_mono; [apply restore_call_covered|apply calls_restore].
Qed.
End calls.

(** ** The generated role

    A role is within another when every combination its rules name is named, in the
    same words, by one rule of the other. *)
Definition within (r r' : PolicyRule) (g res v : string) : bool :=
  bool_decide (g ∈ pr_APIGroups r') && bool_decide (res ∈ pr_Resources r') &&
  bool_decide (v ∈ pr_Verbs r') && bool_decide (pr_ResourceNames r' = pr_ResourceNames r).
Definition role_within (role role' : list PolicyRule) : bool :=
  forallb (λ r, forallb (λ g, forallb (λ res, forallb (λ v,
    existsb (λ r', within r r' g res v) role')
    (pr_Verbs r)) (pr_Resources r)) (pr_APIGroups r)) role.

Lemma one_of_word l x : one_of l x = true ↔ ∃ w, w ∈ l ∧ (w = "*" ∨ w = x).
Proof.
  unfold one_of. rewrite orb_true_iff, !bool_decide_eq_true. split; [|intros (w & ? & [->| ->]); tauto].
  intros [?|?]; eexists; split; eauto.
Qed.

Lemma forallb_elem {A} (P : A → bool) l x : forallb P l = true → x ∈ l → P x = true.
Proof. rewrite forallb_forall. setoid_rewrite <- list_elem_of_In. eauto. Qed.

Lemma role_within_permitted role role' a :
  role_within role role' = true → permitted role a = true → permitted role' a = true.
Proof.
  unfold role_within, permitted. rewrite !existsb_exists. intros Hw (r & Hr%list_elem_of_In & Hg).
  unfold grants in Hg. rewrite !andb_true_iff, !one_of_word in Hg.
  destruct Hg as [[[(g & Hg & Hg') (res & Hres & Hres')] (v & Hv & Hv')] Hn].
  pose proof (forallb_elem _ _ _ (forallb_elem _ _ _ (forallb_elem _ _ _
    (forallb_elem _ _ _ Hw Hr) Hg) Hres) Hv) as Hex.
  apply existsb_exists in Hex as (r' & Hr' & Hin). exists r'. split; [done|].
  unfold within in Hin. rewrite !andb_true_iff, !bool_decide_eq_true in Hin.
  destruct Hin as [[[H1 H2] H3] H4]. unfold grants. rewrite H4, !andb_true_iff, !one_of_word. split_and!; eauto.
Qed.

(** The role that is deployed, in config/rbac and in the chart, permits exactly
    what the markers of the controllers ask for. *)
Theorem role_yaml_markers a : permitted role_yaml a = permitted manager_role a.
Proof.
  apply eq_true_iff_eq. split; apply role_within_permitted; by vm_compute.
Qed.

(** ** A server that enforces the role *)

Definition forbidden : apierror := mkAPIError ReasonForbidden "forbidden".

(** The answer of a server to a call that the role does not cover *)
Definition guarded (role : list PolicyRule) (c : call) (s : cluster) : resp c * cluster :=
  if forallb (permitted role) (needs c) then serve c s
  else match c return resp c * cluster with
       | CPatch k _ _ => (inl forbidden, s)
       | c => serve c s
       end.

Definition own_restore : PBSRestore :=
  mkRestore (meta0 "apps" "r") (mkRestoreSpec "repo" "host/daily-n1/T" "apps" [] [])
    (mkRestoreStatus RestorePhaseNew [] None None (Some [mkRJS "StagingAPI" "r-api-fetch" "complete"])).
Definition fetched_cm : ConfigMap :=
  mkConfigMap (meta0 "apps" "r-api") {["api.yaml" := "PersistentVolumeClaim/data"]}.
Definition adopting_run (role : list PolicyRule) :=
  exec (guarded role) (RestoreCtl.Reconcile "" (mkNN "apps" "r"))
    (add_object KPBSRestore own_restore (add_object KConfigMap fetched_cm base_cluster)).
Definition owners_after (role : list PolicyRule) : list (list OwnerReference) :=
  (λ cm, om_OwnerReferences (cm_Meta cm)) <$> cl_objects (adopting_run role).2 KConfigMap.

(** A restore in the target namespace whose fetch Job is done: under the role of
    the markers the ConfigMap stays without an owner, so it outlives the restore;
    with [patch] granted it is adopted.  The reconcile itself does not notice. *)
Example adoption_forbidden :
  owners_after manager_role = [[]] ∧
  (length <$> owners_after (rule "" "configmaps" ["patch"] :: manager_role)) = [1%nat] ∧
  (adopting_run manager_role).1.2 = (adopting_run (rule "" "configmaps" ["patch"] :: manager_role)).1.2.
Proof. by vm_compute. Qed.
