(* ===== verification/Schema.v ===== *)
(** * What the API server accepts: the schemas of the custom resources

    The validation of config/crd/bases, generated from the markers and the types of
    api/v1: the enumerations are the types of [Api]; here are the patterns, the
    lengths and the list keys.  The API server refuses a status patch whose result
    does not validate. *)

From S2P Require Import Prelude GoLib GoNet GoUtf8 Kube Api Client.
From Stdlib Require Import Ascii.
From stdpp Require Import options.

Local Open Scope Z_scope.

Fixpoint all_bytes_of (P : ascii → bool) (s : string) : bool :=
  match s with EmptyString => true | String c t => P c && all_bytes_of P t end.
Fixpoint last_byte (c : ascii) (s : string) : ascii :=
  match s with EmptyString => c | String c' t => last_byte c' t end.

Definition is_lower (c : ascii) : bool := (97 <=? byte_val c) && (byte_val c <=? 122).
Definition is_upper (c : ascii) : bool := (65 <=? byte_val c) && (byte_val c <=? 90).
Definition is_letter (c : ascii) : bool := is_lower c || is_upper c.
Definition is_alnum (c : ascii) : bool := is_letter c || is_digit c.

(** [first]([inner]*[last])?, as a pattern of a whole string *)
Definition framed (first inner last : ascii → bool) (s : string) : bool :=
  match s with
  | EmptyString => false
  | String c EmptyString => first c
  | String c t => first c && all_bytes_of inner t && last (last_byte c t)
  end.

(** The pattern [^[A-Za-z]([A-Za-z0-9_,:]*[A-Za-z0-9_])?$] of a reason *)
Definition reason_pattern : string → bool :=
  framed is_letter (λ c, is_alnum c || bool_decide (c ∈ ["_"; ","; ":"]%char))
    (λ c, is_alnum c || Ascii.eqb c "_").

(** A label of the prefix of a condition type, and what follows the prefix *)
Definition dns_label : string → bool :=
  framed (λ c, is_lower c || is_digit c) (λ c, is_lower c || is_digit c || Ascii.eqb c "-")
    (λ c, is_lower c || is_digit c).
Definition type_name : string → bool :=
  framed is_alnum (λ c, is_alnum c || bool_decide (c ∈ ["-"; "_"; "."]%char)) is_alnum.

Definition type_pattern (s : string) : bool :=
  match SplitByte s "/" with
  | [name] => type_name name
  | [prefix; name] => forallb dns_label (SplitByte prefix ".") && type_name name
  | _ => false
  end.

(** The length of a string in characters *)
Definition rune_count (s : string) : Z :=
  Z.of_nat (String.length (map_runes (λ _ _ _, "x") s)).

Definition valid_condition (c : Condition) : bool :=
  (0 <=? c_ObservedGeneration c) &&
  (rune_count (c_Message c) <=? 32768) &&
  (rune_count (c_Reason c) <=? 1024) && (1 <=? rune_count (c_Reason c)) &&
  reason_pattern (c_Reason c) &&
  (rune_count (c_Type c) <=? 316) && type_pattern (c_Type c).

(** A list with the map key [type] *)
Definition valid_conditions (cs : list Condition) : bool :=
  forallb valid_condition cs && bool_decide (NoDup (c_Type <$> cs)).

Definition is_int64 (z : Z) : bool := (- 2 ^ 63 <=? z) && (z <? 2 ^ 63).

Definition valid_repo_status (s : PBSRepoStatus) : bool := valid_conditions (rst_Conditions s).
Definition valid_backup_status (s : PBSBackupStatus) : bool :=
  valid_conditions (bst_Conditions s) && is_int64 (bst_Bytes s).
Definition valid_restore_status (s : PBSRestoreStatus) : bool := valid_conditions (rest_Conditions s).
Definition valid_schedule_status (s : PBSScheduleStatus) : bool := valid_conditions (sst_Conditions s).

(** The status of an object, and its generation, validate. *)
Definition valid_obj (k : kind) : obj k → bool :=
  match k with
  | KPBSBackup => λ o, valid_backup_status (bk_Status o) && (0 <=? om_Generation (bk_Meta o))
  | KPBSRepo => λ o, valid_repo_status (repo_Status o) && (0 <=? om_Generation (repo_Meta o))
  | KPBSRestore => λ o, valid_restore_status (rt_Status o) && (0 <=? om_Generation (rt_Meta o))
  | KPBSSchedule => λ o, valid_schedule_status (sc_Status o) && (0 <=? om_Generation (sc_Meta o))
  | _ => λ _, true
  end.

(** What the API server fills in when a PBSRepo is written: the marker
    [default=8007] of [spec.port] *)
Definition default_repo_spec (s : PBSRepoSpec) : PBSRepoSpec :=
  if bool_decide (rsp_Port s = 0) then
    mkRepoSpec (rsp_Host s) 8007 (rsp_Datastore s) (rsp_Namespace s) (rsp_Fingerprint s)
      (rsp_SecretRef s) (rsp_BootstrapTokenRef s)
  else s.
Definition valid_repo_spec (s : PBSRepoSpec) : bool :=
  (1 <=? rsp_Port s) && (rsp_Port s <=? 65535) && (3 <=? rune_count (rsp_Datastore s)).

(** *** The pattern of a cron expression *)

(** [\s] of a pattern *)
Definition re_space (c : ascii) : bool :=
  bool_decide (byte_val c ∈ [9; 10; 12; 13; 32]).

(** Where a match of [^(\S+\s+){n}\S+$] stands: before the first field, in a field,
    or in the space before a field *)
Inductive cron_state := CronStart | CronField | CronSpace.
Fixpoint cron_match (n : nat) (st : cron_state) (s : string) : bool :=
  match s with
  | EmptyString => match st, n with CronField, O => true | _, _ => false end
  | String c t =>
      if re_space c then
        match st, n with
        | CronField, S n' => cron_match n' CronSpace t
        | CronSpace, _ => cron_match n CronSpace t
        | _, _ => false
        end
      else cron_match n CronField t
  end.
(** The marker [Pattern=`^(\S+\s+){4}\S+$`] of [spec.schedule] *)
Definition valid_schedule_spec (s : PBSScheduleSpec) : bool := cron_match 4 CronStart (ss_Schedule s).

(** The words of the pattern *)
Definition field (s : string) : Prop := s ≠ "" ∧ all_bytes_of (negb ∘ re_space) s = true.
Definition space (s : string) : Prop := s ≠ "" ∧ all_bytes_of re_space s = true.
Fixpoint cron_fields (n : nat) (s : string) : Prop :=
  match n with
  | O => field s
  | S n' => ∃ f sp rest, s = f +:+ sp +:+ rest ∧ field f ∧ space sp ∧ cron_fields n' rest
  end.

Lemma all_bytes_of_app P s t : all_bytes_of P (s +:+ t) = all_bytes_of P s && all_bytes_of P t.
Proof.
  induction s as [|c s IH]; [done|]. change (String c s +:+ t) with (String c (s +:+ t)).
  cbn [all_bytes_of]. by rewrite IH, andb_assoc.
Qed.

Lemma cron_match_field f n st t :
  all_bytes_of (negb ∘ re_space) f = true → f ≠ "" → cron_match n st (f +:+ t) = cron_match n CronField t.
Proof.
  revert st. induction f as [|c f IH]; intros st Hf Hne; [done|].
  cbn [all_bytes_of] in Hf. apply andb_true_iff in Hf as [Hc%negb_true_iff Hf].
  change (String c f +:+ t) with (String c (f +:+ t)). cbn [cron_match]. rewrite Hc.
  destruct f as [|c' f']; [done|]. by apply IH.
Qed.
Lemma cron_match_space sp n t :
  all_bytes_of re_space sp = true → cron_match n CronSpace (sp +:+ t) = cron_match n CronSpace t.
Proof.
  induction sp as [|c sp IH]; intros Hs; [done|]. cbn [all_bytes_of] in Hs.
  apply andb_true_iff in Hs as [Hc Hs]. change (String c sp +:+ t) with (String c (sp +:+ t)).
  cbn [cron_match]. rewrite Hc. by apply IH.
Qed.

Lemma cron_match_complete n st s : cron_fields n s → cron_match n st s = true.
Proof.
  revert st s. induction n as [|n IH]; intros st s.
  - intros [Hne Hf]. by rewrite <- (append_nil_r s), cron_match_field.
  - intros (f & sp & rest & -> & [Hf Hfa] & [Hs Hsa] & Hr). rewrite cron_match_field by done.
    destruct sp as [|c sp]; [done|]. cbn [all_bytes_of] in Hsa. apply andb_true_iff in Hsa as [Hc Hsa].
    change (String c sp +:+ rest) with (String c (sp +:+ rest)). cbn [cron_match]. rewrite Hc.
    rewrite cron_match_space by done. by apply IH.
Qed.

(** The rest of a match: the end of the field it is in, then what is left *)
Lemma cron_match_sound n st s :
  cron_match n st s = true →
  match st with
  | CronStart => cron_fields n s
  | CronSpace => ∃ sp rest, s = sp +:+ rest ∧ all_bytes_of re_space sp = true ∧ cron_fields n rest
  | CronField => ∀ f, field f → cron_fields n (f +:+ s)
  end.
Proof.
  revert n st. induction s as [|c t IH]; intros n st Hm; cbn [cron_match] in Hm.
  { destruct st, n; try done. intros f Hf. by rewrite append_nil_r. }
  assert (Hsingle : re_space c = false → field (String c "")).
  { intros Hc. split; [done|]. cbn. by rewrite Hc. }
  destruct (re_space c) eqn:Hc.
  - destruct st; [done| |].
    + destruct n as [|n]; [done|]. apply IH in Hm as (sp & rest & -> & Hs & Hr). intros f Hf.
      exists f, (String c sp), rest. split; [done|]. split; [done|]. split; [|done].
      split; [done|]. cbn. by rewrite Hc.
    + apply IH in Hm as (sp & rest & -> & Hs & Hr). exists (String c sp), rest.
      split; [done|]. split; [cbn; by rewrite Hc|done].
  - specialize (IH n CronField Hm). pose proof (IH (String c "") (Hsingle eq_refl)) as Hone.
    destruct st.
    + exact Hone.
    + intros f [Hf Hfa]. replace (f +:+ String c t) with ((f +:+ String c "") +:+ t) by by rewrite append_assoc.
      apply IH. split; [by destruct f|]. rewrite all_bytes_of_app, Hfa. apply (Hsingle eq_refl).
    + by exists "", (String c t).
Qed.

(** The automaton is the pattern: the API server accepts a schedule exactly when its
    expression is five fields that are separated by space, with none around them. *)
Theorem valid_schedule_spec_fields s : valid_schedule_spec s = true ↔ cron_fields 4 (ss_Schedule s).
Proof. split; [apply (cron_match_sound 4 CronStart)|apply cron_match_complete]. Qed.

Example cron_pattern_ex :
  let accepts e := valid_schedule_spec (mkScheduleSpec "repo" e (mkTemplate [] None "") false) in
  accepts "0 3 * * 1-5" = true ∧ accepts "@daily" = false ∧ accepts "@every 1h" = false ∧
  accepts " 0 3 * * *" = false ∧ accepts "0 0 3 * * *" = false ∧ accepts "TZ=UTC 3 * * *" = true.
Proof. by vm_compute. Qed.

Example schema_ex :
  reason_pattern "ResultUnreadable" = true ∧ reason_pattern "" = false ∧ reason_pattern "a-b" = false ∧
  reason_pattern "A:" = false ∧ type_pattern "Ready" = true ∧ type_pattern "pbs.io/Ready" = true ∧
  type_pattern "Pbs.io/Ready" = false ∧ type_pattern "a/b/c" = false ∧
  rune_count ("h" +:+ String "195" (String "169" "")) = 2.
Proof. by vm_compute. Qed.
