(* ===== verification/Typed.v ===== *)
(** * Programs in a typed environment

    [typed P A p Q]: as long as the environment's answers satisfy [A], every call
    of [p] satisfies [P], and a result satisfies [Q].  It is the logic in which a
    property of the data (a schema) is shown to be kept: [A] types what comes in,
    [P] what goes out. *)

From S2P Require Import Prelude Kube Api Client.
From stdpp Require Import options.

Section typed.
Context {call : Type} {resp : call → Type}.
Context (P : call → Prop) (A : ∀ c, resp c → Prop).

Fixpoint typed {R} (p : @prog call resp R) (Q : R → Prop) : Prop :=
  match p with
  | Ret r => Q r
  | Vis c k => P c ∧ ∀ a, A c a → typed (k a) Q
  end.

Lemma typed_ret {R} (r : R) (Q : R → Prop) : Q r → typed (mret r) Q.
Proof. done. Qed.

Lemma typed_call c (Q : resp c → Prop) : P c → (∀ a, A c a → Q a) → typed (do_call c) Q.
Proof. done. Qed.

Lemma typed_bind {X Y} (f : X → prog resp Y) p Q : typed p (λ x, typed (f x) Q) → typed (p ≫= f) Q.
Proof.
  induction p as [x|c k IH]; [done|]. intros [Hc Hk]. split; [done|]. intros a Ha. by apply IH, Hk.
Qed.

Lemma typed_post {R} (p : prog resp R) (Q Q' : R → Prop) :
  typed p Q → (∀ r, Q r → Q' r) → typed p Q'.
Proof.
  intros Hp HQ. induction p as [r|c k IH]; [by apply HQ|]. destruct Hp as [Hc Hk].
  split; [done|]. intros a Ha. by apply IH, Hk.
Qed.

(** A stretch whose answers do not matter *)
Lemma typed_calls {R} (p : prog resp R) : calls_in P p → typed p (λ _, True).
Proof. induction p as [r|c k IH]; [done|]. intros [Hc Hk]. split; [done|]. intros a _. by apply IH. Qed.

Lemma typed_bind_calls {X Y} (f : X → prog resp Y) p Q :
  calls_in P p → (∀ x, typed (f x) Q) → typed (p ≫= f) Q.
Proof. intros Hp Hf. apply typed_bind. eapply typed_post; [by apply typed_calls|]. by intros x _. Qed.

Definition answer_typed (e : @event call resp) : Prop := A (projT1 e) (projT2 e).

Lemma typed_runs {R} (p : prog resp R) Q tr r :
  typed p Q → runs p tr r → Forall answer_typed tr →
  Forall (λ e, P (projT1 e)) tr ∧ Q r.
Proof.
  revert tr. induction p as [x|c k IH]; intros tr.
  - intros HQ [-> ->] _. by split.
  - intros [Hc Hk] (a & tr' & -> & Hr) [Ha Htr]%Forall_cons.
    destruct (IH a tr') as [H1 H2]; [by apply Hk|done|done|]. split; [by constructor|done].
Qed.

(** The call at an index of a run *)
Lemma typed_lookup {R} (p : prog resp R) Q tr r i c (a : resp c) :
  typed p Q → runs p tr r → Forall answer_typed tr → tr !! i = Some (ev c a) → P c.
Proof.
  intros Hp Hr Ha Hi. destruct (typed_runs _ _ _ _ Hp Hr Ha) as [Hc _].
  by apply (Forall_lookup_1 _ _ _ _ Hc Hi).
Qed.
End typed.
