(* ===== verification/SchemaProps.v ===== *)
(** * The reconcilers write what the schemas accept

    Every status a reconciler patches validates, as long as the objects it reads
    do, [meta.SetStatusCondition] keeps valid conditions valid, and the message of
    the condition is not too long.  The last assumption is needed. *)

From S2P Require Import Prelude GoLib GoNet GoUtf8 Sort Kube Api Doc Client Trace Json SnapshotRef JobBuild.
From S2P Require Import RestorePlan Hooks Serialize ControllerLib BackupCtl BackupSafety RestoreCtl.
From S2P Require Import ScheduleCtl ScheduleProps PbsClient RepoCtl Cluster PbsProps RepoProps Schema Typed.
From stdpp Require Import options.

Local Open Scope Z_scope.

(** ** What comes in and what goes out *)

Definition fits (c : Condition) : Prop := rune_count (c_Message c) ≤ 32768.

Definition schema_call (c : call) : Prop :=
  match c with CStatusPatch k _ after => valid_obj k after = true | _ => True end.

Definition schema_answer (c : call) : resp c → Prop :=
  match c with
  | CGet k _ => λ a, match a with inr o => valid_obj k o = true | inl _ => True end
  | CSetStatusCondition conds c => λ a,
      fits c ∧ (valid_conditions conds = true → valid_condition c = true → valid_conditions a.1 = true)
  | _ => λ _, True
  end.

Abbreviation well_typed := (typed schema_call schema_answer).

Lemma read_schema {R} (p : kprog R) : calls_in is_read p → calls_in schema_call p.
Proof. apply calls_in_mono. by intros []. Qed.

(** The reasons of the program match the pattern. *)
Definition reason_ok (s : string) : bool :=
  (rune_count s <=? 1024) && (1 <=? rune_count s) && reason_pattern s.

Lemma well_typed_SetStatusCondition conds st reason message gen :
  valid_conditions conds = true → reason_ok reason = true → 0 ≤ gen →
  well_typed (SetStatusCondition conds (newCondition condReady st reason message gen))
    (λ cs, valid_conditions cs.1 = true).
Proof.
  intros Hcs Hr Hg. split; [done|]. intros [cs tr] [Hf Hv]. apply Hv; [done|].
  unfold reason_ok in Hr. apply andb_true_iff in Hr as [[H1 H2]%andb_true_iff H3].
  unfold fits in Hf. unfold valid_condition.
  cbn [newCondition c_ObservedGeneration c_Message c_Reason c_Type] in *.
  rewrite (proj2 (Z.leb_le _ _) Hg), (proj2 (Z.leb_le _ _) Hf), H1, H2, H3. done.
Qed.

Ltac typed_step :=
  lazymatch goal with
  | |- typed _ _ (mbind _ _) _ => apply typed_bind
  | |- typed _ _ (mret _) _ => apply typed_ret
  | |- typed _ _ (Ret _) _ => apply typed_ret
  | |- typed _ _ (do_call _) _ => apply typed_call; [try done|intros ? ?]
  | |- typed _ _ (match ?x with _ => _ end) _ => destruct x eqn:?
  end.
Ltac typed_auto := repeat (typed_step; try done).

(** ** Backups *)

Definition valid_backup (b : PBSBackup) : Prop :=
  valid_backup_status (bk_Status b) = true ∧ 0 ≤ om_Generation (bk_Meta b).

Lemma valid_obj_backup b : valid_obj KPBSBackup b = true ↔ valid_backup b.
Proof. unfold valid_backup. cbn [valid_obj]. by rewrite andb_true_iff, Z.leb_le. Qed.

Section backup.
Context `{KubeLib} `{JsonLib} `{GroupLib} `{YamlLib} `{SortSlice}.
Context (r : PBSBackupReconciler).

Definition keeps_valid (extra : PBSBackupStatus → kprog PBSBackupStatus) : Prop :=
  ∀ s, valid_backup_status s = true → well_typed (extra s) (λ s', valid_backup_status s' = true).

Lemma well_typed_recordOutcome b phase st reason message extra :
  valid_backup b → reason_ok reason = true → keeps_valid extra →
  well_typed (recordOutcome b phase st reason message extra) (λ _, True).
Proof.
  intros [Hb Hg] Hr Hx. unfold recordOutcome. apply typed_bind.
  pose proof Hb as Hb'. apply andb_true_iff in Hb' as [Hc Hi].
  eapply typed_post; [by apply well_typed_SetStatusCondition|]. intros [cs tr] Hcs. cbn [fst snd] in *.
  apply typed_bind. eapply typed_post; [apply Hx|].
  { unfold valid_backup_status. cbn [set_Phase set_Conditions bst_Conditions bst_Bytes]. by rewrite Hcs, Hi. }
  intros s Hs. case_bool_decide; [done|]. unfold api, StatusPatch. repeat typed_step; try done.
  by apply valid_obj_backup.
Qed.

Lemma keeps_stamps : keeps_valid stamp_StartedAt ∧ keeps_valid stamp_CompletedAt.
Proof. unfold stamp_StartedAt, stamp_CompletedAt, Now. split; intros s Hs; by typed_auto. Qed.

Lemma well_typed_hold b reason message wait :
  valid_backup b → reason_ok reason = true → well_typed (BackupCtl.hold b reason message wait) (λ _, True).
Proof.
  intros Hb Hr. unfold BackupCtl.hold. apply typed_bind.
  eapply typed_post; [apply well_typed_recordOutcome; [done..|by intros s Hs]|].
  intros x _. unfold BackupCtl.emit, Eventf. typed_auto.
Qed.

Lemma well_typed_failBackup b reason message placed :
  valid_backup b → reason_ok reason = true →
  well_typed (failBackup r b reason message placed) (λ _, True).
Proof.
  intros Hb Hr. unfold failBackup. apply typed_bind.
  eapply typed_post; [apply well_typed_recordOutcome; [done..|]|].
  - intros s Hs. by apply keeps_stamps.
  - intros x _. unfold BackupCtl.emit, observeFailed, Eventf. typed_auto.
Qed.

Lemma well_typed_runBackup b placed : valid_backup b → well_typed (runBackup b placed) (λ _, True).
Proof.
  intros Hb. unfold runBackup. apply typed_bind.
  eapply typed_post; [apply well_typed_recordOutcome; [done..|]|].
  - intros s Hs. apply typed_bind. eapply typed_post; [by apply keeps_stamps|]. done.
  - intros x _. unfold BackupCtl.emit, Eventf. typed_auto.
Qed.

(** The total of the results is an int64, however many there are. *)
Lemma well_typed_collect_results ns placed statuses total ref :
  is_int64 total = true →
  well_typed (collect_results ns placed statuses total ref)
    (λ res, ∀ x, res = inr (inr x) → is_int64 x.1.2 = true).
Proof.
  revert statuses total ref. induction placed as [|pj placed IH]; intros statuses total ref Ht;
    cbn [collect_results]; [intros x Hx; by injection Hx as <-|].
  apply typed_bind_calls; [unfold jobResult, List_, api; calls_auto|].
  intros [e|[problem|[ref' bytes]]]; [done..|]. apply IH.
  pose proof (add_int64_range total bytes). unfold is_int64. lia.
Qed.

Lemma well_typed_conclude b placed : valid_backup b → well_typed (conclude r b placed) (λ _, True).
Proof.
  intros Hb. unfold conclude. destruct (failed_job placed); [by apply well_typed_failBackup|].
  destruct (negb (all_complete placed)); [by apply well_typed_runBackup|].
  unfold completeBackup. apply typed_bind.
  eapply typed_post; [by apply well_typed_collect_results|].
  intros [e|[problem|[[statuses total] ref]]] Hres; [done|by apply well_typed_failBackup|].
  specialize (Hres _ eq_refl). cbn [fst snd] in Hres. apply typed_bind.
  eapply typed_post; [apply well_typed_recordOutcome; [done..|]|].
  - intros s Hs. apply keeps_stamps. apply andb_true_iff in Hs as [Hs _].
    unfold valid_backup_status. by destruct (bool_decide _); cbn; rewrite Hs.
  - intros x _. unfold BackupCtl.emit, observeCompleted, Eventf. typed_auto.
Qed.

Lemma well_typed_ensure_jobs b repoSecret staging groups nodes placed :
  valid_backup b → well_typed (ensure_jobs r b repoSecret staging groups nodes placed) (λ _, True).
Proof.
  intros Hb. revert placed. induction nodes as [|node nodes IH]; intros placed; cbn [ensure_jobs]; [done|].
  apply typed_bind. apply (typed_post _ _ _ (λ _, True)); [|intros [res|job] _; [done|apply IH]].
  unfold ensure_job, Get, Create. repeat (typed_step; try done).
  eapply typed_post; [by apply well_typed_hold|done].
Qed.

Lemma well_typed_runPreHooks pvcs pods :
  well_typed (runPreHooks r pvcs pods) (λ p, ∀ problem reason, p = Some (problem, reason) → reason_ok reason = true).
Proof.
  unfold runPreHooks. generalize (foldl (λ m p, <[pod_name p := p]> m) (∅ : gmap string Pod) (hooked_pods pvcs pods)).
  intros byName. induction (sort_Strings _) as [|name names IH]; cbn [run_hooks]; [done|].
  unfold Exec. repeat (typed_step; try done); intros problem reason Heq; by injection Heq as <- <-.
Qed.

Lemma well_typed_reconcile_jobs b repoSecret staging groups :
  valid_backup b → well_typed (reconcile_jobs r b repoSecret staging groups) (λ _, True).
Proof.
  intros Hb. unfold reconcile_jobs. apply typed_bind.
  eapply typed_post; [by apply well_typed_ensure_jobs|]. intros [res|placed] _; [done|].
  by apply well_typed_conclude.
Qed.

Lemma well_typed_reconcile_place b repoSecret staging pvcs :
  valid_backup b → well_typed (reconcile_place r b repoSecret staging pvcs) (λ _, True).
Proof.
  intros Hb. unfold reconcile_place.
  apply typed_bind_calls; [unfold List_, api; calls_auto|]. intros [e|pods]; [done|].
  apply typed_bind. apply (typed_post _ _ _ (λ _, True)).
  - destruct pvcs as [|pvc pvcs].
    + apply typed_bind_calls; [apply read_schema, calls_firstNode|]. intros [e|node]; [done|].
      case_bool_decide; [|done]. apply typed_bind. by eapply typed_post; [apply well_typed_hold|].
    + apply typed_bind_calls; [apply read_schema, calls_place_all|]. intros [e|[problem|groups]]; [done| |done].
      apply typed_bind. by eapply typed_post; [apply well_typed_hold|].
  - intros [res|groups] _; [done|].
    destruct (slice (bst_Jobs (bk_Status b))); [|by apply well_typed_reconcile_jobs].
    apply typed_bind. eapply typed_post; [apply well_typed_runPreHooks|].
    intros [[problem reason]|] Hok; [|by apply well_typed_reconcile_jobs].
    apply well_typed_failBackup; [done|]. by eapply Hok.
Qed.

Lemma well_typed_backup req : well_typed (BackupCtl.Reconcile r req) (λ _, True).
Proof.
  unfold BackupCtl.Reconcile, Get. apply typed_bind, typed_call; [done|].
  intros [e|b] Hb; [done|]. apply valid_obj_backup in Hb.
  destruct (_ || _); [done|]. apply typed_bind, typed_call; [done|].
  intros [e|repo] _; [destruct (negb _); [done|by apply well_typed_hold]|].
  destruct (negb _); [by apply well_typed_hold|]. unfold reconcile_backup.
  apply typed_bind_calls.
  { eapply calls_in_mono; [|apply calls_ensureRepoSecret]. by intros []. }
  intros [e|[problem|repoSecret]]; [done|by apply well_typed_hold|].
  apply typed_bind_calls; [apply read_schema, calls_selectPVCs|].
  intros [e|[problem|pvcs]]; [done|by apply well_typed_hold|].
  apply typed_bind_calls.
  { eapply calls_in_mono; [|apply calls_stage_api]. by intros []. }
  intros [e|staging]; [done|].
  destruct (_ && _); [by apply well_typed_hold|by apply well_typed_reconcile_place].
Qed.
End backup.

(** ** Restores *)

Definition valid_restore (rs : PBSRestore) : Prop :=
  valid_restore_status (rt_Status rs) = true ∧ 0 ≤ om_Generation (rt_Meta rs).

Lemma valid_obj_restore rs : valid_obj KPBSRestore rs = true ↔ valid_restore rs.
Proof. unfold valid_restore. cbn [valid_obj]. by rewrite andb_true_iff, Z.leb_le. Qed.

Section restore.
Context `{KubeLib} `{YamlLib} `{SortSlice}.
Context (AgentImage : string).

(** The status updates leave the conditions alone. *)
Definition keeps_conditions (extra : PBSRestoreStatus → kprog PBSRestoreStatus) : Prop :=
  ∀ s, well_typed (extra s) (λ s', rest_Conditions s' = rest_Conditions s).

Lemma well_typed_recordRestore rs phase st reason message extra :
  valid_restore rs → reason_ok reason = true → keeps_conditions extra →
  well_typed (recordRestore rs phase st reason message extra) (λ _, True).
Proof.
  intros [Hb Hg] Hr Hx. unfold recordRestore. apply typed_bind.
  eapply typed_post; [by apply well_typed_SetStatusCondition|]. intros [cs tr] Hcs. cbn [fst snd] in *.
  apply typed_bind. eapply typed_post; [apply Hx|]. intros s Hs. cbn [set_rPhase set_rConditions rest_Conditions] in Hs.
  case_bool_decide; [done|]. unfold api, StatusPatch. repeat typed_step; try done.
  apply valid_obj_restore. split; [|done]. unfold valid_restore_status. cbn. by rewrite Hs.
Qed.

Lemma keeps_rstamps :
  keeps_conditions rstamp_StartedAt ∧ keeps_conditions rstamp_CompletedAt ∧
  ∀ rs, keeps_conditions (refresh_jobs rs).
Proof.
  unfold rstamp_StartedAt, rstamp_CompletedAt, refresh_jobs, liveJobs, List_, Now.
  split_and!; intros; intros s; typed_auto.
Qed.

Lemma keeps_conditions_seq f g :
  keeps_conditions f → keeps_conditions g → keeps_conditions (λ s, s ← f s; g s).
Proof.
  intros Hf Hg s. apply typed_bind. eapply typed_post; [apply Hf|]. intros s1 Hs1.
  eapply typed_post; [apply Hg|]. intros s2 Hs2. by rewrite Hs2.
Qed.

Lemma well_typed_holdRestore rs reason message wait :
  valid_restore rs → reason_ok reason = true → well_typed (holdRestore rs reason message wait) (λ _, True).
Proof.
  intros Hb Hr. unfold holdRestore. apply typed_bind.
  eapply typed_post; [by apply well_typed_recordRestore|].
  intros x _. unfold RestoreCtl.emit, Eventf. typed_auto.
Qed.

Lemma well_typed_finish rs phase st t reason message :
  valid_restore rs → reason_ok reason = true →
  well_typed (rt <-? recordRestore rs phase st reason message
                       (λ s, s ← refresh_jobs rs s; rstamp_CompletedAt s);
              RestoreCtl.emit rt.2 rt.1 t reason message;; mret no_requeue) (λ _, True).
Proof.
  intros Hb Hr. apply typed_bind. eapply typed_post; [apply well_typed_recordRestore; [done..|]|].
  - apply keeps_conditions_seq; apply keeps_rstamps.
  - intros x _. unfold RestoreCtl.emit, Eventf. typed_auto.
Qed.

Definition step_ok {X} (res : step_error + X) : Prop :=
  match res with inl (StepHold reason _) => reason_ok reason = true | _ => True end.

Lemma well_typed_requeueOrHold rs phase err :
  valid_restore rs → match err with Some e => step_ok (X := unit) (inl e) | None => True end →
  well_typed (requeueOrHold rs phase err) (λ _, True).
Proof.
  intros Hb He. unfold requeueOrHold. destruct err as [[reason msg|e]|]; [|done|].
  - case_bool_decide; [by apply well_typed_finish|by apply well_typed_holdRestore].
  - apply typed_bind. eapply typed_post; [apply well_typed_recordRestore; [done..|]|by intros []].
    apply keeps_conditions_seq; apply keeps_rstamps.
Qed.

Lemma well_typed_ensureJob rs name build : well_typed (ensureJob rs name build) step_ok.
Proof. unfold ensureJob, Get, Create. typed_auto. Qed.

Lemma well_typed_await rs phase step next :
  valid_restore rs → well_typed step step_ok → well_typed next (λ _, True) →
  well_typed (await rs phase step next) (λ _, True).
Proof.
  intros Hb Hs Hn. unfold await. apply typed_bind. eapply typed_post; [exact Hs|].
  intros [e|[|]] He; [by apply well_typed_requeueOrHold|done|by apply well_typed_requeueOrHold].
Qed.

Lemma well_typed_ensureVolumeJobs rs spec docs pvcs :
  well_typed (ensureVolumeJobs rs spec docs pvcs) step_ok.
Proof.
  assert (Hg : ∀ fallback groups, step_ok (group_volumes docs fallback pvcs groups)).
  { intros fallback. induction pvcs as [|pvc pvcs' IH]; intros groups; cbn [group_volumes]; [done|].
    destruct (_ && _); [done|apply IH]. }
  assert (Hn : ∀ groups nodes, well_typed (ensure_volumes rs spec groups nodes) step_ok).
  { intros groups nodes. induction nodes as [|node nodes IH]; cbn [ensure_volumes]; [done|].
    apply typed_bind. eapply typed_post; [apply well_typed_ensureJob|]. intros [e|[|]] He; [exact He|apply IH|done]. }
  unfold ensureVolumeJobs. apply typed_bind_calls; [apply read_schema, calls_firstNode|].
  intros [e|fallback]; [done|]. specialize (Hg fallback ∅).
  destruct (group_volumes _ _ _ _) as [e|groups]; [done|apply Hn].
Qed.

Lemma well_typed_reconcile_stages rs spec :
  valid_restore rs → well_typed (reconcile_stages rs spec) (λ _, True).
Proof.
  intros Hb. unfold reconcile_stages, Get. apply well_typed_await; [done|apply well_typed_ensureJob|].
  apply typed_bind, typed_call; [done|]. intros [e|cm] _; [destruct (IsNotFound e); [by apply well_typed_holdRestore|done]|].
  apply typed_bind_calls; [unfold adoptConfigMap, Patch; calls_auto|]. intros cm'.
  apply well_typed_await; [done|apply well_typed_ensureJob|]. unfold reconcile_volumes.
  assert (Hw : well_typed (reconcile_workload rs spec) (λ _, True)).
  { apply well_typed_await; [done|apply well_typed_ensureJob|]. by apply well_typed_finish. }
  destruct (ParseAPIManifests _ _) as [e|docs]; [by apply well_typed_finish|].
  destruct (PVCsFromDocs _) as [|pvc pvcs]; [done|].
  apply well_typed_await; [done|apply well_typed_ensureVolumeJobs|done].
Qed.

Lemma well_typed_restore req : well_typed (RestoreCtl.Reconcile AgentImage req) (λ _, True).
Proof.
  unfold RestoreCtl.Reconcile, Get. apply typed_bind, typed_call; [done|].
  intros [e|rs] Hb; [done|]. apply valid_obj_restore in Hb.
  destruct (_ || _); [done|]. destruct (negb _); [by apply well_typed_finish|].
  apply typed_bind, typed_call; [done|].
  intros [e|repo] _; [destruct (negb _); [done|by apply well_typed_holdRestore]|].
  destruct (negb _); [by apply well_typed_holdRestore|]. unfold reconcile_restore.
  apply typed_bind_calls; [unfold ensureTargetNamespace, Get, Create; calls_auto|].
  intros [e|[problem|]]; [done|by apply well_typed_holdRestore|].
  apply typed_bind_calls.
  { unfold RestoreCtl.ensureRepoSecret, operatorNamespace, Getenv, Get, Create, Update, api. calls_auto. }
  intros [e|[problem|repoSecret]]; [done|by apply well_typed_holdRestore|].
  apply typed_bind_calls; [unfold ensureJobRBAC, create_if_missing, Get, Create; calls_auto|].
  intros [e|[]]; [done|]. by apply well_typed_reconcile_stages.
Qed.
End restore.

(** ** Schedules and repos *)

Definition valid_schedule (s : PBSSchedule) : Prop :=
  valid_schedule_status (sc_Status s) = true ∧ 0 ≤ om_Generation (sc_Meta s).
Lemma valid_obj_schedule s : valid_obj KPBSSchedule s = true ↔ valid_schedule s.
Proof. unfold valid_schedule. cbn [valid_obj]. by rewrite andb_true_iff, Z.leb_le. Qed.

Section schedule.
Context `{KubeLib} `{JsonLib} `{CronLib}.

Lemma well_typed_patchStatusIfChanged before after :
  valid_schedule after → well_typed (patchStatusIfChanged before after) (λ _, True).
Proof.
  intros Ha. unfold patchStatusIfChanged, api, StatusPatch. repeat (typed_step; try done).
  by apply valid_obj_schedule.
Qed.

Lemma well_typed_sched_hold s reason message wait :
  valid_schedule s → reason_ok reason = true →
  well_typed (ScheduleCtl.hold s reason message wait) (λ _, True).
Proof.
  intros [Hs Hg] Hr. unfold ScheduleCtl.hold. apply typed_bind.
  eapply typed_post; [by apply well_typed_SetStatusCondition|]. intros [cs tr] Hcs. cbn [fst snd] in *.
  apply typed_bind. eapply typed_post; [by apply well_typed_patchStatusIfChanged|].
  intros x _. unfold Eventf. typed_auto.
Qed.

Lemma well_typed_schedule fuel req : well_typed (ScheduleCtl.Reconcile fuel req) (λ _, True).
Proof.
  unfold ScheduleCtl.Reconcile, Get. apply typed_bind, typed_call; [done|].
  intros [e|s] Hs; [done|]. apply valid_obj_schedule in Hs. apply typed_bind.
  apply (typed_post _ _ _ (λ _, True)).
  { unfold gate, Get. destruct (ParseStandard _) as [e|sched].
    { apply typed_bind. by eapply typed_post; [apply well_typed_sched_hold|]. }
    apply typed_bind, typed_call; [done|]. intros [e|repo] _.
    - destruct (IsNotFound e); [|done]. apply typed_bind. by eapply typed_post; [apply well_typed_sched_hold|].
    - destruct (negb _); [|done]. apply typed_bind. by eapply typed_post; [apply well_typed_sched_hold|]. }
  intros [res|sched] _; [done|]. unfold Now. apply typed_bind, typed_call; [done|]. intros now _.
  destruct (due_slot _ _ _ _) as [slot|]; [|done]. apply typed_bind.
  apply (typed_post _ _ _ (λ res, ∀ s', res = inr s' → valid_schedule s')).
  { unfold serve_slot. destruct slot as [fire|]; [|by intros s' [= <-]].
    destruct (ss_Suspend _); [by intros s' [= <-]|].
    apply typed_bind_calls; [unfold fireBackup, Create, Eventf; calls_auto|].
    intros [e|made]; [done|]. by intros s' [= <-]. }
  intros [e|s'] Hs'; [done|]. specialize (Hs' _ eq_refl) as [Hv Hg].
  apply typed_bind. apply (typed_post _ _ _ (λ _, True)); [|done].
  unfold refresh. apply typed_bind_calls; [unfold activeBackups, List_, api; calls_auto|].
  intros [e|active]; [done|]. unfold patchStatus. apply typed_bind, typed_bind.
  eapply typed_post; [by apply well_typed_SetStatusCondition|]. intros [cs tr] Hcs. cbn [fst snd] in *.
  eapply typed_post; [by apply well_typed_patchStatusIfChanged|]. intros [e|x] _; [done|]. unfold Now. typed_auto.
Qed.
End schedule.

Definition valid_repo (s : PBSRepo) : Prop :=
  valid_repo_status (repo_Status s) = true ∧ 0 ≤ om_Generation (repo_Meta s).
Lemma valid_obj_repo s : valid_obj KPBSRepo s = true ↔ valid_repo s.
Proof. unfold valid_repo. cbn [valid_obj]. by rewrite andb_true_iff, Z.leb_le. Qed.

Section repo.
Context `{KubeLib} `{JsonLib} `{HttpLib}.

Lemma well_typed_setCondition repo status reason message stamp :
  valid_repo repo → reason_ok reason = true →
  well_typed (setCondition repo status reason message stamp) (λ _, True).
Proof.
  intros [Hb Hg] Hr. unfold setCondition. apply typed_bind.
  eapply typed_post; [by apply well_typed_SetStatusCondition|]. intros [cs tr] Hcs. cbn [fst snd] in *.
  apply typed_bind_calls; [unfold probe_stale, Now; calls_auto|]. intros stale.
  apply typed_bind. apply (typed_post _ _ _ (λ st, rst_Conditions st = cs)).
  { unfold Now. destruct stale; typed_auto. }
  intros st Hst. destruct (negb _); [done|]. unfold StatusPatch. repeat typed_step; try done.
  apply valid_obj_repo. split; [|done]. unfold valid_repo_status. cbn. by rewrite Hst.
Qed.

Lemma well_typed_fail_ repo reason message requeue :
  valid_repo repo → reason_ok reason = true → well_typed (fail_ repo reason message requeue) (λ _, True).
Proof.
  intros Hb Hr. unfold fail_. apply typed_bind. eapply typed_post; [by apply well_typed_setCondition|].
  intros [[repo' tr] err] _. unfold finish, Eventf. typed_auto.
Qed.

Lemma well_typed_succeed repo : valid_repo repo → well_typed (succeed repo) (λ _, True).
Proof.
  intros Hb. unfold succeed. apply typed_bind. eapply typed_post; [by apply well_typed_setCondition|].
  intros [[repo' tr] err] _. unfold finish, Eventf. typed_auto.
Qed.

Lemma schema_http c ctx {X} method path body (out : option (string → error + X)) :
  calls_in schema_call (do_ c ctx method path body out).
Proof. unfold do_, http_Do. calls_auto. Qed.

Lemma well_typed_repo req : well_typed (RepoCtl.Reconcile req) (λ _, True).
Proof.
  pose proof (@schema_http). unfold RepoCtl.Reconcile, Get. apply typed_bind, typed_call; [done|].
  intros [e|repo] Hs; [done|]. apply valid_obj_repo in Hs.
  apply typed_bind_calls.
  { unfold producerCreds, fetchSecret, operatorNamespace, Getenv, Get. calls_auto. }
  intros [e|[problem|creds]]; [done|by apply well_typed_fail_|].
  apply typed_bind_calls; [unfold ListSnapshots; calls_auto|].
  intros [e|snaps]; [by apply well_typed_fail_|]. unfold bootstrap.
  destruct (negb _); [|by apply well_typed_succeed].
  apply typed_bind_calls.
  { unfold bootstrapToken, fetchSecret, operatorNamespace, Getenv, Get. calls_auto. }
  intros [e|[problem|[id secret]]]; [done|by apply well_typed_fail_|].
  apply typed_bind_calls; [unfold EnsureNamespace; calls_auto|].
  intros [e|]; [by apply well_typed_fail_|by apply well_typed_succeed].
Qed.
End repo.

(** ** The theorem *)

Section schemas.
Context `{KubeLib} `{JsonLib} `{GroupLib} `{YamlLib} `{SortSlice} `{CronLib} `{HttpLib}.

(** A reconcile, of any of the four kinds *)
Inductive reconcile (tr : list kevent) : Prop :=
  | reconcile_backup_of r req res : runs (BackupCtl.Reconcile r req) tr res → reconcile tr
  | reconcile_restore_of image req res : runs (RestoreCtl.Reconcile image req) tr res → reconcile tr
  | reconcile_schedule_of fuel req res : runs (ScheduleCtl.Reconcile fuel req) tr res → reconcile tr
  | reconcile_repo_of req res : runs (RepoCtl.Reconcile req) tr res → reconcile tr.

(** What was read validates, no message is longer than the schema allows, and
    [meta.SetStatusCondition] made valid conditions of valid ones. *)
Definition typed_answers (tr : list kevent) : Prop := Forall (answer_typed schema_answer) tr.

(** C31: Every status that a reconciler patches validates against the schema of its
    resource (phases of the enumeration, one condition per type, reasons and types
    of the required form, 64-bit sizes, generations that are not negative), as long
    as the objects it reads validate, [meta.SetStatusCondition] keeps conditions
    valid, and the message of the new condition has at most 32768 characters. *)
Theorem status_validates tr i k before after a :
  reconcile tr → typed_answers tr → tr !! i = Some (ev (CStatusPatch k before after) a) →
  valid_obj k after = true.
Proof.
  intros Hr Ha Hi. destruct Hr as [r req res Hr|image req res Hr|fuel req res Hr|req res Hr].
  - exact (typed_lookup _ _ _ _ _ _ _ _ _ (well_typed_backup r req) Hr Ha Hi).
  - exact (typed_lookup _ _ _ _ _ _ _ _ _ (well_typed_restore image req) Hr Ha Hi).
  - exact (typed_lookup _ _ _ _ _ _ _ _ _ (well_typed_schedule fuel req) Hr Ha Hi).
  - exact (typed_lookup _ _ _ _ _ _ _ _ _ (well_typed_repo req) Hr Ha Hi).
Qed.
End schemas.

(** ** The concrete [meta.SetStatusCondition] *)

Lemma set_condition_types conds c now :
  c_Type <$> (set_condition conds c now).1 =
  if decide (c_Type c ∈ c_Type <$> conds) then c_Type <$> conds else (c_Type <$> conds) ++ [c_Type c].
Proof.
  induction conds as [|c0 conds IH]; cbn [set_condition]; [done|].
  case_bool_decide as Ht; cbn [fst fmap list_fmap c_Type].
  - rewrite decide_True by (rewrite Ht; by left). by rewrite Ht.
  - destruct (set_condition conds c now) as [cs ch]. cbn [fst fmap list_fmap] in *. rewrite IH.
    destruct (decide (c_Type c ∈ c_Type <$> conds)) as [Hin|Hn].
    + by rewrite decide_True by by right.
    + rewrite decide_False; [done|]. intros [Hc|]%elem_of_cons; [by rewrite Hc in Ht|done].
Qed.

Lemma set_condition_valid conds c now :
  valid_conditions conds = true → valid_condition c = true →
  valid_conditions (set_condition conds c now).1 = true.
Proof.
  intros [Hall Hnd]%andb_true_iff Hc. apply andb_true_iff. split.
  - clear Hnd. induction conds as [|c0 conds IH]; cbn [set_condition].
    + cbn. by rewrite andb_true_r.
    + cbn in Hall. apply andb_true_iff in Hall as [H0 Hall]. case_bool_decide; cbn [fst forallb].
      * by rewrite Hall, andb_true_r.
      * destruct (set_condition conds c now) as [cs ch] eqn:E. cbn [fst forallb] in *. by rewrite H0, IH.
  - apply bool_decide_eq_true in Hnd. apply bool_decide_eq_true. rewrite set_condition_types.
    case_decide as Hin; [done|]. apply NoDup_app. split; [done|]. split; [|apply NoDup_singleton].
    intros x Hx Hx'. apply list_elem_of_singleton in Hx' as ->. done.
Qed.

(** ** A run, and one whose message is too long *)

Definition check_answer (e : kevent) : bool :=
  match e with
  | existT c a =>
      match c return resp c → bool with
      | CGet k _ => λ a, match a with inr o => valid_obj k o | inl _ => true end
      | CSetStatusCondition _ c => λ a, (rune_count (c_Message c) <=? 32768) && valid_conditions a.1
      | _ => λ _, true
      end a
  end.

Lemma check_answers tr : forallb check_answer tr = true → typed_answers tr.
Proof.
  rewrite forallb_forall. intros Hc. apply Forall_forall. intros [c a] Hin%list_elem_of_In%Hc.
  destruct c; try done; unfold answer_typed; cbn [projT1 projT2 schema_answer check_answer] in *.
  - by destruct a.
  - apply andb_true_iff in Hin as [H1%Z.leb_le H2]. by split.
Qed.

Lemma status_validates_witness :
  ∃ before after a, repo_trace !! 9%nat = Some (ev (CStatusPatch KPBSRepo before after) a) ∧
    rst_Conditions (repo_Status after) ≠ [] ∧ valid_obj KPBSRepo after = true.
Proof.
  at_index repo_trace 9%nat ltac:(fun c a => lazymatch c with CStatusPatch KPBSRepo ?b ?b' =>
    exists b, b', a; assert (Hi : repo_trace !! 9%nat = Some (ev c a)) by (by vm_compute);
    split; [exact Hi|split; [done|]];
    refine (status_validates repo_trace 9 KPBSRepo b b' a (reconcile_repo_of _ _ _ repo_runs) _ Hi);
    apply check_answers; by vm_compute end).
Defined.

(** A PBS server, or a proxy before it, that answers an error page of 33000
    characters: the whole page becomes the message of the condition, the API server
    refuses the patch, and the reconcile ends in an error without having recorded
    that the server is unreachable. *)
Definition error_page : string := Nat.iter (Z.to_nat 33000) (λ s, "x" +:+ s) "".
Definition refusing (c : call) (s : cluster) : resp c * cluster :=
  match c return resp c * cluster with
  | CHttp _ _ => (inr (502, inr error_page), s)
  | CStatusPatch k before after =>
      if valid_obj k after then serve (CStatusPatch k before after) s
      else (inl (mkAPIError ReasonOther "Invalid value: Too long: may not be more than 32768 bytes"), s)
  | c => serve c s
  end.
Definition healthy_before : PBSRepo :=
  set_repo_Status pinned_repo
    (mkRepoStatus [mkCondition "Ready" ConditionTrue 0 0 "Reachable" "PBS server reachable"] (Some 0)).

Example unreachable_not_recorded :
  let run := exec refusing (RepoCtl.Reconcile repo_req)
    (add_object KPBSRepo healthy_before
      (add_object KSecret (token_secret "creds" "producer@pbs!t") empty_cluster)) in
  (match run.1.2 with inl _ => true | inr _ => false end,
   (λ r, IsStatusConditionTrue (rst_Conditions (repo_Status r)) condReady) <$> cl_objects run.2 KPBSRepo)
  = (true, [true]).
Proof. by vm_compute. Qed.

(** ** The port of a repo

    The API server fills in [spec.port], so the key [port] of the secret, which the
    reconciler reads when the field is zero, is never read. *)
Theorem secret_port_unread `{JsonLib} meta spec st s creds :
  resolve_creds (mkRepo meta (default_repo_spec spec) st) s = inr creds →
  rc_port creds = (if decide (rsp_Port spec = 0) then 8007 else rsp_Port spec).
Proof.
  intros Hr. pose proof (resolve_creds_spec (mkRepo meta (default_repo_spec spec) st) s) as Hs.
  rewrite Hr in Hs. destruct Hs as [(_ & _ & _ & _ & _ & _ & _ & _ & _ & Hp) _].
  assert (Hport : rsp_Port (default_repo_spec spec) = if decide (rsp_Port spec = 0) then 8007 else rsp_Port spec).
  { unfold default_repo_spec. case_bool_decide; by case_decide. }
  cbn [repo_Spec] in Hp. rewrite Hport in Hp. destruct Hp as [[_ ->]|[[Hz _]|[Hz _]]]; [done|..];
    by case_decide.
Qed.
