(* ===== verification/Operator.v ===== *)
(** * The operator process: cmd/main.go and the SetupWithManager methods

    The command line of the manager, the options made of it, and the calls by which
    [main] builds the manager, registers the four controllers and the two probes,
    and starts.  A call of controller-runtime or client-go is a call of a
    [Prog.prog], answered by its error; the flags that the libraries register (zap's
    and [kubeconfig]) are a parameter. *)

From S2P Require Import Prelude GoLib GoNet Kube Api Client AgentArgs ControllerLib BackupCtl.
From Stdlib Require Import Ascii.
From stdpp Require Import options.

Local Open Scope Z_scope.

(** ** Package [flag] *)

(** [strconv.ParseBool] *)
Definition ParseBool (s : string) : option bool :=
  if bool_decide (s ∈ ["1"; "t"; "T"; "TRUE"; "true"; "True"]) then Some true
  else if bool_decide (s ∈ ["0"; "f"; "F"; "FALSE"; "false"; "False"]) then Some false
  else None.

(** The value of a digit in a base up to 16 *)
Definition base_digit (c : ascii) : option Z :=
  let b := byte_val c in
  if (48 <=? b) && (b <=? 57) then Some (b - 48)
  else if (97 <=? b) && (b <=? 102) then Some (b - 87)
  else if (65 <=? b) && (b <=? 70) then Some (b - 55) else None.

(** The digits of a number; an underscore is skipped. *)
Fixpoint base_val (base acc : Z) (s : string) : option Z :=
  match s with
  | EmptyString => Some acc
  | String c t =>
      if Ascii.eqb c "_" then base_val base acc t
      else match base_digit c with
           | Some d => if d <? base then base_val base (acc * base + d) t else None
           | None => None
           end
  end.

(** Underscores separate digits, or the prefix from the digits; [prev] tells that
    the last character was a digit (or the prefix). *)
Fixpoint underscores_ok (prev : bool) (s : string) : bool :=
  match s with
  | EmptyString => prev
  | String c t => if Ascii.eqb c "_" then prev && underscores_ok false t else underscores_ok true t
  end.

(** [strconv.ParseInt(s, 0, 64)] without a sign: the base is in the prefix. *)
Definition ParseUint0 (s : string) : option Z :=
  match s with
  | EmptyString => None
  | String "0" EmptyString => Some 0
  | String "0" (String c t) =>
      let prefixed := λ base, match t with
                              | EmptyString => None
                              | _ => if underscores_ok true t then base_val base 0 t else None
                              end in
      let c := lower c in
      if Ascii.eqb c "x" then prefixed 16 else if Ascii.eqb c "b" then prefixed 2
      else if Ascii.eqb c "o" then prefixed 8
      else if underscores_ok true (sdrop 1 s) then base_val 8 0 (sdrop 1 s) else None
  | _ => if underscores_ok false s then base_val 10 0 s else None
  end.
Definition ParseInt0 (s : string) : option Z :=
  let '(neg, t) := match s with
                   | String "-" t => (true, t) | String "+" t => (false, t) | _ => (false, s)
                   end in
  match ParseUint0 t with
  | None => None
  | Some n => let z := if neg : bool then - n else n in
              if (- 2 ^ 63 <=? z) && (z <? 2 ^ 63) then Some z else None
  end.

Example ParseInt0_ex :
  ParseInt0 "9443" = Some 9443 ∧ ParseInt0 "-1" = Some (-1) ∧ ParseInt0 "0x1F" = Some 31 ∧
  ParseInt0 "010" = Some 8 ∧ ParseInt0 "1_000" = Some 1000 ∧ ParseInt0 "_1" = None ∧
  ParseInt0 "" = None ∧ ParseInt0 "0x" = None ∧ ParseInt0 "9223372036854775808" = None ∧
  ParseInt0 "08" = None ∧ ParseInt0 "0_7" = Some 7.
Proof. by vm_compute. Qed.

(** A flag: a value whose [Set] may refuse the text; a boolean one may stand
    without a value. *)
Record flag_def := mkFlag { fd_bool : bool; fd_accepts : string → bool }.
Definition StringFlag : flag_def := mkFlag false (λ _, true).
Definition BoolFlag : flag_def := mkFlag true (λ s, match ParseBool s with Some _ => true | None => false end).
Definition IntFlag : flag_def := mkFlag false (λ s, match ParseInt0 s with Some _ => true | None => false end).

Inductive cmdline_error :=
  | CmdFlag (e : flag_error)
  | CmdInvalid (name value : string).

(** [FlagSet.Parse] with flags of several types: the assignments in order. *)
Fixpoint cmdline_Parse (flags : string → option flag_def) (args : list string)
    : cmdline_error + list (string * string) :=
  match args with
  | [] => inr []
  | s :: args' =>
      match flag_tokenize s with
      | TokStop | TokTerminator => inr []
      | TokBad => inl (CmdFlag (ErrBadSyntax s))
      | TokFlag name value =>
          let assign := λ v rest, (* fs.Set, and the arguments after it *)
            match flags name with
            | Some d => if fd_accepts d v then
                          match rest with inl e => inl e | inr set => inr ((name, v) :: set) end
                        else inl (CmdInvalid name v)
            | None => inl (CmdFlag (ErrNotDefined name))
            end in
          match flags name with
          | None => if decide (name = "help" ∨ name = "h") then inl (CmdFlag ErrHelp)
                    else inl (CmdFlag (ErrNotDefined name))
          | Some d =>
              match value with
              | Some v => assign v (cmdline_Parse flags args')
              | None =>
                  if fd_bool d then assign "true" (cmdline_Parse flags args')
                  else match args' with
                       | [] => inl (CmdFlag (ErrNeedsArgument name))
                       | v :: args'' => assign v (cmdline_Parse flags args'')
                       end
              end
          end
      end
  end.

(** ** The flags of the manager *)

Record operator_flags := mkFlags {
  of_metricsAddr : string; of_probeAddr : string; of_enableLeaderElection : bool;
  of_secureMetrics : bool; of_webhookCertPath : string; of_webhookCertName : string;
  of_webhookCertKey : string; of_webhookPort : Z; of_metricsCertPath : string;
  of_metricsCertName : string; of_metricsCertKey : string; of_enableHTTP2 : bool;
  of_agentImage : string }.

Definition string_flags : list string :=
  ["metrics-bind-address"; "health-probe-bind-address"; "webhook-cert-path"; "webhook-cert-name";
   "webhook-cert-key"; "metrics-cert-path"; "metrics-cert-name"; "metrics-cert-key"; "agent-image"].
Definition bool_flags : list string := ["leader-elect"; "metrics-secure"; "enable-http2"].
Definition int_flags : list string := ["webhook-port"].

(** [flag.CommandLine]: the flags of [main], and those of the libraries *)
Definition CommandLine (library : string → option flag_def) (name : string) : option flag_def :=
  if decide (name ∈ string_flags) then Some StringFlag
  else if decide (name ∈ bool_flags) then Some BoolFlag
  else if decide (name ∈ int_flags) then Some IntFlag
  else library name.

Definition bool_last (name : string) (def : bool) (set : list (string * string)) : bool :=
  default def (last (flag_all name set) ≫= ParseBool).
Definition int_last (name : string) (def : Z) (set : list (string * string)) : Z :=
  default def (last (flag_all name set) ≫= ParseInt0).

Definition flag_values (set : list (string * string)) : operator_flags := {|
  of_metricsAddr := flag_last "metrics-bind-address" "0" set;
  of_probeAddr := flag_last "health-probe-bind-address" ":8081" set;
  of_enableLeaderElection := bool_last "leader-elect" false set;
  of_secureMetrics := bool_last "metrics-secure" true set;
  of_webhookCertPath := flag_last "webhook-cert-path" "" set;
  of_webhookCertName := flag_last "webhook-cert-name" "tls.crt" set;
  of_webhookCertKey := flag_last "webhook-cert-key" "tls.key" set;
  of_webhookPort := int_last "webhook-port" 9443 set;
  of_metricsCertPath := flag_last "metrics-cert-path" "" set;
  of_metricsCertName := flag_last "metrics-cert-name" "tls.crt" set;
  of_metricsCertKey := flag_last "metrics-cert-key" "tls.key" set;
  of_enableHTTP2 := bool_last "enable-http2" false set;
  of_agentImage := flag_last "agent-image" "pbs-agent:dev" set;
|}.

(** ** The options of the manager *)

(** The field of [tls.Config] that [main] sets *)
Record tls_config := mkTLS { tc_NextProtos : list string }.

Record webhook_Options := mkWebhook {
  wo_TLSOpts : list (tls_config → tls_config); wo_Port : Z;
  wo_CertDir : string; wo_CertName : string; wo_KeyName : string }.
Record metrics_Options := mkMetrics {
  mo_BindAddress : string; mo_SecureServing : bool; mo_TLSOpts : list (tls_config → tls_config);
  (* [filters.WithAuthenticationAndAuthorization], or none *)
  mo_FilterProvider : bool;
  mo_CertDir : string; mo_CertName : string; mo_KeyName : string }.
Record ctrl_Options := mkManager {
  op_Metrics : metrics_Options; op_WebhookServer : webhook_Options;
  op_HealthProbeBindAddress : string; op_LeaderElection : bool; op_LeaderElectionID : string }.

Definition disableHTTP2 (c : tls_config) : tls_config := mkTLS ["http/1.1"].
Definition tlsOpts (f : operator_flags) : list (tls_config → tls_config) :=
  if negb (of_enableHTTP2 f) then [disableHTTP2] else [].

Definition webhookServerOptions (f : operator_flags) : webhook_Options :=
  if negb (bool_decide (of_webhookCertPath f = "")) then
    mkWebhook (tlsOpts f) (of_webhookPort f) (of_webhookCertPath f) (of_webhookCertName f)
      (of_webhookCertKey f)
  else mkWebhook (tlsOpts f) (of_webhookPort f) "" "" "".

Definition metricsServerOptions (f : operator_flags) : metrics_Options :=
  let filtered := of_secureMetrics f in
  if negb (bool_decide (of_metricsCertPath f = "")) then
    mkMetrics (of_metricsAddr f) (of_secureMetrics f) (tlsOpts f) filtered
      (of_metricsCertPath f) (of_metricsCertName f) (of_metricsCertKey f)
  else mkMetrics (of_metricsAddr f) (of_secureMetrics f) (tlsOpts f) filtered "" "" "".

Definition manager_options (f : operator_flags) : ctrl_Options :=
  mkManager (metricsServerOptions f) (webhookServerOptions f) (of_probeAddr f)
    (of_enableLeaderElection f) "e932101d.pbs.sharifmind.ir".

(** ** The controllers *)

Inductive reconciler :=
  | RepoReconciler
  | BackupReconciler (r : PBSBackupReconciler)
  | ScheduleReconciler
  | RestoreReconciler (AgentImage : string).

(** What a [SetupWithManager] builds: the kind it is for, the kinds whose events
    wake the owner, its name; with the reconciler and the name of its recorder. *)
Record controller := mkController {
  co_For : kind; co_Owns : list kind; co_Named : string;
  co_Reconciler : reconciler; co_Recorder : string }.

Definition setup_repo : controller := mkController KPBSRepo [] "pbsrepo" RepoReconciler "pbsrepo".
Definition setup_backup (agentImage : string) : controller :=
  mkController KPBSBackup [KJob] "pbsbackup"
    (BackupReconciler (mkBackupReconciler agentImage true true true)) "pbsbackup".
Definition setup_schedule : controller :=
  mkController KPBSSchedule [KPBSBackup] "pbsschedule" ScheduleReconciler "pbsschedule".
Definition setup_restore (agentImage : string) : controller :=
  mkController KPBSRestore [KJob] "pbsrestore" (RestoreReconciler agentImage) "pbsrestore".

(** ** [main] *)

Inductive ocall :=
  (* the log, and the message of a command line that does not parse *)
  | OLog (msg : string)
  | OGetConfigOrDie
  | ONewManager (o : ctrl_Options)
  | OSetup (c : controller)
  | ONewDynamicClient
  | ONewDiscoveryClient
  (* [MustRegister], [NewForConfigOrDie]: their error is a panic *)
  | ONewBackupMetrics
  | ONewExecutor
  | OAddHealthzCheck (name : string)
  | OAddReadyzCheck (name : string)
  | OStart.
Definition oresp (c : ocall) : Type := match c with OLog _ => unit | _ => option error end.
Abbreviation oprog := (@prog ocall oresp).
Abbreviation oevent := (@event ocall oresp).

Definition Info (msg : string) : oprog unit := do_call (OLog msg).

(** A step that ends the process with [code] when it fails; [msg] is what [main]
    logs then. *)
Definition attempt (p : oprog (option error)) (code : Z) (msg : option string) (next : oprog Z)
  : oprog Z :=
  err ← p;
  match err with
  | Some _ =>
      match msg with
      | Some m => Info m;; mret code
      | None => mret code
      end
  | None => next
  end.

Definition failed_controller (name : string) : option string :=
  Some ("Failed to create controller: " +:+ name).

(** From the manager on *)
Definition run_manager (f : operator_flags) : oprog Z :=
  attempt (do_call OGetConfigOrDie) 1 None
  (attempt (do_call (ONewManager (manager_options f))) 1 (Some "Failed to start manager")
  (attempt (do_call (OSetup setup_repo)) 1 (failed_controller "pbsrepo")
  (attempt (do_call ONewDynamicClient) 1 (Some "Failed to create dynamic client")
  (attempt (do_call ONewDiscoveryClient) 1 (Some "Failed to create discovery client")
  (attempt (do_call ONewBackupMetrics) 2 None
  (attempt (do_call ONewExecutor) 2 None
  (attempt (do_call (OSetup (setup_backup (of_agentImage f)))) 1 (failed_controller "pbsbackup")
  (attempt (do_call (OSetup setup_schedule)) 1 (failed_controller "pbsschedule")
  (attempt (do_call (OSetup (setup_restore (of_agentImage f)))) 1 (failed_controller "pbsrestore")
  (attempt (do_call (OAddHealthzCheck "healthz")) 1 (Some "Failed to set up health check")
  (attempt (do_call (OAddReadyzCheck "readyz")) 1 (Some "Failed to set up ready check")
  (Info "Starting manager";;
   attempt (do_call OStart) 1 (Some "Failed to run manager")
   (mret 0))))))))))))).

Definition main (library : string → option flag_def) (args : list string) : oprog Z :=
  match cmdline_Parse (CommandLine library) args with
  | inl (CmdFlag ErrHelp) => Info "usage";; mret 0
  | inl _ => Info "usage";; mret 2
  | inr set =>
      let f := flag_values set in
      (if negb (bool_decide (of_webhookCertPath f = "")) then
         Info "Initializing webhook certificate watcher using provided certificates"
       else mret tt);;
      (if negb (bool_decide (of_metricsCertPath f = "")) then
         Info "Initializing metrics certificate watcher using provided certificates"
       else mret tt);;
      run_manager f
  end.
