(* ===== verification/OperatorProps.v ===== *)
(** * Properties of the operator process

    The start of the manager, and the options it is started with. *)

From S2P Require Import Prelude GoLib GoNet Kube Api Client AgentArgs ControllerLib BackupCtl Operator.
From Stdlib Require Import Ascii.
From stdpp Require Import options.

Local Open Scope Z_scope.

(** ** What [main] has to do, and the exit code when a step fails *)

Definition plan (f : operator_flags) : list (ocall * Z) :=
  [ (OGetConfigOrDie, 1); (ONewManager (manager_options f), 1); (OSetup setup_repo, 1);
    (ONewDynamicClient, 1); (ONewDiscoveryClient, 1); (ONewBackupMetrics, 2); (ONewExecutor, 2);
    (OSetup (setup_backup (of_agentImage f)), 1); (OSetup setup_schedule, 1);
    (OSetup (setup_restore (of_agentImage f)), 1);
    (OAddHealthzCheck "healthz", 1); (OAddReadyzCheck "readyz", 1); (OStart, 1) ].

(** The step of an event, with whether it succeeded; a log is none. *)
Definition step_of (e : oevent) : option (ocall * bool) :=
  match e with
  | existT c a =>
      match c return oresp c → option (ocall * bool) with
      | OLog _ => λ _, None
      | c => λ a, Some (c, match a with None => true | Some _ => false end)
      end a
  end.
Definition steps (tr : list oevent) : list (ocall * bool) := omap step_of tr.

(** The steps of a plan up to the first that fails, and the exit code. *)
Inductive carries_out : list (ocall * Z) → list (ocall * bool) → Z → Prop :=
  | carried_out : carries_out [] [] 0
  | carry_failed c code todo : carries_out ((c, code) :: todo) [(c, false)] code
  | carry_on c code todo done_ res :
      carries_out todo done_ res → carries_out ((c, code) :: todo) ((c, true) :: done_) res.

Lemma steps_app t1 t2 : steps (t1 ++ t2) = steps t1 ++ steps t2.
Proof. apply omap_app. Qed.

Lemma runs_Info msg tr x : runs (Info msg) tr x → steps tr = [].
Proof. by intros (a & t & -> & -> & _). Qed.

Lemma runs_attempt c (p : oprog (option error)) code msg next todo tr res :
  (∀ t a, runs p t a → steps t = [(c, match a with None => true | Some _ => false end)]) →
  (∀ t r, runs next t r → carries_out todo (steps t) r) →
  runs (attempt p code msg next) tr res → carries_out ((c, code) :: todo) (steps tr) res.
Proof.
  intros Hp Hn Hr. apply runs_bind in Hr as (t1 & a & t2 & -> & H1 & Hr).
  rewrite steps_app, (Hp _ _ H1). destruct a as [e|].
  - assert (Hl : steps t2 = [] ∧ res = code).
    { destruct msg as [m|]; [|by destruct Hr as [-> ->]].
      apply runs_bind in Hr as (t3 & [] & t4 & -> & H3 & [-> ->]).
      by rewrite steps_app, (runs_Info _ _ _ H3). }
    destruct Hl as [-> ->]. apply carry_failed.
  - apply carry_on. by apply Hn.
Qed.

Ltac step_call := intros ? ? (? & ? & -> & -> & ->); reflexivity.

Lemma runs_run_manager f tr res : runs (run_manager f) tr res → carries_out (plan f) (steps tr) res.
Proof.
  unfold run_manager, plan. revert tr res.
  do 12 (intros tr res; apply runs_attempt; [step_call|clear tr res]).
  intros tr res Hr. apply runs_bind in Hr as (t1 & [] & t2 & -> & H1 & Hr).
  rewrite steps_app, (runs_Info _ _ _ H1). revert Hr. apply runs_attempt; [step_call|].
  intros t r [-> ->]. apply carried_out.
Qed.

Lemma carries_out_last todo c code done_ res ok :
  c ∉ todo.*1 → carries_out (todo ++ [(c, code)]) done_ res → (c, ok) ∈ done_ →
  done_ = ((λ s, (s.1, true)) <$> todo) ++ [(c, ok)].
Proof.
  revert done_ res. induction todo as [|[c0 code0] todo IH]; cbn [app fmap list_fmap fst];
    intros done_ res Hn Hc Hin.
  - inversion Hc as [|? ? ? |? ? ? d ? Hc']; subst.
    + by apply list_elem_of_singleton in Hin as ->.
    + inversion Hc'; subst. by apply list_elem_of_singleton in Hin as ->.
  - apply not_elem_of_cons in Hn as [Hne Hn]. inversion Hc as [|? ? ? |? ? ? d ? Hc']; subst.
    + apply list_elem_of_singleton in Hin. by injection Hin as ->.
    + apply elem_of_cons in Hin as [Heq|Hin]; [by injection Heq as ->|].
      f_equal. by eapply IH.
Qed.

Section main.
Context (library : string → option flag_def).

(** The command line that was accepted, with its assignments. *)
Definition accepted (args : list string) (set : list (string * string)) : Prop :=
  cmdline_Parse (CommandLine library) args = inr set.

Lemma runs_main args tr res :
  runs (main library args) tr res →
  match cmdline_Parse (CommandLine library) args with
  | inl e => steps tr = [] ∧ res = (match e with CmdFlag ErrHelp => 0 | _ => 2 end)
  | inr set => carries_out (plan (flag_values set)) (steps tr) res
  end.
Proof.
  unfold main. destruct (cmdline_Parse _ args) as [e|set].
  - intros Hr. assert (Hl : ∃ code, res = code ∧ runs (Info "usage";; mret code) tr res ∧
      code = (match e with CmdFlag ErrHelp => 0 | _ => 2 end)).
    { destruct e as [[| | |]|]; eexists; (split; [|split; [exact Hr|done]]);
        by apply runs_bind in Hr as (? & ? & ? & _ & _ & [_ ->]). }
    destruct Hl as (code & -> & Hl & ->). apply runs_bind in Hl as (t1 & [] & t2 & -> & H1 & [-> _]).
    by rewrite steps_app, (runs_Info _ _ _ H1).
  - cbv zeta. intros Hr. apply runs_bind in Hr as (t1 & [] & t2 & -> & H1 & Hr).
    apply runs_bind in Hr as (t3 & [] & t4 & -> & H3 & Hr).
    assert (Hl : ∀ (b : bool) m t x, runs (if b then Info m else mret tt) t x → steps t = []).
    { intros [] m t x Hx; [by eapply runs_Info|by destruct Hx as [-> _]]. }
    rewrite !steps_app, (Hl _ _ _ _ H1), (Hl _ _ _ _ H3). by apply runs_run_manager.
Qed.

(** C29: [main] carries out its plan and nothing else: after a command line that
    does not parse it makes no step and exits with 2 (0 when help was asked for);
    otherwise its steps are those of the plan, in order, up to the first that
    fails, whose code is the exit code, 0 meaning that the manager ran and ended
    well.  So the manager is started only after its creation, the registration of
    all four controllers and of the two probes, and every step before, succeeded. *)
Theorem main_spec args tr res :
  runs (main library args) tr res →
  match cmdline_Parse (CommandLine library) args with
  | inl e => steps tr = [] ∧ res = (match e with CmdFlag ErrHelp => 0 | _ => 2 end)
  | inr set =>
      carries_out (plan (flag_values set)) (steps tr) res ∧
      ∀ ok, (OStart, ok) ∈ steps tr →
        steps tr = ((λ s, (s.1, true)) <$> take 12 (plan (flag_values set))) ++ [(OStart, ok)]
  end.
Proof.
  intros Hr%runs_main. destruct (cmdline_Parse _ args) as [e|set]; [done|]. split; [done|].
  intros ok. apply (carries_out_last (take 12 (plan (flag_values set))) OStart 1 _ res); [|exact Hr].
  cbn [plan take fmap list_fmap fst]. rewrite !not_elem_of_cons. split_and!; by try apply not_elem_of_nil.
Qed.

(** ** The options *)

Definition mentioned (name : string) (set : list (string * string)) : Prop := name ∈ set.*1.

Lemma flag_all_unmentioned name set : ¬ mentioned name set → flag_all name set = [].
Proof.
  unfold mentioned, flag_all. induction set as [|[n v] set IH]; cbn; [done|].
  intros [Hn Hs]%not_elem_of_cons. rewrite bool_decide_eq_false_2 by congruence. by apply IH.
Qed.

(** The protocols a server offers, from the options it is given *)
Definition offered (opts : list (tls_config → tls_config)) (c : tls_config) : list string :=
  tc_NextProtos (foldl (λ c o, o c) c opts).

(** The manager is safe by default: whatever the command line, unless it has
    [--enable-http2] both of its servers offer HTTP/1.1 only, and unless it has
    [--metrics-secure] the metrics are served over TLS; whenever they are, only to
    callers that are authenticated and authorized; the two reconcilers that start
    agents use the same image. *)
Theorem manager_defaults args tr res o ok :
  runs (main library args) tr res → (ONewManager o, ok) ∈ steps tr →
  ∃ set, accepted args set ∧
    (¬ mentioned "enable-http2" set → ∀ c,
       offered (mo_TLSOpts (op_Metrics o)) c = ["http/1.1"] ∧
       offered (wo_TLSOpts (op_WebhookServer o)) c = ["http/1.1"]) ∧
    (¬ mentioned "metrics-secure" set → mo_SecureServing (op_Metrics o) = true) ∧
    mo_FilterProvider (op_Metrics o) = mo_SecureServing (op_Metrics o) ∧
    ∀ c c' ok' r image, (OSetup c, ok') ∈ steps tr → (OSetup c', ok') ∈ steps tr →
      co_Reconciler c = BackupReconciler r → co_Reconciler c' = RestoreReconciler image →
      br_AgentImage r = image.
Proof.
  intros Hr%runs_main Ho. unfold accepted. destruct (cmdline_Parse _ args) as [e|set].
  { destruct Hr as [Hs _]. rewrite Hs in Ho. by apply not_elem_of_nil in Ho. }
  assert (Hsub : ∀ todo done_ res, carries_out todo done_ res → ∀ c ok, (c, ok) ∈ done_ → c ∈ todo.*1).
  { clear. intros todo done_ res Hc. induction Hc as [|c code todo|c code todo d res _ IH]; intros c' ok Hin.
    - by apply not_elem_of_nil in Hin.
    - apply list_elem_of_singleton in Hin. injection Hin as -> _. by left.
    - apply elem_of_cons in Hin as [Heq|Hin]; [injection Heq as -> _; by left|right; by eapply IH]. }
  pose proof (Hsub _ _ _ Hr) as Hin. clear Hsub Hr. set (f := flag_values set) in *.
  assert (Heq : o = manager_options f).
  { apply Hin in Ho. cbn [plan fmap list_fmap fst] in Ho. rewrite !elem_of_cons, elem_of_nil in Ho.
    destruct_or! Ho; try done. by injection Ho. }
  subst o. exists set. split; [done|]. split_and!.
  - intros Hm c. assert (Hf : of_enableHTTP2 f = false).
    { cbn. unfold bool_last. by rewrite flag_all_unmentioned. }
    unfold manager_options, metricsServerOptions, webhookServerOptions, tlsOpts. rewrite Hf.
    by destruct (of_metricsCertPath f), (of_webhookCertPath f).
  - intros Hm. assert (Hf : of_secureMetrics f = true).
    { cbn. unfold bool_last. by rewrite flag_all_unmentioned. }
    cbn. unfold metricsServerOptions. rewrite Hf. by destruct (negb _).
  - cbn. unfold metricsServerOptions. by destruct (negb _).
  - intros c c' ok' r image H1%Hin H2%Hin. cbn [plan fmap list_fmap fst] in H1, H2.
    rewrite !elem_of_cons, elem_of_nil in H1, H2.
    destruct_or! H1; destruct_or! H2; try done; injection H1 as ->; injection H2 as ->; try done.
    cbn. intros [= <-] [= <-]. done.
Qed.
End main.

(** ** Runs *)

(** Every step succeeds, or the one of the given number fails. *)
Definition host (c : ocall) (n : nat) : oresp c * nat :=
  match c return oresp c * nat with
  | OLog _ => (tt, n)
  | c => match n with
         | O => (Some (ErrMsg "failed"), O)
         | S n' => (None, n')
         end
  end.
Definition start (args : list string) (n : nat) := exec host (main (λ _, None) args) n.

Definition step_names (tr : list oevent) : list string :=
  omap (λ s, match s.1 with
             | OSetup c => Some (co_Named c +:+ (if s.2 : bool then "" else " failed"))
             | OStart => Some "start"
             | _ => None
             end) (steps tr).

Example manager_starts :
  let run := start ["--leader-elect"; "-agent-image=img"; "--webhook-port"; "-1"] 99 in
  step_names run.1.1 = ["pbsrepo"; "pbsbackup"; "pbsschedule"; "pbsrestore"; "start"] ∧ run.1.2 = 0.
Proof. by vm_compute. Qed.
Example manager_gives_up :
  let run := start [] 8 in
  step_names run.1.1 = ["pbsrepo"; "pbsbackup"; "pbsschedule failed"] ∧ run.1.2 = 1.
Proof. by vm_compute. Qed.
Example bad_command_lines :
  (start ["--enable-http2=maybe"] 99).1.2 = 2 ∧ (start ["--webhook-port"; "none"] 99).1.2 = 2 ∧
  (start ["--no-such-flag"] 99).1.2 = 2 ∧ (start ["-h"] 99).1.2 = 0.
Proof. by vm_compute. Qed.

Lemma main_spec_witness :
  let run := start ["--leader-elect"] 99 in
  (OStart, true) ∈ steps run.1.1 ∧ length (steps run.1.1) = 13%nat ∧
  carries_out (plan (flag_values [("leader-elect", "true")])) (steps run.1.1) run.1.2.
Proof.
  intros run. split; [|split; [by vm_compute|]].
  - do 12 right. left.
  - exact (proj1 (main_spec (λ _, None) ["--leader-elect"] run.1.1 run.1.2 (exec_runs _ _ _))).
Defined.

Lemma manager_defaults_witness :
  let run := start ["--leader-elect"] 99 in
  ∃ o, (ONewManager o, true) ∈ steps run.1.1 ∧
  ∃ set, accepted (λ _, None) ["--leader-elect"] set ∧
    (¬ mentioned "enable-http2" set → ∀ c,
       offered (mo_TLSOpts (op_Metrics o)) c = ["http/1.1"] ∧
       offered (wo_TLSOpts (op_WebhookServer o)) c = ["http/1.1"]).
Proof.
  intros run. eexists. assert (Hin : (ONewManager (manager_options (flag_values [("leader-elect", "true")])), true)
    ∈ steps run.1.1) by (right; left).
  split; [exact Hin|].
  destruct (manager_defaults (λ _, None) ["--leader-elect"] run.1.1 run.1.2 _ _ (exec_runs _ _ _) Hin)
    as (set & Hs & Hh & _). by exists set.
Defined.
