(* ===== verification/GoMem.v ===== *)
(** * Memory: blocks, pointers and slices

    What the rest of the development leaves out because its values are immutable:
    the memory a Go program allocates.  A block is an array ([new(T)] is an array of
    one); a pointer names an element, a slice a part of a block; a nil pointer or
    slice is [None].  [GoType] says of a type in memory which value an instance has
    and which blocks that value is read from; [copies] is the contract of a deep
    copy. *)

From S2P Require Import Prelude.
From stdpp Require Import options.

#[local] Set Default Proof Using "Type*".

Abbreviation loc := positive.

(** Pointers and slice headers; [A] is the type of the element. *)
Record ptr (A : Type) := mkPtr { p_block : loc; p_index : nat }.
Record hdr (A : Type) := mkHdr { s_block : loc; s_off : nat; s_len : nat; s_cap : nat }.
Arguments mkPtr {A}. Arguments p_block {A}. Arguments p_index {A}.
Arguments mkHdr {A}. Arguments s_block {A}. Arguments s_off {A}. Arguments s_len {A}. Arguments s_cap {A}.
Abbreviation gptr A := (option (ptr A)).
Abbreviation gslice A := (option (hdr A)).

(** ** Programs on a memory of [cell]s *)

Abbreviation heap cell := (gmap loc cell).

(** [None] is a panic: a nil or dangling pointer. *)
Definition mem (cell A : Type) : Type := heap cell → option (A * heap cell).
#[export] Instance mem_ret cell : MRet (mem cell) := λ A x h, Some (x, h).
#[export] Instance mem_bind cell : MBind (mem cell) :=
  λ A B f m h, match m h with Some (x, h') => f x h' | None => None end.

(** The arrays of [A] among the cells *)
Class Storable (cell A : Type) := {
  array_cell : list A → cell;
  cell_array : cell → option (list A);
  cell_array_cell l : cell_array (array_cell l) = Some l;
}.

Definition fresh_loc {cell} (h : heap cell) : loc := Pos.succ (foldr Pos.max 1%positive (map_to_list h).*1).

Lemma fresh_loc_fresh {cell} (h : heap cell) : h !! fresh_loc h = None.
Proof.
  assert (Hb : ∀ ls l, l ∈ ls → (l ≤ foldr Pos.max 1 ls)%positive).
  { intros ls l Hl. induction Hl as [l ls|l l' ls _ IH]; cbn; lia. }
  destruct (h !! fresh_loc h) as [x|] eqn:E; [|done].
  apply elem_of_map_to_list, (list_elem_of_fmap_2 fst), Hb in E. unfold fresh_loc in E. cbn in E. lia.
Qed.

Section programs.
Context {cell : Type} `{Storable cell A}.

Definition alloc (xs : list A) : mem cell loc := λ h,
  let l := fresh_loc h in Some (l, <[l := array_cell xs]> h).

Definition block (h : heap cell) (l : loc) : option (list A) := h !! l ≫= cell_array.
Definition elements (h : heap cell) (s : hdr A) : option (list A) :=
  arr ← block h (s_block s);
  if decide (s_off s + s_len s ≤ length arr)%nat then Some (take (s_len s) (drop (s_off s) arr)) else None.
Definition deref (h : heap cell) (p : ptr A) : option A := block h (p_block p) ≫= (.!! p_index p).

Definition load (p : ptr A) : mem cell A := λ h, (., h) <$> deref h p.
Definition range (s : hdr A) : mem cell (list A) := λ h, (., h) <$> elements h s.

(** [new(T)], and [make([]T, n)]; what is written into the new block before
    anything reads it is its contents from the start. *)
Definition new (x : A) : mem cell (ptr A) := l ← alloc [x]; mret (mkPtr l 0).
Definition make (xs : list A) : mem cell (hdr A) :=
  l ← alloc xs; mret (mkHdr l 0 (length xs) (length xs)).
End programs.

(** [for i := range xs]: the elements in order *)
Fixpoint mapM_mem {cell A B} (f : A → mem cell B) (xs : list A) : mem cell (list B) :=
  match xs with
  | [] => mret []
  | x :: xs' => y ← f x; ys ← mapM_mem f xs'; mret (y :: ys)
  end.

(** ** Types in memory *)

Class GoType (cell A V : Type) := {
  denote : heap cell → A → option V;
  blocks : heap cell → A → gset loc;
}.

Definition agree {cell} (X : gset loc) (h h' : heap cell) : Prop := ∀ l, l ∈ X → h' !! l = h !! l.

(** A value is a function of its blocks, which are allocated. *)
Class GoTypeLaws (cell A V : Type) `{GoType cell A V} := {
  denote_agree h h' a : agree (blocks h a) h h' → denote h' a = denote h a;
  blocks_agree h h' a : agree (blocks h a) h h' → blocks h' a = blocks h a;
  blocks_allocated h a v : denote h a = Some v → blocks h a ⊆ dom h;
}.

Lemma agree_union {cell} X Y (h h' : heap cell) : agree (X ∪ Y) h h' ↔ agree X h h' ∧ agree Y h h'.
Proof. unfold agree. set_solver. Qed.

Lemma agree_extend {cell} (X : gset loc) (h h' : heap cell) : X ⊆ dom h → h ⊆ h' → agree X h h'.
Proof.
  intros Hx Hh l Hl%Hx. apply elem_of_dom in Hl as [c Hc]. rewrite Hc. by apply (lookup_weaken h).
Qed.

Section extend.
Context `{GoTypeLaws cell A V}.

Lemma denote_extend (h h' : heap cell) a v :
  h ⊆ h' → denote h a = Some v → denote h' a = Some v ∧ blocks h' a = blocks h a.
Proof.
  intros Hh Hd. assert (agree (blocks h a) h h') by (by eapply agree_extend, Hh; eapply blocks_allocated).
  split; [rewrite <- Hd; by apply denote_agree|by apply blocks_agree].
Qed.
End extend.

(** A type without references *)
Definition plain_type cell A : GoType cell A A :=
  {| denote := λ _ a, Some a; blocks := λ _ _, ∅ |}.
Lemma plain_type_laws cell A : @GoTypeLaws cell A A (plain_type cell A).
Proof. constructor; cbn; [done..|set_solver]. Qed.

(** A struct, as the tuple of its fields *)
Definition struct_type {cell A V T W} `{GoType cell T W} (fields : A → T) (build : W → V) : GoType cell A V :=
  {| denote := λ h a, build <$> denote h (fields a); blocks := λ h a, blocks h (fields a) |}.
Lemma struct_type_laws {cell A V T W} `{GoTypeLaws cell T W} (fields : A → T) (build : W → V) :
  @GoTypeLaws cell A V (struct_type fields build).
Proof.
  constructor; cbn.
  - intros. by rewrite (denote_agree h h').
  - intros. by apply blocks_agree.
  - intros h a v (w & Hw & _)%fmap_Some. by eapply blocks_allocated.
Qed.

Section products.
Context `{GoTypeLaws cell A V} `{GoTypeLaws cell B W}.
#[export] Instance prod_type : GoType cell (A * B) (V * W) := {|
  denote := λ h a, v ← denote h a.1; w ← denote h a.2; Some (v, w);
  blocks := λ h a, blocks h a.1 ∪ blocks h a.2 |}.
#[export] Instance prod_type_laws : GoTypeLaws cell (A * B) (V * W).
Proof.
  constructor; cbn.
  - intros h h' a [Ha Hb]%agree_union. by rewrite (denote_agree h h' a.1), (denote_agree h h' a.2).
  - intros h h' a [Ha Hb]%agree_union. by rewrite (blocks_agree h h' a.1), (blocks_agree h h' a.2).
  - intros h a v. destruct (denote h a.1) eqn:E1, (denote h a.2) eqn:E2; try done. intros _.
    apply union_subseteq. split; by eapply blocks_allocated.
Qed.
End products.

Section references.
Context `{!Storable cell A} `{GoTypeLaws cell A V}.

Lemma block_agree (h h' : heap cell) l : h' !! l = h !! l → @block cell A _ h' l = block h l.
Proof. intros Hl. unfold block. by rewrite Hl. Qed.

Lemma block_allocated (h : heap cell) l (arr : list A) : block h l = Some arr → l ∈ dom h.
Proof. unfold block. intros (c & Hc & _)%bind_Some. by apply elem_of_dom. Qed.

#[export] Instance ptr_type : GoType cell (gptr A) (option V) := {|
  denote := λ h p, match p with
                   | None => Some None
                   | Some p => x ← deref h p; Some <$> denote h x
                   end;
  blocks := λ h p, match p with
                   | None => ∅
                   | Some p => {[p_block p]} ∪ (match deref h p with Some x => blocks h x | None => ∅ end)
                   end |}.
#[export] Instance ptr_type_laws : GoTypeLaws cell (gptr A) (option V).
Proof.
  assert (Hderef : ∀ (h h' : heap cell) (p : ptr A), agree {[p_block p]} h h' → deref h' p = deref h p).
  { intros h h' p Ha. unfold deref. by rewrite (block_agree h h') by (apply Ha; set_solver). }
  constructor; cbn.
  - intros h h' [p|]; [|done]. intros [Hp Hx]%agree_union. rewrite (Hderef h h' p Hp).
    destruct (deref h p) as [x|]; [|done]. cbn. by rewrite (denote_agree h h').
  - intros h h' [p|]; [|done]. intros [Hp Hx]%agree_union. rewrite (Hderef h h' p Hp). f_equal.
    destruct (deref h p) as [x|]; [|done]. by apply blocks_agree.
  - intros h [p|] v; [|set_solver]. intros (x & Hx & (w & Hw & _)%fmap_Some)%bind_Some. rewrite Hx.
    apply union_subseteq. split; [|by eapply blocks_allocated].
    apply singleton_subseteq_l. unfold deref in Hx. apply bind_Some in Hx as (arr & Harr & _).
    by eapply block_allocated.
Qed.

Lemma mapM_denote_agree h h' (xs : list A) :
  agree (⋃ (blocks h <$> xs)) h h' →
  mapM (denote h') xs = mapM (denote h) xs ∧ (blocks h' <$> xs) = (blocks h <$> xs).
Proof.
  induction xs as [|x xs IH]; cbn [fmap list_fmap union_list]; [done|].
  intros [Hx Hxs]%agree_union. destruct (IH Hxs) as [Hm Hb]. cbn.
  by rewrite (denote_agree h h'), Hm, (blocks_agree h h'), Hb.
Qed.

#[export] Instance slice_type : GoType cell (gslice A) (option (list V)) := {|
  denote := λ h s, match s with
                   | None => Some None
                   | Some s => xs ← elements h s; Some <$> mapM (denote h) xs
                   end;
  blocks := λ h s, match s with
                   | None => ∅
                   | Some s => {[s_block s]} ∪ (match elements h s with Some xs => ⋃ (blocks h <$> xs) | None => ∅ end)
                   end |}.
#[export] Instance slice_type_laws : GoTypeLaws cell (gslice A) (option (list V)).
Proof.
  assert (Hel : ∀ (h h' : heap cell) (s : hdr A), agree {[s_block s]} h h' → elements h' s = elements h s).
  { intros h h' p Ha. unfold elements. by rewrite (block_agree h h') by (apply Ha; set_solver). }
  constructor; cbn.
  - intros h h' [s|]; [|done]. intros [Hs Hx]%agree_union. rewrite (Hel h h' s Hs).
    destruct (elements h s) as [xs|]; [|done]. cbn. by rewrite (proj1 (mapM_denote_agree h h' xs Hx)).
  - intros h h' [s|]; [|done]. intros [Hs Hx]%agree_union. rewrite (Hel h h' s Hs). f_equal.
    destruct (elements h s) as [xs|]; [|done]. by rewrite (proj2 (mapM_denote_agree h h' xs Hx)).
  - intros h [s|] v; [|set_solver]. intros (xs & Hx & (w & Hw & _)%fmap_Some)%bind_Some. rewrite Hx.
    apply union_subseteq. split.
    { apply singleton_subseteq_l. unfold elements in Hx. apply bind_Some in Hx as (arr & Harr & _).
      by eapply block_allocated. }
    apply mapM_Some in Hw. clear Hx. induction Hw; cbn; [set_solver|]. apply union_subseteq.
    split; [by eapply blocks_allocated|done].
Qed.
End references.

(** ** Deep copies *)

Section copies.
Context {cell : Type}.

(** [m] succeeds, changes nothing that was allocated, and ends in [Q]. *)
Definition yields {A} (h : heap cell) (m : mem cell A) (Q : A → heap cell → Prop) : Prop :=
  ∃ a h', m h = Some (a, h') ∧ h ⊆ h' ∧ Q a h'.

Lemma yields_ret {A} h (a : A) (Q : A → heap cell → Prop) : Q a h → yields h (mret a) Q.
Proof. intros. by exists a, h. Qed.

Lemma yields_bind {A B} h (m : mem cell A) (f : A → mem cell B) Q :
  yields h m (λ a h', h ⊆ h' → yields h' (f a) Q) → yields h (m ≫= f) Q.
Proof.
  intros (a & h' & Hm & Hh & Hf). destruct (Hf Hh) as (b & h'' & Hb & Hh' & HQ).
  exists b, h''. split_and!; [|by etrans|done]. unfold mbind, mem_bind. by rewrite Hm.
Qed.

Lemma yields_mono {A} h (m : mem cell A) (P Q : A → heap cell → Prop) :
  yields h m P → (∀ a h', h ⊆ h' → P a h' → Q a h') → yields h m Q.
Proof. intros (a & h' & Hm & Hh & HP) HQ. exists a, h'. eauto. Qed.

(** [a] has the value [v] and none of the blocks of [h0]. *)
Definition copied `{GoType cell A V} (h0 h : heap cell) (a : A) (v : V) : Prop :=
  denote h a = Some v ∧ blocks h a ## dom h0.

Lemma copied_extend `{GoTypeLaws cell A V} h0 h h' (a : A) v :
  h ⊆ h' → copied h0 h a v → copied h0 h' a v.
Proof.
  intros Hh [Hd Hb]. destruct (denote_extend h h' a v Hh Hd) as [? Hb'].
  split; [done|]. by rewrite Hb'.
Qed.

Lemma copied_plain {A} h0 h (a : A) v :
  denote (GoType:=plain_type cell A) h a = Some v → copied (H:=plain_type cell A) h0 h a v.
Proof. split; [done|]. cbn. set_solver. Qed.

Lemma copied_prod `{GoType cell A V} `{GoType cell B W} h0 h (a : A) (b : B) v w :
  copied h0 h a v → copied h0 h b w → copied h0 h (a, b) (v, w).
Proof. intros [Ha Ha'] [Hb Hb']. split; cbn; [by rewrite Ha, Hb|set_solver]. Qed.

Lemma copied_struct {A V} `{GoType cell T W} h0 h (fields : A → T) (build : W → V) a w v :
  copied h0 h (fields a) w → build w = v → copied (H:=struct_type fields build) h0 h a v.
Proof. intros [Ha Ha'] <-. split; cbn; [by rewrite Ha|done]. Qed.

Definition copies `{GoType cell A V} (f : A → mem cell A) : Prop :=
  ∀ h0 h a v, h0 ⊆ h → denote h a = Some v → yields h (f a) (λ a' h', copied h0 h' a' v).

Lemma copies_use `{GoType cell A V} (f : A → mem cell A) h0 h a v :
  copies f → h0 ⊆ h → denote h a = Some v → yields h (f a) (λ a' h', copied h0 h' a' v).
Proof. intros Hf Hh Hd. by apply Hf. Qed.

Lemma copies_plain A : @copies A A (plain_type cell A) mret.
Proof.
  intros h0 h a v _ [= ->]. apply yields_ret. split; [done|]. cbn. set_solver.
Qed.
End copies.

Section reference_copies.
Context `{!Storable cell A} `{GoTypeLaws cell A V}.

Lemma yields_alloc (h : heap cell) (xs : list A) (Q : loc → heap cell → Prop) :
  (∀ l h', h !! l = None → h ⊆ h' → block h' l = Some xs → Q l h') → yields h (alloc xs) Q.
Proof.
  intros HQ. unfold alloc. eexists _, _. split; [done|]. pose proof (fresh_loc_fresh h) as Hf.
  assert (h ⊆ <[fresh_loc h := array_cell xs]> h) by by apply insert_subseteq.
  split; [done|]. apply HQ; [done..|]. unfold block. by rewrite lookup_insert_eq; apply cell_array_cell.
Qed.

(** [out := new(T)] and its contents *)
Lemma yields_new h0 (h : heap cell) (x : A) v :
  h0 ⊆ h → copied h0 h x v → yields h (new x) (λ p h', copied h0 h' (Some p) (Some v)).
Proof.
  intros Hh0 Hx. unfold new. apply yields_bind, yields_alloc. intros l h' Hl Hh Hb _.
  apply yields_ret. destruct (copied_extend h0 h h' x v Hh Hx) as [Hd Hd'].
  assert (Hp : deref h' (mkPtr (A:=A) l 0) = Some x) by (unfold deref; cbn; by rewrite Hb).
  split; cbn; rewrite Hp; cbn; [by rewrite Hd|]. apply disjoint_union_l. split; [|done].
  apply disjoint_singleton_l. intros [c Hc]%elem_of_dom. by rewrite (lookup_weaken _ _ _ _ Hc Hh0) in Hl.
Qed.

Lemma yields_mapM (f : A → mem cell A) h0 h (xs : list A) vs :
  copies f → h0 ⊆ h → Forall2 (λ x v, denote h x = Some v) xs vs →
  yields h (mapM_mem f xs) (λ ys h', Forall2 (copied h0 h') ys vs).
Proof.
  intros Hf. revert h vs. induction xs as [|x xs IH]; intros h vs Hh0 Hv; cbn [mapM_mem].
  { inversion Hv; subst. by apply yields_ret. }
  inversion Hv as [|? v ? vs' Hx Hxs]; subst. apply yields_bind.
  eapply yields_mono; [by apply Hf|]. intros y h1 Hh1 Hy _. apply yields_bind.
  eapply yields_mono.
  { apply (IH h1 vs'); [by etrans|]. eapply Forall2_impl; [exact Hxs|].
    intros x' v' Hd. by apply (denote_extend h h1). }
  intros ys h2 Hh2 Hys _. apply yields_ret. constructor; [by eapply copied_extend|done].
Qed.

Lemma yields_make h0 (h : heap cell) (xs : list A) vs :
  h0 ⊆ h → Forall2 (copied h0 h) xs vs → yields h (make xs) (λ s h', copied h0 h' (Some s) (Some vs)).
Proof.
  intros Hh0 Hx. unfold make. apply yields_bind, yields_alloc. intros l h' Hl Hh Hb _.
  apply yields_ret. assert (Hx' : Forall2 (copied h0 h') xs vs).
  { eapply Forall2_impl; [exact Hx|]. intros x v. by apply copied_extend. }
  assert (Hp : elements h' (mkHdr (A:=A) l 0 (length xs) (length xs)) = Some xs).
  { unfold elements. cbn. rewrite Hb. cbn. rewrite drop_0, decide_True by lia. by rewrite firstn_all. }
  split; cbn; rewrite Hp; cbn.
  - assert (Hm : mapM (denote h') xs = Some vs).
    { apply mapM_Some. eapply Forall2_impl; [exact Hx'|]. by intros x v [? _]. }
    by rewrite Hm.
  - apply disjoint_union_l. split.
    + apply disjoint_singleton_l. intros [c Hc]%elem_of_dom. by rewrite (lookup_weaken _ _ _ _ Hc Hh0) in Hl.
    + clear -Hx'. induction Hx' as [|x v xs vs [_ Hd] _ IH]; cbn; set_solver.
Qed.

(** [if in.F != nil { *out = new(T); ( *in).DeepCopyInto( *out) }] *)
Definition copy_ptr (DeepCopyInto : A → mem cell A) (p : gptr A) : mem cell (gptr A) :=
  match p with
  | None => mret None
  | Some p => x ← load p; x' ← DeepCopyInto x; p' ← new x'; mret (Some p')
  end.

(** [if in.F != nil { *out = make([]T, len( *in)); for i := range *in { ... } }] *)
Definition copy_slice (DeepCopyInto : A → mem cell A) (s : gslice A) : mem cell (gslice A) :=
  match s with
  | None => mret None
  | Some s => xs ← range s; xs' ← mapM_mem DeepCopyInto xs; s' ← make xs'; mret (Some s')
  end.

Lemma yields_read {B} (h : heap cell) (m : mem cell B) b (Q : B → heap cell → Prop) :
  m h = Some (b, h) → Q b h → yields h m Q.
Proof. intros Hm HQ. by exists b, h. Qed.

Lemma copies_ptr f : copies f → copies (copy_ptr f).
Proof.
  intros Hf h0 h [p|] v Hh0; cbn [copy_ptr denote ptr_type].
  2: { intros [= <-]. apply yields_ret. split; [done|]. cbn. set_solver. }
  intros (x & Hx & (w & Hw & ->)%fmap_Some)%bind_Some. apply yields_bind.
  eapply yields_read; [unfold load; by rewrite Hx|]. intros _. apply yields_bind.
  eapply yields_mono; [by apply Hf|]. intros x' h1 Hh1 Hx' _. apply yields_bind.
  eapply yields_mono; [apply (yields_new h0 h1 x' w); [by etrans|done]|]. intros p' h2 _ Hp _. by apply yields_ret.
Qed.

Lemma copies_slice f : copies f → copies (copy_slice f).
Proof.
  intros Hf h0 h [s|] v Hh0; cbn [copy_slice denote slice_type].
  2: { intros [= <-]. apply yields_ret. split; [done|]. cbn. set_solver. }
  intros (xs & Hx & (vs & Hv & ->)%fmap_Some)%bind_Some. apply mapM_Some in Hv. apply yields_bind.
  eapply yields_read; [unfold range; by rewrite Hx|]. intros _. apply yields_bind.
  eapply yields_mono; [by apply yields_mapM|]. intros xs' h1 Hh1 Hx' _. apply yields_bind.
  eapply yields_mono; [apply (yields_make h0 h1 xs' vs); [by etrans|done]|]. intros s' h2 _ Hs _. by apply yields_ret.
Qed.
End reference_copies.

Lemma copies_prod `{GoTypeLaws cell A V} `{GoTypeLaws cell B W} (f : A → mem cell A) (g : B → mem cell B) :
  copies f → copies g → copies (λ p : A * B, a ← f p.1; b ← g p.2; mret (a, b)).
Proof.
  intros Hf Hg h0 h [a b] v Hh0. cbn. intros (va & Ha & (vb & Hb & [= <-])%bind_Some)%bind_Some.
  apply yields_bind. eapply yields_mono; [by apply Hf|]. intros a' h1 Hh1 Ha' _. apply yields_bind.
  eapply yields_mono.
  { apply (Hg h0 h1 b vb); [by etrans|]. by apply (denote_extend h h1). }
  intros b' h2 Hh2 [Hb' Hd] _. apply yields_ret. destruct (copied_extend h0 h1 h2 a' va Hh2 Ha') as [Hda Hdd].
  split; cbn; [by rewrite Hda, Hb'|]. set_solver.
Qed.

(** ** Isolation *)

(** [res], the outcome of copying [x] in [h], is a copy with the value [w] that is
    isolated from [x]: nothing was written to what was allocated; the copy keeps its
    value as long as its own, new, blocks are not written; [x] keeps its value as
    long as the old blocks are not. *)
Definition isolated {cell R W} `{GoType cell R W} (h : heap cell) (x : R) (w : W)
    (res : option (R * heap cell)) : Prop :=
  ∃ x' h', res = Some (x', h') ∧ h ⊆ h' ∧ denote h' x' = Some w ∧
    (∀ h'', (∀ l, l ∈ dom h' → l ∉ dom h → h'' !! l = h' !! l) → denote h'' x' = Some w) ∧
    (∀ h'', (∀ l, l ∈ dom h → h'' !! l = h' !! l) → denote h'' x = Some w).

Lemma copies_isolated `{GoTypeLaws cell R W} (f : R → mem cell R) (h : heap cell) x w :
  copies f → denote h x = Some w → isolated h x w (f x h).
Proof.
  intros Hf Hx. destruct (Hf h h x w (reflexivity h) Hx) as (x' & h' & Hr & Hh & Hc & Hd).
  exists x', h'. split_and!; [done..| |].
  - intros h'' Ha. rewrite <- Hc. apply denote_agree. intros l Hl. apply Ha.
    + by eapply blocks_allocated.
    + intros Hl'. by apply (Hd l).
  - intros h'' Ha. rewrite <- Hx. apply denote_agree. intros l Hl.
    assert (Hin : l ∈ dom h) by by eapply blocks_allocated.
    rewrite (Ha l Hin). apply elem_of_dom in Hin as [c Hc']. rewrite Hc'. by eapply lookup_weaken.
Qed.

Definition isolating `{!Storable cell A} `{GoType cell A V}
    (DeepCopy : gptr A → mem cell (gptr A)) : Prop :=
  ∀ h p v, denote h p = Some v → isolated h p v (DeepCopy p h).

Lemma copy_isolating `{!Storable cell A} `{GoTypeLaws cell A V}
    (into : A → mem cell A) : copies into → isolating (copy_ptr into).
Proof. intros Hc h p v Hp. by apply copies_isolated; [apply copies_ptr|]. Qed.
