(* ===== verification/DeepCopy.v ===== *)
(** * Deep copies: api/v1/zz_generated.deepcopy.go

    The structs of api/v1 as they lie in memory, and their generated
    [DeepCopyInto], [DeepCopy] and [DeepCopyObject].  A struct is parametrised by
    how its references are represented ([repr]): in memory ([in_mem]) they are
    pointers and slice headers, in its value ([as_value]) what these lead to.  A
    [DeepCopyInto] is a function from what [in] points to to what is left in
    [ *out]; [ *out = *in] is the struct it starts from.  The types of apimachinery
    are a parameter, with their own deep copies ([MetaLib]) and the contract these
    keep ([MetaLaws]). *)

From S2P Require Import Prelude Kube Api GoMem.
From stdpp Require Import options.

#[local] Set Default Proof Using "Type*".

(** ** The structs *)

Record repr := mkRepr {
  Slice : Type → Type;
  Ptr : Type → Type;
  ObjectMeta_ : Type;
  ListMeta_ : Type;
  LabelSelector_ : Type;
  Condition_ : Type;
  Time_ : Type;
}.

(** [metav1.TypeMeta] *)
Record TypeMeta := mkTypeMeta { tm_Kind : string; tm_APIVersion : string }.

Section structs.
Context {r : repr}.

Record PBSBackupSpec := mkPBSBackupSpec {
  PBSBackupSpec_RepoRef : string;
  PBSBackupSpec_PVCs : Slice r string;
  PBSBackupSpec_Selector : Ptr r (LabelSelector_ r);
  PBSBackupSpec_Notes : string;
}.
Record PBSBackupStatus := mkPBSBackupStatus {
  PBSBackupStatus_Phase : BackupPhase;
  PBSBackupStatus_SnapshotRef : string;
  PBSBackupStatus_Jobs : Slice r BackupJobStatus;
  PBSBackupStatus_StartedAt : Ptr r (Time_ r);
  PBSBackupStatus_CompletedAt : Ptr r (Time_ r);
  PBSBackupStatus_Bytes : Z;
  PBSBackupStatus_Conditions : Slice r (Condition_ r);
}.
Record PBSBackup := mkPBSBackup {
  PBSBackup_TypeMeta : TypeMeta;
  PBSBackup_ObjectMeta : ObjectMeta_ r;
  PBSBackup_Spec : PBSBackupSpec;
  PBSBackup_Status : PBSBackupStatus;
}.
Record PBSBackupList := mkPBSBackupList {
  PBSBackupList_TypeMeta : TypeMeta;
  PBSBackupList_ListMeta : ListMeta_ r;
  PBSBackupList_Items : Slice r PBSBackup;
}.
Record PBSBackupTemplate := mkPBSBackupTemplate {
  PBSBackupTemplate_PVCs : Slice r string;
  PBSBackupTemplate_Selector : Ptr r (LabelSelector_ r);
  PBSBackupTemplate_Notes : string;
}.
Record PBSRepoStatus := mkPBSRepoStatus {
  PBSRepoStatus_Conditions : Slice r (Condition_ r);
  PBSRepoStatus_LastProbeTime : Ptr r (Time_ r);
}.
Record PBSRepo := mkPBSRepo {
  PBSRepo_TypeMeta : TypeMeta;
  PBSRepo_ObjectMeta : ObjectMeta_ r;
  PBSRepo_Spec : PBSRepoSpec;
  PBSRepo_Status : PBSRepoStatus;
}.
Record PBSRepoList := mkPBSRepoList {
  PBSRepoList_TypeMeta : TypeMeta;
  PBSRepoList_ListMeta : ListMeta_ r;
  PBSRepoList_Items : Slice r PBSRepo;
}.
Record PBSRestoreSpec := mkPBSRestoreSpec {
  PBSRestoreSpec_RepoRef : string;
  PBSRestoreSpec_SnapshotRef : string;
  PBSRestoreSpec_TargetNamespace : string;
  PBSRestoreSpec_DropKinds : Slice r string;
  PBSRestoreSpec_KeepKinds : Slice r string;
}.
Record PBSRestoreStatus := mkPBSRestoreStatus {
  PBSRestoreStatus_Phase : RestorePhase;
  PBSRestoreStatus_Conditions : Slice r (Condition_ r);
  PBSRestoreStatus_StartedAt : Ptr r (Time_ r);
  PBSRestoreStatus_CompletedAt : Ptr r (Time_ r);
  PBSRestoreStatus_Jobs : Slice r RestoreJobStatus;
}.
Record PBSRestore := mkPBSRestore {
  PBSRestore_TypeMeta : TypeMeta;
  PBSRestore_ObjectMeta : ObjectMeta_ r;
  PBSRestore_Spec : PBSRestoreSpec;
  PBSRestore_Status : PBSRestoreStatus;
}.
Record PBSRestoreList := mkPBSRestoreList {
  PBSRestoreList_TypeMeta : TypeMeta;
  PBSRestoreList_ListMeta : ListMeta_ r;
  PBSRestoreList_Items : Slice r PBSRestore;
}.
Record PBSScheduleSpec := mkPBSScheduleSpec {
  PBSScheduleSpec_RepoRef : string;
  PBSScheduleSpec_Schedule : string;
  PBSScheduleSpec_Template : PBSBackupTemplate;
  PBSScheduleSpec_Suspend : bool;
}.
Record PBSScheduleStatus := mkPBSScheduleStatus {
  PBSScheduleStatus_LastScheduleTime : Ptr r (Time_ r);
  PBSScheduleStatus_NextScheduleTime : Ptr r (Time_ r);
  PBSScheduleStatus_Active : Slice r string;
  PBSScheduleStatus_Conditions : Slice r (Condition_ r);
}.
Record PBSSchedule := mkPBSSchedule {
  PBSSchedule_TypeMeta : TypeMeta;
  PBSSchedule_ObjectMeta : ObjectMeta_ r;
  PBSSchedule_Spec : PBSScheduleSpec;
  PBSSchedule_Status : PBSScheduleStatus;
}.
Record PBSScheduleList := mkPBSScheduleList {
  PBSScheduleList_TypeMeta : TypeMeta;
  PBSScheduleList_ListMeta : ListMeta_ r;
  PBSScheduleList_Items : Slice r PBSSchedule;
}.
End structs.

Arguments PBSBackupSpec : clear implicits.
Arguments PBSBackupStatus : clear implicits.
Arguments PBSBackup : clear implicits.
Arguments PBSBackupList : clear implicits.
Arguments PBSBackupTemplate : clear implicits.
Arguments PBSRepoStatus : clear implicits.
Arguments PBSRepo : clear implicits.
Arguments PBSRepoList : clear implicits.
Arguments PBSRestoreSpec : clear implicits.
Arguments PBSRestoreStatus : clear implicits.
Arguments PBSRestore : clear implicits.
Arguments PBSRestoreList : clear implicits.
Arguments PBSScheduleSpec : clear implicits.
Arguments PBSScheduleStatus : clear implicits.
Arguments PBSSchedule : clear implicits.
Arguments PBSScheduleList : clear implicits.

(** ** In memory *)

(** The types of apimachinery as they lie in memory, and the blocks of theirs that
    are no arrays of theirs (the maps in an ObjectMeta, and so on) *)
Class MetaTypes := {
  meta_cell : Type;
  mem_ObjectMeta : Type;
  mem_ListMeta : Type;
  mem_LabelSelector : Type;
  mem_Condition : Type;
  mem_Time : Type;
}.

Section memory.
Context `{MetaTypes}.

Definition in_mem : repr := {|
  Slice := λ A, gslice A; Ptr := λ A, gptr A; ObjectMeta_ := mem_ObjectMeta; ListMeta_ :=
      mem_ListMeta;
  LabelSelector_ := mem_LabelSelector; Condition_ := mem_Condition; Time_ := mem_Time |}.

(** A block: an array of a type of the program, or one of apimachinery's own *)
Inductive cell :=
  | CMeta (c : meta_cell)
  | Cstring (l : list string)
  | CLabelSelector (l : list mem_LabelSelector)
  | CCondition (l : list mem_Condition)
  | CTime (l : list mem_Time)
  | CBackupJobStatus (l : list BackupJobStatus)
  | CNamespacedSecretRef (l : list NamespacedSecretRef)
  | CPBSRepoSpec (l : list PBSRepoSpec)
  | CRestoreJobStatus (l : list RestoreJobStatus)
  | CPBSBackupSpec (l : list (PBSBackupSpec in_mem))
  | CPBSBackupStatus (l : list (PBSBackupStatus in_mem))
  | CPBSBackup (l : list (PBSBackup in_mem))
  | CPBSBackupList (l : list (PBSBackupList in_mem))
  | CPBSBackupTemplate (l : list (PBSBackupTemplate in_mem))
  | CPBSRepoStatus (l : list (PBSRepoStatus in_mem))
  | CPBSRepo (l : list (PBSRepo in_mem))
  | CPBSRepoList (l : list (PBSRepoList in_mem))
  | CPBSRestoreSpec (l : list (PBSRestoreSpec in_mem))
  | CPBSRestoreStatus (l : list (PBSRestoreStatus in_mem))
  | CPBSRestore (l : list (PBSRestore in_mem))
  | CPBSRestoreList (l : list (PBSRestoreList in_mem))
  | CPBSScheduleSpec (l : list (PBSScheduleSpec in_mem))
  | CPBSScheduleStatus (l : list (PBSScheduleStatus in_mem))
  | CPBSSchedule (l : list (PBSSchedule in_mem))
  | CPBSScheduleList (l : list (PBSScheduleList in_mem)).

(** The arrays of one type *)
Definition array_of {A} (inj : list A → cell) (prj : cell → option (list A))
  (Hprj : ∀ l, prj (inj l) = Some l) : Storable cell A :=
  {| array_cell := inj; cell_array := prj; cell_array_cell := Hprj |}.
#[export] Instance string_arrays : Storable cell string :=
  array_of Cstring (λ c, match c with Cstring l => Some l | _ => None end) (λ _, eq_refl).
#[export] Instance LabelSelector_arrays : Storable cell mem_LabelSelector :=
  array_of CLabelSelector (λ c, match c with CLabelSelector l => Some l | _ => None end) (λ _,
      eq_refl).
#[export] Instance Condition_arrays : Storable cell mem_Condition :=
  array_of CCondition (λ c, match c with CCondition l => Some l | _ => None end) (λ _, eq_refl).
#[export] Instance Time_arrays : Storable cell mem_Time :=
  array_of CTime (λ c, match c with CTime l => Some l | _ => None end) (λ _, eq_refl).
#[export] Instance BackupJobStatus_arrays : Storable cell BackupJobStatus :=
  array_of CBackupJobStatus (λ c, match c with CBackupJobStatus l => Some l | _ => None end) (λ _,
      eq_refl).
#[export] Instance NamespacedSecretRef_arrays : Storable cell NamespacedSecretRef :=
  array_of CNamespacedSecretRef (λ c, match c with CNamespacedSecretRef l => Some l | _ => None end)
      (λ _, eq_refl).
#[export] Instance PBSRepoSpec_arrays : Storable cell PBSRepoSpec :=
  array_of CPBSRepoSpec (λ c, match c with CPBSRepoSpec l => Some l | _ => None end) (λ _, eq_refl).
#[export] Instance RestoreJobStatus_arrays : Storable cell RestoreJobStatus :=
  array_of CRestoreJobStatus (λ c, match c with CRestoreJobStatus l => Some l | _ => None end) (λ _,
      eq_refl).
#[export] Instance PBSBackupSpec_arrays : Storable cell (PBSBackupSpec in_mem) :=
  array_of CPBSBackupSpec (λ c, match c with CPBSBackupSpec l => Some l | _ => None end) (λ _,
      eq_refl).
#[export] Instance PBSBackupStatus_arrays : Storable cell (PBSBackupStatus in_mem) :=
  array_of CPBSBackupStatus (λ c, match c with CPBSBackupStatus l => Some l | _ => None end) (λ _,
      eq_refl).
#[export] Instance PBSBackup_arrays : Storable cell (PBSBackup in_mem) :=
  array_of CPBSBackup (λ c, match c with CPBSBackup l => Some l | _ => None end) (λ _, eq_refl).
#[export] Instance PBSBackupList_arrays : Storable cell (PBSBackupList in_mem) :=
  array_of CPBSBackupList (λ c, match c with CPBSBackupList l => Some l | _ => None end) (λ _,
      eq_refl).
#[export] Instance PBSBackupTemplate_arrays : Storable cell (PBSBackupTemplate in_mem) :=
  array_of CPBSBackupTemplate (λ c, match c with CPBSBackupTemplate l => Some l | _ => None end) (λ
      _, eq_refl).
#[export] Instance PBSRepoStatus_arrays : Storable cell (PBSRepoStatus in_mem) :=
  array_of CPBSRepoStatus (λ c, match c with CPBSRepoStatus l => Some l | _ => None end) (λ _,
      eq_refl).
#[export] Instance PBSRepo_arrays : Storable cell (PBSRepo in_mem) :=
  array_of CPBSRepo (λ c, match c with CPBSRepo l => Some l | _ => None end) (λ _, eq_refl).
#[export] Instance PBSRepoList_arrays : Storable cell (PBSRepoList in_mem) :=
  array_of CPBSRepoList (λ c, match c with CPBSRepoList l => Some l | _ => None end) (λ _, eq_refl).
#[export] Instance PBSRestoreSpec_arrays : Storable cell (PBSRestoreSpec in_mem) :=
  array_of CPBSRestoreSpec (λ c, match c with CPBSRestoreSpec l => Some l | _ => None end) (λ _,
      eq_refl).
#[export] Instance PBSRestoreStatus_arrays : Storable cell (PBSRestoreStatus in_mem) :=
  array_of CPBSRestoreStatus (λ c, match c with CPBSRestoreStatus l => Some l | _ => None end) (λ _,
      eq_refl).
#[export] Instance PBSRestore_arrays : Storable cell (PBSRestore in_mem) :=
  array_of CPBSRestore (λ c, match c with CPBSRestore l => Some l | _ => None end) (λ _, eq_refl).
#[export] Instance PBSRestoreList_arrays : Storable cell (PBSRestoreList in_mem) :=
  array_of CPBSRestoreList (λ c, match c with CPBSRestoreList l => Some l | _ => None end) (λ _,
      eq_refl).
#[export] Instance PBSScheduleSpec_arrays : Storable cell (PBSScheduleSpec in_mem) :=
  array_of CPBSScheduleSpec (λ c, match c with CPBSScheduleSpec l => Some l | _ => None end) (λ _,
      eq_refl).
#[export] Instance PBSScheduleStatus_arrays : Storable cell (PBSScheduleStatus in_mem) :=
  array_of CPBSScheduleStatus (λ c, match c with CPBSScheduleStatus l => Some l | _ => None end) (λ
      _, eq_refl).
#[export] Instance PBSSchedule_arrays : Storable cell (PBSSchedule in_mem) :=
  array_of CPBSSchedule (λ c, match c with CPBSSchedule l => Some l | _ => None end) (λ _, eq_refl).
#[export] Instance PBSScheduleList_arrays : Storable cell (PBSScheduleList in_mem) :=
  array_of CPBSScheduleList (λ c, match c with CPBSScheduleList l => Some l | _ => None end) (λ _,
      eq_refl).

(** The deep copies of apimachinery *)
Class MetaLib := {
  ObjectMeta_DeepCopyInto : mem_ObjectMeta → mem cell mem_ObjectMeta;
  ListMeta_DeepCopyInto : mem_ListMeta → mem cell mem_ListMeta;
  LabelSelector_DeepCopyInto : mem_LabelSelector → mem cell mem_LabelSelector;
  Condition_DeepCopyInto : mem_Condition → mem cell mem_Condition;
  Time_DeepCopy : gptr mem_Time → mem cell (gptr mem_Time);
}.
End memory.

Section deepcopy.
Context `{MetaLib}.

(** [copy( *out, *in)] of elements without references *)
Definition copy_elements {A} `{Storable cell A} : gslice A → mem cell (gslice A) := copy_slice mret.

(** [if in.F != nil { *out = ( *in).DeepCopy() }] *)
Definition copy_time (t : gptr mem_Time) : mem cell (gptr mem_Time) :=
  match t with
  | Some _ => Time_DeepCopy t
  | None => mret None
  end.

(** ** DeepCopyInto and DeepCopy

    The body of a [DeepCopy] is a pointer's copy: nil for nil, and otherwise
    [out := new(T); in.DeepCopyInto(out)]. *)

Definition DeepCopyInto_BackupJobStatus (in_ : BackupJobStatus) : mem cell BackupJobStatus := mret
    in_.
Definition DeepCopy_BackupJobStatus : gptr BackupJobStatus → mem cell (gptr BackupJobStatus) :=
  copy_ptr DeepCopyInto_BackupJobStatus.

Definition DeepCopyInto_NamespacedSecretRef (in_ : NamespacedSecretRef) : mem cell
    NamespacedSecretRef := mret in_.
Definition DeepCopy_NamespacedSecretRef : gptr NamespacedSecretRef → mem cell (gptr
    NamespacedSecretRef) :=
  copy_ptr DeepCopyInto_NamespacedSecretRef.

Definition DeepCopyInto_PBSBackupSpec (in_ : PBSBackupSpec in_mem) : mem cell (PBSBackupSpec in_mem)
    :=
  pvcs ← copy_elements (PBSBackupSpec_PVCs in_);
  selector ← copy_ptr LabelSelector_DeepCopyInto (PBSBackupSpec_Selector in_);
  mret (mkPBSBackupSpec (r:=in_mem) (PBSBackupSpec_RepoRef in_) pvcs selector (PBSBackupSpec_Notes
      in_)).
Definition DeepCopy_PBSBackupSpec : gptr (PBSBackupSpec in_mem) → mem cell (gptr (PBSBackupSpec
    in_mem)) :=
  copy_ptr DeepCopyInto_PBSBackupSpec.

Definition DeepCopyInto_PBSBackupStatus (in_ : PBSBackupStatus in_mem) : mem cell (PBSBackupStatus
    in_mem) :=
  jobs ← copy_elements (PBSBackupStatus_Jobs in_);
  startedAt ← copy_time (PBSBackupStatus_StartedAt in_);
  completedAt ← copy_time (PBSBackupStatus_CompletedAt in_);
  conditions ← copy_slice Condition_DeepCopyInto (PBSBackupStatus_Conditions in_);
  mret (mkPBSBackupStatus (r:=in_mem) (PBSBackupStatus_Phase in_) (PBSBackupStatus_SnapshotRef in_)
      jobs startedAt completedAt (PBSBackupStatus_Bytes in_) conditions).
Definition DeepCopy_PBSBackupStatus : gptr (PBSBackupStatus in_mem) → mem cell (gptr
    (PBSBackupStatus in_mem)) :=
  copy_ptr DeepCopyInto_PBSBackupStatus.

Definition DeepCopyInto_PBSBackup (in_ : PBSBackup in_mem) : mem cell (PBSBackup in_mem) :=
  objectMeta ← ObjectMeta_DeepCopyInto (PBSBackup_ObjectMeta in_);
  spec ← DeepCopyInto_PBSBackupSpec (PBSBackup_Spec in_);
  status ← DeepCopyInto_PBSBackupStatus (PBSBackup_Status in_);
  mret (mkPBSBackup (r:=in_mem) (PBSBackup_TypeMeta in_) objectMeta spec status).
Definition DeepCopy_PBSBackup : gptr (PBSBackup in_mem) → mem cell (gptr (PBSBackup in_mem)) :=
  copy_ptr DeepCopyInto_PBSBackup.

Definition DeepCopyInto_PBSBackupList (in_ : PBSBackupList in_mem) : mem cell (PBSBackupList in_mem)
    :=
  listMeta ← ListMeta_DeepCopyInto (PBSBackupList_ListMeta in_);
  items ← copy_slice DeepCopyInto_PBSBackup (PBSBackupList_Items in_);
  mret (mkPBSBackupList (r:=in_mem) (PBSBackupList_TypeMeta in_) listMeta items).
Definition DeepCopy_PBSBackupList : gptr (PBSBackupList in_mem) → mem cell (gptr (PBSBackupList
    in_mem)) :=
  copy_ptr DeepCopyInto_PBSBackupList.

Definition DeepCopyInto_PBSBackupTemplate (in_ : PBSBackupTemplate in_mem) : mem cell
    (PBSBackupTemplate in_mem) :=
  pvcs ← copy_elements (PBSBackupTemplate_PVCs in_);
  selector ← copy_ptr LabelSelector_DeepCopyInto (PBSBackupTemplate_Selector in_);
  mret (mkPBSBackupTemplate (r:=in_mem) pvcs selector (PBSBackupTemplate_Notes in_)).
Definition DeepCopy_PBSBackupTemplate : gptr (PBSBackupTemplate in_mem) → mem cell (gptr
    (PBSBackupTemplate in_mem)) :=
  copy_ptr DeepCopyInto_PBSBackupTemplate.

Definition DeepCopyInto_PBSRepoSpec (in_ : PBSRepoSpec) : mem cell PBSRepoSpec :=
  let out := in_ in
  mret (mkRepoSpec (rsp_Host out) (rsp_Port out) (rsp_Datastore out) (rsp_Namespace out)
          (rsp_Fingerprint out) (rsp_SecretRef in_) (rsp_BootstrapTokenRef in_)).
Definition DeepCopy_PBSRepoSpec : gptr PBSRepoSpec → mem cell (gptr PBSRepoSpec) :=
  copy_ptr DeepCopyInto_PBSRepoSpec.

Definition DeepCopyInto_PBSRepoStatus (in_ : PBSRepoStatus in_mem) : mem cell (PBSRepoStatus in_mem)
    :=
  conditions ← copy_slice Condition_DeepCopyInto (PBSRepoStatus_Conditions in_);
  lastProbeTime ← copy_time (PBSRepoStatus_LastProbeTime in_);
  mret (mkPBSRepoStatus (r:=in_mem) conditions lastProbeTime).
Definition DeepCopy_PBSRepoStatus : gptr (PBSRepoStatus in_mem) → mem cell (gptr (PBSRepoStatus
    in_mem)) :=
  copy_ptr DeepCopyInto_PBSRepoStatus.

Definition DeepCopyInto_PBSRepo (in_ : PBSRepo in_mem) : mem cell (PBSRepo in_mem) :=
  objectMeta ← ObjectMeta_DeepCopyInto (PBSRepo_ObjectMeta in_);
  status ← DeepCopyInto_PBSRepoStatus (PBSRepo_Status in_);
  mret (mkPBSRepo (r:=in_mem) (PBSRepo_TypeMeta in_) objectMeta (PBSRepo_Spec in_) status).
Definition DeepCopy_PBSRepo : gptr (PBSRepo in_mem) → mem cell (gptr (PBSRepo in_mem)) :=
  copy_ptr DeepCopyInto_PBSRepo.

Definition DeepCopyInto_PBSRepoList (in_ : PBSRepoList in_mem) : mem cell (PBSRepoList in_mem) :=
  listMeta ← ListMeta_DeepCopyInto (PBSRepoList_ListMeta in_);
  items ← copy_slice DeepCopyInto_PBSRepo (PBSRepoList_Items in_);
  mret (mkPBSRepoList (r:=in_mem) (PBSRepoList_TypeMeta in_) listMeta items).
Definition DeepCopy_PBSRepoList : gptr (PBSRepoList in_mem) → mem cell (gptr (PBSRepoList in_mem))
    :=
  copy_ptr DeepCopyInto_PBSRepoList.

Definition DeepCopyInto_PBSRestoreSpec (in_ : PBSRestoreSpec in_mem) : mem cell (PBSRestoreSpec
    in_mem) :=
  dropKinds ← copy_elements (PBSRestoreSpec_DropKinds in_);
  keepKinds ← copy_elements (PBSRestoreSpec_KeepKinds in_);
  mret (mkPBSRestoreSpec (r:=in_mem) (PBSRestoreSpec_RepoRef in_) (PBSRestoreSpec_SnapshotRef in_)
      (PBSRestoreSpec_TargetNamespace in_) dropKinds keepKinds).
Definition DeepCopy_PBSRestoreSpec : gptr (PBSRestoreSpec in_mem) → mem cell (gptr (PBSRestoreSpec
    in_mem)) :=
  copy_ptr DeepCopyInto_PBSRestoreSpec.

Definition DeepCopyInto_PBSRestoreStatus (in_ : PBSRestoreStatus in_mem) : mem cell
    (PBSRestoreStatus in_mem) :=
  conditions ← copy_slice Condition_DeepCopyInto (PBSRestoreStatus_Conditions in_);
  startedAt ← copy_time (PBSRestoreStatus_StartedAt in_);
  completedAt ← copy_time (PBSRestoreStatus_CompletedAt in_);
  jobs ← copy_elements (PBSRestoreStatus_Jobs in_);
  mret (mkPBSRestoreStatus (r:=in_mem) (PBSRestoreStatus_Phase in_) conditions startedAt completedAt
      jobs).
Definition DeepCopy_PBSRestoreStatus : gptr (PBSRestoreStatus in_mem) → mem cell (gptr
    (PBSRestoreStatus in_mem)) :=
  copy_ptr DeepCopyInto_PBSRestoreStatus.

Definition DeepCopyInto_PBSRestore (in_ : PBSRestore in_mem) : mem cell (PBSRestore in_mem) :=
  objectMeta ← ObjectMeta_DeepCopyInto (PBSRestore_ObjectMeta in_);
  spec ← DeepCopyInto_PBSRestoreSpec (PBSRestore_Spec in_);
  status ← DeepCopyInto_PBSRestoreStatus (PBSRestore_Status in_);
  mret (mkPBSRestore (r:=in_mem) (PBSRestore_TypeMeta in_) objectMeta spec status).
Definition DeepCopy_PBSRestore : gptr (PBSRestore in_mem) → mem cell (gptr (PBSRestore in_mem)) :=
  copy_ptr DeepCopyInto_PBSRestore.

Definition DeepCopyInto_PBSRestoreList (in_ : PBSRestoreList in_mem) : mem cell (PBSRestoreList
    in_mem) :=
  listMeta ← ListMeta_DeepCopyInto (PBSRestoreList_ListMeta in_);
  items ← copy_slice DeepCopyInto_PBSRestore (PBSRestoreList_Items in_);
  mret (mkPBSRestoreList (r:=in_mem) (PBSRestoreList_TypeMeta in_) listMeta items).
Definition DeepCopy_PBSRestoreList : gptr (PBSRestoreList in_mem) → mem cell (gptr (PBSRestoreList
    in_mem)) :=
  copy_ptr DeepCopyInto_PBSRestoreList.

Definition DeepCopyInto_PBSScheduleSpec (in_ : PBSScheduleSpec in_mem) : mem cell (PBSScheduleSpec
    in_mem) :=
  template ← DeepCopyInto_PBSBackupTemplate (PBSScheduleSpec_Template in_);
  mret (mkPBSScheduleSpec (r:=in_mem) (PBSScheduleSpec_RepoRef in_) (PBSScheduleSpec_Schedule in_)
      template (PBSScheduleSpec_Suspend in_)).
Definition DeepCopy_PBSScheduleSpec : gptr (PBSScheduleSpec in_mem) → mem cell (gptr
    (PBSScheduleSpec in_mem)) :=
  copy_ptr DeepCopyInto_PBSScheduleSpec.

Definition DeepCopyInto_PBSScheduleStatus (in_ : PBSScheduleStatus in_mem) : mem cell
    (PBSScheduleStatus in_mem) :=
  lastScheduleTime ← copy_time (PBSScheduleStatus_LastScheduleTime in_);
  nextScheduleTime ← copy_time (PBSScheduleStatus_NextScheduleTime in_);
  active ← copy_elements (PBSScheduleStatus_Active in_);
  conditions ← copy_slice Condition_DeepCopyInto (PBSScheduleStatus_Conditions in_);
  mret (mkPBSScheduleStatus (r:=in_mem) lastScheduleTime nextScheduleTime active conditions).
Definition DeepCopy_PBSScheduleStatus : gptr (PBSScheduleStatus in_mem) → mem cell (gptr
    (PBSScheduleStatus in_mem)) :=
  copy_ptr DeepCopyInto_PBSScheduleStatus.

Definition DeepCopyInto_PBSSchedule (in_ : PBSSchedule in_mem) : mem cell (PBSSchedule in_mem) :=
  objectMeta ← ObjectMeta_DeepCopyInto (PBSSchedule_ObjectMeta in_);
  spec ← DeepCopyInto_PBSScheduleSpec (PBSSchedule_Spec in_);
  status ← DeepCopyInto_PBSScheduleStatus (PBSSchedule_Status in_);
  mret (mkPBSSchedule (r:=in_mem) (PBSSchedule_TypeMeta in_) objectMeta spec status).
Definition DeepCopy_PBSSchedule : gptr (PBSSchedule in_mem) → mem cell (gptr (PBSSchedule in_mem))
    :=
  copy_ptr DeepCopyInto_PBSSchedule.

Definition DeepCopyInto_PBSScheduleList (in_ : PBSScheduleList in_mem) : mem cell (PBSScheduleList
    in_mem) :=
  listMeta ← ListMeta_DeepCopyInto (PBSScheduleList_ListMeta in_);
  items ← copy_slice DeepCopyInto_PBSSchedule (PBSScheduleList_Items in_);
  mret (mkPBSScheduleList (r:=in_mem) (PBSScheduleList_TypeMeta in_) listMeta items).
Definition DeepCopy_PBSScheduleList : gptr (PBSScheduleList in_mem) → mem cell (gptr
    (PBSScheduleList in_mem)) :=
  copy_ptr DeepCopyInto_PBSScheduleList.

Definition DeepCopyInto_RestoreJobStatus (in_ : RestoreJobStatus) : mem cell RestoreJobStatus :=
    mret in_.
Definition DeepCopy_RestoreJobStatus : gptr RestoreJobStatus → mem cell (gptr RestoreJobStatus) :=
  copy_ptr DeepCopyInto_RestoreJobStatus.

End deepcopy.

(** ** DeepCopyObject *)

(** A value of the interface [runtime.Object]: a type and a pointer of it. *)
Inductive Object (r : repr) :=
  | OPBSBackup (p : Ptr r (PBSBackup r))
  | OPBSBackupList (p : Ptr r (PBSBackupList r))
  | OPBSRepo (p : Ptr r (PBSRepo r))
  | OPBSRepoList (p : Ptr r (PBSRepoList r))
  | OPBSRestore (p : Ptr r (PBSRestore r))
  | OPBSRestoreList (p : Ptr r (PBSRestoreList r))
  | OPBSSchedule (p : Ptr r (PBSSchedule r))
  | OPBSScheduleList (p : Ptr r (PBSScheduleList r)).
Arguments OPBSBackup {r}. Arguments OPBSBackupList {r}. Arguments OPBSRepo {r}. Arguments
    OPBSRepoList {r}. Arguments OPBSRestore {r}. Arguments OPBSRestoreList {r}. Arguments
    OPBSSchedule {r}. Arguments OPBSScheduleList {r}.

Section objects.
Context `{MetaLib}.

(** [None] is the nil interface, which a nil pointer of a type is not. *)
Definition deep_copy_object {A} (DeepCopy : gptr A → mem cell (gptr A)) (iface : gptr A → Object
    in_mem)
    (in_ : gptr A) : mem cell (option (Object in_mem)) :=
  c ← DeepCopy in_;
  match c with
  | Some _ => mret (Some (iface c))
  | None => mret None
  end.

Definition DeepCopyObject_PBSBackup : gptr (PBSBackup in_mem) → mem cell (option (Object in_mem)) :=
  deep_copy_object DeepCopy_PBSBackup (@OPBSBackup in_mem).
Definition DeepCopyObject_PBSBackupList : gptr (PBSBackupList in_mem) → mem cell (option (Object
    in_mem)) :=
  deep_copy_object DeepCopy_PBSBackupList (@OPBSBackupList in_mem).
Definition DeepCopyObject_PBSRepo : gptr (PBSRepo in_mem) → mem cell (option (Object in_mem)) :=
  deep_copy_object DeepCopy_PBSRepo (@OPBSRepo in_mem).
Definition DeepCopyObject_PBSRepoList : gptr (PBSRepoList in_mem) → mem cell (option (Object
    in_mem)) :=
  deep_copy_object DeepCopy_PBSRepoList (@OPBSRepoList in_mem).
Definition DeepCopyObject_PBSRestore : gptr (PBSRestore in_mem) → mem cell (option (Object in_mem))
    :=
  deep_copy_object DeepCopy_PBSRestore (@OPBSRestore in_mem).
Definition DeepCopyObject_PBSRestoreList : gptr (PBSRestoreList in_mem) → mem cell (option (Object
    in_mem)) :=
  deep_copy_object DeepCopy_PBSRestoreList (@OPBSRestoreList in_mem).
Definition DeepCopyObject_PBSSchedule : gptr (PBSSchedule in_mem) → mem cell (option (Object
    in_mem)) :=
  deep_copy_object DeepCopy_PBSSchedule (@OPBSSchedule in_mem).
Definition DeepCopyObject_PBSScheduleList : gptr (PBSScheduleList in_mem) → mem cell (option (Object
    in_mem)) :=
  deep_copy_object DeepCopy_PBSScheduleList (@OPBSScheduleList in_mem).

(** The call of the method through the interface *)
Definition DeepCopyObject (o : Object in_mem) : mem cell (option (Object in_mem)) :=
  match o with
  | OPBSBackup p => DeepCopyObject_PBSBackup p
  | OPBSBackupList p => DeepCopyObject_PBSBackupList p
  | OPBSRepo p => DeepCopyObject_PBSRepo p
  | OPBSRepoList p => DeepCopyObject_PBSRepoList p
  | OPBSRestore p => DeepCopyObject_PBSRestore p
  | OPBSRestoreList p => DeepCopyObject_PBSRestoreList p
  | OPBSSchedule p => DeepCopyObject_PBSSchedule p
  | OPBSScheduleList p => DeepCopyObject_PBSScheduleList p
  end.
End objects.
