(* ===== verification/DeepCopyProps.v ===== *)
(** * A deep copy shares no memory with its original

    The value of a struct in memory, and the proof that every generated copy has the
    value of its original and blocks of its own: what is later written through one
    of the two is not seen through the other.  This is what lets the models of the
    reconcilers treat objects as values: the [before] a status patch is computed
    from is a deep copy, taken before the object is changed in place. *)

From S2P Require Import Prelude Kube Api GoMem DeepCopy.
From stdpp Require Import options.

#[local] Set Default Proof Using "Type*".

(** ** Values *)

(** What the types of apimachinery lead to, and the contract of their deep copies *)
Class MetaViews `{MetaTypes} := {
  val_ObjectMeta : Type; val_ListMeta : Type; val_LabelSelector : Type;
  val_Condition : Type; val_Time : Type;
  #[global] ObjectMeta_type :: GoType cell mem_ObjectMeta val_ObjectMeta;
  #[global] ListMeta_type :: GoType cell mem_ListMeta val_ListMeta;
  #[global] LabelSelector_type :: GoType cell mem_LabelSelector val_LabelSelector;
  #[global] Condition_type :: GoType cell mem_Condition val_Condition;
  #[global] Time_type :: GoType cell mem_Time val_Time;
}.

Class MetaLaws `{MetaTypes} `{!MetaLib} `{!MetaViews} : Prop := {
  #[global] ObjectMeta_laws :: GoTypeLaws cell mem_ObjectMeta val_ObjectMeta;
  #[global] ListMeta_laws :: GoTypeLaws cell mem_ListMeta val_ListMeta;
  #[global] LabelSelector_laws :: GoTypeLaws cell mem_LabelSelector val_LabelSelector;
  #[global] Condition_laws :: GoTypeLaws cell mem_Condition val_Condition;
  #[global] Time_laws :: GoTypeLaws cell mem_Time val_Time;
  ObjectMeta_copies : copies ObjectMeta_DeepCopyInto;
  ListMeta_copies : copies ListMeta_DeepCopyInto;
  LabelSelector_copies : copies LabelSelector_DeepCopyInto;
  Condition_copies : copies Condition_DeepCopyInto;
  Time_copies : copies Time_DeepCopy;
}.

#[export] Instance string_type cell : GoType cell string string := plain_type cell string.
#[export] Instance string_laws cell : GoTypeLaws cell string string := plain_type_laws cell string.
#[export] Instance Z_type cell : GoType cell Z Z := plain_type cell Z.
#[export] Instance Z_laws cell : GoTypeLaws cell Z Z := plain_type_laws cell Z.
#[export] Instance bool_type cell : GoType cell bool bool := plain_type cell bool.
#[export] Instance bool_laws cell : GoTypeLaws cell bool bool := plain_type_laws cell bool.
#[export] Instance BackupPhase_type cell : GoType cell BackupPhase BackupPhase := plain_type cell BackupPhase.
#[export] Instance BackupPhase_laws cell : GoTypeLaws cell BackupPhase BackupPhase := plain_type_laws cell BackupPhase.
#[export] Instance RestorePhase_type cell : GoType cell RestorePhase RestorePhase := plain_type cell RestorePhase.
#[export] Instance RestorePhase_laws cell : GoTypeLaws cell RestorePhase RestorePhase := plain_type_laws cell RestorePhase.
#[export] Instance TypeMeta_type cell : GoType cell TypeMeta TypeMeta := plain_type cell TypeMeta.
#[export] Instance TypeMeta_laws cell : GoTypeLaws cell TypeMeta TypeMeta := plain_type_laws cell TypeMeta.
#[export] Instance BackupJobStatus_type cell : GoType cell BackupJobStatus BackupJobStatus := plain_type cell BackupJobStatus.
#[export] Instance BackupJobStatus_laws cell : GoTypeLaws cell BackupJobStatus BackupJobStatus := plain_type_laws cell BackupJobStatus.
#[export] Instance NamespacedSecretRef_type cell : GoType cell NamespacedSecretRef NamespacedSecretRef := plain_type cell NamespacedSecretRef.
#[export] Instance NamespacedSecretRef_laws cell : GoTypeLaws cell NamespacedSecretRef NamespacedSecretRef := plain_type_laws cell NamespacedSecretRef.
#[export] Instance PBSRepoSpec_type cell : GoType cell PBSRepoSpec PBSRepoSpec := plain_type cell PBSRepoSpec.
#[export] Instance PBSRepoSpec_laws cell : GoTypeLaws cell PBSRepoSpec PBSRepoSpec := plain_type_laws cell PBSRepoSpec.
#[export] Instance RestoreJobStatus_type cell : GoType cell RestoreJobStatus RestoreJobStatus := plain_type cell RestoreJobStatus.
#[export] Instance RestoreJobStatus_laws cell : GoTypeLaws cell RestoreJobStatus RestoreJobStatus := plain_type_laws cell RestoreJobStatus.

Definition as_value `{MetaViews} : repr := {|
  Slice := λ A, option (list A); Ptr := λ A, option A; ObjectMeta_ := val_ObjectMeta;
  ListMeta_ := val_ListMeta; LabelSelector_ := val_LabelSelector; Condition_ := val_Condition;
  Time_ := val_Time |}.

Section types.
Context `{MetaViews}.

#[export] Instance PBSBackupSpec_type : GoType cell (PBSBackupSpec in_mem) (PBSBackupSpec as_value) :=
  struct_type (T:=string * gslice string * gptr mem_LabelSelector * string)
    (λ s : PBSBackupSpec in_mem, (PBSBackupSpec_RepoRef s, PBSBackupSpec_PVCs s,
      PBSBackupSpec_Selector s, PBSBackupSpec_Notes s))
    (λ '(a, b, c, d), mkPBSBackupSpec (r:=as_value) a b c d).
#[export] Instance PBSBackupStatus_type : GoType cell (PBSBackupStatus in_mem) (PBSBackupStatus as_value) :=
  struct_type (T:=BackupPhase * string * gslice BackupJobStatus * gptr mem_Time * gptr mem_Time * Z
    * gslice mem_Condition)
    (λ s : PBSBackupStatus in_mem, (PBSBackupStatus_Phase s, PBSBackupStatus_SnapshotRef s,
      PBSBackupStatus_Jobs s, PBSBackupStatus_StartedAt s, PBSBackupStatus_CompletedAt s,
      PBSBackupStatus_Bytes s, PBSBackupStatus_Conditions s))
    (λ '(a, b, c, d, e, f, g), mkPBSBackupStatus (r:=as_value) a b c d e f g).
#[export] Instance PBSBackup_type : GoType cell (PBSBackup in_mem) (PBSBackup as_value) :=
  struct_type (T:=TypeMeta * mem_ObjectMeta * PBSBackupSpec in_mem * PBSBackupStatus in_mem)
    (λ s : PBSBackup in_mem, (PBSBackup_TypeMeta s, PBSBackup_ObjectMeta s, PBSBackup_Spec s,
      PBSBackup_Status s))
    (λ '(a, b, c, d), mkPBSBackup (r:=as_value) a b c d).
#[export] Instance PBSBackupList_type : GoType cell (PBSBackupList in_mem) (PBSBackupList as_value) :=
  struct_type (T:=TypeMeta * mem_ListMeta * gslice (PBSBackup in_mem))
    (λ s : PBSBackupList in_mem, (PBSBackupList_TypeMeta s, PBSBackupList_ListMeta s,
      PBSBackupList_Items s))
    (λ '(a, b, c), mkPBSBackupList (r:=as_value) a b c).
#[export] Instance PBSBackupTemplate_type : GoType cell (PBSBackupTemplate in_mem) (PBSBackupTemplate as_value) :=
  struct_type (T:=gslice string * gptr mem_LabelSelector * string)
    (λ s : PBSBackupTemplate in_mem, (PBSBackupTemplate_PVCs s, PBSBackupTemplate_Selector s,
      PBSBackupTemplate_Notes s))
    (λ '(a, b, c), mkPBSBackupTemplate (r:=as_value) a b c).
#[export] Instance PBSRepoStatus_type : GoType cell (PBSRepoStatus in_mem) (PBSRepoStatus as_value) :=
  struct_type (T:=gslice mem_Condition * gptr mem_Time)
    (λ s : PBSRepoStatus in_mem, (PBSRepoStatus_Conditions s, PBSRepoStatus_LastProbeTime s))
    (λ '(a, b), mkPBSRepoStatus (r:=as_value) a b).
#[export] Instance PBSRepo_type : GoType cell (PBSRepo in_mem) (PBSRepo as_value) :=
  struct_type (T:=TypeMeta * mem_ObjectMeta * PBSRepoSpec * PBSRepoStatus in_mem)
    (λ s : PBSRepo in_mem, (PBSRepo_TypeMeta s, PBSRepo_ObjectMeta s, PBSRepo_Spec s, PBSRepo_Status
      s))
    (λ '(a, b, c, d), mkPBSRepo (r:=as_value) a b c d).
#[export] Instance PBSRepoList_type : GoType cell (PBSRepoList in_mem) (PBSRepoList as_value) :=
  struct_type (T:=TypeMeta * mem_ListMeta * gslice (PBSRepo in_mem))
    (λ s : PBSRepoList in_mem, (PBSRepoList_TypeMeta s, PBSRepoList_ListMeta s, PBSRepoList_Items
      s))
    (λ '(a, b, c), mkPBSRepoList (r:=as_value) a b c).
#[export] Instance PBSRestoreSpec_type : GoType cell (PBSRestoreSpec in_mem) (PBSRestoreSpec as_value) :=
  struct_type (T:=string * string * string * gslice string * gslice string)
    (λ s : PBSRestoreSpec in_mem, (PBSRestoreSpec_RepoRef s, PBSRestoreSpec_SnapshotRef s,
      PBSRestoreSpec_TargetNamespace s, PBSRestoreSpec_DropKinds s, PBSRestoreSpec_KeepKinds s))
    (λ '(a, b, c, d, e), mkPBSRestoreSpec (r:=as_value) a b c d e).
#[export] Instance PBSRestoreStatus_type : GoType cell (PBSRestoreStatus in_mem) (PBSRestoreStatus as_value) :=
  struct_type (T:=RestorePhase * gslice mem_Condition * gptr mem_Time * gptr mem_Time * gslice
    RestoreJobStatus)
    (λ s : PBSRestoreStatus in_mem, (PBSRestoreStatus_Phase s, PBSRestoreStatus_Conditions s,
      PBSRestoreStatus_StartedAt s, PBSRestoreStatus_CompletedAt s, PBSRestoreStatus_Jobs s))
    (λ '(a, b, c, d, e), mkPBSRestoreStatus (r:=as_value) a b c d e).
#[export] Instance PBSRestore_type : GoType cell (PBSRestore in_mem) (PBSRestore as_value) :=
  struct_type (T:=TypeMeta * mem_ObjectMeta * PBSRestoreSpec in_mem * PBSRestoreStatus in_mem)
    (λ s : PBSRestore in_mem, (PBSRestore_TypeMeta s, PBSRestore_ObjectMeta s, PBSRestore_Spec s,
      PBSRestore_Status s))
    (λ '(a, b, c, d), mkPBSRestore (r:=as_value) a b c d).
#[export] Instance PBSRestoreList_type : GoType cell (PBSRestoreList in_mem) (PBSRestoreList as_value) :=
  struct_type (T:=TypeMeta * mem_ListMeta * gslice (PBSRestore in_mem))
    (λ s : PBSRestoreList in_mem, (PBSRestoreList_TypeMeta s, PBSRestoreList_ListMeta s,
      PBSRestoreList_Items s))
    (λ '(a, b, c), mkPBSRestoreList (r:=as_value) a b c).
#[export] Instance PBSScheduleSpec_type : GoType cell (PBSScheduleSpec in_mem) (PBSScheduleSpec as_value) :=
  struct_type (T:=string * string * PBSBackupTemplate in_mem * bool)
    (λ s : PBSScheduleSpec in_mem, (PBSScheduleSpec_RepoRef s, PBSScheduleSpec_Schedule s,
      PBSScheduleSpec_Template s, PBSScheduleSpec_Suspend s))
    (λ '(a, b, c, d), mkPBSScheduleSpec (r:=as_value) a b c d).
#[export] Instance PBSScheduleStatus_type : GoType cell (PBSScheduleStatus in_mem) (PBSScheduleStatus as_value) :=
  struct_type (T:=gptr mem_Time * gptr mem_Time * gslice string * gslice mem_Condition)
    (λ s : PBSScheduleStatus in_mem, (PBSScheduleStatus_LastScheduleTime s,
      PBSScheduleStatus_NextScheduleTime s, PBSScheduleStatus_Active s, PBSScheduleStatus_Conditions
      s))
    (λ '(a, b, c, d), mkPBSScheduleStatus (r:=as_value) a b c d).
#[export] Instance PBSSchedule_type : GoType cell (PBSSchedule in_mem) (PBSSchedule as_value) :=
  struct_type (T:=TypeMeta * mem_ObjectMeta * PBSScheduleSpec in_mem * PBSScheduleStatus in_mem)
    (λ s : PBSSchedule in_mem, (PBSSchedule_TypeMeta s, PBSSchedule_ObjectMeta s, PBSSchedule_Spec
      s, PBSSchedule_Status s))
    (λ '(a, b, c, d), mkPBSSchedule (r:=as_value) a b c d).
#[export] Instance PBSScheduleList_type : GoType cell (PBSScheduleList in_mem) (PBSScheduleList as_value) :=
  struct_type (T:=TypeMeta * mem_ListMeta * gslice (PBSSchedule in_mem))
    (λ s : PBSScheduleList in_mem, (PBSScheduleList_TypeMeta s, PBSScheduleList_ListMeta s,
      PBSScheduleList_Items s))
    (λ '(a, b, c), mkPBSScheduleList (r:=as_value) a b c).
End types.

(** ** Copies *)

Create HintDb copies discriminated.

Lemma copies_time `{MetaLaws} : copies copy_time.
Proof.
  intros h0 h [t|] v Hh0 Hd; [by apply Time_copies|]. injection Hd as <-. apply yields_ret.
  split; [done|]. cbn. set_solver.
Qed.

Lemma copies_elements `{MetaLaws} A `{!Storable cell A} :
  copies (A:=gslice A) (H:=slice_type (H:=plain_type cell A)) copy_elements.
Proof. apply (copies_slice (H0:=plain_type_laws cell A)), copies_plain. Qed.
Lemma copies_strings `{MetaLaws} : copies (copy_elements (A:=string)).
Proof. apply copies_elements. Qed.
Lemma copies_backup_jobs `{MetaLaws} : copies (copy_elements (A:=BackupJobStatus)).
Proof. apply copies_elements. Qed.
Lemma copies_restore_jobs `{MetaLaws} : copies (copy_elements (A:=RestoreJobStatus)).
Proof. apply copies_elements. Qed.

#[export] Hint Resolve ObjectMeta_copies ListMeta_copies LabelSelector_copies Condition_copies
  copies_time copies_strings copies_backup_jobs copies_restore_jobs copies_ptr copies_slice : copies.

(** A field of a struct has its value, in any larger memory. *)
Ltac split_fields :=
  repeat match goal with
  | H : _ ≫= _ = Some _ |- _ => apply bind_Some in H as (? & ? & ?)
  | H : _ <$> _ = Some _ |- _ => apply fmap_Some in H as (? & ? & ->)
  | H : Some _ = Some _ |- _ => injection H as <-
  end.
Ltac to_memory h h' Hh :=
  repeat match goal with
  | H : denote h _ = Some _ |- _ => apply (denote_extend h h' _ _ Hh) in H as [H _]
  | H : copied _ h _ _ |- _ => apply (copied_extend _ h h' _ _ Hh) in H
  | H : _ ⊆ h |- _ => apply (λ H, transitivity H Hh) in H
  end.
Ltac in_memory := cbn [Slice Ptr ObjectMeta_ ListMeta_ LabelSelector_ Condition_ Time_ in_mem as_value].
Ltac copy_field :=
  apply yields_bind; eapply yields_mono;
  [eapply copies_use; [|eassumption|eassumption]; in_memory; typeclasses eauto with copies typeclass_instances
  |let a := fresh "a" in let h' := fresh "h" in let Hh := fresh "Hh" in
   intros a h' Hh ? _; cbv beta in *;
   lazymatch type of Hh with ?h ⊆ _ => to_memory h h' Hh end; clear Hh].
(** The struct that is left, field by field *)
Ltac copy_done :=
  apply yields_ret; eapply copied_struct;
  [cbn; repeat eapply copied_prod; first [eassumption|eapply copied_plain; eassumption]|reflexivity].
Tactic Notation "copy_struct" reference(type) reference(into) :=
  let h0 := fresh "h0" in let h := fresh "h" in let Hd := fresh "Hd" in
  intros h0 h ? ? ? Hd; unfold type in Hd; cbn [denote struct_type prod_type fst snd] in Hd;
  split_fields; unfold into; repeat copy_field; copy_done.

Section structs.
Context `{MetaLaws}.

#[export] Instance PBSBackupSpec_laws : GoTypeLaws cell (PBSBackupSpec in_mem) (PBSBackupSpec as_value).
Proof. apply struct_type_laws. Qed.
#[export] Instance PBSBackupStatus_laws : GoTypeLaws cell (PBSBackupStatus in_mem) (PBSBackupStatus as_value).
Proof. apply struct_type_laws. Qed.
#[export] Instance PBSBackup_laws : GoTypeLaws cell (PBSBackup in_mem) (PBSBackup as_value).
Proof. apply struct_type_laws. Qed.
#[export] Instance PBSBackupList_laws : GoTypeLaws cell (PBSBackupList in_mem) (PBSBackupList as_value).
Proof. apply struct_type_laws. Qed.
#[export] Instance PBSBackupTemplate_laws : GoTypeLaws cell (PBSBackupTemplate in_mem) (PBSBackupTemplate as_value).
Proof. apply struct_type_laws. Qed.
#[export] Instance PBSRepoStatus_laws : GoTypeLaws cell (PBSRepoStatus in_mem) (PBSRepoStatus as_value).
Proof. apply struct_type_laws. Qed.
#[export] Instance PBSRepo_laws : GoTypeLaws cell (PBSRepo in_mem) (PBSRepo as_value).
Proof. apply struct_type_laws. Qed.
#[export] Instance PBSRepoList_laws : GoTypeLaws cell (PBSRepoList in_mem) (PBSRepoList as_value).
Proof. apply struct_type_laws. Qed.
#[export] Instance PBSRestoreSpec_laws : GoTypeLaws cell (PBSRestoreSpec in_mem) (PBSRestoreSpec as_value).
Proof. apply struct_type_laws. Qed.
#[export] Instance PBSRestoreStatus_laws : GoTypeLaws cell (PBSRestoreStatus in_mem) (PBSRestoreStatus as_value).
Proof. apply struct_type_laws. Qed.
#[export] Instance PBSRestore_laws : GoTypeLaws cell (PBSRestore in_mem) (PBSRestore as_value).
Proof. apply struct_type_laws. Qed.
#[export] Instance PBSRestoreList_laws : GoTypeLaws cell (PBSRestoreList in_mem) (PBSRestoreList as_value).
Proof. apply struct_type_laws. Qed.
#[export] Instance PBSScheduleSpec_laws : GoTypeLaws cell (PBSScheduleSpec in_mem) (PBSScheduleSpec as_value).
Proof. apply struct_type_laws. Qed.
#[export] Instance PBSScheduleStatus_laws : GoTypeLaws cell (PBSScheduleStatus in_mem) (PBSScheduleStatus as_value).
Proof. apply struct_type_laws. Qed.
#[export] Instance PBSSchedule_laws : GoTypeLaws cell (PBSSchedule in_mem) (PBSSchedule as_value).
Proof. apply struct_type_laws. Qed.
#[export] Instance PBSScheduleList_laws : GoTypeLaws cell (PBSScheduleList in_mem) (PBSScheduleList as_value).
Proof. apply struct_type_laws. Qed.

Lemma copies_BackupJobStatus : copies DeepCopyInto_BackupJobStatus.
Proof. apply copies_plain. Qed.
Lemma copies_NamespacedSecretRef : copies DeepCopyInto_NamespacedSecretRef.
Proof. apply copies_plain. Qed.
Lemma copies_PBSBackupSpec : copies DeepCopyInto_PBSBackupSpec.
Proof. copy_struct PBSBackupSpec_type DeepCopyInto_PBSBackupSpec. Qed.
#[local] Hint Resolve copies_PBSBackupSpec : copies.
Lemma copies_PBSBackupStatus : copies DeepCopyInto_PBSBackupStatus.
Proof. copy_struct PBSBackupStatus_type DeepCopyInto_PBSBackupStatus. Qed.
#[local] Hint Resolve copies_PBSBackupStatus : copies.
Lemma copies_PBSBackup : copies DeepCopyInto_PBSBackup.
Proof. copy_struct PBSBackup_type DeepCopyInto_PBSBackup. Qed.
#[local] Hint Resolve copies_PBSBackup : copies.
Lemma copies_PBSBackupList : copies DeepCopyInto_PBSBackupList.
Proof. copy_struct PBSBackupList_type DeepCopyInto_PBSBackupList. Qed.
#[local] Hint Resolve copies_PBSBackupList : copies.
Lemma copies_PBSBackupTemplate : copies DeepCopyInto_PBSBackupTemplate.
Proof. copy_struct PBSBackupTemplate_type DeepCopyInto_PBSBackupTemplate. Qed.
#[local] Hint Resolve copies_PBSBackupTemplate : copies.
Lemma copies_PBSRepoSpec : copies DeepCopyInto_PBSRepoSpec.
Proof. intros h0 h [] v Hh0 Hd. by eapply (copies_plain PBSRepoSpec). Qed.
#[local] Hint Resolve copies_PBSRepoSpec : copies.
Lemma copies_PBSRepoStatus : copies DeepCopyInto_PBSRepoStatus.
Proof. copy_struct PBSRepoStatus_type DeepCopyInto_PBSRepoStatus. Qed.
#[local] Hint Resolve copies_PBSRepoStatus : copies.
Lemma copies_PBSRepo : copies DeepCopyInto_PBSRepo.
Proof. copy_struct PBSRepo_type DeepCopyInto_PBSRepo. Qed.
#[local] Hint Resolve copies_PBSRepo : copies.
Lemma copies_PBSRepoList : copies DeepCopyInto_PBSRepoList.
Proof. copy_struct PBSRepoList_type DeepCopyInto_PBSRepoList. Qed.
#[local] Hint Resolve copies_PBSRepoList : copies.
Lemma copies_PBSRestoreSpec : copies DeepCopyInto_PBSRestoreSpec.
Proof. copy_struct PBSRestoreSpec_type DeepCopyInto_PBSRestoreSpec. Qed.
#[local] Hint Resolve copies_PBSRestoreSpec : copies.
Lemma copies_PBSRestoreStatus : copies DeepCopyInto_PBSRestoreStatus.
Proof. copy_struct PBSRestoreStatus_type DeepCopyInto_PBSRestoreStatus. Qed.
#[local] Hint Resolve copies_PBSRestoreStatus : copies.
Lemma copies_PBSRestore : copies DeepCopyInto_PBSRestore.
Proof. copy_struct PBSRestore_type DeepCopyInto_PBSRestore. Qed.
#[local] Hint Resolve copies_PBSRestore : copies.
Lemma copies_PBSRestoreList : copies DeepCopyInto_PBSRestoreList.
Proof. copy_struct PBSRestoreList_type DeepCopyInto_PBSRestoreList. Qed.
#[local] Hint Resolve copies_PBSRestoreList : copies.
Lemma copies_PBSScheduleSpec : copies DeepCopyInto_PBSScheduleSpec.
Proof. copy_struct PBSScheduleSpec_type DeepCopyInto_PBSScheduleSpec. Qed.
#[local] Hint Resolve copies_PBSScheduleSpec : copies.
Lemma copies_PBSScheduleStatus : copies DeepCopyInto_PBSScheduleStatus.
Proof. copy_struct PBSScheduleStatus_type DeepCopyInto_PBSScheduleStatus. Qed.
#[local] Hint Resolve copies_PBSScheduleStatus : copies.
Lemma copies_PBSSchedule : copies DeepCopyInto_PBSSchedule.
Proof. copy_struct PBSSchedule_type DeepCopyInto_PBSSchedule. Qed.
#[local] Hint Resolve copies_PBSSchedule : copies.
Lemma copies_PBSScheduleList : copies DeepCopyInto_PBSScheduleList.
Proof. copy_struct PBSScheduleList_type DeepCopyInto_PBSScheduleList. Qed.
#[local] Hint Resolve copies_PBSScheduleList : copies.
Lemma copies_RestoreJobStatus : copies DeepCopyInto_RestoreJobStatus.
Proof. apply copies_plain. Qed.

End structs.

#[export] Hint Resolve copies_BackupJobStatus copies_NamespacedSecretRef copies_PBSBackupSpec copies_PBSBackupStatus
    copies_PBSBackup copies_PBSBackupList copies_PBSBackupTemplate copies_PBSRepoSpec
    copies_PBSRepoStatus copies_PBSRepo copies_PBSRepoList copies_PBSRestoreSpec
    copies_PBSRestoreStatus copies_PBSRestore copies_PBSRestoreList copies_PBSScheduleSpec
    copies_PBSScheduleStatus copies_PBSSchedule copies_PBSScheduleList copies_RestoreJobStatus : copies.

(** ** The theorem *)

(** An interface value, by the pointer in it *)
Definition object_denote `{MetaViews} (h : heap cell) (o : Object in_mem) : option (Object as_value) :=
  match o with
  | OPBSBackup p => (λ w : option (PBSBackup as_value), @OPBSBackup as_value w) <$> denote h (p : gptr (PBSBackup in_mem))
  | OPBSBackupList p => (λ w : option (PBSBackupList as_value), @OPBSBackupList as_value w) <$> denote h (p : gptr (PBSBackupList in_mem))
  | OPBSRepo p => (λ w : option (PBSRepo as_value), @OPBSRepo as_value w) <$> denote h (p : gptr (PBSRepo in_mem))
  | OPBSRepoList p => (λ w : option (PBSRepoList as_value), @OPBSRepoList as_value w) <$> denote h (p : gptr (PBSRepoList in_mem))
  | OPBSRestore p => (λ w : option (PBSRestore as_value), @OPBSRestore as_value w) <$> denote h (p : gptr (PBSRestore in_mem))
  | OPBSRestoreList p => (λ w : option (PBSRestoreList as_value), @OPBSRestoreList as_value w) <$> denote h (p : gptr (PBSRestoreList in_mem))
  | OPBSSchedule p => (λ w : option (PBSSchedule as_value), @OPBSSchedule as_value w) <$> denote h (p : gptr (PBSSchedule in_mem))
  | OPBSScheduleList p => (λ w : option (PBSScheduleList as_value), @OPBSScheduleList as_value w) <$> denote h (p : gptr (PBSScheduleList in_mem))
  end.
Definition object_nil `{MetaTypes} (o : Object in_mem) : bool :=
  match o with
  | OPBSBackup p => match p with None => true | Some _ => false end
  | OPBSBackupList p => match p with None => true | Some _ => false end
  | OPBSRepo p => match p with None => true | Some _ => false end
  | OPBSRepoList p => match p with None => true | Some _ => false end
  | OPBSRestore p => match p with None => true | Some _ => false end
  | OPBSRestoreList p => match p with None => true | Some _ => false end
  | OPBSSchedule p => match p with None => true | Some _ => false end
  | OPBSScheduleList p => match p with None => true | Some _ => false end
  end.

Section theorem.
Context `{MetaLaws}.

(** C32: Every generated deep copy succeeds on an object that is well-formed, has
    its value, and shares no memory with it, writes nothing to memory that was
    allocated before, and is nil for nil: whatever is written later through the
    original, the copy keeps the value of the original at the time of the copy, and
    conversely. *)
Theorem deep_copies_isolate :
  isolating DeepCopy_BackupJobStatus ∧
  isolating DeepCopy_NamespacedSecretRef ∧
  isolating DeepCopy_PBSBackupSpec ∧
  isolating DeepCopy_PBSBackupStatus ∧
  isolating DeepCopy_PBSBackup ∧
  isolating DeepCopy_PBSBackupList ∧
  isolating DeepCopy_PBSBackupTemplate ∧
  isolating DeepCopy_PBSRepoSpec ∧
  isolating DeepCopy_PBSRepoStatus ∧
  isolating DeepCopy_PBSRepo ∧
  isolating DeepCopy_PBSRepoList ∧
  isolating DeepCopy_PBSRestoreSpec ∧
  isolating DeepCopy_PBSRestoreStatus ∧
  isolating DeepCopy_PBSRestore ∧
  isolating DeepCopy_PBSRestoreList ∧
  isolating DeepCopy_PBSScheduleSpec ∧
  isolating DeepCopy_PBSScheduleStatus ∧
  isolating DeepCopy_PBSSchedule ∧
  isolating DeepCopy_PBSScheduleList ∧
  isolating DeepCopy_RestoreJobStatus.
Proof.
  split_and!; apply copy_isolating; typeclasses eauto with copies.
Qed.

Lemma deep_copy_object_isolated {A V} `{!Storable cell A} `{!GoType cell A V}
    (DeepCopy : gptr A → mem cell (gptr A)) (iface : gptr A → Object in_mem)
    (value : option V → Object as_value) h p w :
  isolating DeepCopy → denote h (Some p) = Some w →
  (∀ h p, object_denote h (iface p) = value <$> denote h p) →
  (∀ p, object_nil (iface (Some p)) = false) →
  ∃ o' h', deep_copy_object DeepCopy iface (Some p) h = Some (Some o', h') ∧ h ⊆ h' ∧
    object_nil o' = false ∧ object_denote h' o' = Some (value w) ∧
    (∀ h'', (∀ l, l ∈ dom h' → l ∉ dom h → h'' !! l = h' !! l) → object_denote h'' o' = Some (value w)) ∧
    (∀ h'', (∀ l, l ∈ dom h → h'' !! l = h' !! l) → object_denote h'' (iface (Some p)) = Some (value w)).
Proof.
  intros Hi Hw Hd Hn. destruct (Hi h _ _ Hw) as (x' & h' & Hr & Hh & Hx & H1' & H2').
  destruct x' as [p'|].
  2: { cbn in Hx. injection Hx as <-. cbn in Hw. apply bind_Some in Hw as (y & _ & Hw).
       by apply fmap_Some in Hw as (? & _ & ?). }
  exists (iface (Some p')), h'. split_and!; [|done|done|..].
  - unfold deep_copy_object, mbind, mem_bind. by rewrite Hr.
  - by rewrite Hd, Hx.
  - intros h'' Ha. by rewrite Hd, (H1' _ Ha).
  - intros h'' Ha. by rewrite Hd, (H2' _ Ha).
Qed.

(** The copy through the interface [runtime.Object] is the copy of the type of
    the object, as an object of that type; a nil pointer has the nil interface as
    its copy, not an interface of a nil pointer. *)
Theorem deep_copy_object_isolates h o v :
  object_denote h o = Some v →
  if object_nil o then DeepCopyObject o h = Some (None, h)
  else ∃ o' h', DeepCopyObject o h = Some (Some o', h') ∧ h ⊆ h' ∧ object_nil o' = false ∧
    object_denote h' o' = Some v ∧
    (∀ h'', (∀ l, l ∈ dom h' → l ∉ dom h → h'' !! l = h' !! l) → object_denote h'' o' = Some v) ∧
    (∀ h'', (∀ l, l ∈ dom h → h'' !! l = h' !! l) → object_denote h'' o = Some v).
Proof.
  destruct o as [[p|]|[p|]|[p|]|[p|]|[p|]|[p|]|[p|]|[p|]]; cbn [object_nil object_denote]; try done;
    intros (w & Hw & ->)%fmap_Some;
    (apply (deep_copy_object_isolated (A:=_ in_mem) (V:=_ as_value)); [|done..];
     apply copy_isolating; typeclasses eauto with copies).
Qed.
End theorem.

(** ** A concrete apimachinery, and a run

    Metadata and selectors with a map behind a reference, conditions and times
    without any. *)

#[local] Instance run_types : MetaTypes := {|
  meta_cell := gmap string string; mem_ObjectMeta := Kube.ObjectMeta * option loc; mem_ListMeta := string;
  mem_LabelSelector := list LabelSelectorRequirement * option loc; mem_Condition := Condition; mem_Time := Z |}.

Definition map_at (h : heap cell) (l : loc) : option (gmap string string) :=
  match h !! l with Some (CMeta m) => Some m | _ => None end.
#[local] Instance map_type : GoType cell (option loc) (option (gmap string string)) := {|
  denote := λ h r, match r with None => Some None | Some l => Some <$> map_at h l end;
  blocks := λ h r, match r with None => ∅ | Some l => {[l]} end |}.
#[local] Instance map_laws : GoTypeLaws cell (option loc) (option (gmap string string)).
Proof.
  constructor; cbn; [|done|].
  - intros h h' [l|] Ha; [|done]. unfold map_at. by rewrite (Ha l) by set_solver.
  - intros h [l|] v; [|set_solver]. unfold map_at. destruct (h !! l) eqn:E; [|done]. intros _.
    apply singleton_subseteq_l. by apply elem_of_dom_2 in E.
Qed.

Definition copy_map (r : option loc) : mem cell (option loc) := λ h,
  match r with
  | None => Some (None, h)
  | Some l =>
      match map_at h l with
      | Some m => let l' := fresh_loc h in Some (Some l', <[l' := CMeta m]> h)
      | None => None
      end
  end.
Lemma copies_map : copies copy_map.
Proof.
  intros h0 h [l|] v Hh0 Hd; cbn in Hd.
  2: { injection Hd as <-. apply yields_ret. split; [done|]. cbn. set_solver. }
  apply fmap_Some in Hd as (m & Hm & ->). pose proof (fresh_loc_fresh h) as Hf.
  eexists _, _. split; [cbn; by rewrite Hm|]. split; [by apply insert_subseteq|]. split; cbn.
  - unfold map_at. by rewrite lookup_insert_eq.
  - apply disjoint_singleton_l. intros [c Hc]%elem_of_dom. by rewrite (lookup_weaken _ _ _ _ Hc Hh0) in Hf.
Qed.

#[local] Instance run_lib : MetaLib := {|
  ObjectMeta_DeepCopyInto := λ m, a ← mret m.1; b ← copy_map m.2; mret (a, b);
  ListMeta_DeepCopyInto := mret;
  LabelSelector_DeepCopyInto := λ m, a ← mret m.1; b ← copy_map m.2; mret (a, b);
  Condition_DeepCopyInto := mret;
  Time_DeepCopy := copy_ptr mret |}.
#[local] Instance run_views : MetaViews := {|
  val_ObjectMeta := Kube.ObjectMeta * option (gmap string string); val_ListMeta := string;
  val_LabelSelector := list LabelSelectorRequirement * option (gmap string string);
  val_Condition := Condition; val_Time := Z;
  ObjectMeta_type := prod_type (H:=plain_type cell _); ListMeta_type := plain_type cell _;
  LabelSelector_type := prod_type (H:=plain_type cell _); Condition_type := plain_type cell _;
  Time_type := plain_type cell _ |}.
#[local] Instance run_laws : MetaLaws.
Proof.
  pose proof (plain_type_laws cell). constructor; try apply _.
  - apply (copies_prod (H:=plain_type cell _)); [apply copies_plain|apply copies_map].
  - apply copies_plain.
  - apply (copies_prod (H:=plain_type cell _)); [apply copies_plain|apply copies_map].
  - apply copies_plain.
  - apply (copies_ptr (H:=plain_type cell Z)), copies_plain.
Qed.

(** A backup with a label, a selector, a list of claims, and a running status *)
Definition running : Condition := mkCondition "Ready" ConditionFalse 1 10 "Running" "".
Definition build : mem cell (gptr (PBSBackup in_mem)) :=
  labels ← (λ h, let l := fresh_loc h in Some (l, <[l := CMeta {["app" := "db"]}]> h));
  sel ← new ([], Some labels) : mem cell (ptr mem_LabelSelector);
  pvcs ← make ["data"; "logs"];
  conds ← make [running] : mem cell (hdr mem_Condition);
  started ← new 10%Z : mem cell (ptr mem_Time);
  b ← new (A:=PBSBackup in_mem) (mkPBSBackup (r:=in_mem) (mkTypeMeta "PBSBackup" "v1") (newMeta "b" "ns" ∅, Some labels)
    (mkPBSBackupSpec (r:=in_mem) "repo" (Some pvcs) (Some sel) "")
    (mkPBSBackupStatus (r:=in_mem) BackupPhaseRunning "" None (Some started) None 0%Z (Some conds)));
  mret (Some b).

(** What [meta.SetStatusCondition(&b.Status.Conditions, ...)] does to a condition
    that is there: it is changed in the array the slice refers to. *)
Definition set_in_place (b : gptr (PBSBackup in_mem)) (h : heap cell) : heap cell :=
  match b ≫= deref h with
  | Some v =>
      match PBSBackupStatus_Conditions (PBSBackup_Status v) : gslice Condition with
      | Some s => <[s_block s := CCondition [mkCondition "Ready" ConditionTrue 1 20 "Completed" ""]]> h
      | None => h
      end
  | None => h
  end.

Definition conditions_of (h : heap cell) (b : gptr (PBSBackup in_mem)) : list string :=
  match denote h b with
  | Some (Some v) => c_Reason <$> default [] (PBSBackupStatus_Conditions (PBSBackup_Status v) : option (list Condition))
  | _ => []
  end.

(** [before := b.DeepCopy()] keeps what was read; a copy of the struct alone would
    change with the object, and the patch computed from it would be empty. *)
Definition copy_then_set (copy : gptr (PBSBackup in_mem) → mem cell (gptr (PBSBackup in_mem)))
    : option (list string * list string) :=
  '(b, h) ← build ∅;
  '(before, h') ← copy b h;
  let h'' := set_in_place b h' in
  Some (conditions_of h'' b, conditions_of h'' before).
Example deep_and_shallow :
  copy_then_set DeepCopy_PBSBackup = Some (["Completed"], ["Running"]) ∧
  copy_then_set (copy_ptr mret) = Some (["Completed"], ["Completed"]).
Proof. by vm_compute. Qed.

Definition built : gptr (PBSBackup in_mem) * heap cell := default (None, ∅) (build ∅).

Lemma deep_copies_isolate_witness :
  ∃ v, denote built.2 built.1 = Some (Some v) ∧
    c_Reason <$> default [] (PBSBackupStatus_Conditions (PBSBackup_Status v)) = ["Running"] ∧
    isolated built.2 built.1 (Some v) (DeepCopy_PBSBackup built.1 built.2).
Proof.
  destruct (denote built.2 built.1) as [[v|]|] eqn:E; [|by vm_compute in E..].
  exists v. split; [done|]. split; [by vm_compute in E; injection E as <-|].
  destruct deep_copies_isolate as (_ & _ & _ & _ & Hb & _). by apply Hb.
Defined.
