(* ===== verification/JsonAny.v ===== *)
(** * encoding/json on any value

    [json.Marshal] of an [any] made of the dynamic types the program puts in one,
    and why [json.Unmarshal] reads back what was written, whatever follows that
    cannot continue a number: one value of the text, its members with their text,
    its strings up to bytes that are not UTF-8. *)

From S2P Require Import Prelude GoLib GoNet GoUtf8 Kube SnapshotRef Json JsonText JsonProps.
From Stdlib Require Import Ascii QArith_base Qreduction.
From stdpp Require Import options.

Local Open Scope Z_scope.

(** ** Values *)

(** A map is listed by its keys, in the ascending order in which it is written. *)
#[local] Unset Elimination Schemes.
Inductive any :=
  | ANull | ABool (b : bool) | AInt (z : Z) | AStr (s : string)
  | AArr (l : list any) | AMap (l : list (string * any)).
#[local] Set Elimination Schemes.

Section any_ind.
Context (P : any → Prop).
Hypothesis Hnull : P ANull.
Hypothesis Hbool : ∀ b, P (ABool b).
Hypothesis Hint : ∀ z, P (AInt z).
Hypothesis Hstr : ∀ s, P (AStr s).
Hypothesis Harr : ∀ l, Forall P l → P (AArr l).
Hypothesis Hmap : ∀ l, Forall (λ kv, P kv.2) l → P (AMap l).
Fixpoint any_ind (v : any) : P v :=
  match v with
  | ANull => Hnull | ABool b => Hbool b | AInt z => Hint z | AStr s => Hstr s
  | AArr l => Harr l (list_ind (Forall P) (Forall_nil_2 _) (λ x _, Forall_cons_2 _ _ _ (any_ind x)) l)
  | AMap l => Hmap l (list_ind (Forall (λ kv, P kv.2)) (Forall_nil_2 _)
                        (λ kv _, Forall_cons_2 _ kv _ (any_ind kv.2)) l)
  end.
End any_ind.

(** [json.Marshal] *)
Fixpoint json_any (v : any) : string :=
  match v with
  | ANull => "null"
  | ABool b => if b then "true" else "false"
  | AInt z => fmt_d z
  | AStr s => json_string s
  | AArr l => "[" +:+ Join (json_any <$> l) "," +:+ "]"
  | AMap l => json_members ((λ kv, (kv.1, json_any kv.2)) <$> l)
  end.

(** What the decoder sees of it *)
Fixpoint jval_of (v : any) : jval :=
  match v with
  | ANull => JNull
  | ABool b => JBool b
  | AInt z => JNum (fmt_d z)
  | AStr s => JStr (to_valid s)
  | AArr l => JArr (jval_of <$> l)
  | AMap l => JObj ((λ kv, (to_valid kv.1, jval_of kv.2, json_any kv.2)) <$> l)
  end.

(** How deep arrays and maps nest *)
Fixpoint depth (v : any) : Z :=
  match v with
  | AArr l => 1 + foldr (λ x m, Z.max (depth x) m) 0 l
  | AMap l => 1 + foldr (λ kv m, Z.max (depth kv.2) m) 0 l
  | _ => 0
  end.

Example json_any_ex :
  json_any (AMap [("data", AArr [AMap [("size", AInt (-5)); ("up", ABool true)]; ANull])])
  = "{" +:+ json_string "data" +:+ ":[{" +:+ json_string "size" +:+ ":-5," +:+ json_string "up" +:+ ":true},null]}".
Proof. by vm_compute. Qed.

(** ** What was written is read *)

(** The first byte of a value: no space, and no closing bracket *)
Lemma json_any_first v rest : ∃ c t, json_any v +:+ rest = String c t ∧ is_ws c = false ∧
  Ascii.eqb c "]" = false ∧ Ascii.eqb c "}" = false.
Proof.
  destruct v as [|[]|z|s|l|l]; try by repeat eexists.
  cbn [json_any]. destruct z as [|p|p]; [by repeat eexists| |by repeat eexists].
  destruct (decimal_fmt_d (Z.pos p)) as ((c & t & -> & Hc) & _); [lia|]. exists c, (t +:+ rest).
  split; [done|]. pose proof (all_bytes (λ c, negb (between 48 57 (byte_val c)) ||
    (negb (is_ws c) && negb (Ascii.eqb c "]") && negb (Ascii.eqb c "}"))) eq_refl c) as Hb.
  cbv beta in Hb. unfold between in Hb. rewrite (proj2 (Z.leb_le 48 _)), (proj2 (Z.leb_le _ 57)) in Hb by lia.
  cbn [negb andb orb] in Hb. rewrite !andb_true_iff, !negb_true_iff in Hb. tauto.
Qed.

Lemma skip_ws_any v rest : skip_ws (json_any v +:+ rest) = json_any v +:+ rest.
Proof. destruct (json_any_first v rest) as (c & t & -> & Hc & _). cbn. by rewrite Hc. Qed.

Lemma after_any v rest : after "]" (json_any v +:+ rest) = None.
Proof. destruct (json_any_first v rest) as (c & t & -> & _ & Hc & _). cbn. by rewrite Hc. Qed.

(** [p], with enough fuel, reads [s] as [x] and leaves [rest]. *)
Definition reads {A} (p : nat → string → option (A * string)) (s : string) (x : A) (rest : string) : Prop :=
  ∃ n, ∀ f, (n ≤ f)%nat → p f s = Some (x, rest).

Definition reads_back (v : any) : Prop := ∀ d rest,
  depth v ≤ d → stops rest → reads (λ f, pvalue f d) (json_any v +:+ rest) (jval_of v) rest.

Lemma Join_more s s' l rest :
  Join (s :: s' :: l) "," +:+ rest = s +:+ String "," (Join (s' :: l) "," +:+ rest).
Proof. change (Join (s :: s' :: l) ",") with (s +:+ "," +:+ Join (s' :: l) ","). by rewrite !append_assoc. Qed.

Lemma skip_ws_Join_any v l rest :
  skip_ws (Join (json_any <$> v :: l) "," +:+ rest) = Join (json_any <$> v :: l) "," +:+ rest.
Proof.
  destruct l as [|v' l]; [apply skip_ws_any|]. cbn [fmap list_fmap]. rewrite Join_more. apply skip_ws_any.
Qed.

Lemma reads_elems v l d rest :
  Forall reads_back (v :: l) → Forall (λ v, depth v ≤ d) (v :: l) →
  reads (λ f, pelems f d) (Join (json_any <$> v :: l) "," +:+ String "]" rest) (jval_of <$> v :: l) rest.
Proof.
  revert v. induction l as [|v' l IH]; intros v [Hv Hl]%Forall_cons [Hd Hdl]%Forall_cons.
  - destruct (Hv d (String "]" rest) Hd) as [n Hn]; [cbn; set_solver|].
    exists (S n). intros [|f] Hf; [lia|]. change (Join (json_any <$> [v]) ",") with (json_any v).
    cbn [pelems]. by rewrite Hn by lia.
  - destruct (IH v' Hl Hdl) as [n' Hn']. pose proof (skip_ws_Join_any v' l (String "]" rest)) as Hw.
    cbn [fmap list_fmap] in *. rewrite Join_more. set (more := Join _ "," +:+ _) in *. clearbody more.
    destruct (Hv d (String "," more) Hd) as [n Hn]; [cbn; set_solver|].
    exists (S (n + n')). intros [|f] Hf; [lia|]. cbn [pelems]. rewrite Hn by lia.
    change (after "]" (skip_ws (String "," more))) with (@None string).
    change (after "," (skip_ws (String "," more))) with (Some more). cbv iota beta.
    by rewrite Hw, Hn' by lia.
Qed.

(** The text of a member, as the decoder keeps it *)
Lemma raw_text_any v rest : raw_text (skip_ws (json_any v +:+ rest)) rest = json_any v.
Proof.
  rewrite skip_ws_any. unfold raw_text. rewrite length_append, Nat.add_sub. apply stake_app.
Qed.

Definition member (kv : string * any) : string := json_string kv.1 +:+ ":" +:+ json_any kv.2.
Definition member_of (kv : string * any) : string * jval * string :=
  (to_valid kv.1, jval_of kv.2, json_any kv.2).

Lemma member_app kv rest : member kv +:+ rest = json_string kv.1 +:+ String ":" (json_any kv.2 +:+ rest).
Proof. unfold member. by rewrite !append_assoc. Qed.

Lemma reads_members kv l d rest :
  Forall (λ kv, reads_back kv.2) (kv :: l) → Forall (λ kv, depth kv.2 ≤ d) (kv :: l) →
  reads (λ f, pmembers f d) (Join (member <$> kv :: l) "," +:+ String "}" rest) (member_of <$> kv :: l) rest.
Proof.
  revert kv. induction l as [|kv' l IH]; intros kv [Hv Hl]%Forall_cons [Hd Hdl]%Forall_cons.
  - destruct (Hv d (String "}" rest) Hd) as [n Hn]; [cbn; set_solver|].
    exists (S n). intros [|f] Hf; [lia|]. change (Join (member <$> [kv]) ",") with (member kv).
    rewrite member_app. rewrite (pmembers_last f d kv.1 (json_any kv.2) (jval_of kv.2) rest).
    + by rewrite raw_text_any.
    + rewrite skip_ws_any. apply Hn. lia.
  - destruct (IH kv' Hl Hdl) as [n' Hn'].
    assert (Hw : ∀ x, skip_ws (Join (member <$> kv' :: l) "," +:+ x) = Join (member <$> kv' :: l) "," +:+ x).
    { intros x. destruct l; cbn [fmap list_fmap]; rewrite ?Join_more; cbn [Join]; rewrite member_app;
        apply skip_ws_json_string. }
    specialize (Hw (String "}" rest)). cbn [fmap list_fmap] in *. rewrite Join_more, member_app.
    set (more := Join _ "," +:+ _) in *. clearbody more.
    destruct (Hv d (String "," more) Hd) as [n Hn]; [cbn; set_solver|].
    exists (S (n + n')). intros [|f] Hf; [lia|].
    rewrite (pmembers_more f d kv.1 (json_any kv.2) (jval_of kv.2) more (member_of <$> kv' :: l) rest).
    + by rewrite raw_text_any.
    + rewrite skip_ws_any. apply Hn. lia.
    + done.
    + apply Hn'. lia.
Qed.

Lemma foldr_max_le {A} (f : A → Z) l d : foldr (λ x m, Z.max (f x) m) 0 l ≤ d → Forall (λ x, f x ≤ d) l.
Proof. induction l as [|x l IH]; cbn; intros Hd; constructor; [lia|apply IH; lia]. Qed.

Lemma depth_under {A} (l : list A) (f : A → Z) d :
  1 + foldr (λ x m, Z.max (f x) m) 0 l ≤ d → 0 < d ∧ Forall (λ x, f x ≤ d - 1) l.
Proof.
  intros Hd. split; [|apply foldr_max_le; lia].
  assert (0 ≤ foldr (λ x m, Z.max (f x) m) 0 l) by (clear; induction l; cbn; lia). lia.
Qed.

(** The bracket that opens an array or an object, and what is in it *)
Lemma reads_array d s l rest :
  0 < d → skip_ws s = s → after "]" s = None →
  reads (λ f, pelems f (d - 1)) s l rest → reads (λ f, pvalue f d) (String "[" s) (JArr l) rest.
Proof.
  intros Hd Hw Ha [n Hn]. exists (S n). intros [|f] Hf; [lia|]. cbn [pvalue].
  change (Ascii.eqb "[" "{") with false. change (Ascii.eqb "[" "[") with true. cbv iota.
  by rewrite (proj2 (Z.leb_gt d 0)), Hw, Ha, Hn by lia.
Qed.
Lemma reads_object d s l rest :
  0 < d → skip_ws s = s → after "}" s = None →
  reads (λ f, pmembers f (d - 1)) s l rest → reads (λ f, pvalue f d) (String "{" s) (JObj l) rest.
Proof.
  intros Hd Hw Ha [n Hn]. exists (S n). intros [|f] Hf; [lia|]. cbn [pvalue].
  change (Ascii.eqb "{" "{") with true. cbv iota.
  by rewrite (proj2 (Z.leb_gt d 0)), Hw, Ha, Hn by lia.
Qed.

Lemma any_reads_back v : reads_back v.
Proof.
  induction v as [|b|z|s|l IH|l IH] using any_ind; intros d rest Hd Hr.
  - exists 1%nat. intros [|f] Hf; [lia|]. by destruct rest.
  - exists 1%nat. intros [|f] Hf; [lia|]. by destruct b, rest.
  - exists 1%nat. intros [|f] Hf; [lia|]. by apply pvalue_fmt_d.
  - exists 1%nat. intros [|f] Hf; [lia|]. apply pvalue_string.
  - destruct (depth_under l depth d Hd) as [H0 Hl]. cbn [json_any jval_of]. rewrite !append_assoc.
    destruct l as [|v l].
    { exists 1%nat. intros [|f] Hf; [lia|]. cbn. by rewrite (proj2 (Z.leb_gt d 0)) by lia. }
    apply (reads_array d _ _ rest); [done| | |by apply reads_elems]; [apply skip_ws_Join_any|].
    destruct l as [|v' l]; cbn [fmap list_fmap]; [apply after_any|]. rewrite Join_more. apply after_any.
  - destruct (depth_under l (λ kv, depth kv.2) d Hd) as [H0 Hl]. cbn [json_any jval_of].
    unfold json_members. rewrite <- list_fmap_compose. rewrite !append_assoc.
    destruct l as [|kv l].
    { exists 1%nat. intros [|f] Hf; [lia|]. cbn. by rewrite (proj2 (Z.leb_gt d 0)) by lia. }
    apply (reads_object d _ _ rest); [done| | |by apply reads_members];
      (destruct l as [|kv' l]; cbn [fmap list_fmap]; rewrite ?Join_more; cbn [compose];
       cbn [Join fst snd]; rewrite !append_assoc; by apply json_string_nonspace).
Qed.

(** [json.Unmarshal] sees the value that was encoded, by [Marshal] or by an encoder,
    which adds a line break. *)
Theorem json_parse_any v ws :
  depth v ≤ maxNestingDepth → ws ∈ [""; newline] → json_parse (json_any v +:+ ws) = Some (jval_of v).
Proof.
  intros Hd Hws. assert (Hs : stops ws ∧ skip_ws ws = "").
  { apply elem_of_cons in Hws as [->|Hws]; [done|]. apply list_elem_of_singleton in Hws as ->.
    split; [cbn; set_solver|done]. }
  destruct Hs as [Hs Hw]. destruct (any_reads_back v maxNestingDepth ws Hd Hs) as [n Hn].
  rewrite (json_parse_fuel _ (n + (2 * String.length (json_any v +:+ ws) + 2))) by lia.
  by rewrite skip_ws_any, Hn, Hw by lia.
Qed.

(** ** Whole numbers as floats *)

Lemma take_digits_all p : all_digits p = true → take_digits p = (p, "").
Proof. intros Hp. rewrite <- (append_nil_r p) at 1. by apply take_digits_app. Qed.

Lemma decimal_pos n : 0 < n → decimal (fmt_d n) = (false, n, 0) ∧ decimal ("-" +:+ fmt_d n) = (true, n, 0).
Proof.
  intros Hn. destruct (decimal_fmt_d n Hn) as ((c & t & Heq & Hc) & Hall & Hv).
  assert (Hs : scan_sign ["-"%char] (fmt_d n) = ("", fmt_d n)).
  { rewrite Heq. cbn. rewrite bool_decide_eq_false_2; [done|].
    intros ->%list_elem_of_singleton. by destruct Hc as [[] _]. }
  unfold decimal. change (scan_sign ["-"%char] ("-" +:+ fmt_d n)) with ("-", fmt_d n).
  rewrite Hs, (take_digits_all _ Hall). cbn. rewrite Hv. cbn. by rewrite Z.add_0_l.
Qed.

Lemma round_even_exact z : round_even z 1 = z.
Proof. unfold round_even. rewrite Z.mod_1_r, Z.div_1_r. done. Qed.

Lemma round64_small n : 0 < n < 2 ^ 53 → round64 n 1 = Some (n * 2 ^ (52 - Z.log2 n), Z.log2 n - 52).
Proof.
  intros Hn. assert (Hl : 0 ≤ Z.log2 n ≤ 52).
  { split; [apply Z.log2_nonneg|]. apply Z.lt_succ_r. apply Z.log2_lt_pow2; lia. }
  pose proof (Z.log2_spec n ltac:(lia)) as [Hlo Hhi]. unfold round64. change (Z.log2 1) with 0.
  rewrite Z.sub_0_r, !(Z.max_l 0 (- Z.log2 n)) by lia. rewrite (Z.max_r 0 (Z.log2 n)) by lia.
  change (2 ^ 0) with 1. rewrite Z.mul_1_r, Z.mul_1_l, (proj2 (Z.ltb_ge n _)) by lia.
  rewrite (Z.max_l (Z.log2 n - 52)) by lia. rewrite (Z.max_r 0 (- _)), (Z.max_l 0 (_ - 52)) by lia.
  rewrite Z.mul_1_r, round_even_exact. replace (- (Z.log2 n - 52)) with (52 - Z.log2 n) by lia.
  rewrite (proj2 (Z.ltb_lt _ _)); [done|].
  apply (Z.lt_le_trans _ (2 ^ Z.succ (Z.log2 n) * 2 ^ (52 - Z.log2 n))).
  - apply Z.mul_lt_mono_pos_r; [apply Z.pow_pos_nonneg; lia|done].
  - rewrite <- Z.pow_add_r by lia. apply Z.pow_le_mono_r; lia.
Qed.

Lemma Qred_scaled n k : 0 ≤ k → Qred (Qmake (n * 2 ^ k) (Z.to_pos (2 ^ k))) = inject_Z n.
Proof.
  intros Hk. assert (Hp : 0 < 2 ^ k) by (apply Z.pow_pos_nonneg; lia).
  rewrite (Qred_complete _ (inject_Z n)).
  - unfold Qred, inject_Z. pose proof (Z.ggcd_gcd n 1) as Hg. pose proof (Z.ggcd_correct_divisors n 1) as Hc.
    destruct (Z.ggcd n 1) as [g [a b]]. cbn [fst] in Hg. rewrite Z.gcd_1_r in Hg. subst g.
    rewrite !Z.mul_1_l in Hc. by destruct Hc as [<- <-].
  - unfold Qeq. cbn. rewrite Z2Pos.id by done. lia.
Qed.

(** A whole number below [2 ^ 53] is a float. *)
Lemma ParseFloat_fmt_d z : Z.abs z < 2 ^ 53 → ParseFloat (fmt_d z) = Some (inject_Z z).
Proof.
  intros Hz. assert (Hl : ∀ n, 0 < n < 2 ^ 53 → n * 2 ^ (52 - Z.log2 n) * 1 = n * 2 ^ (52 - Z.log2 n) ∧
    0 ≤ 52 - Z.log2 n).
  { intros n Hn. split; [lia|]. assert (Z.log2 n < 53) by (apply Z.log2_lt_pow2; lia). lia. }
  assert (Hround : ∀ n (neg : bool), 0 < n < 2 ^ 53 →
    match round64 n 1 with
    | None => None
    | Some (m, e) => let m := if neg then - m else m in
        Some (Qred (Qmake (m * 2 ^ Z.max 0 e) (Z.to_pos (2 ^ Z.max 0 (- e)))))
    end = Some (inject_Z (if neg then - n else n))).
  { intros n neg Hn. destruct (Hl n Hn) as [_ Hk]. rewrite round64_small by done. cbv zeta.
    rewrite (Z.max_l 0 (_ - 52)), (Z.max_r 0 (- _)) by lia. change (2 ^ 0) with 1.
    rewrite Z.mul_1_r. replace (- (Z.log2 n - 52)) with (52 - Z.log2 n) by lia.
    destruct neg; [rewrite <- Z.mul_opp_l|]; by rewrite Qred_scaled. }
  unfold ParseFloat. destruct z as [|p|p]; [done|..].
  - rewrite (proj1 (decimal_pos (Z.pos p) ltac:(lia))). cbn [Z.eqb]. change (Z.max 0 (- 0)) with 0.
    change (Z.max 0 0) with 0. change (10 ^ 0) with 1. rewrite Z.mul_1_r. by apply (Hround (Z.pos p) false).
  - change (fmt_d (Z.neg p)) with ("-" +:+ fmt_d (Z.pos p)).
    rewrite (proj2 (decimal_pos (Z.pos p) ltac:(lia))). cbn [Z.eqb]. change (Z.max 0 (- 0)) with 0.
    change (Z.max 0 0) with 0. change (10 ^ 0) with 1. rewrite Z.mul_1_r. by apply (Hround (Z.pos p) true).
Qed.

(** ** Snapshots *)

(** A snapshot as the server writes it *)
Record snapshot_doc := mkSnapshotDoc {
  sd_type : string; sd_id : string; sd_time : Z; sd_size : Z }.
Definition snapshot_any (s : snapshot_doc) : any :=
  AMap [("backup-id", AStr (sd_id s)); ("backup-time", AInt (sd_time s));
        ("backup-type", AStr (sd_type s)); ("size", AInt (sd_size s))].
Definition snapshot_read (s : snapshot_doc) : Snapshot :=
  mkSnapshot (to_valid (sd_type s)) (to_valid (sd_id s)) (inject_Z (sd_time s)) (sd_size s).
Definition snapshot_ok (s : snapshot_doc) : Prop :=
  Z.abs (sd_time s) < 2 ^ 53 ∧ - 2 ^ 63 ≤ sd_size s < 2 ^ 63.

Lemma as_struct_snapshot s old :
  snapshot_ok s →
  as_struct snapshot_fields set_snapshot (jval_of (snapshot_any s)) old = Some (snapshot_read s).
Proof.
  intros [Ht%ParseFloat_fmt_d Hs%Atoi_fmt_d]. destruct s as [ty id t n]. cbn [sd_time sd_size] in *.
  unfold snapshot_any, snapshot_read. cbn [jval_of fmap list_fmap fst snd sd_type sd_id sd_time sd_size].
  rewrite !to_valid_ascii by done. set (lt := fmt_d t) in *. set (ln := fmt_d n) in *. clearbody lt ln.
  unfold as_struct. cbn [set_members].
  change (find_field snapshot_fields "backup-id") with (Some "backup-id").
  change (find_field snapshot_fields "backup-time") with (Some "backup-time").
  change (find_field snapshot_fields "backup-type") with (Some "backup-type").
  change (find_field snapshot_fields "size") with (Some "size").
  unfold set_snapshot. cbn. rewrite Ht. cbn. by rewrite Hs.
Qed.

Lemma as_snapshots_any l :
  Forall snapshot_ok l →
  as_snapshots (jval_of (AArr (snapshot_any <$> l))) [] = Some (snapshot_read <$> l).
Proof.
  intros Hl. unfold as_snapshots, as_slice. cbn [jval_of]. generalize (@nil Snapshot).
  induction Hl as [|s l Hs _ IH]; intros old; [done|].
  cbn [fmap list_fmap as_elems]. rewrite as_struct_snapshot by done. by rewrite IH.
Qed.

(** The envelope of an answer, and the snapshots in it *)
Section decode.
Context (decode_error : string → string → error) (print_rune : Z → bool).
#[local] Instance any_json : JsonLib := go_JsonLib decode_error print_rune.

Lemma envelope_any v :
  depth v < maxNestingDepth → json_envelope (json_any (AMap [("data", v)]) +:+ newline) = inr (json_any v).
Proof.
  intros Hd. cbn [json_envelope any_json go_JsonLib]. unfold Unmarshal.
  rewrite json_parse_any; [|cbn [depth foldr snd]; unfold maxNestingDepth in *|by right; left].
  - done.
  - lia.
Qed.

Lemma depth_snapshots l : depth (AArr (snapshot_any <$> l)) < maxNestingDepth.
Proof.
  assert (Hl : foldr (λ x m, Z.max (depth x) m) 0 (snapshot_any <$> l) ≤ 1).
  { induction l as [|s l IH]; [done|]. rewrite fmap_cons. cbn [foldr].
    change (depth (snapshot_any s)) with 1. lia. }
  cbn [depth]. unfold maxNestingDepth. lia.
Qed.

Lemma snapshots_any l :
  Forall snapshot_ok l →
  json_snapshots (json_any (AArr (snapshot_any <$> l))) = inr (snapshot_read <$> l).
Proof.
  intros Hl. cbn [json_snapshots any_json go_JsonLib]. unfold Unmarshal.
  pose proof (depth_snapshots l). rewrite <- (append_nil_r (json_any _)).
  rewrite json_parse_any by (lia || by left).
  cbn [mbind option_bind]. by rewrite as_snapshots_any.
Qed.
End decode.
