(* ===== verification/PbsFake.v ===== *)
(** * The fake PBS server of the tests: internal/pbs/pbstest

    The state of the server, its handler, and what net/http does around it: the
    request line, the routing of the mux, and the answer that a written status and
    body become.  The certificate and the address are those of httptest. *)

From S2P Require Import Prelude GoLib GoNet GoUtf8 Kube Api Client SnapshotRef Json JsonText JsonProps.
From S2P Require Import JsonAny PbsClient GoPath.
From Stdlib Require Import Ascii.
From stdpp Require Import options.

Local Open Scope Z_scope.

(** ** Packages strings, net and net/http *)

Definition HasSuffix (s suffix : string) : bool :=
  (String.length suffix <=? String.length s)%nat &&
  bool_decide (sdrop (String.length s - String.length suffix) s = suffix).

(** The last index of a byte *)
Fixpoint LastIndexByte (s : string) (c : ascii) : option nat :=
  match s with
  | EmptyString => None
  | String a t => match LastIndexByte t c with
                  | Some i => Some (S i)
                  | None => if Ascii.eqb a c then Some O else None
                  end
  end.

(** [net.SplitHostPort], whose error leaves both parts empty *)
Definition SplitHostPort (hostport : string) : option (string * string) :=
  match LastIndexByte hostport ":" with
  | None => None
  | Some i =>
      let port := sdrop (S i) hostport in
      let parts :=
        if HasPrefix hostport "[" then
          match IndexByte hostport "]" with
          | Some e => if bool_decide (S e = i) then Some (stake (e - 1) (sdrop 1 hostport), 1%nat, S e) else None
          | None => None
          end
        else
          let host := stake i hostport in
          if byte_in ":" host then None else Some (host, O, O) in
      match parts with
      | None => None
      | Some (host, j, k) =>
          if byte_in "[" (sdrop j hostport) || byte_in "]" (sdrop k hostport) then None
          else Some (host, port)
      end
  end.

Example SplitHostPort_ex :
  SplitHostPort "127.0.0.1:34567" = Some ("127.0.0.1", "34567") ∧ SplitHostPort "[::1]:80" = Some ("::1", "80") ∧
  SplitHostPort "host" = None ∧ SplitHostPort "::1:80" = None ∧ SplitHostPort "[::1]" = None.
Proof. by vm_compute. Qed.

(** The path of a request, still escaped, and unescaped ([URL.Path]) *)
Definition request_path (url : string) : string :=
  let rest := TrimPrefix url "https://" in
  let target := match IndexByte rest "/" with Some i => sdrop i rest | None => "/" end in
  match IndexByte target "?" with Some i => stake i target | None => target end.
Definition URL_Path (url : string) : string := PathUnescape (request_path url).

(** [Header.Get] *)
Fixpoint header_Get (h : list (string * string)) (key : string) : string :=
  match h with
  | [] => ""
  | (k, v) :: h' => if bool_decide (k = key) then v else header_Get h' key
  end.

(** The mux redirects a path that is not clean, and that of a tree without its
    slash, and otherwise serves the tree with the prefix of its pattern. *)
Definition cleanPath (p : string) : string :=
  let p := if HasPrefix p "/" then p else "/" +:+ p in
  let np := path_Clean p in
  if HasSuffix p "/" && negb (bool_decide (np = "/")) then np +:+ "/" else np.

Inductive route := RouteHandler | RouteNotFound | RouteRedirect.
Definition pattern : string := "/api2/json/admin/datastore/".
Definition ServeMux (path : string) : route :=
  if negb (bool_decide (cleanPath path = path)) || bool_decide (path +:+ "/" = pattern) then RouteRedirect
  else if HasPrefix path pattern then RouteHandler else RouteNotFound.

(** What the client receives: the status and the body.  [None] is a status that is
    no answer: one that [WriteHeader] refuses, or an informational one. *)
Definition answer : Type := option (Z * string).
Definition write (code : Z) (body : string) : answer :=
  if (200 <=? code) && (code <=? 999) then
    Some (code, if bool_decide (code ∈ [204; 304]) then "" else body)
  else None.
Definition http_Error (body : string) (code : Z) : answer := write code (body +:+ newline).

(** ** The server *)

Record Server := mkServer {
  srv_cert : string;            (* [srv.Certificate().Raw] *)
  srv_addr : string;            (* [srv.Listener.Addr().String()] *)
  srv_snapshots : any; srv_nsStatus : Z; srv_nsAuths : list string }.

(** [Start], given what httptest chooses *)
Definition Start (cert addr : string) : Server := mkServer cert addr (AArr []) 0 [].

Definition Fingerprint (s : Server) : string :=
  let hexed := ToUpper (hex_EncodeToString (Sum256 (bytes_of (srv_cert s)))) in
  let parts := (λ i, stake (2 * i + 2 - 2 * i) (sdrop (2 * i) hexed)) <$> seq 0 (String.length hexed / 2) in
  Join parts ":".
Definition Host (s : Server) : string := match SplitHostPort (srv_addr s) with Some (h, _) => h | None => "" end.
Definition Port (s : Server) : Z :=
  default 0 (Atoi (match SplitHostPort (srv_addr s) with Some (_, p) => p | None => "" end)).
Definition SetSnapshots (snaps : any) (s : Server) : Server :=
  mkServer (srv_cert s) (srv_addr s) snaps (srv_nsStatus s) (srv_nsAuths s).
Definition SetNamespaceStatus (code : Z) (s : Server) : Server :=
  mkServer (srv_cert s) (srv_addr s) (srv_snapshots s) code (srv_nsAuths s).
Definition NamespaceAuthHeaders (s : Server) : list string := srv_nsAuths s.

Definition writeJSON (code : Z) (v : any) : answer := write code (json_any v +:+ newline).

(** The handler; the mutex makes its parts atomic. *)
Definition handle (method path : string) (header : list (string * string)) (s : Server) : answer * Server :=
  if bool_decide (method = "GET") && HasSuffix path "/snapshots" then
    (writeJSON 200 (AMap [("data", srv_snapshots s)]), s)
  else if bool_decide (method = "POST") && HasSuffix path "/namespace" then
    let s := mkServer (srv_cert s) (srv_addr s) (srv_snapshots s) (srv_nsStatus s)
               (srv_nsAuths s ++ [header_Get header "Authorization"]) in
    let status := srv_nsStatus s in
    if bool_decide (status = 0) then (writeJSON 200 (AMap [("data", ANull)]), s)
    else
      let body := if bool_decide (status = 400) then "namespace already exists" else "boom" in
      (http_Error body status, s)
  else (http_Error "not found" 404, s).

(** A request as the server receives it; [None] is a redirect. *)
Definition ServeHTTP (r : http_request) (s : Server) : option (answer * Server) :=
  match ServeMux (request_path (rq_URL r)) with
  | RouteHandler => Some (handle (rq_Method r) (URL_Path (rq_URL r)) (rq_Header r) s)
  | RouteNotFound => Some (http_Error "404 page not found" 404, s)
  | RouteRedirect => None
  end.
