(* ===== verification/PbsFakeProps.v ===== *)
(** * The PBS client against the fake server

    What the fake of the tests makes the client of internal/pbs see: the pinned
    fingerprint is the one the client accepts, snapshots come back as they were set,
    and a namespace is created with the client's own token. *)

From S2P Require Import Prelude GoLib GoNet GoUtf8 Kube Api Client SnapshotRef Json JsonText JsonProps.
From S2P Require Import JsonAny ControllerLib PbsClient PbsProps GoPath PbsFake RepoCtl Cluster RepoProps.
From Stdlib Require Import Ascii.
From stdpp Require Import options.

#[local] Unset Default Proof Using.

Local Open Scope Z_scope.

(** The fingerprint is that of the first certificate, in the form of PBS. *)
Theorem Fingerprint_accepted s certs : verifyFingerprint (srv_cert s :: certs) (Fingerprint s) = None.
Proof. unfold verifyFingerprint. by rewrite bool_decide_eq_true_2. Qed.

(** ** The events the server answered *)

Definition serves_event (e : kevent) (s s' : Server) : Prop :=
  match e with
  | existT c a =>
      match c return resp c → Prop with
      | CDial _ _ => λ a, a = inr [srv_cert s] ∧ s' = s
      | CHttp _ r => λ a, ∃ status body, ServeHTTP r s = Some (Some (status, body), s') ∧ a = inr (status, inr body)
      | _ => λ _, s' = s
      end a
  end.

(** Every event in turn, from the state [s] to the state [s'] *)
Fixpoint serves (tr : list kevent) (s s' : Server) : Prop :=
  match tr with
  | [] => s' = s
  | e :: tr' => ∃ s1, serves_event e s s1 ∧ serves tr' s1 s'
  end.

Lemma serves_app t1 t2 s s' : serves (t1 ++ t2) s s' ↔ ∃ s1, serves t1 s s1 ∧ serves t2 s1 s'.
Proof.
  revert s. induction t1 as [|e t1 IH]; intros s; cbn [app serves].
  - split; [by exists s|]. by intros (s1 & -> & ?).
  - setoid_rewrite IH. split; [intros (s1 & ? & s2 & ? & ?)|intros (s2 & (s1 & ? & ?) & ?)]; eauto 10.
Qed.

(** ** Requests *)

(** The client was made for the server: its authority has no slash, and it pins
    the certificate. *)
Definition pinned_to (s : Server) (c : PbsClient) : Prop :=
  ∃ authority, pc_baseURL c = "https://" +:+ authority ∧ byte_in "/" authority = false ∧
    pc_fingerprint c = Fingerprint s.

Lemma byte_in_fmt_d z c : is_digit c = false → c ≠ "-"%char → byte_in c (fmt_d z) = false.
Proof.
  intros Hd Hm. assert (Hp : ∀ p, byte_in c (fmt_d (Z.pos p)) = false).
  { intros p. destruct (decimal_fmt_d (Z.pos p)) as (_ & Hall & _); [lia|].
    induction (fmt_d (Z.pos p)) as [|a t IH]; [done|]. cbn in *. apply andb_true_iff in Hall as [Ha Hall].
    rewrite IH by done. rewrite orb_false_r. apply Ascii.eqb_neq. intros ->. congruence. }
  destruct z as [|p|p]; [|apply Hp|].
  - cbn. rewrite orb_false_r. apply Ascii.eqb_neq. by intros <-.
  - change (fmt_d (Z.neg p)) with ("-" +:+ fmt_d (Z.pos p)). rewrite byte_in_append, Hp, orb_false_r.
    cbn. rewrite orb_false_r. apply Ascii.eqb_neq. congruence.
Qed.

Lemma NewClient_pinned_to s host port id secret :
  byte_in "/" host = false → pinned_to s (NewClient host port id secret (Fingerprint s)).
Proof.
  intros Hh. exists (host +:+ ":" +:+ fmt_d port). split; [done|]. split; [|done].
  by rewrite !byte_in_append, Hh, byte_in_fmt_d.
Qed.

Lemma IndexByte_app a c t : byte_in c a = false → IndexByte (a +:+ String c t) c = Some (String.length a).
Proof.
  induction a as [|x a IH]; intros Ha; [rewrite append_nil_l; cbn; by rewrite Ascii.eqb_refl|].
  cbn in Ha. apply orb_false_iff in Ha as [Hx Ha]. rewrite append_cons. cbn. by rewrite Hx, IH.
Qed.
Lemma IndexByte_none a c : byte_in c a = false → IndexByte a c = None.
Proof.
  induction a as [|x a IH]; [done|]. cbn. intros [Hx Ha]%orb_false_iff. by rewrite Hx, IH.
Qed.

Lemma request_path_eq s c path query :
  pinned_to s c → byte_in "?" ("/" +:+ path) = false →
  request_path (pc_baseURL c +:+ "/" +:+ path) = "/" +:+ path ∧
  request_path (pc_baseURL c +:+ "/" +:+ path +:+ "?" +:+ query) = "/" +:+ path.
Proof.
  intros (auth & -> & Ha & _) Hq. unfold request_path.
  assert (Ht : ∀ rest, let r := TrimPrefix (("https://" +:+ auth) +:+ "/" +:+ rest) "https://" in
    match IndexByte r "/" with Some i => sdrop i r | None => "/" end = "/" +:+ rest).
  { intros rest. cbv zeta. rewrite append_assoc, TrimPrefix_app.
    change ("/" +:+ rest) with (String "/" rest). rewrite IndexByte_app by done. apply sdrop_app. }
  cbv zeta in *. rewrite !Ht. split; [by rewrite IndexByte_none|].
  rewrite <- append_assoc. change ("?" +:+ query) with (String "?" query).
  rewrite IndexByte_app by done. apply stake_app.
Qed.

(** A store whose name is no dot segment, nor empty *)
Definition plain_store (store : string) : Prop := store ∉ [""; "."; ".."].

Lemma plain_store_escaped store : plain_store store → PathEscape store ∉ [""; "."; ".."].
Proof.
  intros Hs Hin. apply Hs. rewrite <- (PathUnescape_PathEscape store).
  rewrite !elem_of_cons, elem_of_nil in *. destruct_or! Hin; rewrite Hin; cbn; tauto.
Qed.

Definition endpoint (store leaf : string) : string :=
  "/api2/json/admin/datastore/" +:+ PathEscape store +:+ "/" +:+ leaf.

Lemma endpoint_parts store leaf :
  byte_in "/" leaf = false →
  SplitByte (endpoint store leaf) "/" = [""; "api2"; "json"; "admin"; "datastore"; PathEscape store; leaf].
Proof.
  intros Hl. unfold endpoint.
  change (SplitByte ("" +:+ String "/" ("api2" +:+ String "/" ("json" +:+ String "/" ("admin" +:+
    String "/" ("datastore" +:+ String "/" (PathEscape store +:+ String "/" leaf)))))) "/" =
    [""; "api2"; "json"; "admin"; "datastore"; PathEscape store; leaf]).
  rewrite !SplitByte_app by (done || (apply PathEscape_segment; by left)). by rewrite SplitByte_no_sep.
Qed.

Lemma sdrop_app_add a b n : sdrop (String.length a + n) (a +:+ b) = sdrop n b.
Proof. induction a as [|c a IH]; [done|]. rewrite append_cons. apply IH. Qed.

Lemma HasSuffix_app a b p :
  (String.length p ≤ String.length b)%nat → HasSuffix (a +:+ b) p = HasSuffix b p.
Proof.
  intros Hl. unfold HasSuffix. rewrite length_append.
  rewrite !(proj2 (Nat.leb_le _ _)) by lia. rewrite <- Nat.add_sub_assoc by done. by rewrite sdrop_app_add.
Qed.

Lemma ServeMux_endpoint store leaf :
  plain_store store → leaf ∈ ["snapshots"; "namespace"] → ServeMux (endpoint store leaf) = RouteHandler.
Proof.
  intros Hs Hl. assert (Hls : byte_in "/" leaf = false).
  { rewrite !elem_of_cons, elem_of_nil in Hl. by destruct_or! Hl; subst. }
  assert (Hclean : path_Clean (endpoint store leaf) = endpoint store leaf).
  { unfold path_Clean. change (HasPrefix (endpoint store leaf) "/") with true. cbv iota zeta.
    rewrite endpoint_parts by done. apply plain_store_escaped in Hs.
    rewrite !not_elem_of_cons in Hs. destruct Hs as (H1 & H2 & H3 & _).
    cbn [clean_parts]. rewrite !(bool_decide_eq_false_2 (PathEscape store = _)) by done. cbn [orb].
    rewrite !elem_of_cons, elem_of_nil in Hl. by destruct_or! Hl; subst. }
  assert (Hns : HasSuffix (endpoint store leaf) "/" = false).
  { rewrite !elem_of_cons, elem_of_nil in Hl. unfold endpoint. rewrite <- !append_assoc.
    destruct_or! Hl; subst; by rewrite HasSuffix_app by (cbn; lia). }
  assert (Hne : endpoint store leaf +:+ "/" ≠ pattern).
  { intros Heq%(f_equal String.length). revert Heq. unfold endpoint, pattern. rewrite !length_append. cbn. lia. }
  unfold ServeMux, cleanPath. change (HasPrefix (endpoint store leaf) "/") with true. cbv iota zeta.
  rewrite Hclean, Hns, bool_decide_eq_true_2, bool_decide_eq_false_2 by done. cbn [negb orb andb].
  unfold endpoint. by rewrite (HasPrefix_app pattern).
Qed.

Lemma URL_Path_suffix store leaf :
  leaf ∈ ["snapshots"; "namespace"] → HasSuffix (PathUnescape (endpoint store leaf)) ("/" +:+ leaf) = true ∧
  (leaf = "namespace" → HasSuffix (PathUnescape (endpoint store leaf)) "/snapshots" = false).
Proof.
  intros Hl. assert (Hp : PathUnescape (endpoint store leaf) = ("/api2/json/admin/datastore/" +:+ store) +:+ "/" +:+ leaf).
  { unfold endpoint. rewrite append_assoc.
    change (PathUnescape ("/api2/json/admin/datastore/" +:+ ?x)) with ("/api2/json/admin/datastore/" +:+ PathUnescape x).
    rewrite PathUnescape_PathEscape_app. f_equal. f_equal.
    rewrite !elem_of_cons, elem_of_nil in Hl. by destruct_or! Hl; subst. }
  rewrite Hp. rewrite !elem_of_cons, elem_of_nil in Hl.
  destruct_or! Hl; subst.
  - rewrite HasSuffix_app by (cbn; lia). split; [done|]. by intros [=].
  - split; [|intros _]; by rewrite HasSuffix_app by (vm_compute; lia).
Qed.

(** ** Operations of the client *)

Section client.
Context (decode_error : string → string → error) (print_rune : Z → bool) `{HttpLib}.
#[local] Instance fake_json : JsonLib := go_JsonLib decode_error print_rune.

(** What [do_] makes of an answer *)
Definition outcome {A} (status : Z) (buf : string) (out : option (string → error + A)) : pbs_error + option A :=
  if 400 <=? status then inl (PbsAPI status buf)
  else match out with
       | None => inr None
       | Some decode =>
           match json_envelope buf with
           | inl e => inl (PbsErr (ErrWrap "pbs: decode response envelope: " e))
           | inr data =>
               match decode data with
               | inl e => inl (PbsErr (ErrWrap "pbs: decode response data: " e))
               | inr x => inr (Some x)
               end
           end
       end.

Lemma runs_do_served {A} c ctx method path body (out : option (string → error + A)) tr res s s' s1 status buf :
  NewRequest_error (pc_baseURL c +:+ path) = None → pinned_to s c →
  ServeHTTP (request c method path body) s = Some (Some (status, buf), s1) →
  runs (do_ c ctx method path body out) tr res → serves tr s s' →
  s' = s1 ∧ res = outcome status buf out.
Proof.
  intros Hu (auth & _ & _ & Hp) Hs Hr Ht. unfold do_ in Hr. rewrite Hu in Hr.
  apply runs_bind in Hr as (t1 & resp & t2 & -> & Hr & [-> ->]). rewrite app_nil_r in Ht.
  unfold http_Do in Hr. apply runs_bind in Hr as (t3 & certs & t4 & -> & (? & ? & -> & -> & ->) & Hr).
  apply serves_app in Ht as (s2 & (s3 & Hd & ->) & Ht). cbn in Hd. destruct Hd as [-> ->].
  rewrite Hp, Fingerprint_accepted in Hr.
  apply runs_bind in Hr as (t5 & ans & t6 & -> & (? & ? & -> & -> & ->) & [-> ->]). rewrite app_nil_r in Ht.
  destruct Ht as (s3 & (status' & buf' & Hs' & ->) & ->).
  fold (request c method path body) in Hs'.
  rewrite Hs in Hs'. by injection Hs' as <- <- <-.
Qed.

Lemma datastore_endpoint store leaf : datastore_path store +:+ "/" +:+ leaf = endpoint store leaf.
Proof. unfold datastore_path, endpoint. by rewrite append_assoc. Qed.

Lemma endpoint_no_query store leaf : byte_in "?" leaf = false → byte_in "?" (endpoint store leaf) = false.
Proof.
  intros Hl. unfold endpoint. rewrite !byte_in_append, Hl, PathEscape_segment; [done|set_solver].
Qed.

Section on_server.
Context (s : Server) (c : PbsClient) (ctx : option Z) (store ns : string).
Context (Hpin : pinned_to s c) (Hstore : plain_store store) (Hurl : ∀ url, NewRequest_error url = None).

Lemma served_snapshots :
  ServeHTTP (snapshots_request c store ns) s =
  Some (Some (200, json_any (AMap [("data", srv_snapshots s)]) +:+ newline), s).
Proof.
  assert (Hl : "snapshots" ∈ ["snapshots"; "namespace"]) by (by left).
  assert (Hpath : request_path (rq_URL (snapshots_request c store ns)) = endpoint store "snapshots").
  { destruct (request_path_eq s c (sdrop 1 (endpoint store "snapshots")) ("ns=" +:+ QueryEscape ns) Hpin)
      as [_ Hq]; [by apply endpoint_no_query|].
    change (endpoint store "snapshots") with ("/" +:+ sdrop 1 (endpoint store "snapshots")). rewrite <- Hq.
    f_equal. rewrite <- (append_assoc "/" (sdrop _ _)).
    change ("/" +:+ sdrop 1 (endpoint store "snapshots")) with (endpoint store "snapshots").
    cbn [rq_URL snapshots_request request]. unfold endpoint, datastore_path. by rewrite !append_assoc. }
  unfold ServeHTTP, URL_Path. rewrite Hpath, ServeMux_endpoint by done.
  unfold handle. cbn [rq_Method snapshots_request request].
  destruct (URL_Path_suffix store "snapshots" Hl) as [Hsuf _].
  change ("/" +:+ "snapshots") with "/snapshots" in Hsuf. rewrite Hsuf. done.
Qed.

Lemma served_namespace :
  ServeHTTP (namespace_request c store ns) s =
  Some (if decide (srv_nsStatus s = 0) then Some (200, json_any (AMap [("data", ANull)]) +:+ newline)
        else http_Error (if decide (srv_nsStatus s = 400) then "namespace already exists" else "boom") (srv_nsStatus s),
        mkServer (srv_cert s) (srv_addr s) (srv_snapshots s) (srv_nsStatus s) (srv_nsAuths s ++ [pc_authToken c])).
Proof.
  assert (Hl : "namespace" ∈ ["snapshots"; "namespace"]) by (right; by left).
  assert (Hpath : request_path (rq_URL (namespace_request c store ns)) = endpoint store "namespace").
  { destruct (request_path_eq s c (sdrop 1 (endpoint store "namespace")) "" Hpin)
      as [Hq _]; [by apply endpoint_no_query|].
    change (endpoint store "namespace") with ("/" +:+ sdrop 1 (endpoint store "namespace")). rewrite <- Hq.
    by rewrite <- datastore_endpoint. }
  unfold ServeHTTP, URL_Path. rewrite Hpath, ServeMux_endpoint by done.
  unfold handle. cbn [rq_Method rq_Header namespace_request request].
  destruct (URL_Path_suffix store "namespace" Hl) as [Hsuf _].
  change ("/" +:+ "namespace") with "/namespace" in Hsuf. rewrite Hsuf.
  cbn [srv_nsStatus srv_cert srv_addr srv_snapshots srv_nsAuths app header_Get].
  rewrite !bool_decide_decide. by destruct (decide (srv_nsStatus s = 0)), (decide (srv_nsStatus s = 400)).
Qed.

(** C33: The client against the fake server, for any namespace and any store whose
    name is not a dot segment: the snapshots that were set are the ones it lists, field by field, and
    nothing changes on the server; ensuring the namespace sends one request with the
    client's own token; it succeeds by default and for the 400 that says that the
    namespace is there, and fails for any other error status the fake was switched
    to. *)
Theorem client_on_fake tr s' :
  serves tr s s' →
  (∀ l res, srv_snapshots s = AArr (snapshot_any <$> l) → Forall snapshot_ok l →
     runs (ListSnapshots c ctx store ns) tr res → res = inr (snapshot_read <$> l) ∧ s' = s) ∧
  (∀ res, srv_nsStatus s = 0 ∨ 400 ≤ srv_nsStatus s ≤ 999 →
     runs (EnsureNamespace c ctx store ns) tr res →
     NamespaceAuthHeaders s' = NamespaceAuthHeaders s ++ [pc_authToken c] ∧
     srv_snapshots s' = srv_snapshots s ∧ (res = None ↔ srv_nsStatus s = 0 ∨ srv_nsStatus s = 400)).
Proof.
  intros Ht. split.
  - intros l res Hsn Hl Hr. unfold ListSnapshots in Hr.
    apply runs_bind in Hr as (t1 & r & t2 & -> & Hr & [-> ->]). rewrite app_nil_r in Ht.
    destruct (runs_do_served c ctx _ _ _ _ _ _ _ _ _ _ _ (Hurl _) Hpin served_snapshots Hr Ht) as [-> ->].
    split; [|done]. rewrite Hsn. unfold outcome. change (400 <=? 200) with false. cbv iota.
    assert (He : json_envelope (json_any (AMap [("data", AArr (snapshot_any <$> l))]) +:+ newline) =
      inr (json_any (AArr (snapshot_any <$> l)))) by apply envelope_any, depth_snapshots.
    assert (Hd : json_snapshots (json_any (AArr (snapshot_any <$> l))) = inr (snapshot_read <$> l))
      by by apply snapshots_any.
    by rewrite He, Hd.
  - intros res Hst Hr. unfold EnsureNamespace in Hr.
    apply runs_bind in Hr as (t1 & r & t2 & -> & Hr & [-> ->]). rewrite app_nil_r in Ht.
    pose proof served_namespace as Hs. unfold namespace_request, http_Error, write in Hs.
    destruct (decide (srv_nsStatus s = 0)) as [Hz|Hz].
    { destruct (runs_do_served c ctx _ _ _ _ _ _ _ _ _ _ _ (Hurl _) Hpin Hs Hr Ht) as [-> ->].
      split; [done|]. split; [done|]. rewrite Hz. split; [by left|done]. }
    destruct Hst as [|Hst]; [done|].
    rewrite (proj2 (Z.leb_le 200 _)), (proj2 (Z.leb_le _ 999)) in Hs by lia. cbn [andb] in Hs.
    destruct (runs_do_served c ctx _ _ _ _ _ _ _ _ _ _ _ (Hurl _) Hpin Hs Hr Ht) as [-> ->].
    split; [done|]. split; [done|]. unfold outcome.
    rewrite (proj2 (Z.leb_le 400 _)) by lia.
    rewrite (bool_decide_eq_false_2 (_ ∈ _)) by (rewrite !elem_of_cons, elem_of_nil; lia).
    cbn [already_exists]. destruct (decide (srv_nsStatus s = 400)) as [H4|H4].
    + rewrite bool_decide_eq_true_2 by done. split; [by right|done].
    + rewrite bool_decide_eq_false_2 by done. split; [done|lia].
Qed.
End on_server.
End client.

(** ** Runs on a cluster with the fake server *)

Definition hosted (c : call) (st : cluster * Server) : resp c * (cluster * Server) :=
  match c return resp c * (cluster * Server) with
  | CDial _ _ => (inr [srv_cert st.2], st)
  | CHttp _ r =>
      match ServeHTTP r st.2 with
      | Some (Some (status, body), s') => (inr (status, inr body), (st.1, s'))
      | Some (None, s') => (inl (ErrMsg "EOF"), (st.1, s'))
      | None => (inl (ErrMsg "redirect"), st)
      end
  | c => let r := serve c st.1 in (r.1, (r.2, st.2))
  end.

(** An exchange that got an answer *)
Definition answered (e : kevent) : bool :=
  match e with
  | existT c a =>
      match c return resp c → bool with
      | CHttp _ _ => λ a, match a with inr _ => true | inl _ => false end
      | _ => λ _, true
      end a
  end.

Lemma hosted_serves c st :
  answered (ev c (hosted c st).1) = true → serves_event (ev c (hosted c st).1) st.2 (hosted c st).2.2.
Proof.
  destruct c as [| | | | | | | | | | | | | | | |t r|]; try done. cbn [hosted].
  destruct (ServeHTTP r st.2) as [[[[status body]|] s']|] eqn:E; try done. intros _. by exists status, body.
Qed.

Lemma exec_serves {R} (p : kprog R) st :
  forallb answered (exec hosted p st).1.1 = true → serves (exec hosted p st).1.1 st.2 (exec hosted p st).2.2.
Proof.
  revert st. induction p as [x|c k IH]; intros st; cbn [exec]; [done|].
  pose proof (hosted_serves c st) as Hs. destruct (hosted c st) as [a st1]. cbn [fst snd] in Hs.
  specialize (IH a st1). destruct (exec hosted (k a) st1) as [[tr r] st2]. cbn [fst snd forallb serves] in *.
  intros [Ha Ht]%andb_true_iff. exists st1.2. split; [by apply Hs|by apply IH].
Qed.

(** The fake in the state of a test: two snapshots, and a namespace that is there *)
Definition test_snapshots : list snapshot_doc :=
  [mkSnapshotDoc "host" "db" 1747401600 42; mkSnapshotDoc "host" "a/b" 1747405200 0].
Definition test_server : Server :=
  SetNamespaceStatus 400
    (SetSnapshots (AArr (snapshot_any <$> test_snapshots)) (Start "cert" "127.0.0.1:8007")).
Lemma test_snapshots_ok : Forall snapshot_ok test_snapshots.
Proof. repeat (apply Forall_cons; split; [unfold snapshot_ok; cbn; lia|]). by constructor. Qed.
Definition test_client : PbsClient :=
  NewClient (Host test_server) (Port test_server) "u@pbs!t" "secret" (Fingerprint test_server).

Lemma client_on_fake_witness :
  let list_run := exec hosted (ListSnapshots test_client None "store/1" "k8s") (empty_cluster, test_server) in
  let ensure_run := exec hosted (EnsureNamespace test_client None "store/1" "k8s") (empty_cluster, test_server) in
  pc_baseURL test_client = "https://127.0.0.1:8007" ∧
  (∃ snaps, list_run.1.2 = inr snaps ∧ sn_BackupID <$> snaps = ["db"; "a/b"]) ∧
  NamespaceAuthHeaders ensure_run.2.2 = ["PBSAPIToken=u@pbs!t:secret"] ∧ ensure_run.1.2 = None.
Proof.
  intros list_run ensure_run. split; [by vm_compute|].
  assert (Hpin : pinned_to test_server test_client) by (by apply NewClient_pinned_to).
  assert (Hstore : plain_store "store/1") by (apply (bool_decide_unpack ("store/1" ∉ [""; "."; ".."])); by vm_compute).
  assert (Hurl : ∀ url, NewRequest_error url = None) by done.
  assert (Hl : serves list_run.1.1 test_server list_run.2.2).
  { subst list_run. apply (exec_serves (ListSnapshots test_client None "store/1" "k8s") (empty_cluster, test_server)).
    by vm_compute. }
  assert (He : serves ensure_run.1.1 test_server ensure_run.2.2).
  { subst ensure_run. apply (exec_serves (EnsureNamespace test_client None "store/1" "k8s") (empty_cluster, test_server)).
    by vm_compute. }
  destruct (client_on_fake (λ target _, ErrMsg ("json: not a " +:+ target)) (λ _, true)
    test_server test_client None "store/1" "k8s" Hpin Hstore Hurl _ _ Hl) as [H1 _].
  destruct (client_on_fake (λ target _, ErrMsg ("json: not a " +:+ target)) (λ _, true)
    test_server test_client None "store/1" "k8s" Hpin Hstore Hurl _ _ He) as [_ H2].
  split.
  - destruct (H1 test_snapshots list_run.1.2 eq_refl test_snapshots_ok (exec_runs _ _ _)) as [Hr _].
    eexists. split; [exact Hr|by vm_compute].
  - assert (Hcode : srv_nsStatus test_server = 0 ∨ 400 ≤ srv_nsStatus test_server ≤ 999)
      by (right; split; discriminate).
    pose proof (H2 ensure_run.1.2 Hcode) as H3.
    pose proof (exec_runs hosted (EnsureNamespace test_client None "store/1" "k8s")
      (empty_cluster, test_server)) as Hrun.
    specialize (H3 Hrun). destruct H3 as (Ha & _ & Hr).
    clear Hl H1 H2. clearbody ensure_run. split; [by rewrite Ha|]. apply (proj2 Hr). by right.
Defined.

(** A status between 300 and 399 counts as success, though the comment on
    [SetNamespaceStatus] calls every code but 400 a hard failure. *)
Example redirect_is_success :
  (exec hosted (EnsureNamespace test_client None "store" "k8s")
     (empty_cluster, SetNamespaceStatus 302 test_server)).1.2 = None.
Proof. by vm_compute. Qed.

(** The repo controller on a cluster with the fake: the listing uses the token of
    the repo, and the namespace is created with the bootstrap token. *)
Example repo_on_fake :
  let run := exec hosted (RepoCtl.Reconcile repo_req) (repo_cluster, Start "cert" "127.0.0.1:8007") in
  NamespaceAuthHeaders run.2.2 = ["PBSAPIToken=admin@pbs!t:s3cret"] ∧
  run.1.2 = requeue_after requeueSteady ∧
  (λ r, IsStatusConditionTrue (rst_Conditions (repo_Status r)) condReady) <$> cl_objects run.2.1 KPBSRepo = [true].
Proof. by vm_compute. Qed.
