(* ===== verification/Scheme.v ===== *)
(** * The registration of the API types

    The package initialisation of api/v1 (groupversion_info.go and the [init] of each
    types file), that of cmd/main.go, and the names of the custom resource
    definitions.  A scheme, its methods and the scheme builder are apimachinery's
    ([SchemeLib], with what it documents of them in [SchemeLaws]); [AddToScheme] is
    a method value that holds the address of [SchemeBuilder], so it sees what the
    [init] functions, which run after the variables are initialised, register. *)

From S2P Require Import Prelude GoLib Kube.
From stdpp Require Import options.

(** ** Names *)

Record GroupVersion_ := mkGV { gv_Group : string; gv_Version : string }.
Record GVK := mkGVK { gvk_GV : GroupVersion_; gvk_Kind : string }.
#[export] Instance GroupVersion_eq_dec : EqDecision GroupVersion_.
Proof. solve_decision. Defined.
#[export] Instance GVK_eq_dec : EqDecision GVK.
Proof. solve_decision. Defined.

(** A struct type of Go: its package and its name *)
Record GoStruct := mkStruct { gs_Package : string; gs_Name : string }.
#[export] Instance GoStruct_eq_dec : EqDecision GoStruct.
Proof. solve_decision. Defined.

(** ** apimachinery *)

(** What a call on a scheme does: it ends, with an error or not, or panics. *)
Inductive outcome (A : Type) := Done (x : A) | Err (e : error) | Panic.
Arguments Done {A} _. Arguments Err {A} _. Arguments Panic {A}.
#[export] Instance outcome_ret : MRet outcome := @Done.
#[export] Instance outcome_bind : MBind outcome := λ A B f m,
  match m with Done x => f x | Err e => Err e | Panic => Panic end.

Class SchemeLib := {
  scheme : Type;
  NewScheme : scheme;
  (** The type a kind is decoded into *)
  recognized : scheme → GVK → option GoStruct;
  AddKnownTypes : GroupVersion_ → list GoStruct → scheme → outcome scheme;
  AddToGroupVersion : GroupVersion_ → scheme → outcome scheme;
  (** The kinds of the meta types that [AddToGroupVersion] registers *)
  meta_kinds : list string;
  (** [runtime.SchemeBuilder] *)
  builder : Type;
  NewSchemeBuilder : list (scheme → outcome scheme) → builder;
  Register : list (scheme → outcome scheme) → builder → builder;
  builder_AddToScheme : builder → scheme → outcome scheme;
}.

Section setup.
Context `{SchemeLib}.

(** The functions of a builder, in the order they were added *)
Fixpoint apply_all (fs : list (scheme → outcome scheme)) (s : scheme) : outcome scheme :=
  match fs with
  | [] => mret s
  | f :: fs' => s ← f s; apply_all fs' s
  end.
End setup.

(** What the library documents *)
Class SchemeLaws `{SchemeLib} := {
  NewScheme_empty k : recognized NewScheme k = None;
  (** "registers all types passed in 'types' as being members of version 'version'";
      a type is registered under its Go name, and one that is taken by another type
      is a panic. *)
  AddKnownTypes_law gv ts s :
    NoDup (gs_Name <$> ts) →
    (∀ t, t ∈ ts → recognized s (mkGVK gv (gs_Name t)) ∈ [None; Some t]) →
    ∃ s', AddKnownTypes gv ts s = Done s' ∧
      (∀ t, t ∈ ts → recognized s' (mkGVK gv (gs_Name t)) = Some t) ∧
      (∀ k, gvk_GV k ≠ gv ∨ gvk_Kind k ∉ gs_Name <$> ts → recognized s' k = recognized s k);
  (** "registers common meta types into schemas" *)
  AddToGroupVersion_law gv s s' :
    AddToGroupVersion gv s = Done s' →
    (∀ k t, recognized s k = Some t → recognized s' k = Some t) ∧
    (∀ kind, kind ∉ meta_kinds → recognized s' (mkGVK gv kind) = recognized s (mkGVK gv kind));
  (** "AddToScheme applies all the stored functions to the scheme. A non-nil error
      indicates that one function failed and the attempt was abandoned." *)
  NewSchemeBuilder_law fs s : builder_AddToScheme (NewSchemeBuilder fs) s = apply_all fs s;
  (** "Register adds a scheme setup function to the list." *)
  Register_law fs b s :
    builder_AddToScheme (Register fs b) s = (builder_AddToScheme b s ≫= apply_all fs);
}.

(** ** api/v1 *)

Definition SchemeGroupVersion : GroupVersion_ := mkGV "pbs.sharifmind.ir" "v1".
Definition GroupVersion : GroupVersion_ := SchemeGroupVersion.

Definition api_package : string := "gitlab.sharifmind.ir/miad/pbs-operator/api/v1".
Definition api_type (name : string) : GoStruct := mkStruct api_package name.

Section package.
Context `{SchemeLib}.

(** The variable before the [init] functions run *)
Definition SchemeBuilder : builder :=
  NewSchemeBuilder [λ s, s ← AddToGroupVersion SchemeGroupVersion s; mret s].

(** The [init] functions of the files: what they leave in the variable *)
Definition init_backup (SchemeBuilder : builder) : builder :=
  Register [λ s, s ← AddKnownTypes SchemeGroupVersion [api_type "PBSBackup"; api_type "PBSBackupList"] s;
                 mret s] SchemeBuilder.
Definition init_repo (SchemeBuilder : builder) : builder :=
  Register [λ s, s ← AddKnownTypes SchemeGroupVersion [api_type "PBSRepo"; api_type "PBSRepoList"] s;
                 mret s] SchemeBuilder.
Definition init_restore (SchemeBuilder : builder) : builder :=
  Register [λ s, s ← AddKnownTypes SchemeGroupVersion [api_type "PBSRestore"; api_type "PBSRestoreList"] s;
                 mret s] SchemeBuilder.
Definition init_schedule (SchemeBuilder : builder) : builder :=
  Register [λ s, s ← AddKnownTypes SchemeGroupVersion [api_type "PBSSchedule"; api_type "PBSScheduleList"] s;
                 mret s] SchemeBuilder.

(** The variable after the initialisation: the files in the order of their names *)
Definition initialized : builder :=
  init_schedule (init_restore (init_repo (init_backup SchemeBuilder))).

(** [SchemeBuilder.AddToScheme] has a pointer receiver, so this reads the variable
    when it is called. *)
Definition AddToScheme : scheme → outcome scheme := builder_AddToScheme initialized.

(** ** cmd/main.go *)

(** [utilruntime.Must]: an error is a panic. *)
Definition Must {A} (m : outcome A) : outcome A := match m with Err _ => Panic | _ => m end.

(** The scheme of the manager, after [init] *)
Definition manager_scheme (clientgo_AddToScheme : scheme → outcome scheme) : outcome scheme :=
  s ← Must (clientgo_AddToScheme NewScheme);
  Must (AddToScheme s).
End package.

(** ** The custom resource definitions *)

Record CRD := mkCRD {
  crd_Group : string; crd_Version : string; crd_Kind : string; crd_ListKind : string;
  crd_Plural : string; crd_Namespaced : bool }.
Definition crd_backups : CRD := mkCRD "pbs.sharifmind.ir" "v1" "PBSBackup" "PBSBackupList" "pbsbackups" true.
Definition crd_repos : CRD := mkCRD "pbs.sharifmind.ir" "v1" "PBSRepo" "PBSRepoList" "pbsrepos" false.
Definition crd_restores : CRD :=
  mkCRD "pbs.sharifmind.ir" "v1" "PBSRestore" "PBSRestoreList" "pbsrestores" true.
Definition crd_schedules : CRD :=
  mkCRD "pbs.sharifmind.ir" "v1" "PBSSchedule" "PBSScheduleList" "pbsschedules" true.
Definition crds : list CRD := [crd_backups; crd_repos; crd_restores; crd_schedules].

Definition crd_gvk (c : CRD) (kind : string) : GVK := mkGVK (mkGV (crd_Group c) (crd_Version c)) kind.

(** ** What the scheme knows *)

Definition api_kinds : list string :=
  ["PBSBackup"; "PBSBackupList"; "PBSRepo"; "PBSRepoList"; "PBSRestore"; "PBSRestoreList";
   "PBSSchedule"; "PBSScheduleList"].

Section registration.
Context `{SL : SchemeLib} {SW : SchemeLaws}.

(** A scheme that knows exactly the API types named in [kinds] besides [s0] *)
Definition knows (s0 : scheme) (kinds : list string) (s : scheme) : Prop :=
  ∀ k, recognized s k =
    if decide (gvk_GV k = SchemeGroupVersion ∧ gvk_Kind k ∈ kinds) then Some (api_type (gvk_Kind k))
    else recognized s0 k.

Lemma knows_add s0 kinds new s :
  NoDup new → knows s0 kinds s →
  (∀ kind, kind ∈ new → recognized s0 (mkGVK SchemeGroupVersion kind) = None) →
  ∃ s', (s' ← AddKnownTypes SchemeGroupVersion (api_type <$> new) s; mret s') = Done s' ∧
    knows s0 (kinds ++ new) s'.
Proof using SW.
  intros Hnd Hk Hnew.
  assert (Hnames : gs_Name <$> (api_type <$> new) = new).
  { rewrite <- list_fmap_compose. by apply list_fmap_id. }
  destruct (AddKnownTypes_law SchemeGroupVersion (api_type <$> new) s) as (s' & He & Hin & Hout).
  - by rewrite Hnames.
  - intros t (kind & -> & Hkind)%list_elem_of_fmap. rewrite Hk. cbn. case_decide.
    + by right; left.
    + rewrite Hnew by done. by left.
  - exists s'. rewrite He. split; [done|]. rewrite Hnames in Hout. intros k.
    destruct (decide (gvk_GV k = SchemeGroupVersion ∧ gvk_Kind k ∈ new)) as [[Hgv Hkind]|Hno].
    + rewrite decide_True by (split; [done|]; apply elem_of_app; by right).
      destruct k as [gv kind]. cbn in Hgv, Hkind |- *. subst gv.
      apply (Hin (api_type kind)). apply list_elem_of_fmap. by exists kind.
    + rewrite Hout, Hk by (destruct (decide (gvk_GV k = SchemeGroupVersion)); tauto).
      apply decide_ext. rewrite elem_of_app. tauto.
Qed.

Lemma register_one f b s0 s s' :
  builder_AddToScheme b s0 = Done s → f s = Done s' → builder_AddToScheme (Register [f] b) s0 = Done s'.
Proof using SW. intros Hb Hf. rewrite Register_law, Hb. cbn. by rewrite Hf. Qed.

(** C28: The scheme of the manager: when client-go's types and the meta types of the group
    can be registered, the process does not panic in [init]; the scheme then knows
    each type of api/v1 under its own name and no other type of the group but the
    meta types, still knows all of client-go's, and so knows the kind and the list
    kind of every custom resource definition. *)
Theorem manager_scheme_complete clientgo s0 s1 :
  clientgo NewScheme = Done s0 →
  (∀ kind, recognized s0 (mkGVK SchemeGroupVersion kind) = None) →
  AddToGroupVersion SchemeGroupVersion s0 = Done s1 →
  (∀ kind, kind ∈ api_kinds → kind ∉ meta_kinds) →
  ∃ s, manager_scheme clientgo = Done s ∧
    (∀ kind, kind ∉ meta_kinds →
       recognized s (mkGVK SchemeGroupVersion kind) =
         if decide (kind ∈ api_kinds) then Some (api_type kind) else None) ∧
    (∀ k t, recognized s0 k = Some t → recognized s k = Some t) ∧
    (∀ c, c ∈ crds → recognized s (crd_gvk c (crd_Kind c)) = Some (api_type (crd_Kind c)) ∧
                     recognized s (crd_gvk c (crd_ListKind c)) = Some (api_type (crd_ListKind c))).
Proof using SW.
  intros Hc Hnone Hmeta Hkinds. destruct (AddToGroupVersion_law _ _ _ Hmeta) as [Hkeep Hgv].
  assert (Hfree : ∀ kind, kind ∈ api_kinds → recognized s1 (mkGVK SchemeGroupVersion kind) = None).
  { intros kind Hin. rewrite Hgv by by apply Hkinds. apply Hnone. }
  assert (H1 : knows s1 [] s1) by (intros k; rewrite decide_False; [done|by intros [_ Hin%not_elem_of_nil]]).
  assert (Hadd : ∀ kinds new s,
    bool_decide (NoDup new) && forallb (λ kind, bool_decide (kind ∈ api_kinds)) new = true →
    knows s1 kinds s →
    ∃ s', (s' ← AddKnownTypes SchemeGroupVersion (api_type <$> new) s; mret s') = Done s' ∧
      knows s1 (kinds ++ new) s').
  { intros kinds new s [Hnd%bool_decide_eq_true Hin]%andb_true_iff Hk. apply knows_add; [done..|].
    intros kind Hkind. apply Hfree. rewrite forallb_forall in Hin.
    specialize (Hin kind). rewrite <- list_elem_of_In in Hin. by apply bool_decide_eq_true in Hin. }
  assert (Hb0 : builder_AddToScheme SchemeBuilder s0 = Done s1).
  { unfold SchemeBuilder. rewrite NewSchemeBuilder_law. cbn. by rewrite Hmeta. }
  destruct (Hadd [] ["PBSBackup"; "PBSBackupList"] s1 eq_refl H1) as (s2 & He2 & H2).
  destruct (Hadd _ ["PBSRepo"; "PBSRepoList"] s2 eq_refl H2) as (s3 & He3 & H3).
  destruct (Hadd _ ["PBSRestore"; "PBSRestoreList"] s3 eq_refl H3) as (s4 & He4 & H4).
  destruct (Hadd _ ["PBSSchedule"; "PBSScheduleList"] s4 eq_refl H4) as (s5 & He5 & H5).
  change (knows s1 api_kinds s5) in H5.
  assert (Hs : AddToScheme s0 = Done s5) by by repeat (eapply register_one; [|eassumption]).
  assert (Hknown : ∀ kind, kind ∈ api_kinds →
    recognized s5 (mkGVK SchemeGroupVersion kind) = Some (api_type kind)).
  { intros kind Hin. by rewrite H5, decide_True. }
  exists s5. split; [unfold manager_scheme; rewrite Hc; cbn; by rewrite Hs|]. split; [|split].
  - intros kind Hm. rewrite H5. cbn. destruct (decide (kind ∈ api_kinds)).
    + by rewrite decide_True.
    + rewrite decide_False by tauto. by rewrite Hgv, Hnone.
  - intros k t Hk. rewrite H5. destruct (decide _) as [[Hg Hkind]|]; [|by apply Hkeep].
    destruct k as [gv kind]. cbn in Hg, Hkind. subst gv. by rewrite Hnone in Hk.
  - intros c Hin. assert (crd_gvk c (crd_Kind c) = mkGVK SchemeGroupVersion (crd_Kind c) ∧
      crd_gvk c (crd_ListKind c) = mkGVK SchemeGroupVersion (crd_ListKind c) ∧
      crd_Kind c ∈ api_kinds ∧ crd_ListKind c ∈ api_kinds) as (-> & -> & Hk & Hl).
    { revert c Hin. apply Forall_forall. repeat (apply Forall_cons; split; [|]); [..|by apply Forall_nil];
        (split; [done|]; split; [done|]; split; by apply (bool_decide_unpack _); vm_compute). }
    by split; apply Hknown.
Qed.
End registration.

(** ** A scheme as a map *)

Lemma NoDup_fmap_inj_name (ts : list GoStruct) t t' :
  NoDup (gs_Name <$> ts) → t ∈ ts → t' ∈ ts → gs_Name t = gs_Name t' → t = t'.
Proof.
  intros Hnd [i Hi]%list_elem_of_lookup [j Hj]%list_elem_of_lookup Heq.
  assert (i = j) as ->.
  { eapply NoDup_lookup; [exact Hnd|..]; rewrite list_lookup_fmap; [by rewrite Hi|by rewrite Hj, Heq]. }
  congruence.
Qed.

Definition map_scheme : Type := GVK → option GoStruct.

#[export] Instance map_SchemeLib : SchemeLib := {
  scheme := map_scheme;
  NewScheme := λ _, None;
  recognized s := s;
  AddKnownTypes gv ts s :=
    if forallb (λ t, bool_decide (s (mkGVK gv (gs_Name t)) ∈ [None; Some t])) ts
    then Done (λ k, match List.find (λ t, bool_decide (k = mkGVK gv (gs_Name t))) ts with
                    | Some t => Some t | None => s k end)
    else Panic;
  AddToGroupVersion gv s :=
    Done (λ k, if bool_decide (k = mkGVK gv "WatchEvent")
               then match s k with
                    | Some t => Some t
                    | None => Some (mkStruct "k8s.io/apimachinery/pkg/apis/meta/v1" "WatchEvent")
                    end
               else s k);
  meta_kinds := ["WatchEvent"];
  builder := list (map_scheme → outcome map_scheme);
  NewSchemeBuilder fs := fs;
  Register fs b := b ++ fs;
  builder_AddToScheme b s := foldl (λ m f, m ≫= f) (Done s) b;
}.

Lemma foldl_apply_all (fs : list (map_scheme → outcome map_scheme)) m :
  foldl (λ m f, m ≫= f) m fs = (m ≫= apply_all fs).
Proof.
  revert m. induction fs as [|f fs IH]; intros m; [by destruct m|]. cbn [foldl]. rewrite IH. by destruct m.
Qed.

#[export] Instance map_SchemeLaws : SchemeLaws.
Proof.
  split.
  - done.
  - intros gv ts s Hnd Hs. cbn. rewrite (proj2 (forallb_forall _ _)).
    2:{ intros t Hin%list_elem_of_In. apply bool_decide_eq_true_2, (Hs t Hin). }
    eexists. split; [reflexivity|]. cbn. split.
    + intros t Hin. destruct (List.find _ ts) as [t'|] eqn:Hf.
      * apply find_some in Hf as [Hin' Ht%bool_decide_eq_true]. injection Ht as Hn. f_equal.
        apply list_elem_of_In in Hin'. symmetry. by eapply NoDup_fmap_inj_name.
      * apply list_elem_of_In in Hin. eapply find_none in Hf; [|exact Hin].
        by apply bool_decide_eq_false in Hf.
    + intros k Hk. destruct (List.find _ ts) as [t'|] eqn:Hf; [|done]. exfalso.
      apply find_some in Hf as [Hin' ->%bool_decide_eq_true]. cbn in Hk.
      destruct Hk as [|Hk]; [done|]. apply Hk, list_elem_of_fmap. exists t'. split; [done|].
      by apply list_elem_of_In.
  - intros gv s s' [= <-]. cbn. split.
    + intros k t Hk. by case_bool_decide; rewrite ?Hk.
    + intros kind Hkind. case_bool_decide as Hk; [|done]. injection Hk as ->.
      destruct Hkind. by left.
  - intros fs s. cbn. by rewrite foldl_apply_all.
  - intros fs b s. cbn. by rewrite foldl_app, !foldl_apply_all.
Qed.

Definition some_clientgo : scheme → outcome scheme := λ s : map_scheme,
  s ← AddToGroupVersion (mkGV "" "v1") s;
       AddKnownTypes (mkGV "" "v1") [mkStruct "k8s.io/api/core/v1" "Secret"] s.

Lemma manager_scheme_complete_witness :
  ∃ s, manager_scheme some_clientgo = Done s ∧
    recognized s (crd_gvk crd_repos "PBSRepo") = Some (api_type "PBSRepo").
Proof.
  destruct (manager_scheme_complete (SL := map_SchemeLib) some_clientgo _ _ eq_refl (λ _, eq_refl) eq_refl)
    as (s & Hs & _ & _ & Hc).
  - intros kind Hin Hm%list_elem_of_singleton. subst kind.
    unfold api_kinds in Hin. rewrite !elem_of_cons in Hin. by destruct_or? Hin; [..|apply not_elem_of_nil in Hin].
  - exists s. split; [exact Hs|]. apply (Hc crd_repos). right. by left.
Defined.

(** Had the method value copied the builder instead of its address, the manager would
    know none of the resources. *)
Example copied_builder :
  (λ s : map_scheme, s (crd_gvk crd_repos "PBSRepo")) <$>
    (match builder_AddToScheme SchemeBuilder NewScheme with Done s => Some s | _ => None end) = Some None.
Proof. by vm_compute. Qed.
