(* ===== verification/EndToEnd.v ===== *)
(** * From a backup to its restore

    The parts together: the process of a backup Job, its report, the reconcile that
    completes the backup, a restore of what it recorded, and the processes of its
    volume Jobs. *)

From S2P Require Import Prelude GoLib GoNet Sort Kube Api Client Json SnapshotRef Trace Placement JobBuild Doc.
From S2P Require Import RestorePlan Hooks Serialize ControllerLib BackupCtl BackupSafety BackupProps.
From S2P Require Import BackupOutcome RestoreCtl RestoreProps Cluster.
From S2P Require Import AgentArgs AgentEnv AgentTrace AgentBackup AgentRestore AgentMain.
From S2P Require Import JsonText JsonProps AgentHost AgentBackupProps AgentJobs Handoff.
From Stdlib Require Import Ascii.
From stdpp Require Import options.

Local Open Scope Z_scope.

Section end_to_end.
Context `{KL : KubeLib} {JL : JsonLib} {JW : JsonLaws} `{GL : GroupLib} `{YL : YamlLib} `{SS : SortSlice}.
Context (r : PBSBackupReconciler).

(** The pod of the Job carries what the process wrote to its termination log. *)
Definition carries (ns : string) (pj : placedJob) (atr : list aevent) (ctr : list kevent) : Prop :=
  ∀ pods : list Pod,
    saw ctr (CList KPod (Some ns) (SelMatchingLabels {["pbsbackup" := job_name pj]})) (inr pods) →
    ∃ path line, logged atr = [(path, line)] ∧ pods_message pods = Some line.

(** The host name of a pod: a DNS label *)
Definition plain_host (atr : list aevent) : Prop :=
  ∀ host, ev (resp := aresp) AHostname (inr host) ∈ atr → is_ascii host = true ∧ byte_in "/"%char host = false.

(** The archive of a claim *)
Definition archive (claim : string) : string := "pvc-" +:+ claim +:+ ".pxar".

(** The process stored the claim, from where its pod mounts it. *)
Definition stored_claim (spec : BackupJobSpec) (claim : string) (atr : list aevent) : Prop :=
  ∃ argv res path, head (commands atr) = Some (argv, res) ∧ run_error res = None ∧
    mounts_claim (job_pod (BuildBackupJob spec)) claim true path ∧ archive claim +:+ ":" +:+ path ∈ argv.

(** The process extracted it from the snapshot, to where its pod mounts the claim. *)
Definition extracted_claim (spec : RestoreJobSpec) (node : string) (pvcs : list string)
    (ref claim : string) (atr : list aevent) : Prop :=
  ∃ path ns key res, mounts_claim (job_pod (BuildRestoreVolumeJob spec node pvcs)) claim false path ∧
    (restoreArgv ns key ref (archive claim +:+ ".didx") path, res) ∈ commands atr ∧ run_error res = None.

(** A restore of a reference that the agent composed passes the checks of its spec. *)
Lemma found_restorable rs snap :
  sn_BackupType snap = "host" → byte_in "/"%char (sn_BackupID snap) = false →
  rs_SnapshotRef (rt_Spec rs) = snapshotRef snap →
  rs_RepoRef (rt_Spec rs) ≠ "" → rs_TargetNamespace (rt_Spec rs) ≠ "" → validateSpec rs = "".
Proof.
  unfold snapshotRef. intros Ht Hid Href Hr Hn. eapply composed_ref_restorable; [|exact Hid|exact Href|done..].
  by rewrite Ht.
Qed.

(** A report that was read as a result is that of a process that ended with 0. *)
Lemma process_reported spec atr code ns pj ctr res :
  bjsp_PVCs spec ≠ [] ∨ bjsp_StagingConfigMap spec ≠ "" →
  runs (agent_process (job_command (BuildBackupJob spec))) atr code →
  plain_host atr → carries ns pj atr ctr → reported ns ctr pj res →
  code = 0 ∧ ∃ snap argv rc, sn_BackupType snap = "host" ∧
    byte_in "/"%char (sn_BackupID snap) = false ∧ res = (snapshotRef snap, sn_Size snap) ∧
    head (commands atr) = Some (argv, rc) ∧ run_error rc = None.
Proof using JW.
  intros Hspec Hr Hhost Hcarry (pods & msg & Hin & Hmsg & Hres & Hne). rewrite <- pods_message_head in Hmsg.
  destruct (Hcarry _ Hin) as (path & line & Hlog & Hline). assert (line = msg) as -> by congruence.
  apply process_backup in Hr as (env & tr & -> & Hr); [|done].
  destruct (wp_runs _ _ _ _ _ (wp_RunBackup _ _ _ _) Hr) as (_ & _ & line' & Hlog' & Hend).
  assert (msg = line' +:+ newline) as ->.
  { change (logged tr = [(path, msg)]) in Hlog. rewrite Hlog' in Hlog. by injection Hlog. }
  destruct Hend as [(-> & c & snap & _ & Hf & ->)|(msg & -> & _)].
  2:{ unfold errorJSON in Hres. rewrite json_error_no_result in Hres. injection Hres as <-. done. }
  split; [done|].
  rewrite (success_read _ _ _ _ _ Hf) in Hres by (intros h Hh; apply (Hhost h); by right).
  injection Hres as <-. destruct Hf as (keyPath & r1 & r2 & host & snaps & Hcmds & He & _ & _ & Hh & Hn).
  destruct Hn as (l1 & l2 & Hl & _).
  assert (Hsnap : snap ∈ filter (in_group "host" host) snaps) by (rewrite Hl; apply elem_of_app; right; by left).
  apply list_elem_of_filter in Hsnap as [[Ht Hi] _].
  assert (Hhead : ∃ argv, head (commands tr) = Some (argv, r1)).
  { destruct (commands tr); [done|]. injection Hcmds as -> _. by eexists. }
  destruct Hhead as [argv Hhead]. exists snap, argv, r1. rewrite Hi.
  split_and!; [done|apply (Hhost host); by right|done..].
Qed.

(** A completed backup read the report of each of its Jobs, and recorded it. *)
Lemma completed_report b placed ctr res s pj :
  runs (conclude r b placed) ctr res → s ∈ patched ctr → bst_Phase s = BackupPhaseCompleted →
  pj ∈ placed →
  ∃ got, reported (om_Namespace (bk_Meta b)) ctr pj got ∧ ok_status pj got ∈ slice (bst_Jobs s) ∧
    (length placed = 1%nat → bst_SnapshotRef s = got.1).
Proof.
  intros Hr Hs Hphase Hpj. apply conclude_patched in Hr. rewrite Forall_forall in Hr.
  destruct (Hr _ Hs) as (Hfail & Hrun & Hdone).
  destruct (decide (Exists job_failed placed)) as [Hf|Hf]; [by destruct (Hfail Hf); congruence|].
  destruct (decide (Forall job_complete placed)) as [Hc|Hc]; [|by destruct (Hrun Hf Hc); congruence].
  destruct (Hdone Hf Hc) as [[[Hp _] _]|(rs & Hall & _ & Hjobs & _ & Href)]; [congruence|].
  apply list_elem_of_lookup in Hpj as [i Hi].
  destruct (Forall2_lookup_l _ _ _ _ _ Hall Hi) as (got & Hgot & Hrep). exists got. split; [done|].
  rewrite Hjobs, Href. split.
  - apply list_elem_of_lookup. exists i. cbn. by rewrite lookup_zip_with, Hi; cbn; rewrite Hgot.
  - intros Hlen. rewrite (Forall2_length _ _ _ Hall) in Hlen. destruct rs as [|x []]; try done.
    destruct i; [by injection Hgot as ->|done].
Qed.

(** C12: What a completed backup records can be restored: a Job whose pod carried its
    process' report did end with 0, after a first command that stored every claim
    of the Job; the status lists the reference it found, as the reference of the
    backup if there is one Job; a restore of that reference passes the checks of
    its spec; and its volume Job for a claim, when its process ends with 0, has
    extracted the archive stored for that claim, from that reference, to where its
    pod mounts the claim (unless a command failed with exit code 0, which [os/exec]
    never reports). *)
Theorem backup_restorable b placed ctr res s pj bspec atr code claim :
  runs (conclude r b placed) ctr res → s ∈ patched ctr → bst_Phase s = BackupPhaseCompleted →
  pj ∈ placed → claim ∈ bjsp_PVCs bspec →
  runs (agent_process (job_command (BuildBackupJob bspec))) atr code →
  plain_host atr → carries (om_Namespace (bk_Meta b)) pj atr ctr →
  code = 0 ∧ stored_claim bspec claim atr ∧
  ∃ ref, mkBJS (pj_node pj) (job_name pj) ("ok:" +:+ ref) ∈ slice (bst_Jobs s) ∧
    (length placed = 1%nat → bst_SnapshotRef s = ref) ∧
    ∀ rs, rs_SnapshotRef (rt_Spec rs) = ref →
      rs_RepoRef (rt_Spec rs) ≠ "" → rs_TargetNamespace (rt_Spec rs) ≠ "" →
      validateSpec rs = "" ∧
      ∀ image secret node pvcs rtr, claim ∈ pvcs →
        runs (agent_process (job_command (BuildRestoreVolumeJob (restore_spec image rs secret) node pvcs))) rtr 0 →
        zero_exit rtr ∨ extracted_claim (restore_spec image rs secret) node pvcs ref claim rtr.
Proof using JW.
  intros Hr Hs Hphase Hpj Hclaim Hproc Hhost Hcarry.
  destruct (completed_report _ _ _ _ _ _ Hr Hs Hphase Hpj) as (got & Hrep & Hjob & Hone).
  assert (Hne : bjsp_PVCs bspec ≠ []) by (intros Hn; rewrite Hn in Hclaim; by apply not_elem_of_nil in Hclaim).
  destruct (process_reported _ _ _ _ _ _ _ (or_introl Hne) Hproc Hhost Hcarry Hrep)
    as (-> & snap & argv & rc & Ht & Hid & -> & Hhead & Hok).
  split; [done|]. split.
  { destruct (claim_stored _ _ _ _ _ _ Hclaim Hproc Hhead) as (path & Hm & Hin).
    exists argv, rc, path. unfold archive. by rewrite !append_assoc. }
  exists (snapshotRef snap). split; [done|]. split; [done|]. intros rs Href Hrepo Htarget.
  split; [by eapply found_restorable|]. intros image secret node pvcs rtr Hc Hrtr.
  destruct (claim_restored (restore_spec image rs secret) node pvcs claim rtr Hc) as [Hz|(path & ns & key & x & Hm & Hx & Ho)];
    [cbn; rewrite Href; apply snapshotRef_nonempty|exact Hrtr|by left|].
  right. exists path, ns, key, x. split; [done|]. split; [|done]. unfold archive. rewrite !append_assoc.
  by rewrite <- Href.
Qed.
End end_to_end.

(** ** A backup of one Job, and the restore of what it recorded *)

Definition running_backup : PBSBackup :=
  example_backup BackupPhaseRunning (Some [mkBJS "n1" "daily-n1" "active"]).
Definition conclude_run :=
  exec serve (conclude example_reconciler running_backup [mkPlaced "n1" done_job])
    (add_object KPBSBackup running_backup (add_object KPod reported_pod base_cluster)).

Definition restored : PBSRestore :=
  mkRestore (meta0 "backups" "r") (mkRestoreSpec "repo" "host/bk-1/2025-05-16T13:20:00Z" "apps" [] [])
    (mkRestoreStatus RestorePhaseNew [] None None None).
Definition restored_spec : RestoreJobSpec := restore_spec "agent:1" restored "pbsrepo-repo".
Definition volume_run :=
  exec serve_host (agent_process (job_command (BuildRestoreVolumeJob restored_spec "n1" ["data-a"])))
    (mkHost test_env (ho_files (test_host [])) {["/backup/data-a" := []]} [ran "done"]).

(** The answers that the hypotheses on the two traces are about, decided on them *)
Definition plain_answer (e : aevent) : Prop :=
  match e with
  | existT c a => match c return aresp c → Prop with
                  | AHostname => λ r, match r with
                      | inr host => is_ascii host = true ∧ byte_in "/" host = false
                      | inl _ => True
                      end
                  | _ => λ _, True
                  end a
  end.

Lemma job_run_plain : plain_host job_run.1.1.
Proof.
  assert (Hall : Forall plain_answer job_run.1.1) by (vm_compute; repeat constructor).
  rewrite Forall_forall in Hall. intros host Hin. exact (Hall _ Hin).
Qed.

Definition carries_line (line : string) (e : kevent) : bool :=
  match e with
  | existT c a => match c return resp c → bool with
                  | CList KPod _ _ => λ r, match r with
                      | inr pods => bool_decide (pods_message pods = Some line)
                      | inl _ => true
                      end
                  | _ => λ _, true
                  end a
  end.

Lemma job_run_carried : carries "apps" (mkPlaced "n1" done_job) job_run.1.1 conclude_run.1.1.
Proof.
  assert (Hlog : logged job_run.1.1 = [("/dev/termination-log", reported_line)]) by (by vm_compute).
  assert (Hall : forallb (carries_line reported_line) conclude_run.1.1 = true) by (by vm_compute).
  rewrite forallb_forall in Hall. intros pods Hin. exists "/dev/termination-log", reported_line.
  split; [exact Hlog|]. apply (bool_decide_eq_true_1 _). exact (Hall _ (proj1 (list_elem_of_In _ _) Hin)).
Qed.

Lemma backup_restorable_witness :
  stored_claim job_spec "data-a" job_run.1.1 ∧
  bst_SnapshotRef <$> patched conclude_run.1.1 = ["host/bk-1/2025-05-16T13:20:00Z"] ∧
  validateSpec restored = "" ∧
  extracted_claim restored_spec "n1" ["data-a"] "host/bk-1/2025-05-16T13:20:00Z" "data-a" volume_run.1.1.
Proof.
  assert (Hs : ∃ s, patched conclude_run.1.1 = [s] ∧ bst_Phase s = BackupPhaseCompleted ∧
                    bst_SnapshotRef s = "host/bk-1/2025-05-16T13:20:00Z") by (vm_compute; by eexists).
  destruct Hs as (s & Hs & Hphase & Href).
  destruct (backup_restorable (JW := go_JsonLaws _ _) example_reconciler running_backup
    [mkPlaced "n1" done_job] conclude_run.1.1 conclude_run.1.2 s (mkPlaced "n1" done_job) job_spec
    job_run.1.1 job_run.1.2 "data-a" (exec_runs serve _ _))
    as (_ & Hstored & ref & _ & Hone & Hrest);
    [rewrite Hs; by left|exact Hphase|by left|by left|exact (exec_runs serve_host _ _)
    |exact job_run_plain|exact job_run_carried|].
  assert (ref = "host/bk-1/2025-05-16T13:20:00Z") as -> by (rewrite <- Href; symmetry; by apply Hone).
  destruct (Hrest restored) as [Hv Hx]; [done..|].
  split; [exact Hstored|]. split; [rewrite Hs; cbn; by rewrite Href|]. split; [exact Hv|].
  assert (H0 : volume_run.1.2 = 0) by (by vm_compute).
  destruct (Hx "agent:1" "pbsrepo-repo" "n1" ["data-a"] volume_run.1.1) as [Hz|Hext]; [by left| | |exact Hext].
  { rewrite <- H0. exact (exec_runs serve_host _ _). }
  exfalso. destruct Hz as (argv & x & e & Hin & He & _).
  assert (Hc : Forall (λ y, run_error y.2 = None) (commands volume_run.1.1)) by (vm_compute; repeat constructor).
  rewrite Forall_forall in Hc. specialize (Hc _ Hin). cbn in Hc. congruence.
Defined.
