(* ===== verification/Yaml.v ===== *)
(** * What is promised of YAML

    The laws of the interface [RestorePlan.YamlLib], which stands for sigs.k8s.io/yaml
    and the YAML reader of apimachinery, and JSON text as an instance of them. *)

From S2P Require Import Prelude GoLib GoNet GoUtf8 Kube Doc Json JsonText JsonProps JsonAny.
From S2P Require Import RestorePlan Serialize.
From Stdlib Require Import Ascii.
From stdpp Require Import options.

Local Open Scope Z_scope.

(** ** The codec *)

(** The values a codec gives back: valid UTF-8, whole numbers that a float64 holds,
    and no deeper nesting than [d]. *)
Inductive exact : Z → val → Prop :=
  | exact_null d : exact d VNull
  | exact_bool d b : exact d (VBool b)
  | exact_num d z : - 2 ^ 53 ≤ z ≤ 2 ^ 53 → exact d (VNum z)
  | exact_str d s : to_valid s = s → exact d (VStr s)
  | exact_list d l : 0 < d → (∀ v, v ∈ l → exact (d - 1) v) → exact d (VList l)
  | exact_map d (m : gmap string val) :
      0 < d → (∀ k v, m !! k = Some v → to_valid k = k) →
      (∀ k v, m !! k = Some v → exact (d - 1) v) → exact d (VMap m).

(** What sigs.k8s.io/yaml and the YAML reader of apimachinery promise on documents that
    are mappings: documents joined by separator lines are read one by one, each with
    the line break before its separator; a mapping is read back, whatever line break
    follows it; and its text has a line with more than a comment. *)
Class YamlLaws `{YamlLib} := {
  yaml_Documents_empty : yaml_Documents "" = ([], None);
  yaml_Documents_joined os bs :
    Forall2 (λ o b, yaml_Marshal o = inr b) os bs → bs ≠ [] →
    yaml_Documents (Join bs doc_separator +:+ newline) = ((λ b, b +:+ newline) <$> bs, None);
  yaml_Unmarshal_back o b :
    exact maxNestingDepth (VMap o) → yaml_Marshal o = inr b → yaml_Unmarshal (b +:+ newline) = inr o;
  yaml_Marshal_line o b :
    o ≠ ∅ → yaml_Marshal o = inr b →
    ∃ line, line ∈ SplitByte b "010" ∧ TrimSpace line ≠ "" ∧
            HasPrefix (TrimSpace line) "---" = false ∧ HasPrefix (TrimSpace line) "#" = false;
}.

(** ** Lines *)

Lemma SplitByte_nonempty s c : SplitByte s c ≠ [].
Proof.
  destruct s as [|a s]; [done|]. cbn [SplitByte]. destruct (Ascii.eqb a c); [done|]. by destruct (SplitByte s c).
Qed.

Lemma SplitByte_end s c : SplitByte (s +:+ String c EmptyString) c = SplitByte s c ++ [""].
Proof.
  induction s as [|a s IH]; [rewrite append_nil_l; cbn [SplitByte app]; by rewrite Ascii.eqb_refl|]. rewrite append_cons. cbn [SplitByte].
  rewrite IH. destruct (Ascii.eqb a c); [done|]. destruct (SplitByte s c) eqn:Hs; [|done].
  by destruct (SplitByte_nonempty s c).
Qed.

(** ** JSON as YAML

    Each document is one line of JSON. *)

Fixpoint any_of (v : val) : any :=
  match v with
  | VNull => ANull
  | VBool b => ABool b
  | VNum z => AInt z
  | VStr s => AStr s
  | VList l => AArr (any_of <$> l)
  | VMap m => AMap (map_fold (λ k v acc, (k, any_of v) :: acc) [] m)
  end.

Fixpoint val_of (j : jval) : val :=
  match j with
  | JNull => VNull
  | JBool b => VBool b
  | JNum lit => match Atoi lit with Some z => VNum z | None => VNull end
  | JStr s => VStr s
  | JArr l => VList (val_of <$> l)
  | JObj l => VMap (list_to_map ((λ kv, (kv.1.1, val_of kv.1.2)) <$> l))
  end.

Definition json_YamlLib : YamlLib := {|
  yaml_Documents s :=
    ((λ l, l +:+ newline) <$> filter (λ l, l ≠ "" ∧ l ≠ "---") (SplitByte s "010"), None);
  yaml_Unmarshal s :=
    match val_of <$> json_parse s with
    | Some (VMap m) => inr m
    | _ => inl (ErrMsg "not a mapping")
    end;
  yaml_Marshal o := inr (json_any (any_of (VMap o)));
|}.

Lemma any_of_map m : any_of (VMap m) = AMap ((λ kv, (kv.1, any_of kv.2)) <$> map_to_list m).
Proof.
  cbn [any_of]. f_equal. rewrite map_fold_foldr. induction (map_to_list m) as [|[k v] l IH]; [done|].
  cbn. by rewrite IH.
Qed.

Lemma foldr_max_le_inv {A} (f : A → Z) l d :
  0 ≤ d → Forall (λ x, f x ≤ d) l → foldr (λ x m, Z.max (f x) m) 0 l ≤ d.
Proof. intros Hd. induction 1; cbn; lia. Qed.

Lemma exact_any d v : exact d v → val_of (jval_of (any_of v)) = v ∧ (0 ≤ d → depth (any_of v) ≤ d).
Proof.
  induction 1 as [|d b|d z Hz|d s Hs|d l Hd Hl IH|d m Hd Hm Hv IH].
  - done.
  - done.
  - cbn [any_of jval_of val_of]. by rewrite Atoi_fmt_d by lia.
  - cbn [any_of jval_of val_of]. by rewrite Hs.
  - cbn [any_of jval_of val_of depth]. split.
    + f_equal. rewrite <- !list_fmap_compose. rewrite <- (list_fmap_id l) at 2.
      apply list_fmap_ext. intros i v Hv. by apply (IH v), (list_elem_of_lookup_2 _ i).
    + intros _. enough (foldr (λ x m, Z.max (depth x) m) 0 (any_of <$> l) ≤ d - 1) by lia.
      apply foldr_max_le_inv; [lia|]. apply Forall_fmap, Forall_forall. intros v Hv. apply (IH v Hv). lia.
  - rewrite any_of_map. assert (Hin : ∀ k v, (k, v) ∈ map_to_list m → m !! k = Some v)
      by (intros k v; apply elem_of_map_to_list).
    cbn [jval_of val_of depth]. split.
    + f_equal. rewrite <- !list_fmap_compose. rewrite <- (list_to_map_to_list m) at 2. f_equal.
      rewrite <- (list_fmap_id (map_to_list m)) at 2. apply list_fmap_ext.
      intros i [k v] Hk%list_elem_of_lookup_2%Hin. cbn [compose fst snd].
      rewrite (Hm k v Hk). by destruct (IH k v Hk) as [-> _].
    + intros _. enough (foldr (λ kv m, Z.max (depth kv.2) m) 0
        ((λ kv, (kv.1, any_of kv.2)) <$> map_to_list m) ≤ d - 1) by lia.
      apply (foldr_max_le_inv (λ kv, depth kv.2)); [lia|]. apply Forall_fmap, Forall_forall.
      intros [k v] Hk%Hin. cbn. apply (IH k v Hk). lia.
Qed.

(** *** The text is one line *)

Lemma hex4_no_newline a b c d r :
  hex4 (String a (String b (String c (String d EmptyString)))) = Some r →
  byte_in "010" (String a (String b (String c (String d EmptyString)))) = false.
Proof.
  assert (Hx : ∀ x v, hex_digit_val x = Some v → Ascii.eqb x "010" = false)
    by (intros x v Hv; apply Ascii.eqb_neq; by intros ->).
  cbn [hex4 byte_in].
  destruct (hex_digit_val a) eqn:Ha, (hex_digit_val b) eqn:Hb, (hex_digit_val c) eqn:Hc, (hex_digit_val d) eqn:Hd;
    try done.
  by rewrite (Hx _ _ Ha), (Hx _ _ Hb), (Hx _ _ Hc), (Hx _ _ Hd).
Qed.

(** The scanner takes no control byte. *)
Lemma scan_string_no_newline n s raw rest :
  (String.length s <= n)%nat → scan_string s = Some (raw, rest) → byte_in "010" raw = false.
Proof.
  revert s raw rest. induction n as [|n IH]; intros [|c s] raw rest Hn; try by (cbn in Hn; lia) || done.
  cbn [scan_string]. destruct (Ascii.eqb c dquote); [by intros [= <- <-]|].
  cbn in Hn. destruct (Ascii.eqb c "\") eqn:Hb.
  - destruct s as [|e s]; [done|]. cbn in Hn. destruct (Ascii.eqb e "u") eqn:He.
    + apply Ascii.eqb_eq in He as ->. destruct s as [|a [|b [|x [|d s]]]]; try done.
      destruct (hex4 _) eqn:Hh; [|done]. apply hex4_no_newline in Hh.
      destruct (scan_string s) as [[raw' r']|] eqn:Hs; [|done]. intros [= <- <-].
      apply IH in Hs; [|cbn in Hn; lia]. cbn [byte_in backslash] in *. rewrite Hs.
      by rewrite !orb_false_r in *.
    + case_bool_decide as Hin; [|done]. destruct (scan_string s) as [[raw' r']|] eqn:Hs; [|done].
      intros [= <- <-]. apply IH in Hs; [|lia]. cbn [byte_in backslash]. rewrite Hs, orb_false_r.
      cbn [orb Ascii.eqb Bool.eqb]. apply Ascii.eqb_neq. intros ->. revert Hin. by apply (bool_decide_unpack _).
  - destruct (byte_val c <? 32) eqn:Hc; [done|]. destruct (scan_string s) as [[raw' r]|] eqn:Hs; [|done].
    intros [= <- <-]. cbn [byte_in]. rewrite (IH s raw' r) by (done || lia). rewrite orb_false_r.
    apply Ascii.eqb_neq. by intros ->.
Qed.

Lemma json_string_no_newline s : byte_in "010" (json_string s) = false.
Proof.
  pose proof (scan_json_string s "") as Hs. eapply scan_string_no_newline in Hs; [|done].
  unfold json_string. change (byte_in "010" (map_runes json_rune s +:+ char dquote) = false).
  by rewrite byte_in_append, Hs.
Qed.

Lemma Join_no_newline l : Forall (λ s, byte_in "010" s = false) l → byte_in "010" (Join l ",") = false.
Proof.
  induction 1 as [|s l Hs Hl IH]; [done|]. destruct l as [|s' l]; [done|].
  change (Join (s :: s' :: l) ",") with (s +:+ "," +:+ Join (s' :: l) ",").
  rewrite !byte_in_append, Hs, IH. done.
Qed.

Lemma json_any_no_newline v : byte_in "010" (json_any v) = false.
Proof.
  induction v as [|b|z|s|l IH|l IH] using any_ind; cbn [json_any].
  - done.
  - by destruct b.
  - apply byte_in_pretty_Z; [done|]. apply pretty_N_char_not. by left.
  - apply json_string_no_newline.
  - rewrite !byte_in_append, Join_no_newline; [done|]. by apply Forall_fmap.
  - unfold json_members. rewrite !byte_in_append, Join_no_newline; [done|].
    rewrite <- list_fmap_compose. apply Forall_fmap. eapply Forall_impl; [exact IH|].
    intros kv Hkv. cbn [compose fst snd]. by rewrite !byte_in_append, json_string_no_newline, Hkv.
Qed.

(** *** Nothing of it is space *)

Lemma TrimSpace_braced x : TrimSpace ("{" +:+ x +:+ "}") = "{" +:+ x +:+ "}".
Proof.
  apply TrimSpace_id; [by repeat constructor|]. rewrite !srev_app. by repeat constructor.
Qed.

Lemma json_map_braced o : ∃ x, json_any (any_of (VMap o)) = "{" +:+ x +:+ "}".
Proof. rewrite any_of_map. cbn [json_any]. unfold json_members. by eexists. Qed.

(** *** The laws *)

Lemma json_lines bs :
  Forall (λ b, byte_in "010" b = false ∧ ∃ x, b = "{" +:+ x +:+ "}") bs → bs ≠ [] →
  filter (λ l, l ≠ "" ∧ l ≠ "---") (SplitByte (Join bs doc_separator +:+ newline) "010") = bs.
Proof.
  induction 1 as [|b bs [Hb [x Hx]] Hbs IH]; [done|]. intros _.
  assert (Hne : b ≠ "" ∧ b ≠ "---") by by subst b.
  destruct bs as [|b' bs].
  - change (Join [b] doc_separator) with b. unfold newline. rewrite SplitByte_app by done.
    rewrite filter_cons_True by done. f_equal.
  - change (Join (b :: b' :: bs) doc_separator)
      with (b +:+ (newline +:+ "---" +:+ newline) +:+ Join (b' :: bs) doc_separator).
    assert (∀ t, (b +:+ (newline +:+ "---" +:+ newline) +:+ t) +:+ newline =
                 b +:+ String "010" ("---" +:+ String "010" (t +:+ newline))) as ->
      by (intros t; by rewrite !append_assoc).
    rewrite SplitByte_app by done. rewrite (SplitByte_app "---") by done.
    rewrite filter_cons_True by done. f_equal. rewrite filter_cons_False by naive_solver. by apply IH.
Qed.

Lemma json_marshal o b : @yaml_Marshal json_YamlLib o = inr b → b = json_any (any_of (VMap o)).
Proof. intros Hb. by apply (inj inr) in Hb. Qed.

#[export] Instance json_YamlLaws : @YamlLaws json_YamlLib.
Proof.
  split.
  - done.
  - intros os bs Hall Hne. cbn [yaml_Documents json_YamlLib]. rewrite json_lines; [done| |done].
    clear Hne. induction Hall as [|o b os bs Hb _ IH]; constructor; [|done]. apply json_marshal in Hb as ->.
    split; [apply json_any_no_newline|apply json_map_braced].
  - intros o b [Hv Hd]%exact_any ->%json_marshal. cbn [yaml_Unmarshal json_YamlLib].
    rewrite json_parse_any; [|by apply Hd|by right; left]. cbn [fmap option_fmap option_map].
    by rewrite Hv.
  - intros o b _ ->%json_marshal.
    destruct (json_map_braced o) as [x Hx]. exists (json_any (any_of (VMap o))).
    rewrite SplitByte_no_sep by apply json_any_no_newline. rewrite Hx, TrimSpace_braced.
    by split; [left|].
Qed.
