(* ===== verification/Manifests.v ===== *)
(** * The manifests, from the namespace to the documents of a restore

    What [Serialize.SerializeNamespace] writes of a namespace, and what
    [RestorePlan.ParseAPIManifests] and [BucketDocs] make of it in the target
    namespace: the two sides of api.yaml together, over what is promised of the
    YAML codec and reader ([Yaml.YamlLaws]). *)

From S2P Require Import Prelude GoLib GoUtf8 Sort Kube Doc Client Trace Json JsonText JsonProps.
From S2P Require Import JobBuild RestorePlan Serialize Yaml.
From Stdlib Require Import Ascii.
From stdpp Require Import options.

Local Open Scope Z_scope.

(** ** Values that are kept *)

Lemma exact_map_inv d m : exact d (VMap m) →
  0 < d ∧ ∀ k v, m !! k = Some v → to_valid k = k ∧ exact (d - 1) v.
Proof. inversion 1; subst. split; [done|]. intros k v Hk. by split; eauto. Qed.

Lemma exact_map_intro d m :
  0 < d → (∀ k v, m !! k = Some v → to_valid k = k ∧ exact (d - 1) v) → exact d (VMap m).
Proof. intros Hd Hm. constructor; [done|..]; intros k v Hk; by destruct (Hm k v Hk). Qed.

Lemma exact_submap d m m' : exact d (VMap m) → m' ⊆ m → exact d (VMap m').
Proof.
  intros [Hd Hm]%exact_map_inv Hsub. apply exact_map_intro; [done|].
  intros k v Hk. eapply Hm, lookup_weaken; done.
Qed.

Lemma exact_insert d m k v v' :
  exact d (VMap m) → m !! k = Some v' → exact (d - 1) v → exact d (VMap (<[k := v]> m)).
Proof.
  intros [Hd Hm]%exact_map_inv Hk Hv. apply exact_map_intro; [done|]. intros k1 v1.
  rewrite lookup_insert. case_decide as He; [|apply Hm]. intros [= <-]. subst k1.
  split; [by eapply Hm|done].
Qed.

Lemma delete_keys_subseteq ks (m : gmap string val) : delete_keys ks m ⊆ m.
Proof.
  apply map_subseteq_spec. intros k v. rewrite lookup_delete_keys. by case_decide.
Qed.

Lemma get_map_Some (m m' : gmap string val) k : get_map m k = Some m' ↔ m !! k = Some (VMap m').
Proof. unfold get_map. split; [|by intros ->]. destruct (m !! k) as [[]|]; naive_solver. Qed.

Lemma exact_strip_meta d m : exact d (VMap m) → exact d (VMap (strip_meta m)).
Proof.
  intros Hm. apply (exact_submap _ _ (delete_keys volatileMetadata m)) in Hm;
    [|apply delete_keys_subseteq].
  unfold strip_meta. cbv zeta. destruct (get_map _ _) as [anns|] eqn:Ha; [|done].
  apply get_map_Some in Ha. case_bool_decide; [by eapply exact_submap, delete_subseteq|].
  eapply exact_insert; [done..|]. apply exact_map_inv in Hm as [_ Hm]. apply Hm in Ha as [_ Ha].
  by eapply exact_submap, delete_subseteq.
Qed.

Lemma exact_stripVolatile d o : exact d (VMap o) → exact d (VMap (stripVolatile o)).
Proof.
  intros Ho. apply (exact_submap _ _ (delete "status" o)) in Ho; [|apply delete_subseteq].
  apply exact_map_inv in Ho as [Hd Ho]. apply exact_map_intro; [done|]. intros k v.
  unfold stripVolatile, update_map. rewrite lookup_alter. case_decide as He; [subst k|apply Ho].
  destruct (delete "status" o !! "metadata") as [v'|] eqn:Hk; [|done]. cbn. apply Ho in Hk as [Hv He']. intros [= <-].
  split; [done|]. destruct v'; try done. by apply exact_strip_meta.
Qed.

Section manifests.
Context `{GL : GroupLib} `{YL : YamlLib} {YW : YamlLaws} `{SS : SortSlice} {SL : SortSliceLaws}.

Lemma marshalled_not_blank o b : o ≠ ∅ → yaml_Marshal o = inr b → isBlankDoc (b +:+ newline) = false.
Proof using YW.
  intros Ho (line & Hin & Hne & Hp1 & Hp2)%yaml_Marshal_line; [|done].
  apply not_true_iff_false. unfold isBlankDoc. rewrite forallb_forall. intros Hall.
  specialize (Hall line). unfold newline in Hall.
  rewrite SplitByte_end, <- list_elem_of_In in Hall.
  specialize (Hall ltac:(apply elem_of_app; by left)). cbv zeta in Hall.
  by rewrite Hp1, Hp2, bool_decide_eq_false_2 in Hall.
Qed.

Lemma render_all_spec docs bs :
  render_all docs = inr bs → Forall2 (λ d b, yaml_Marshal (stripVolatile (sd_obj d)) = inr b) docs bs.
Proof using Type.
  revert bs. induction docs as [|d docs IH]; intros bs; cbn [render_all]; [by intros [= <-]|].
  destruct (yaml_Marshal _) eqn:Hm; [done|]. destruct (render_all docs); [done|]. intros [= <-].
  constructor; [done|by apply IH].
Qed.

(** The objects that the backup wrote, in the order of the sort *)
Lemma render_parsed found yaml target :
  render found = inr yaml →
  Forall (λ d, exact maxNestingDepth (VMap (sd_obj d)) ∧ parse_doc target (stripVolatile (sd_obj d)) ≠ None) found →
  ∃ docs, ParseAPIManifests yaml target = inr docs ∧
    Forall2 (λ d doc, parse_doc target (stripVolatile (sd_obj d)) = Some doc) (sort_Slice sdoc_less found) docs.
Proof using YW SL.
  intros Hr Hall. rewrite <- (sort_Slice_Permutation sdoc_less found) in Hall. unfold render in Hr.
  set (sorted := sort_Slice sdoc_less found) in *. clearbody sorted.
  destruct (render_all sorted) as [e|bs] eqn:Hbs; [done|]. apply render_all_spec in Hbs.
  assert (Hdocs : ∃ docs, Forall2 (λ d doc, parse_doc target (stripVolatile (sd_obj d)) = Some doc) sorted docs).
  { clear -Hall. induction Hall as [|d l [_ Hd] _ [docs IH]]; [by exists []|].
    destruct (parse_doc _ _) as [doc|] eqn:Hp; [|done]. exists (doc :: docs). by constructor. }
  destruct Hdocs as [docs Hdocs]. exists docs. split; [|done].
  destruct (decide (bs = [])) as [->|Hbs0].
  { injection Hr as <-. apply Forall2_nil_inv_r in Hbs. subst sorted. apply Forall2_nil_inv_l in Hdocs.
    subst docs. unfold ParseAPIManifests. by rewrite yaml_Documents_empty. }
  assert (yaml = Join bs doc_separator +:+ newline) as -> by (destruct bs; [done|by injection Hr]).
  unfold ParseAPIManifests.
  rewrite (yaml_Documents_joined (stripVolatile ∘ sd_obj <$> sorted)); [|by apply Forall2_fmap_l|done].
  clear Hr Hbs0. generalize 0%nat. revert bs docs Hbs Hdocs.
  induction Hall as [|d l [Hex _] _ IH]; intros bs docs Hbs Hdocs i.
  { apply Forall2_nil_inv_l in Hbs, Hdocs. by subst. }
  apply Forall2_cons_inv_l in Hbs as (b & bs' & Hb & Hbs & ->).
  apply Forall2_cons_inv_l in Hdocs as (doc & docs' & Hd & Hdocs & ->).
  cbn [fmap list_fmap parse_docs]. rewrite (marshalled_not_blank (stripVolatile (sd_obj d))); [|intros He|done].
  - rewrite (yaml_Unmarshal_back (stripVolatile (sd_obj d))) by (done || by apply exact_stripVolatile).
    by rewrite Hd, (IH bs' docs').
  - by rewrite He in Hd.
Qed.
End manifests.

(** ** What a restored document keeps *)

(** The spec of a restored Service: without its cluster addresses, its load-balancer
    address and its health-check port, each of its ports without its node port, and
    everything else as it was *)
Definition service_kept (spec restored : gmap string val) : Prop :=
  (∀ k, k ∈ ["clusterIP"; "clusterIPs"; "loadBalancerIP"; "healthCheckNodePort"] → restored !! k = None) ∧
  get_list restored "ports" =
    (λ p, match p with VMap m => VMap (delete "nodePort" m) | _ => p end) <$> get_list spec "ports" ∧
  (∀ k, k ∉ ["clusterIP"; "clusterIPs"; "loadBalancerIP"; "healthCheckNodePort"; "ports"] →
     restored !! k = spec !! k).

(** The restored document of an object: its kind and name; the target namespace, unless
    the kind is cluster-scoped; no status and none of the metadata that a server writes;
    every other field, label, annotation and reference, but for what binds a claim to
    its volume and a Service to its addresses and ports of the node. *)
Definition kept (target : string) (o : gmap string val) (d : ParsedDoc) : Prop :=
  d_Kind d = get_string o "kind" ∧ d_Name d = get_string (meta_of o) "name" ∧
  d_Namespace d =
    (if decide (target ≠ "" ∧ d_Kind d ∉ ["Namespace"; "CustomResourceDefinition"]) then target
     else get_string (meta_of o) "namespace") ∧
  d_Obj d !! "status" = None ∧
  (∀ k, k ∈ ["uid"; "resourceVersion"; "creationTimestamp"; "generation"; "managedFields"] →
     meta_of (d_Obj d) !! k = None) ∧
  (∀ k, k ∉ ["metadata"; "spec"; "status"] → d_Obj d !! k = o !! k) ∧
  (d_Kind d ∉ ["Service"; "PersistentVolumeClaim"] → d_Obj d !! "spec" = o !! "spec") ∧
  (d_Kind d = "PersistentVolumeClaim" → spec_of (d_Obj d) = delete "volumeName" (spec_of o)) ∧
  (d_Kind d = "Service" → service_kept (spec_of o) (spec_of (d_Obj d))) ∧
  (∀ k, k ∉ ["uid"; "resourceVersion"; "creationTimestamp"; "generation"; "managedFields";
             "namespace"; "annotations"] →
     meta_of (d_Obj d) !! k = meta_of o !! k) ∧
  annotations_of (d_Obj d) =
    (if decide (d_Kind d = "PersistentVolumeClaim")
     then delete_keys ["pv.kubernetes.io/bind-completed"; "pv.kubernetes.io/bound-by-controller";
                       "volume.kubernetes.io/selected-node"]
     else id)
      (delete "kubectl.kubernetes.io/last-applied-configuration" (annotations_of o)).

(** The rewrites of a restore *)
Lemma restorable_fields kind o :
  (∀ k, k ≠ "spec" → k ≠ "metadata" → restorable kind o !! k = o !! k) ∧
  (kind ∉ ["Service"; "PersistentVolumeClaim"] → restorable kind o = o) ∧
  (kind = "PersistentVolumeClaim" → spec_of (restorable kind o) = delete "volumeName" (spec_of o)) ∧
  (kind = "Service" → service_kept (spec_of o) (spec_of (restorable kind o))) ∧
  (∀ k, k ≠ "annotations" → meta_of (restorable kind o) !! k = meta_of o !! k) ∧
  annotations_of (restorable kind o) =
    (if decide (kind = "PersistentVolumeClaim") then delete_keys pvcBindAnnotations else id)
      (annotations_of o).
Proof.
  unfold restorable. case_bool_decide as Hs; [|case_bool_decide as Hp].
  - subst kind. destruct (stripServiceAllocations_spec o) as (Ha & Hp & Ho & Hk).
    assert (Hm : meta_of (stripServiceAllocations o) = meta_of o) by (unfold meta_of, get_map; by rewrite Hk).
    unfold annotations_of. rewrite Hm. split_and!; [intros; by apply Hk|set_solver|done| |done..].
    intros _. split_and!; [exact Ha|exact Hp|]. intros k Hn. apply Ho; [unfold serviceAllocations|]; set_solver.
  - destruct (stripPVCBinding_spec o) as (Hspec & Hann & _ & Hm & Hk). rewrite decide_True by done.
    split_and!; [done|set_solver|done|by rewrite Hp|done..].
  - rewrite decide_False by done. by split_and!.
Qed.

(** The namespace of a document, moved to the target *)
Definition moved (target : string) (o : gmap string val) : gmap string val :=
  if negb (bool_decide (target = "")) && negb (kind_in (get_string o "kind") clusterScopedKinds)
  then <["metadata" := VMap (<["namespace" := VStr target]> (meta_of o))]> o else o.

Lemma meta_of_insert m o : meta_of (<["metadata" := VMap m]> o) = m.
Proof. unfold meta_of, get_map. by rewrite lookup_insert_eq. Qed.

Lemma moved_fields target o :
  (∀ k, k ≠ "metadata" → moved target o !! k = o !! k) ∧
  (∀ k, k ≠ "namespace" → meta_of (moved target o) !! k = meta_of o !! k) ∧
  get_string (meta_of (moved target o)) "namespace" =
    (if decide (target ≠ "" ∧ get_string o "kind" ∉ clusterScopedKinds) then target
     else get_string (meta_of o) "namespace").
Proof.
  unfold moved, kind_in. destruct (negb _ && negb _) eqn:Hb.
  - apply andb_true_iff in Hb as [H1 H2]. rewrite negb_true_iff, bool_decide_eq_false in H1, H2.
    rewrite decide_True by done. rewrite meta_of_insert. split_and!; [intros; by rewrite lookup_insert_ne..|].
    by rewrite get_string_insert.
  - rewrite decide_False; [done|]. intros [H1 H2].
    rewrite !bool_decide_eq_false_2 in Hb by done. done.
Qed.

Lemma parse_doc_kept target o d : parse_doc target (stripVolatile o) = Some d → kept target o d.
Proof.
  destruct (stripVolatile_spec o) as (Hst & Hvol & Hann & Hmeta & Hk).
  destruct (moved_fields target (stripVolatile o)) as (Hmk & Hmm & Hmn).
  assert (Hkind : get_string (stripVolatile o) "kind" = get_string o "kind") by (unfold get_string; by rewrite Hk).
  assert (Hms : ∀ k, k ∉ volatileMetadata → k ≠ "annotations" →
    get_string (meta_of (stripVolatile o)) k = get_string (meta_of o) k)
    by (intros k H1 H2; unfold get_string; by rewrite Hmeta).
  unfold parse_doc. fold (meta_of (stripVolatile o)). fold (moved target (stripVolatile o)).
  rewrite !Hms, Hkind by (done || by apply (bool_decide_unpack _)).
  destruct (bool_decide _ || bool_decide _); [done|]. intros [= <-].
  unfold kept. cbn [d_Kind d_Name d_Namespace d_Obj]. set (kind := get_string o "kind") in *.
  destruct (restorable_fields kind (moved target (stripVolatile o))) as (R1 & R2 & R3 & R3' & R4 & R5).
  assert (Hspec : spec_of (moved target (stripVolatile o)) = spec_of o)
    by (unfold spec_of, get_map; by rewrite Hmk, Hk).
  assert (Hannm : annotations_of (moved target (stripVolatile o)) = annotations_of (stripVolatile o))
    by (unfold annotations_of, get_map; by rewrite Hmm).
  split_and!; try done.
  - fold (meta_of (restorable kind (moved target (stripVolatile o)))). rewrite restorable_meta, Hmn by done.
    rewrite Hkind, Hms by (done || by apply (bool_decide_unpack _)). done.
  - by rewrite R1, Hmk, Hst.
  - intros k Hin. rewrite R4, Hmm, (Hvol k Hin); [done|..]; intros ->; revert Hin; by apply (bool_decide_unpack _).
  - intros k Hin. rewrite R1, Hmk, Hk; [done|set_solver..].
  - intros Hin. rewrite R2 by done. by rewrite Hmk, Hk.
  - intros Hp. by rewrite R3, Hspec.
  - rewrite <- Hspec. exact R3'.
  - intros k Hin. rewrite R4, Hmm, Hmeta; [done|unfold volatileMetadata; set_solver|set_solver..].
  - by rewrite R5, Hannm, Hann.
Qed.

(** ** From the listing to the plan *)

(** The objects that a listing answered, but the operator's own *)
Definition listed_in (e : kevent) : list (gmap string val) :=
  match e with
  | existT c a => match c return resp c → list (gmap string val) with
                  | CListDynamic _ _ => λ r, match r with
                      | inr items =>
                          u_Object <$> filter (λ u, default "" (u_Labels u !! "pbs.sharifmind.ir/managed") = "") items
                      | inl _ => []
                      end
                  | _ => λ _, []
                  end a
  end.
Definition backed_up (tr : list kevent) : list (gmap string val) := tr ≫= listed_in.

(** What a restore lets through: no kind that is derived from others; a kind that the spec
    drops only when the spec keeps it *)
Definition let_through (drop keep : list string) (d : ParsedDoc) : Prop :=
  d_Kind d ∉ ["Pod"; "Endpoints"; "EndpointSlice"; "PodMetrics"; "ControllerRevision"] ∧
  (d_Kind d ∈ drop → d_Kind d ∈ keep).
#[export] Instance let_through_dec drop keep d : Decision (let_through drop keep d).
Proof. unfold let_through. apply _. Defined.

Lemma filter_let_through drop keep (docs : list ParsedDoc) :
  filter (let_through drop keep) docs = filter (restored drop keep) docs.
Proof. by apply list_filter_iff. Qed.

(** An object as the API server answers it has a kind and a name. *)
Definition named (o : gmap string val) : Prop :=
  get_string o "kind" ≠ "" ∧ get_string (meta_of o) "name" ≠ "".

Lemma named_parsed target o : named o → parse_doc target (stripVolatile o) ≠ None.
Proof.
  intros [Hk Hn]. destruct (stripVolatile_spec o) as (_ & _ & _ & Hmeta & Ho).
  unfold parse_doc. fold (meta_of (stripVolatile o)).
  assert (get_string (stripVolatile o) "kind" = get_string o "kind") as -> by (unfold get_string; by rewrite Ho).
  assert (get_string (meta_of (stripVolatile o)) "name" = get_string (meta_of o) "name") as ->
    by (unfold get_string; rewrite Hmeta; (done || by apply (bool_decide_unpack _))).
  rewrite !bool_decide_eq_false_2 by done. cbn [orb]. intros Hc. discriminate Hc.
Qed.

Section plan.
Context `{GL : GroupLib} `{YL : YamlLib} {YW : YamlLaws} `{SS : SortSlice} {SL : SortSliceLaws}.

Lemma backed_up_answers ns xs answers :
  length answers = length xs →
  backed_up (zip_with (list_event ns) xs answers) = sd_obj <$> mjoin (zip_with answer_docs xs answers).
Proof using Type.
  unfold backed_up. revert xs. induction answers as [|a answers IH]; intros [|x xs]; try done.
  intros [= Hl]. cbn [zip_with mbind list_bind mjoin list_join]. rewrite IH, fmap_app by done. f_equal.
  destruct a as [e|items]; [done|]. cbn. by rewrite <- list_fmap_compose.
Qed.

(** C13: The manifests of a backup are those of its restore: when the objects that the
    listings answered have a kind and a name and are values the codec keeps, the
    text of a successful serialization is parsed into exactly one document per
    object that is not the operator's own, each of which keeps what [kept] says;
    the four buckets together hold exactly the documents that the spec lets
    through, each once; and the claims to fill are those of the namespace. *)
Theorem manifests_restored ns tr yaml target drop keep :
  runs (SerializeNamespace ns) tr (inr yaml) →
  (∀ o, o ∈ backed_up tr → named o ∧ exact maxNestingDepth (VMap o)) →
  ∃ objs docs, objs ≡ₚ backed_up tr ∧
    ParseAPIManifests yaml target = inr docs ∧ Forall2 (kept target) objs docs ∧
    let b := BucketDocs docs drop keep in
    b_ns b ++ b_crds b ++ b_pre b ++ b_work b ≡ₚ plan <$> filter (let_through drop keep) docs ∧
    ∀ name, name ∈ PVCsFromDocs (b_pre b) ↔
      ("PersistentVolumeClaim" ∈ drop → "PersistentVolumeClaim" ∈ keep) ∧
      ∃ o, o ∈ backed_up tr ∧ get_string o "kind" = "PersistentVolumeClaim" ∧
           get_string (meta_of o) "name" = name.
Proof using YW SL.
  intros Hr Hobjs. apply serialized_listing in Hr as (lists & derr & answers & -> & Hlen & _ & _ & _ & Hr).
  change (backed_up (_ :: ?t)) with (backed_up t) in *. rewrite backed_up_answers in * by done.
  set (found := mjoin _) in *. clearbody found.
  destruct (render_parsed found yaml target Hr) as (docs & Hp & Hdocs).
  { apply Forall_forall. intros d Hd. destruct (Hobjs (sd_obj d)) as [Hn He]; [by apply list_elem_of_fmap_2|].
    split; [done|by apply named_parsed]. }
  exists (sd_obj <$> sort_Slice sdoc_less found), docs.
  assert (Hperm : sd_obj <$> sort_Slice sdoc_less found ≡ₚ sd_obj <$> found) by by rewrite sort_Slice_Permutation.
  assert (Hkept : Forall2 (kept target) (sd_obj <$> sort_Slice sdoc_less found) docs).
  { apply Forall2_fmap_l. eapply Forall2_impl; [exact Hdocs|]. intros d doc. apply parse_doc_kept. }
  split; [done|]. split; [done|]. split; [done|].
  split; [rewrite filter_let_through; apply BucketDocs_complete|].
  intros name. rewrite PVCsFromDocs_spec, list_elem_of_fmap. setoid_rewrite list_elem_of_filter.
  setoid_rewrite <- Hperm. clear -Hkept. split.
  - intros (d & -> & [[_ Hdk] Hk] & [i Hi]%list_elem_of_lookup). rewrite Hk in Hdk. split; [done|].
    destruct (Forall2_lookup_r _ _ _ _ _ Hkept Hi) as (o & Ho & Hko & Hno & _). exists o.
    split; [by eapply list_elem_of_lookup_2|]. by rewrite <- Hko.
  - intros (Hdk & o & [i Hi]%list_elem_of_lookup & Hk & <-).
    destruct (Forall2_lookup_l _ _ _ _ _ Hkept Hi) as (d & Hd & Hko & Hno & _). exists d.
    split; [done|]. split; [|by eapply list_elem_of_lookup_2]. unfold restored. rewrite Hko, Hk.
    split; [split; [by apply (bool_decide_unpack _)|done]|done].
Qed.
End plan.

(** ** A namespace with two objects, and the operator's own *)

Definition kept_configmap : gmap string val :=
  <["kind" := VStr "ConfigMap"]>
    (<["metadata" := VMap (<["name" := VStr "cm"]> (<["uid" := VStr "1"]> ∅))]>
      (<["data" := VMap (<["n" := VStr "10"]> ∅)]> ∅)).
Definition kept_claim : gmap string val :=
  <["kind" := VStr "PersistentVolumeClaim"]>
    (<["metadata" := VMap (<["name" := VStr "data-a"]> (<["generation" := VNum 2]> ∅))]>
      (<["spec" := VMap (<["volumeName" := VStr "pv-1"]> (<["accessModes" := VList [VStr "RWO"]]> ∅))]>
        (<["status" := VNull]> ∅))).

Definition namespace_handler (c : call) (s : unit) : resp c * unit :=
  match c return resp c * unit with
  | CServerResources =>
      ([mkAPIResourceList "v1"
          [mkAPIResource "persistentvolumeclaims" "PersistentVolumeClaim" true ["list"];
           mkAPIResource "configmaps" "ConfigMap" true ["list"]]], None, s)
  | CListDynamic gvr ns =>
      (inr (if decide (gvr.2 = "configmaps") then
              [mkUnstructured "cm" ∅ kept_configmap; mkUnstructured "own" {[ManagedLabel := "true"]} ∅]
            else [mkUnstructured "data-a" ∅ kept_claim]), s)
  | c => witness_handler c s
  end.

#[local] Instance namespace_GroupLib : GroupLib := {
  ParseGroupVersion s := inr ("", s);
  GroupKind_String g := g.2 }.
#[local] Existing Instance json_YamlLib.
Definition namespace_run := exec namespace_handler (SerializeNamespace "ns") tt.

Lemma exact_insert_any d m k v :
  to_valid k = k → exact (d - 1) v → exact d (VMap m) → exact d (VMap (<[k := v]> m)).
Proof.
  intros Hk Hv [Hd Hm]%exact_map_inv. apply exact_map_intro; [done|]. intros k1 v1.
  rewrite lookup_insert. case_decide; [intros [= <-]; by subst|apply Hm].
Qed.
Lemma exact_empty d : 0 < d → exact d (VMap ∅).
Proof. intros Hd. by apply exact_map_intro. Qed.

Lemma namespace_exact o : o ∈ [kept_claim; kept_configmap] → named o ∧ exact maxNestingDepth (VMap o).
Proof.
  intros [->|[->|[]%not_elem_of_nil]%elem_of_cons]%elem_of_cons; (split; [by split; vm_compute|]);
    unfold kept_claim, kept_configmap, maxNestingDepth;
    repeat (apply exact_insert_any || apply exact_empty || (apply exact_list; [|intros ? ->%list_elem_of_singleton])
      || apply exact_str || apply exact_num || apply exact_null || done || lia).
Qed.

Lemma manifests_restored_witness :
  ∃ yaml docs, namespace_run.1.2 = inr yaml ∧ ParseAPIManifests yaml "target" = inr docs ∧
    length docs = 2%nat ∧ "data-a" ∈ PVCsFromDocs (b_pre (BucketDocs docs ["Pod"] [])).
Proof.
  assert (Hy : ∃ yaml, namespace_run.1.2 = inr yaml) by (vm_compute; by eexists).
  destruct Hy as [yaml Hy].
  assert (Hb : backed_up namespace_run.1.1 = [kept_claim; kept_configmap]) by (by vm_compute).
  destruct (manifests_restored "ns" namespace_run.1.1 yaml "target" ["Pod"] [])
    as (objs & docs & Hp & Hparse & Hkept & _ & Hclaims).
  - rewrite <- Hy. apply exec_runs.
  - rewrite Hb. exact namespace_exact.
  - exists yaml, docs. split; [exact Hy|]. split; [exact Hparse|]. split.
    + rewrite <- (Forall2_length _ _ _ Hkept), Hp, Hb. done.
    + apply Hclaims. split; [by intros [=]%list_elem_of_singleton|]. exists kept_claim. rewrite Hb.
      split; [by left|]. by split; vm_compute.
Defined.

(** The claim has lost its volume, and the status is gone. *)
Example claim_unbound :
  match namespace_run.1.2 with
  | inl _ => False
  | inr yaml =>
      match ParseAPIManifests yaml "target" with
      | inl _ => False
      | inr docs =>
          (λ d, (d_Name d, d_Namespace d, d_Obj d !! "spec", d_Obj d !! "status")) <$> docs =
          [("cm", "target", None, None);
           ("data-a", "target", Some (VMap {["accessModes" := VList [VStr "RWO"]]}), None)]
      end
  end.
Proof. by vm_compute. Qed.
